(* ===== verification/_CoqProject ===== *)
-Q . S2P
Prelude.v
GoJson.v
Sha256.v
Bytes.v
Base64.v
Float64.v
Quote.v
Canonical.v
GoTime.v
Domain.v
Concrete.v
Schema.v
Reference.v
Store.v
Tx.v
Transact.v
Keys.v
Records.v
Schedule.v
Fence.v
MutationRead.v
Mutation.v
MutationSpec.v
NodeDelete.v
DeleteSpec.v
SubtreeSpec.v
Sequence.v
AuditEvent.v
External.v
RowHash.v
Ledger.v
LedgerSpec.v
ReadManifest.v
Verify.v
VerifySpec.v
Tamper.v
ManifestSpec.v
Merkle.v
Consumer.v
SearchAccess.v
SearchReaders.v
HierarchySpec.v
ReadersSpec.v
AccessSpec.v
SearchSession.v
SearchQuery.v
SessionSpec.v
QuerySpec.v
TransactSpec.v
SearchWorld.v
WorkQueue.v
WorkQueueSpec.v
ClaimSpec.v
ConsumerSpec.v
Scenario.v
Witness.v
AuditWitness.v
AccessWitness.v
SearchWitness.v
QueueWitness.v
AuditFindings.v
Findings.v
