(* ===== verification/Prelude.v ===== *)
(** * Tack: a verification library for the node platform

    Tack stores organizations' nodes (tasks, documents, directories and types
    an organization defines itself) in FoundationDB and keeps an audit ledger
    of every change in YugabyteDB.  This library models the code that decides
    what those stores hold, and proves what it keeps true.

    ** The parts and how they interact

    A service builds a plan for one node and runs it as one FoundationDB
    transaction (internal/adapters/foundationdb).  The transaction checks the
    plan against the stored records, the property schema and the parent
    hierarchy (internal/domain/node), writes the node with its indexes,
    references, relationships and search work, and appends one audit event
    for each changed record to an outbox in the same transaction.  A relay
    publishes the outbox to Kafka; the consumer (internal/audit) projects it
    into the hash-chained ledger.  A notarizer signs a Merkle root over the
    chain heads, and an exported selection of rows is verified offline.
    Operations on other systems save an intent, their steps and a result.

    Every transaction runs in a retry loop: an attempt may fail, conflict, or
    commit without saying so.  Search (internal/service, search_query*.go)
    asks an engine for ranked hits and keeps its place in a session of the
    same database.  The access policy (internal/searchaccess) compiles keys
    from the parent hierarchy, once for the index and once for the caller;
    the service compares them again on the stored summaries before it shows a
    result.  Background workers lease the search work that transactions
    schedule, one item at a time, and give it back, or schedule it again, in
    transactions that first verify the lease.

    ** The files

    Shared: [Prelude] (errors, the result monad, list lemmas), [GoJson] (JSON
    values and their text), [Float64], [Quote], [Canonical] (encoding/json:
    float64 numbers, string escapes, decoding into [any], canonical JSON),
    [GoTime] (package time), [Sha256], [Bytes] (digests as bytes), [Base64],
    [Domain] (the records of
    internal/domain/node, the interface [GoLib]), [Concrete] (an instance of
    [GoLib] for the witnesses).

    Nodes: [Schema] (property_schema.go, property_value.go,
    property_validate.go, property_result.go), [Reference]
    (reference_template*.go), [Store] and [Keys] (the key space and the
    records of each family), [Tx] (audit_changes.go: a transaction with its
    recorded changes), [Records] (node, index, reference and relationship
    records), [Schedule] (the search work queue as mutations write it),
    [Fence] (write fence, strict activation, repair checkpoints),
    [MutationRead] and [Mutation] (node_mutation_*.go: one attempt, whole),
    [NodeDelete] (node_delete*.go, relationship*.go), [Sequence] (counters,
    the outbox writer), [Transact] (node_transaction*.go,
    node_sequence_retry.go, search_revision.go, search_session_transaction.go:
    the retry loops).

    Search: [SearchAccess] (internal/searchaccess and
    domain/search/filter.go), [SearchReaders] (view.go, relationship_page.go,
    node_summary*.go: the readers the policies use), [SearchSession]
    (search_session*.go, search_replay.go), [SearchQuery]
    (service/search_query*.go over its ports), [SearchWorld] (the service on
    the session store, the retry loop and search_session_write_uncertain.go),
    [WorkQueue] (search_work*.go, search_exclusion.go,
    search_projection_activation.go, search_rescan_request.go: the claims of
    the background workers and the steps that end them).

    Audit: [AuditEvent] (the event and its contract), [External] (operations
    on other systems), [RowHash] (hash inputs and versions, consumer.go and
    canonical.go), [Ledger] (chain_head.go, chain_append.go, legacy_row.go and
    the personal data of a row), [ReadManifest] (read_manifest.go,
    export_manifest_parts.go), [Verify] (export_rowhash*.go,
    export_verify*.go), [Merkle] (notarizer_merkle.go), [Consumer]
    (consumer.go, consumer_parts.go, dlq*.go, consumer_token_use.go).

    Theorems are beside the definitions or in [MutationSpec], [DeleteSpec],
    [SubtreeSpec], [TransactSpec], [HierarchySpec], [ReadersSpec],
    [AccessSpec], [SessionSpec], [QuerySpec], [WorkQueueSpec], [ClaimSpec],
    [LedgerSpec], [VerifySpec], [Tamper], [ManifestSpec] and [ConsumerSpec];
    [Scenario], [Witness], [AccessWitness], [SearchWitness], [QueueWitness]
    and [AuditWitness] apply them to concrete runs; [Findings] and [AuditFindings] hold runs in which the code
    does not do what a reader expects of it.

    ** State and operations

    A FoundationDB transaction is a state passing function over [txst]: the
    key-value map with its pending writes and the changes recorded so far
    ([tx A = txst -> res (txst * A)]).  A key is the tuple the code packs and a
    value the record it encodes.  An operation is one attempt; an attempt that
    fails leaves the store as it was, because FoundationDB drops it.  The
    ledger tables are the record [ledger], the tables of the consumer
    [consumerDB]; their transactions are state passing in the same way, and a
    savepoint is the state kept by the caller.  Writers of the ledger
    interleave in the step relation [ledger_step]: a transaction reads a chain
    head in one step and commits against whatever others committed in
    between.  The workers of the search queue interleave in [queue_run], a
    sequence of whole transactions.  A Go error is the sentinel that [errors.Is] finds in it.

    A call of a retry loop takes a [script]: for each attempt what the
    database and the context answer and what other clients did before it, and
    how the context ends.  The theorems quantify over every script.  A policy
    reads through [rd W], a reader over a world that may change with each
    read; the service runs in [svc W] over the class [SearchQueryPorts], whose
    session operations [SearchWorld] implements and for which it proves the
    laws [SessionLaws] that the theorems of [QuerySpec] assume.

    ** What the theorems show

    - Nodes: a successful mutation keeps every invariant of the store and the
      parent forest, stores exactly its plan, names each changed record in the
      audit, is well formed under strict validation, and is idempotent;
      deletion leaves nothing of the node behind and no orphan; a subtree
      delete advances its job; search scheduling refines its plan table;
      counters never repeat; references and schema checks meet their
      specifications.
    - Retries: whatever the attempts report, a mutation with an idempotency
      key takes effect at most once and its answer is that of the attempt
      that did; a page commit takes effect at most once, and a failure not
      marked uncertain had no effect.
    - Access: the walk over many nodes refines the entry point relation and
      ends; the index holds exactly the keys of a node's entry point; a
      summary is permitted exactly to callers admitted to that entry point,
      unless listed SHA-256 messages collide.
    - Sessions: every reachable store lists its sessions under their expiry,
      index and version keys; an access version without listed sessions has
      no reader; a created session loads back; cleanup ends and leaves
      nothing.
    - Search: the pages of one search are the visible hits in rank order,
      each once; following them ends; a repeated request returns the
      committed page; on the stored sessions and the stored hierarchy a
      search shows only nodes below the entry point of the caller.
    - Work queue: in any run of schedules, claims and worker steps the age
      index lists exactly the pending items at their current generation; a
      lease keeps its item from everybody else until it ends; a new schedule
      fences every earlier claim; a failed item waits out its retry delay; a
      claim takes the oldest free item of a bucket of at most 32 items and
      tries every pending bucket.
    - Events: protected values match the references of the delta one to one;
      an external operation runs only after its intent is saved, every event
      it saves is valid, and the saved outcome agrees with its steps.
    - Ledger: under any interleaving the chains are linked and gap free and an
      event has at most one row; a pending commit is refused, conflicts or
      appends exactly as its head says; a committed batch of the consumer
      accounts for every record.
    - Verification: every selection of honest rows passes, and a notarized
      root fixes the rows of the ledger unless SHA-256 messages listed in the
      statement collide.  Read manifests round trip.
    - Findings: a parent cycle closed by a subtree delete, index entries and
      reference claims left behind, a record that stalls its partition, an
      edit of a large number that verifies, a target the manifest validator
      refuses.

    ** Parameters, bounds and fuel

    [GoLib] is the part of the Go libraries the code relies on (UUID text,
    URL and time parsing, name-based UUIDs) with the laws used; [FloatFormat]
    is the decimal text strconv prints for a float64, with the law that it
    parses back.  JSON decoding of a Kafka record, of a signature and of an
    export file, and the clock and fresh identifiers, are arguments.  Walks
    over the parent chain take as fuel one more than the number of records
    read for the plan; [parent_walks_terminate] proves that enough.  The Merkle rounds take
    the number of leaves.  [EntryPoints] takes one level more than the nodes
    of the hierarchy ([EntryPoints_terminates]); the paged child_of read takes
    one page more than the edges; a page of search reads at most MaxBatches
    batches, which is the bound of the code; a script of attempts ends with
    the end of its context.  [KeyText] is the text of a packed key in a cursor
    with the law that it reads back.  [SearchElsewhere] holds what the search
    service calls outside the session store: the engine, admission slots, the
    random source and the audit outbox.  A claim reads the clock through a
    function of the reading's number, so nothing is assumed of its progress.
    Widths are kept where they matter: counters are
    int64 with the overflow check, sequence numbers and shards are written to
    their columns as two's complement, versions of an outbox entry are 16 bit.

    ** Not modelled

    Timers, deadlines and the lock stripes of the counters; logging and
    telemetry; SQL text and drivers, beyond the effect of each statement on
    its tables; the metadata stores, list queries, view pages and content
    reads; the registration and completion of pages by search workers, the
    steps of rescans, index rebuilds and access rollouts; the OpenSearch
    client; the text of the change events of a
    session; the services and handlers that build plans; the audit relay,
    readers, partitions and exports apart from verification; the assembly of
    multi-part events into rows; authentication; operator commands,
    configuration, test environments and generated code.  These are I/O and
    wiring around the modelled parts, or background work whose effect on the
    modelled records is a transaction of the kinds modelled here. *)

From stdpp Require Export prelude gmap strings list sorting.
From Stdlib Require Import Ascii.
#[export] Set Warnings "-register-all,-clear-no-such-hyp".

(** ** Errors

    A Go function that returns [error] is a function into [res].  An error is
    the sentinel it wraps, which is what [errors.Is] observes; message text is
    not part of the model.  [OutOfFuel] is no Go error: it marks a loop whose
    fuel is spent, and the theorems on such a loop rule it out. *)

Inductive sentinel :=
  | ErrNotFound
  | ErrAlreadyExists
  | ErrConflict
  | ErrPermissionDenied
  | ErrInvalidArgument
  | ErrFailedPrecondition
  | ErrUnauthenticated
  | ErrStorageTimeout
  | ErrSchemaRead
  | ErrNoHierarchyParent
  | ErrReservedParentRelation
  | ErrContentChanged
  | ErrStrictEvidenceChanged
  | ErrInvalidSearchProjection
  | ErrMissingMutationContext
  | ErrDecode
  | ErrEncode
  | ErrMalformedPayload
  | ErrAlreadyProjected
  | ErrChainConflict
  | ErrEventNotRecorded
  | ErrExternalIntentNotSaved
  | ErrRowRefused
  | ErrAccessDenied
  | ErrHierarchyDefect
  | ErrInvalidAccessFilter
  | ErrWorkChanged
  | ErrNoServingIndex
  | ErrInvalidSearchWork
  | ErrSnapshotLost
  | ErrSnapshotPartial
  | ErrSnapshotUncertain
  | ErrInvalidQuery
  | ErrEngineUnavailable
  | ErrSessionChanged
  | ErrSessionExpired
  | ErrSessionNotFound
  | ErrSessionMismatch
  | ErrSessionStepNotStarted
  | ErrRetireAttemptFenced
  | ErrRetireRebuildEnded
  | OutOfFuel
  | ErrOther.

#[export] Instance sentinel_eq_dec : EqDecision sentinel.
Proof. solve_decision. Defined.

Inductive res (A : Type) :=
  | Ok (a : A)
  | Err (e : sentinel).
Arguments Ok {A} _.
Arguments Err {A} _.

#[export] Instance res_ret : MRet res := fun A a => Ok a.
#[export] Instance res_bind : MBind res := fun A B f m =>
  match m with Ok a => f a | Err e => Err e end.

(** [is_ok r] holds when the Go function returned a nil error. *)
Definition is_ok {A} (r : res A) : bool :=
  match r with Ok _ => true | Err _ => false end.

(** [guard b e] is the Go idiom [if !b { return e }]. *)
Definition require (b : bool) (e : sentinel) : res unit :=
  if b then Ok tt else Err e.

Fixpoint res_foldl {A B} (f : A -> B -> res A) (a : A) (l : list B) : res A :=
  match l with
  | [] => Ok a
  | b :: l => match f a b with Ok a' => res_foldl f a' l | Err e => Err e end
  end.

Fixpoint res_mapM {A B} (f : A -> res B) (l : list A) : res (list B) :=
  match l with
  | [] => Ok []
  | a :: l =>
      match f a with
      | Ok b => match res_mapM f l with Ok bs => Ok (b :: bs) | Err e => Err e end
      | Err e => Err e
      end
  end.

(** ** Lists *)

Lemma StronglySorted_filter {A} (R : A -> A -> Prop) (P : A -> Prop) `{!forall x, Decision (P x)} (l : list A) :
  StronglySorted R l -> StronglySorted R (filter P l).
Proof.
  induction 1 as [|x l Hl IH Hx]; [constructor|]. rewrite filter_cons.
  case_decide; [|done]. constructor; [done|]. rewrite Forall_forall in *. intros y [_ Hy]%list_elem_of_filter. auto.
Qed.

(** ** Acyclic relations *)

Definition acyclic {A} (R : relation A) : Prop := forall a, ~ tc R a a.

(** Redirecting the out-edges of [n] to [p] keeps a relation acyclic when [n]
    is not reachable from [p]. *)
Lemma acyclic_redirect {A} (R R' : relation A) (n p : A) :
  (forall a b, R' a b -> R a b \/ (a = n /\ b = p)) ->
  acyclic R -> ~ rtc R p n -> acyclic R'.
Proof.
  intros Hsub HR Hp.
  assert (forall a b, tc R' a b -> tc R a b \/ (rtc R a n /\ rtc R p b)) as Hpath.
  { intros a b. induction 1 as [a b Hab|a x b Hax _ IH].
    - destruct (Hsub _ _ Hab) as [?|[-> ->]]; [left; by constructor|right; split; reflexivity].
    - destruct (Hsub _ _ Hax) as [Hr|[-> ->]], IH as [IH|[IH1 IH2]].
      + left. by eapply tc_l.
      + right. split; [by eapply rtc_l|done].
      + right. split; [reflexivity|by apply tc_rtc].
      + by destruct Hp. }
  intros a [Ha|[Han Hpa]]%Hpath; [by eapply HR|]. apply Hp. by etrans.
Qed.

Lemma acyclic_subrel {A} (R R' : relation A) : (forall a b, R' a b -> R a b) -> acyclic R -> acyclic R'.
Proof.
  intros Hsub HR a Ha. apply (HR a). revert Ha. generalize a at 1 3. intros b.
  induction 1; [constructor; auto|eapply tc_l; eauto].
Qed.

Lemma res_mapM_ok {A B} (f : A -> res B) l bs :
  res_mapM f l = Ok bs <-> Forall2 (fun a b => f a = Ok b) l bs.
Proof.
  revert bs. induction l as [|a l IH]; intros bs; simpl.
  - split; [by intros [= <-]|]. by intros ->%Forall2_nil_inv_l.
  - split.
    + destruct (f a) as [b|] eqn:E; [|done]. destruct (res_mapM f l) as [bs'|]; [|done].
      intros [= <-]. constructor; [done|]. by apply IH.
    + intros (b & bs' & -> & Hbs & ->)%Forall2_cons_inv_l. apply IH in Hbs as ->. done.
Qed.

(** ** Strings

    [String.append] does not unfold under [simpl]; [str_simpl] computes it on
    a visible head. *)

Lemma append_nil_l (s : string) : EmptyString +:+ s = s.
Proof. done. Qed.

Lemma append_cons c (a b : string) : String c a +:+ b = String c (a +:+ b).
Proof. done. Qed.

Ltac str_simpl := repeat progress (simpl; rewrite ?append_nil_l, ?append_cons).

Lemma string_app_assoc (a b c : string) : (a +:+ b) +:+ c = a +:+ b +:+ c.
Proof. induction a as [|x a IH]; str_simpl; [done|]. by rewrite IH. Qed.

Lemma string_app_nil_r (a : string) : a +:+ EmptyString = a.
Proof. induction a as [|x a IH]; str_simpl; [done|]. by rewrite IH. Qed.

Lemma string_length_app (a b : string) : String.length (a +:+ b) = String.length a + String.length b.
Proof. induction a as [|x a IH]; str_simpl; [done|]. by rewrite IH. Qed.

Lemma string_app_inj_r (a b c : string) : a +:+ c = b +:+ c -> a = b.
Proof.
  revert b. induction a as [|x a IH]; intros [|y b] E; [done|..].
  - apply (f_equal String.length) in E. rewrite !string_length_app in E. simpl in E. lia.
  - apply (f_equal String.length) in E. rewrite !string_length_app in E. simpl in E. lia.
  - rewrite !append_cons in E. injection E as -> E. f_equal. auto.
Qed.
