(* ===== verification/GoJson.v ===== *)
(** * The subset of Go's encoding/json that the repository relies on

    A [json.RawMessage] is a byte string.  [json_parse] is the decoder's
    grammar (whitespace, literals, numbers, strings with escapes and UTF-8
    coercion, arrays, objects, the nesting limit of 10000), and the
    [unmarshal_*] functions are [json.Unmarshal] into a fresh variable of one
    static type, with JSON [null] leaving the zero value.  [json_compact] is
    what [json.Marshal] writes for an embedded [RawMessage]: whitespace removed
    and [<], [>], [&], U+2028 and U+2029 escaped. *)

From S2P Require Import Prelude.
From Stdlib Require Import Ascii.

Abbreviation raw := string (only parsing).

(** ** Characters *)

Definition code (c : ascii) : N := N_of_ascii c.
Definition chr (n : N) : ascii := ascii_of_N n.
Definition in_range (lo hi : N) (c : ascii) : bool := (lo <=? code c)%N && (code c <=? hi)%N.
Definition dquote : ascii := "034"%char.
Definition is_digit (c : ascii) : bool := in_range 48 57 c.
Definition is_space (c : ascii) : bool :=
  Ascii.eqb c " " || Ascii.eqb c "009" || Ascii.eqb c "010" || Ascii.eqb c "013".

Fixpoint skip_ws (s : string) : string :=
  match s with
  | String c s' => if is_space c then skip_ws s' else s
  | EmptyString => s
  end.

(** ** UTF-8 *)

(** The bytes of a rune, as [utf8.EncodeRune] writes them. *)
Definition utf8_encode (r : N) : string :=
  if (r <? 128)%N then String (chr r) ""
  else if (r <? 2048)%N then
    String (chr (192 + r / 64)) (String (chr (128 + r mod 64)) "")
  else if (r <? 65536)%N then
    String (chr (224 + r / 4096))
      (String (chr (128 + (r / 64) mod 64)) (String (chr (128 + r mod 64)) ""))
  else
    String (chr (240 + r / 262144))
      (String (chr (128 + (r / 4096) mod 64))
         (String (chr (128 + (r / 64) mod 64)) (String (chr (128 + r mod 64)) ""))).

Definition replacement : string := utf8_encode 65533.
Definition is_cont (c : ascii) : bool := in_range 128 191 c.

(** [utf8_width s] is the width of the valid multi-byte rune at the head of
    [s], or [1] where [utf8.DecodeRune] reports [RuneError]. *)
Definition utf8_second_ok (c1 c2 : ascii) : bool :=
  if (code c1 =? 224)%N then in_range 160 191 c2
  else if (code c1 =? 237)%N then in_range 128 159 c2
  else if (code c1 =? 240)%N then in_range 144 191 c2
  else if (code c1 =? 244)%N then in_range 128 143 c2
  else is_cont c2.

(** ** Strings *)

Definition hexval (c : ascii) : option N :=
  if is_digit c then Some (code c - 48)%N
  else if in_range 97 102 c then Some (code c - 87)%N
  else if in_range 65 70 c then Some (code c - 55)%N
  else None.

Definition rune4 (a b c d : ascii) : option N :=
  match hexval a, hexval b, hexval c, hexval d with
  | Some a, Some b, Some c, Some d => Some (a * 4096 + b * 256 + c * 16 + d)%N
  | _, _, _, _ => None
  end.

Definition is_high (r : N) : bool := (55296 <=? r)%N && (r <? 56320)%N.
Definition is_low (r : N) : bool := (56320 <=? r)%N && (r <? 57344)%N.

Definition simple_escape (c : ascii) : option ascii :=
  if Ascii.eqb c dquote then Some dquote
  else if Ascii.eqb c "\" then Some "\"%char
  else if Ascii.eqb c "/" then Some "/"%char
  else if Ascii.eqb c "b" then Some "008"%char
  else if Ascii.eqb c "f" then Some "012"%char
  else if Ascii.eqb c "n" then Some "010"%char
  else if Ascii.eqb c "r" then Some "013"%char
  else if Ascii.eqb c "t" then Some "009"%char
  else None.

(** The low half of a surrogate pair written as [\uXXXX]. *)
Definition low_surrogate (b1 b2 l1 l2 l3 l4 : ascii) : option N :=
  if Ascii.eqb b1 "\" && Ascii.eqb b2 "u" then
    match rune4 l1 l2 l3 l4 with
    | Some r => if is_low r then Some r else None
    | None => None
    end
  else None.

Definition combine_surrogates (hi lo : N) : N := ((hi - 55296) * 1024 + (lo - 56320) + 65536)%N.

Definition prepend (chunk : string) (r : option (string * string)) : option (string * string) :=
  match r with Some (t, rest) => Some (String.append chunk t, rest) | None => None end.

(** [unquote s] decodes a string literal whose opening quote was read, and
    returns the decoded text and the input after the closing quote. *)
Fixpoint unquote (s : string) : option (string * string) :=
  match s with
  | EmptyString => None
  | String c s1 =>
      if Ascii.eqb c dquote then Some (EmptyString, s1)
      else if Ascii.eqb c "\" then
        match s1 with
        | String e s2 =>
            if Ascii.eqb e "u" then
              match s2 with
              | String h1 (String h2 (String h3 (String h4 s3))) =>
                  match rune4 h1 h2 h3 h4 with
                  | None => None
                  | Some r =>
                      if is_high r then
                        match s3 with
                        | String b1 (String b2 (String l1 (String l2 (String l3 (String l4 s4))))) =>
                            match low_surrogate b1 b2 l1 l2 l3 l4 with
                            | Some r2 => prepend (utf8_encode (combine_surrogates r r2)) (unquote s4)
                            | None => prepend replacement (unquote s3)
                            end
                        | _ => prepend replacement (unquote s3)
                        end
                      else if is_low r then prepend replacement (unquote s3)
                      else prepend (utf8_encode r) (unquote s3)
                  end
              | _ => None
              end
            else
              match simple_escape e with
              | Some d => prepend (String d EmptyString) (unquote s2)
              | None => None
              end
        | EmptyString => None
        end
      else if (code c <? 32)%N then None
      else if (code c <? 128)%N then prepend (String c EmptyString) (unquote s1)
      else if in_range 194 223 c then
        match s1 with
        | String c2 s2 =>
            if is_cont c2 then prepend (String c (String c2 EmptyString)) (unquote s2)
            else prepend replacement (unquote s1)
        | EmptyString => None
        end
      else if in_range 224 239 c then
        match s1 with
        | String c2 (String c3 s3) =>
            if utf8_second_ok c c2 && is_cont c3
            then prepend (String c (String c2 (String c3 EmptyString))) (unquote s3)
            else prepend replacement (unquote s1)
        | _ => prepend replacement (unquote s1)
        end
      else if in_range 240 244 c then
        match s1 with
        | String c2 (String c3 (String c4 s4)) =>
            if utf8_second_ok c c2 && is_cont c3 && is_cont c4
            then prepend (String c (String c2 (String c3 (String c4 EmptyString)))) (unquote s4)
            else prepend replacement (unquote s1)
        | _ => prepend replacement (unquote s1)
        end
      else prepend replacement (unquote s1)
  end.

(** ** Numbers *)

Fixpoint span_digits (s : string) : string * string :=
  match s with
  | String c s' =>
      if is_digit c then let '(d, r) := span_digits s' in (String c d, r) else (EmptyString, s)
  | EmptyString => (EmptyString, EmptyString)
  end.

Definition lex_exponent (s : string) : option (string * string) :=
  match s with
  | String e s1 =>
      if Ascii.eqb e "e" || Ascii.eqb e "E" then
        let '(sign, s2) :=
          match s1 with
          | String c s2 =>
              if Ascii.eqb c "+" || Ascii.eqb c "-" then (String c EmptyString, s2) else (EmptyString, s1)
          | EmptyString => (EmptyString, s1)
          end in
        match span_digits s2 with
        | (EmptyString, _) => None
        | (d, r) => Some (String e (String.append sign d), r)
        end
      else Some (EmptyString, s)
  | EmptyString => Some (EmptyString, s)
  end.

Definition lex_fraction (s : string) : option (string * string) :=
  match s with
  | String c s1 =>
      if Ascii.eqb c "." then
        match span_digits s1 with
        | (EmptyString, _) => None
        | (d, r) => Some (String c d, r)
        end
      else Some (EmptyString, s)
  | EmptyString => Some (EmptyString, s)
  end.

Definition lex_int (s : string) : option (string * string) :=
  match s with
  | String c s1 =>
      if Ascii.eqb c "0" then Some (String c EmptyString, s1)
      else if is_digit c then let '(d, r) := span_digits s1 in Some (String c d, r)
      else None
  | EmptyString => None
  end.

Definition lex_sign (s : string) : string * string :=
  match s with
  | String c s1 => if Ascii.eqb c "-" then (String c EmptyString, s1) else (EmptyString, s)
  | EmptyString => (EmptyString, s)
  end.

(** [lex_number s] is the longest JSON number at the head of [s]. *)
Definition lex_number (s : string) : option (string * string) :=
  let '(sign, s0) := lex_sign s in
  match lex_int s0 with
  | None => None
  | Some (i, s1) =>
      match lex_fraction s1 with
      | None => None
      | Some (f, s2) =>
          match lex_exponent s2 with
          | None => None
          | Some (e, s3) =>
              Some (String.append sign (String.append i (String.append f e)), s3)
          end
      end
  end.

(** ** Values *)

Inductive json :=
  | JNull
  | JBool (b : bool)
  | JNum (lexeme : string)
  | JStr (text : string)
  | JArr (items : list json)
  | JObj (fields : list (string * json)).

Definition max_nesting_depth : N := 10000.

Fixpoint strip_literal (lit s : string) : option string :=
  match lit, s with
  | EmptyString, _ => Some s
  | String a lit', String b s' => if Ascii.eqb a b then strip_literal lit' s' else None
  | _, EmptyString => None
  end.

(** [expect c s] reads the punctuation [c] after optional whitespace. *)
Definition expect (c : ascii) (s : string) : option string :=
  match skip_ws s with
  | String c' r => if Ascii.eqb c' c then Some r else None
  | EmptyString => None
  end.

(** An object key with the colon after it. *)
Definition member_key (s : string) : option (string * string) :=
  match expect dquote s with
  | None => None
  | Some s1 =>
      match unquote s1 with
      | None => None
      | Some (k, r) => match expect ":" r with Some r1 => Some (k, r1) | None => None end
      end
  end.

Fixpoint parse_value (fuel : nat) (depth : N) (s : string) {struct fuel} : option (json * string) :=
  match fuel with
  | O => None
  | S fuel' =>
      match skip_ws s with
      | EmptyString => None
      | String c s1 =>
          if Ascii.eqb c dquote then
            match unquote s1 with Some (t, r) => Some (JStr t, r) | None => None end
          else if Ascii.eqb c "{" then
            if (max_nesting_depth <? depth + 1)%N then None else
            match expect "}" s1 with
            | Some r => Some (JObj [], r)
            | None =>
                match parse_members fuel' (depth + 1) s1 with
                | Some (fs, r) => Some (JObj fs, r)
                | None => None
                end
            end
          else if Ascii.eqb c "[" then
            if (max_nesting_depth <? depth + 1)%N then None else
            match expect "]" s1 with
            | Some r => Some (JArr [], r)
            | None =>
                match parse_elems fuel' (depth + 1) s1 with
                | Some (xs, r) => Some (JArr xs, r)
                | None => None
                end
            end
          else if Ascii.eqb c "t" then
            match strip_literal "rue" s1 with Some r => Some (JBool true, r) | None => None end
          else if Ascii.eqb c "f" then
            match strip_literal "alse" s1 with Some r => Some (JBool false, r) | None => None end
          else if Ascii.eqb c "n" then
            match strip_literal "ull" s1 with Some r => Some (JNull, r) | None => None end
          else
            match lex_number (String c s1) with
            | Some (l, r) => Some (JNum l, r)
            | None => None
            end
      end
  end
with parse_elems (fuel : nat) (depth : N) (s : string) {struct fuel} : option (list json * string) :=
  match fuel with
  | O => None
  | S fuel' =>
      match parse_value fuel' depth s with
      | None => None
      | Some (x, r) =>
          match expect "]" r, expect "," r with
          | Some r', _ => Some ([x], r')
          | None, Some r' =>
              match parse_elems fuel' depth r' with
              | Some (xs, r'') => Some (x :: xs, r'')
              | None => None
              end
          | None, None => None
          end
      end
  end
with parse_members (fuel : nat) (depth : N) (s : string) {struct fuel} : option (list (string * json) * string) :=
  match fuel with
  | O => None
  | S fuel' =>
      match member_key s with
      | None => None
      | Some (k, r1) =>
          match parse_value fuel' depth r1 with
          | None => None
          | Some (v, r2) =>
              match expect "}" r2, expect "," r2 with
              | Some r3, _ => Some ([(k, v)], r3)
              | None, Some r3 =>
                  match parse_members fuel' depth r3 with
                  | Some (fs, r4) => Some ((k, v) :: fs, r4)
                  | None => None
                  end
              | None, None => None
              end
          end
      end
  end.

(** Every recursive call consumes at least half a character of fuel: a value
    or a separator is read between two calls of the same routine. *)
Definition json_fuel (s : string) : nat := 2 * String.length s + 2.

Definition json_parse (s : raw) : option json :=
  match parse_value (json_fuel s) 0 s with
  | Some (v, r) => match skip_ws r with EmptyString => Some v | _ => None end
  | None => None
  end.

(** ** json.Valid and json.Unmarshal *)

Definition json_valid (s : raw) : bool := match json_parse s with Some _ => true | None => false end.

Definition as_string (v : json) : option string :=
  match v with JStr t => Some t | JNull => Some EmptyString | _ => None end.

Definition unmarshal_string (s : raw) : option string := json_parse s ≫= as_string.

Definition unmarshal_bool (s : raw) : option bool :=
  match json_parse s with Some (JBool b) => Some b | Some JNull => Some false | _ => None end.

(** [[]string]: a null array is nil, a null element is the empty string. *)
Definition unmarshal_strings (s : raw) : option (list string) :=
  match json_parse s with
  | Some (JArr xs) => mapM as_string xs
  | Some JNull => Some []
  | _ => None
  end.

(** [json.Number]: a number keeps its digits. *)
Definition unmarshal_number (s : raw) : option string :=
  match json_parse s with
  | Some (JNum l) => Some l
  | Some JNull => Some EmptyString
  | Some (JStr t) => match lex_number t with Some (l, EmptyString) => Some l | _ => None end
  | _ => None
  end.

(** [float64]: strconv.ParseFloat refuses a number that rounds past the
    largest finite double, that is from [2^1024 - 2^970] on. *)
Fixpoint digits_value (acc : Z) (s : string) : Z :=
  match s with
  | String c s' => digits_value (acc * 10 + Z.of_N (code c - 48)) s'
  | EmptyString => acc
  end.

Definition exponent_value (s : string) : Z :=
  match s with
  | String _ (String "-" d) => - digits_value 0 d
  | String _ (String "+" d) => digits_value 0 d
  | String _ d => digits_value 0 d
  | EmptyString => 0
  end.

Definition float64_in_range (lexeme : string) : bool :=
  let s := match lexeme with String "-" s => s | s => s end in
  let '(i, s1) := span_digits s in
  let '(f, s2) := match s1 with String "." s2 => span_digits s2 | _ => (EmptyString, s1) end in
  let mantissa := digits_value (digits_value 0 i) f in
  let e10 := (exponent_value s2 - Z.of_nat (String.length f))%Z in
  let limit := (2 ^ 1024 - 2 ^ 970)%Z in
  if (mantissa =? 0)%Z then true
  else if (0 <=? e10)%Z then (mantissa * 10 ^ e10 <? limit)%Z
  else (mantissa <? limit * 10 ^ (- e10))%Z.

Definition unmarshal_float64_ok (s : raw) : bool :=
  match json_parse s with
  | Some (JNum l) => float64_in_range l
  | Some JNull => true
  | _ => false
  end.

(** ** json.Marshal of an embedded RawMessage *)

Definition html_escape (c : ascii) : option string :=
  if Ascii.eqb c "<" then Some "\u003c"
  else if Ascii.eqb c ">" then Some "\u003e"
  else if Ascii.eqb c "&" then Some "\u0026"
  else None.

(** [compact_in esc s] copies the inside of a string literal, [compact_out]
    the text outside of one. *)
Fixpoint compact_go (instr esc : bool) (s : string) : string :=
  match s with
  | EmptyString => EmptyString
  | String c s1 =>
      match html_escape c with
      | Some e => String.append e (compact_go instr false s1)
      | None =>
          if instr then
            if esc then String c (compact_go true false s1)
            else if Ascii.eqb c "\" then String c (compact_go true true s1)
            else if Ascii.eqb c dquote then String c (compact_go false false s1)
            else
              match s1 with
              | String c2 (String c3 s3) =>
                  if (code c =? 226)%N && (code c2 =? 128)%N && (code c3 =? 168)%N
                  then String.append "\u2028" (compact_go true false s3)
                  else if (code c =? 226)%N && (code c2 =? 128)%N && (code c3 =? 169)%N
                  then String.append "\u2029" (compact_go true false s3)
                  else String c (compact_go true false s1)
              | _ => String c (compact_go true false s1)
              end
          else if Ascii.eqb c dquote then String c (compact_go true false s1)
          else if is_space c then compact_go false false s1
          else String c (compact_go false false s1)
      end
  end.

Definition json_compact (s : raw) : option raw :=
  if json_valid s then Some (compact_go false false s) else None.

(** [strconv.Quote] and [json.Marshal] of a text whose bytes are all printable
    ASCII other than the quote, the backslash and the HTML characters. *)
Definition plain_char (c : ascii) : bool :=
  in_range 32 126 c && negb (Ascii.eqb c dquote) && negb (Ascii.eqb c "\") &&
  match html_escape c with None => true | Some _ => false end.

Fixpoint plain (s : string) : bool :=
  match s with String c s' => plain_char c && plain s' | EmptyString => true end.

Definition quote_plain (s : string) : raw :=
  String dquote (String.append s (String dquote EmptyString)).

(** ** Facts *)

Lemma plain_char_spec c :
  plain_char c = true ->
  Ascii.eqb c dquote = false /\ Ascii.eqb c "\" = false /\ html_escape c = None /\
  (code c <? 32)%N = false /\ (code c <? 128)%N = true /\ (code c =? 226)%N = false.
Proof.
  unfold plain_char, in_range. intros H.
  destruct (html_escape c) eqn:Hh; [rewrite andb_false_r in H; done|].
  apply andb_prop in H as [H _].
  apply andb_prop in H as [H H2]. apply andb_prop in H as [H H1].
  apply andb_prop in H as [H3 H4].
  apply negb_true_iff in H1, H2. apply N.leb_le in H3, H4.
  repeat split; auto.
  - apply N.ltb_ge; lia.
  - apply N.ltb_lt; lia.
  - apply N.eqb_neq; lia.
Qed.

Lemma unquote_plain s rest :
  plain s = true -> unquote (String.append s (String dquote rest)) = Some (s, rest).
Proof.
  induction s as [|c s IH]; intros Hp; [reflexivity|].
  simpl in Hp. apply andb_prop in Hp as [Hc Hp].
  destruct (plain_char_spec c Hc) as (H1 & H2 & _ & H3 & H4 & _).
  change (String.append (String c s) (String dquote rest)) with (String c (String.append s (String dquote rest))).
  simpl. rewrite H1, H2, H3, H4, (IH Hp). reflexivity.
Qed.

Lemma json_parse_quote s : plain s = true -> json_parse (quote_plain s) = Some (JStr s).
Proof.
  intros Hp. unfold json_parse, json_fuel.
  destruct (2 * String.length (quote_plain s) + 2) as [|n] eqn:E; [lia|].
  unfold quote_plain. simpl. rewrite unquote_plain; done.
Qed.

Lemma unmarshal_quote s : plain s = true -> unmarshal_string (quote_plain s) = Some s.
Proof. intros Hp. unfold unmarshal_string. rewrite json_parse_quote; done. Qed.

Lemma compact_in_plain s :
  plain s = true ->
  compact_go true false (String.append s (String dquote EmptyString)) =
    String.append s (String dquote EmptyString).
Proof.
  induction s as [|c s IH]; intros Hp; [reflexivity|].
  simpl in Hp. apply andb_prop in Hp as [Hc Hp].
  destruct (plain_char_spec c Hc) as (H1 & H2 & H3 & _ & _ & H4).
  change (String.append (String c s) (String dquote EmptyString))
    with (String c (String.append s (String dquote EmptyString))).
  simpl. rewrite H3, H2, H1, H4. simpl.
  specialize (IH Hp).
  destruct (String.append s (String dquote EmptyString)) as [|c2 [|c3 s3]];
    rewrite IH; reflexivity.
Qed.

Lemma json_compact_quote s : plain s = true -> json_compact (quote_plain s) = Some (quote_plain s).
Proof.
  intros Hp. unfold json_compact, json_valid. rewrite json_parse_quote by done.
  f_equal. unfold quote_plain at 1. simpl. rewrite compact_in_plain; done.
Qed.

Lemma quote_plain_nonempty s : quote_plain s <> EmptyString.
Proof. discriminate. Qed.

Lemma quote_plain_not_null s : quote_plain s <> "null".
Proof. discriminate. Qed.

(** *** The fuel of [json_parse] is enough

    Reading consumes input, so more fuel never changes the outcome. *)

Lemma skip_ws_length s : String.length (skip_ws s) <= String.length s.
Proof. induction s as [|c s IH]; simpl; [lia|]. destruct (is_space c); simpl; lia. Qed.

Lemma span_digits_length s d r : span_digits s = (d, r) -> String.length r <= String.length s.
Proof.
  revert d r. induction s as [|c s IH]; simpl; intros d r H; [by simplify_eq|].
  destruct (is_digit c); [|by simplify_eq].
  destruct (span_digits s) as [d' r'] eqn:E. simplify_eq.
  specialize (IH _ _ eq_refl). lia.
Qed.

Lemma strip_literal_length l s r : strip_literal l s = Some r -> String.length r <= String.length s.
Proof.
  revert s. induction l as [|a l IH]; simpl; intros s H; [by simplify_eq|].
  destruct s as [|b s]; [done|]. destruct (Ascii.eqb a b); [|done].
  apply IH in H. simpl. lia.
Qed.

Lemma prepend_Some ch o t r : prepend ch o = Some (t, r) -> exists t', o = Some (t', r).
Proof. destruct o as [[??]|]; simpl; intros; simplify_eq; eauto. Qed.

#[local] Arguments Ascii.eqb : simpl never.
#[local] Arguments N.ltb : simpl never.
#[local] Opaque in_range is_cont utf8_second_ok rune4 low_surrogate simple_escape utf8_encode replacement is_high is_low.

(** One reader is inverted: the recursive call is found behind [prepend]. *)
Lemma unquote_length_le n s t r :
  String.length s <= n -> unquote s = Some (t, r) -> String.length r < String.length s.
Proof.
  revert s t r. induction n as [|n IH]; intros [|c s] t r Hn H; simpl in Hn; try lia; try done.
  cbn [unquote] in H.
  repeat case_match; simplify_eq;
    first [ simpl; lia
          | apply prepend_Some in H as [t' H]; apply IH in H; simpl in *; lia ].
Qed.

Lemma unquote_length s t r : unquote s = Some (t, r) -> String.length r < String.length s.
Proof. by apply (unquote_length_le (String.length s)). Qed.

Lemma expect_length c s r : expect c s = Some r -> String.length r < String.length s.
Proof.
  unfold expect. pose proof (skip_ws_length s). destruct (skip_ws s); [done|].
  case_match; intros; simplify_eq/=; lia.
Qed.

Lemma lex_exponent_length s l r : lex_exponent s = Some (l, r) -> String.length r <= String.length s.
Proof.
  unfold lex_exponent. intros H. repeat (case_match; simplify_eq/=);
  repeat match goal with E : span_digits _ = _ |- _ => apply span_digits_length in E end; simpl in *; lia.
Qed.

Lemma lex_number_length s l r : lex_number s = Some (l, r) -> String.length r < String.length s.
Proof.
  unfold lex_number, lex_sign, lex_int, lex_fraction. intros H.
  repeat (case_match; simplify_eq/=);
  repeat match goal with
    | E : span_digits _ = _ |- _ => apply span_digits_length in E
    | E : lex_exponent _ = _ |- _ => apply lex_exponent_length in E end; simpl in *; lia.
Qed.

Lemma member_key_length s k r : member_key s = Some (k, r) -> String.length r < String.length s.
Proof.
  unfold member_key. intros H. repeat case_match; simplify_eq.
  repeat match goal with
    | E : expect _ _ = _ |- _ => apply expect_length in E
    | E : unquote _ = _ |- _ => apply unquote_length in E end. lia.
Qed.

Lemma parse_consumes n :
  (forall d s v r, parse_value n d s = Some (v, r) -> String.length r < String.length s) /\
  (forall d s v r, parse_elems n d s = Some (v, r) -> String.length r < String.length s) /\
  (forall d s v r, parse_members n d s = Some (v, r) -> String.length r < String.length s).
Proof.
  induction n as [|n (IHv & IHe & IHm)]; [done|].
  split_and!; intros d s v r H; simpl in H.
  - pose proof (skip_ws_length s) as Hs. destruct (skip_ws s) as [|c s1]; [done|]. simpl in Hs.
    repeat case_match; simplify_eq;
    repeat match goal with
    | E : expect _ _ = Some _ |- _ => apply expect_length in E
    | E : unquote _ = _ |- _ => apply unquote_length in E
    | E : strip_literal _ _ = _ |- _ => apply strip_literal_length in E
    | E : lex_number _ = _ |- _ => apply lex_number_length in E
    | E : parse_elems _ _ _ = _ |- _ => apply IHe in E
    | E : parse_members _ _ _ = _ |- _ => apply IHm in E
    end; simpl in *; lia.
  - repeat case_match; simplify_eq;
    repeat match goal with
    | E : expect _ _ = Some _ |- _ => apply expect_length in E
    | E : parse_value _ _ _ = _ |- _ => apply IHv in E
    | E : parse_elems _ _ _ = _ |- _ => apply IHe in E
    end; lia.
  - repeat case_match; simplify_eq;
    repeat match goal with
    | E : expect _ _ = Some _ |- _ => apply expect_length in E
    | E : member_key _ = _ |- _ => apply member_key_length in E
    | E : parse_value _ _ _ = _ |- _ => apply IHv in E
    | E : parse_members _ _ _ = _ |- _ => apply IHm in E
    end; lia.
Qed.

(** Past [2 * length + 1] the fuel does not matter: [json_parse] never fails
    for lack of it. *)
Lemma parse_fuel n :
  (forall m d s, 2 * String.length s < n -> n <= m -> parse_value m d s = parse_value n d s) /\
  (forall m d s, 2 * String.length s + 1 < n -> n <= m -> parse_elems m d s = parse_elems n d s) /\
  (forall m d s, 2 * String.length s + 1 < n -> n <= m -> parse_members m d s = parse_members n d s).
Proof.
  induction n as [|n (IHv & IHe & IHm)]; [split_and!; intros; lia|].
  split_and!; intros [|m] d s Hn Hm; try lia; simpl.
  - pose proof (skip_ws_length s) as Hs. destruct (skip_ws s) as [|c s1]; [done|]. simpl in Hs.
    rewrite (IHm m (d + 1)%N s1), (IHe m (d + 1)%N s1) by lia. done.
  - rewrite IHv by lia. destruct (parse_value n d s) as [[x r]|] eqn:E; [|done].
    apply (proj1 (parse_consumes n)) in E.
    destruct (expect "]" r); [done|]. destruct (expect "," r) eqn:E2; [|done].
    apply expect_length in E2. rewrite IHe by lia. done.
  - destruct (member_key s) as [[k r1]|] eqn:E1; [|done]. apply member_key_length in E1.
    rewrite IHv by lia. destruct (parse_value n d r1) as [[v r2]|] eqn:E; [|done].
    apply (proj1 (parse_consumes n)) in E.
    destruct (expect "}" r2); [done|]. destruct (expect "," r2) eqn:E2; [|done].
    apply expect_length in E2. rewrite IHm by lia. done.
Qed.

Lemma json_fuel_enough m s :
  json_fuel s <= m -> parse_value m 0 s = parse_value (json_fuel s) 0 s.
Proof. intros Hm. apply (proj1 (parse_fuel (json_fuel s))); unfold json_fuel in *; lia. Qed.
