(* ===== verification/Sha256.v ===== *)
(** * SHA-256 and hexadecimal text

    crypto/sha256 and encoding/hex, which the store uses for record digests
    and bucket placement and the audit log uses for its hash chain.  A word
    is an [N] below [2^32]; a digest is its 32 bytes read as one big-endian
    number. *)

From S2P Require Import Prelude GoJson.
From Stdlib Require Import Ascii.

(** ** Hexadecimal *)

Definition hexdigit (d : N) : ascii := if (d <? 10)%N then chr (48 + d) else chr (87 + d).

(** The [w] low digits of [n]. *)
Fixpoint hexN (w : nat) (n : N) : string :=
  match w with
  | O => EmptyString
  | S w' => String (hexdigit (n / 16 ^ N.of_nat w' mod 16)) (hexN w' n)
  end.

(** [hex.EncodeToString] of a digest. *)
Definition digest_hex (d : N) : string := hexN 64 d.

(** ** Words *)

Definition w32 (n : N) : N := (n mod 2 ^ 32)%N.
Definition rotr (k n : N) : N := N.lor (N.shiftr n k) (w32 (N.shiftl n (32 - k))).
Definition wnot (n : N) : N := N.lxor n (2 ^ 32 - 1).

Definition big_sigma0 (a : N) : N := N.lxor (rotr 2 a) (N.lxor (rotr 13 a) (rotr 22 a)).
Definition big_sigma1 (e : N) : N := N.lxor (rotr 6 e) (N.lxor (rotr 11 e) (rotr 25 e)).
Definition small_sigma0 (w : N) : N := N.lxor (rotr 7 w) (N.lxor (rotr 18 w) (N.shiftr w 3)).
Definition small_sigma1 (w : N) : N := N.lxor (rotr 17 w) (N.lxor (rotr 19 w) (N.shiftr w 10)).
Definition choose (e f g : N) : N := N.lxor (N.land e f) (N.land (wnot e) g).
Definition majority (a b c : N) : N := N.lxor (N.land a b) (N.lxor (N.land a c) (N.land b c)).

(** The constants are the first 32 bits of the fractional parts of the cube
    roots of the first 64 primes, and of the square roots of the first 8. *)
Definition is_prime (n : N) : bool :=
  forallb (fun d => negb (n mod N.of_nat d =? 0)%N) (seq 2 (N.to_nat n - 2)).

Definition small_primes : list N := filter (fun n => is_prime n = true) (N.of_nat <$> seq 2 310).

(** The integer cube root, bit by bit from bit [b - 1]. *)
Fixpoint cube_root (b : nat) (n r : N) : N :=
  match b with
  | O => r
  | S b' =>
      let t := (r + 2 ^ N.of_nat b')%N in
      cube_root b' n (if (t * t * t <=? n)%N then t else r)
  end.

Definition round_constants : list N :=
  Eval vm_compute in (fun p => w32 (cube_root 36 (p * 2 ^ 96) 0)) <$> small_primes.

Definition initial_state : list N :=
  Eval vm_compute in (fun p => w32 (N.sqrt (p * 2 ^ 64))) <$> take 8 small_primes.

(** The message schedule, most recent word first. *)
Fixpoint schedule_words (n : nat) (recent : list N) : list N :=
  match n with
  | O => recent
  | S n' =>
      let at_ (i : nat) := default 0%N (recent !! i) in
      schedule_words n' (w32 (small_sigma1 (at_ 1%nat) + at_ 6%nat + small_sigma0 (at_ 14%nat) + at_ 15%nat)%N :: recent)
  end.

Definition round_step (st : list N) (kw : N * N) : list N :=
  match st with
  | [a; b; c; d; e; f; g; h] =>
      let t1 := (h + big_sigma1 e + choose e f g + kw.1 + kw.2)%N in
      let t2 := (big_sigma0 a + majority a b c)%N in
      [w32 (t1 + t2); a; b; c; w32 (d + t1); e; f; g]
  | _ => st
  end.

Definition compress (st : list N) (block : list N) : list N :=
  let words := reverse (schedule_words 48 (reverse block)) in
  zip_with (fun x y => w32 (x + y)%N) st (foldl round_step st (zip round_constants words)).

(** ** Messages *)

Fixpoint string_bytes (s : string) : list N :=
  match s with EmptyString => [] | String c s' => code c :: string_bytes s' end.

(** The [w] bytes of [n], most significant first. *)
Fixpoint be_bytes (w : nat) (n : N) : list N :=
  match w with
  | O => []
  | S w' => (n / 256 ^ N.of_nat w' mod 256)%N :: be_bytes w' n
  end.

(** The padding: a one bit, zeros up to 56 modulo 64, the bit length. *)
Definition pad (message : list N) : list N :=
  let n := length message in
  message ++ [128%N] ++ replicate ((119 - n mod 64) mod 64) 0%N ++ be_bytes 8 (8 * N.of_nat n).

Fixpoint words (bytes : list N) : list N :=
  match bytes with
  | a :: b :: c :: d :: rest => (((a * 256 + b) * 256 + c) * 256 + d)%N :: words rest
  | _ => []
  end.

Fixpoint blocks (fuel : nat) (ws : list N) (st : list N) : list N :=
  match fuel, ws with
  | S fuel', _ :: _ => blocks fuel' (drop 16 ws) (compress st (take 16 ws))
  | _, _ => st
  end.

Definition sha256_bytes (message : list N) : N :=
  let ws := words (pad message) in
  foldl (fun acc w => acc * 2 ^ 32 + w)%N 0%N (blocks (length ws) ws initial_state).

Definition sha256 (message : string) : N := sha256_bytes (string_bytes message).

(** [digest[0]]. *)
Definition first_byte (d : N) : N := (d / 2 ^ 248)%N.

(** The test vectors of FIPS 180-4. *)
Example sha256_empty : digest_hex (sha256 EmptyString) = "e3b0c44298fc1c149afbf4c8996fb92427ae41e4649b934ca495991b7852b855".
Proof. vm_compute. reflexivity. Qed.

Example sha256_abc : digest_hex (sha256 "abc") = "ba7816bf8f01cfea414140de5dae2223b00361a396177a9cb410ff61f20015ad".
Proof. vm_compute. reflexivity. Qed.

Example sha256_two_blocks :
  digest_hex (sha256 "abcdbcdecdefdefgefghfghighijhijkijkljklmklmnlmnomnopnopq") =
  "248d6a61d20638b8e5c026930c3e6039a33ce45964ff2167f6ecedd419db06c1".
Proof. vm_compute. reflexivity. Qed.
