(* ===== verification/Bytes.v ===== *)
(** * Bytes and digests

    Byte strings as [string], SHA-256 sums as their 32 bytes, and the lemmas
    on fixed-width numbers and on prefixes that the encoders share. *)

From S2P Require Import Prelude GoJson Sha256.
From Stdlib Require Import Ascii.

Fixpoint bytes_text (l : list N) : string := match l with [] => EmptyString | b :: l' => String (chr b) (bytes_text l') end.

(** The 32 bytes of a digest. *)
Definition sha256_sum (message : string) : string := bytes_text (be_bytes 32 (sha256 message)).

(** SHA-256 tells the messages of the list apart. *)
Definition collision_free (ms : list string) : Prop :=
  forall m1 m2, m1 ∈ ms -> m2 ∈ ms -> sha256_sum m1 = sha256_sum m2 -> m1 = m2.

(** ** Fixed widths *)

Lemma code_chr n : (n < 256)%N -> code (chr n) = n.
Proof. intros ?. unfold code, chr. by apply N_ascii_embedding. Qed.

Lemma string_app_split (a b c d : string) : String.length a = String.length b -> a +:+ c = b +:+ d -> a = b /\ c = d.
Proof.
  revert b. induction a as [|x a IH]; intros [|y b] Hl E; try done.
  rewrite !append_cons in E. injection E as -> E. destruct (IH b) as [-> ->]; [by injection Hl|done..].
Qed.

Lemma bytes_text_length l : String.length (bytes_text l) = length l.
Proof. induction l as [|x l IH]; [done|]. cbn. by rewrite IH. Qed.

Lemma be_bytes_length w n : length (be_bytes w n) = w.
Proof. induction w as [|w IH]; [done|]. cbn. by rewrite IH. Qed.

Lemma sha256_sum_length m : String.length (sha256_sum m) = 32%nat.
Proof. unfold sha256_sum. rewrite bytes_text_length. apply be_bytes_length. Qed.

Lemma be_bytes_mod w n m : be_bytes w n = be_bytes w m -> (n mod 256 ^ N.of_nat w = m mod 256 ^ N.of_nat w)%N.
Proof.
  induction w as [|w IH]; cbn [be_bytes]; [by rewrite !N.mod_1_r|]. intros [= E H]. apply IH in H.
  rewrite Nat2N.inj_succ, N.pow_succ_r', (N.mul_comm 256), !N.Div0.mod_mul_r, E, H. done.
Qed.

Lemma be_bytes_small w n : Forall (fun b => (b < 256)%N) (be_bytes w n).
Proof. induction w as [|w IH]; constructor; [apply N.mod_lt; lia|done]. Qed.

Lemma bytes_text_inj l1 l2 :
  Forall (fun b => (b < 256)%N) l1 -> Forall (fun b => (b < 256)%N) l2 -> bytes_text l1 = bytes_text l2 -> l1 = l2.
Proof.
  intros H1. revert l2. induction H1 as [|a l1 Ha H1 IH]; intros [|b l2] H2; try done. intros E.
  apply Forall_cons in H2 as [Hb H2]. injection E as E Ht. f_equal; [|by apply IH].
  apply (f_equal code) in E. by rewrite !code_chr in E.
Qed.

Lemma be_text_inj w n m : (n < 256 ^ N.of_nat w)%N -> (m < 256 ^ N.of_nat w)%N ->
  bytes_text (be_bytes w n) = bytes_text (be_bytes w m) -> n = m.
Proof.
  intros Hn Hm H%bytes_text_inj; [|apply be_bytes_small..]. apply be_bytes_mod in H. by rewrite !N.mod_small in H.
Qed.

(** ** Digests *)

Lemma collision_free_mono ms ms' : (forall m, m ∈ ms -> m ∈ ms') -> collision_free ms' -> collision_free ms.
Proof. intros Hsub H m1 m2 ? ?. apply H; auto. Qed.

Lemma string_app_split_r (a b c d : string) : String.length c = String.length d -> a +:+ c = b +:+ d -> a = b /\ c = d.
Proof.
  intros Hl E. apply string_app_split; [|done]. apply (f_equal String.length) in E.
  rewrite !string_length_app in E. lia.
Qed.

Lemma string_bytes_small s : Forall (fun b => (b < 256)%N) (string_bytes s).
Proof. induction s as [|c s IH]; constructor; [apply N_ascii_bounded|done]. Qed.
