(* ===== verification/Base64.v ===== *)
(** * Unpadded URL-safe base64

    [base64.RawURLEncoding.EncodeToString] of Go's standard library, which
    search access keys and page cursors use, and its injectivity. *)

From S2P Require Import Prelude GoJson Sha256 Bytes.
From Stdlib Require Import Ascii.

(** The 64 characters: A-Z, a-z, 0-9, '-' and '_'. *)
Definition url_char (d : N) : ascii :=
  if (d <? 26)%N then chr (65 + d)
  else if (d <? 52)%N then chr (71 + d)
  else if (d <? 62)%N then chr (d - 4)
  else if (d =? 62)%N then "-"%char else "_"%char.

Fixpoint raw_url_encode (l : list N) : string :=
  match l with
  | [] => EmptyString
  | [a] => String (url_char (a / 4)) (String (url_char (a mod 4 * 16)) EmptyString)
  | [a; b] =>
      String (url_char (a / 4))
        (String (url_char (a mod 4 * 16 + b / 16)) (String (url_char (b mod 16 * 4)) EmptyString))
  | a :: b :: c :: l' =>
      String (url_char (a / 4))
        (String (url_char (a mod 4 * 16 + b / 16))
          (String (url_char (b mod 16 * 4 + c / 64)) (String (url_char (c mod 64)) (raw_url_encode l'))))
  end.

Lemma url_char_inj a b : (a < 64)%N -> (b < 64)%N -> url_char a = url_char b -> a = b.
Proof.
  intros Ha Hb E. apply (f_equal code) in E. unfold url_char in E.
  destruct (N.ltb_spec a 26), (N.ltb_spec b 26), (N.ltb_spec a 52), (N.ltb_spec b 52), (N.ltb_spec a 62), (N.ltb_spec b 62),
    (N.eqb_spec a 62), (N.eqb_spec b 62);
    rewrite ?code_chr in E by lia; try change (code "-") with 45%N in E; try change (code "_") with 95%N in E; lia.
Qed.

Lemma div_mod_eq k a b : (a / k = b / k)%N -> (a mod k = b mod k)%N -> a = b.
Proof. intros H1 H2. rewrite (N.div_mod' a k), (N.div_mod' b k). by rewrite H1, H2. Qed.

(** Two digits in one group: [x] above [y], which is below [k]. *)
Lemma group_eq k x y x' y' : (y < k)%N -> (y' < k)%N -> (x * k + y = x' * k + y')%N -> x = x' /\ y = y'.
Proof. intros Hy Hy' E. assert (x = x') by nia. subst. split; [done|lia]. Qed.

Lemma byte_div k a : (0 < k)%N -> (256 mod k = 0)%N -> (a < 256)%N -> (a / k < 256 / k)%N.
Proof.
  intros Hk H0 Ha. apply N.Div0.div_lt_upper_bound. pose proof (N.div_mod' 256 k) as E. rewrite H0 in E. lia.
Qed.

Lemma high_group a : (a < 256)%N -> (a / 4 < 64)%N.
Proof. intros. by apply (byte_div 4). Qed.

Lemma mid_group a b : (b < 256)%N -> (a mod 4 * 16 + b / 16 < 64 /\ b / 16 < 16)%N.
Proof. intros Hb%(byte_div 16); [|done..]. pose proof (N.mod_lt a 4). change (256 / 16)%N with 16%N in Hb. lia. Qed.

Lemma low_group a b : (b < 256)%N -> (a mod 16 * 4 + b / 64 < 64 /\ b / 64 < 4)%N.
Proof. intros Hb%(byte_div 64); [|done..]. pose proof (N.mod_lt a 16). change (256 / 64)%N with 4%N in Hb. lia. Qed.

Lemma byte_high a b : (a < 256)%N -> (b < 256)%N -> url_char (a / 4) = url_char (b / 4) -> (a / 4 = b / 4)%N.
Proof. intros Ha Hb. apply url_char_inj; by apply high_group. Qed.

Lemma byte_mid a b a' b' : (b < 256)%N -> (b' < 256)%N ->
  url_char (a mod 4 * 16 + b / 16) = url_char (a' mod 4 * 16 + b' / 16) ->
  (a mod 4 = a' mod 4 /\ b / 16 = b' / 16)%N.
Proof.
  intros Hb Hb'. destruct (mid_group a b Hb) as [? ?], (mid_group a' b' Hb') as [? ?].
  intros E%url_char_inj; [|done..]. by apply (group_eq 16).
Qed.

Lemma byte_low a b a' b' : (b < 256)%N -> (b' < 256)%N ->
  url_char (a mod 16 * 4 + b / 64) = url_char (a' mod 16 * 4 + b' / 64) ->
  (a mod 16 = a' mod 16 /\ b / 64 = b' / 64)%N.
Proof.
  intros Hb Hb'. destruct (low_group a b Hb) as [? ?], (low_group a' b' Hb') as [? ?].
  intros E%url_char_inj; [|done..]. by apply (group_eq 4).
Qed.

Lemma byte_end a b k : (k * (64 / k) = 64)%N -> (0 < k)%N ->
  url_char (a mod k * (64 / k)) = url_char (b mod k * (64 / k)) -> (a mod k = b mod k)%N.
Proof.
  intros Hk Hk0. pose proof (N.mod_lt a k ltac:(lia)). pose proof (N.mod_lt b k ltac:(lia)).
  intros E%url_char_inj; nia.
Qed.

Lemma byte_last a b : url_char (a mod 64) = url_char (b mod 64) -> (a mod 64 = b mod 64)%N.
Proof. intros E%url_char_inj; [done|by apply N.mod_lt..]. Qed.

Lemma raw_url_encode_inj l1 l2 :
  Forall (fun b => (b < 256)%N) l1 -> Forall (fun b => (b < 256)%N) l2 ->
  raw_url_encode l1 = raw_url_encode l2 -> l1 = l2.
Proof.
  remember (length l1) as n eqn:Hn. revert l1 l2 Hn.
  induction (lt_wf n) as [n _ IH]. intros l1 l2 -> H1 H2 E.
  destruct l1 as [|a1 [|b1 [|c1 l1]]], l2 as [|a2 [|b2 [|c2 l2]]]; cbn [raw_url_encode] in E; try done;
    repeat match goal with H : Forall _ (_ :: _) |- _ => apply Forall_cons in H as [? ?] end.
  - injection E as E1%byte_high E2%(byte_end _ _ 4); [|done..]. f_equal. by apply (div_mod_eq 4).
  - injection E as E1%byte_high E2%byte_mid E3%(byte_end _ _ 16); [|done..]. destruct E2.
    f_equal; [by apply (div_mod_eq 4)|f_equal; by apply (div_mod_eq 16)].
  - injection E as E1%byte_high E2%byte_mid E3%byte_low E4%byte_last E; [|done..]. destruct E2, E3.
    f_equal; [by apply (div_mod_eq 4)|f_equal; [by apply (div_mod_eq 16)|f_equal; [by apply (div_mod_eq 64)|]]].
    eapply IH; [|done..]. simpl. lia.
Qed.

Lemma raw_url_encode_nonempty l : l <> [] -> raw_url_encode l <> EmptyString.
Proof. by destruct l as [|? [|? [|? ?]]]. Qed.
