(* ===== verification/Float64.v ===== *)
(** * JSON numbers as Go float64 values

    encoding/json decodes a number into an [any] as a float64 and prints a
    float64 back with the shortest digits that parse to it.  [parse_float64]
    is strconv.ParseFloat on a JSON number (round to nearest, ties to even);
    the printed digits are the interface [FloatFormat], whose laws are the
    documented ones, with an instance that prints exact digits. *)

From S2P Require Import Prelude GoJson.
From Stdlib Require Import Ascii.

(** ** Decimal text of an integer *)

Fixpoint decimal_go (fuel : nat) (n : N) (acc : string) : string :=
  match fuel with
  | O => acc
  | S fuel' =>
      let acc' := String (chr (48 + n mod 10)) acc in
      if (n <? 10)%N then acc' else decimal_go fuel' (n / 10) acc'
  end.

(** [strconv.FormatUint] in base ten. *)
Definition decimal (n : N) : string := decimal_go (S (N.to_nat (N.log2 n))) n EmptyString.

(** [strconv.FormatInt] in base ten. *)
Definition decimalZ (z : Z) : string :=
  if (z <? 0)%Z then String "-" (decimal (Z.abs_N z)) else decimal (Z.abs_N z).

(** ** Values *)

(** A finite float64 is a sign, a mantissa below [2^53] and an exponent; a
    mantissa below [2^52] occurs only at the least exponent. *)
Record float64 := mkFloat { f_neg : bool; f_man : N; f_exp : Z }.

#[export] Instance float64_eq_dec : EqDecision float64.
Proof. solve_decision. Defined.

Definition finite (f : float64) : Prop :=
  (f_man f < 2 ^ 53)%N /\ (-1074 <= f_exp f <= 971)%Z /\ ((2 ^ 52 <= f_man f)%N \/ f_exp f = (-1074)%Z).

(** The nearest integer to [n / d], the even one of two. *)
Definition round_even (n d : N) : N :=
  let q := (n / d)%N in
  let r := (n mod d)%N in
  match (2 * r ?= d)%N with
  | Lt => q
  | Gt => q + 1
  | Eq => if N.even q then q else q + 1
  end.

(** The least exponent from [e] on at which the mantissa fits 53 bits. *)
Fixpoint fit (fuel : nat) (n d : N) (e : Z) : N * Z :=
  match fuel with
  | O => (d, e)
  | S fuel' => if (n <? d * 2 ^ 53)%N then (d, e) else fit fuel' n (2 * d) (e + 1)
  end.

Definition round_float (neg : bool) (n d : N) : float64 :=
  let n' := (n * 2 ^ 1074)%N in
  let '(d', e) := fit 2047 n' d (-1074) in
  let m := round_even n' d' in
  if (m =? 2 ^ 53)%N then mkFloat neg (2 ^ 52) (e + 1) else mkFloat neg m e.

(** The digits and the power of ten of a number without its sign. *)
Definition number_parts (s : string) : Z * Z :=
  let '(i, s1) := span_digits s in
  let '(f, s2) := match s1 with String "." s2 => span_digits s2 | _ => (EmptyString, s1) end in
  (digits_value (digits_value 0 i) f, (exponent_value s2 - Z.of_nat (String.length f))%Z).

Definition parse_float64 (lexeme : string) : option float64 :=
  if float64_in_range lexeme then
    let '(neg, s) := match lexeme with String "-" s => (true, s) | s => (false, s) end in
    let '(m, e10) := number_parts s in
    Some (if (0 <=? e10)%Z
          then round_float neg (Z.to_N (m * 10 ^ e10)) 1
          else round_float neg (Z.to_N m) (Z.to_N (10 ^ (- e10))))
  else None.

(** The integers that no float64 between them can tell apart. *)
Example parse_float64_gap : parse_float64 "9007199254740993" = parse_float64 "9007199254740992".
Proof. vm_compute. reflexivity. Qed.

Example parse_float64_tenth : parse_float64 "0.1" = Some (mkFloat false 7205759403792794 (-56)).
Proof. vm_compute. reflexivity. Qed.

Example parse_float64_least : parse_float64 "-5e-324" = Some (mkFloat true 1 (-1074)).
Proof. vm_compute. reflexivity. Qed.

(** ** Printing *)

(** [strconv.AppendFloat] with precision -1, as encoding/json prints: a JSON
    number that parses back to the same value. *)
Class FloatFormat := {
  format_float64 : float64 -> string;
  format_lexeme f : finite f -> lex_number (format_float64 f) = Some (format_float64 f, EmptyString);
  parse_format f : finite f -> parse_float64 (format_float64 f) = Some f;
}.

(** ** Lemmas *)

Lemma digit_code d : (d < 10)%N -> code (chr (48 + d)) = (48 + d)%N.
Proof. intros ?. unfold code, chr. apply N_ascii_embedding. lia. Qed.

Lemma digit_is_digit d : (d < 10)%N -> is_digit (chr (48 + d)) = true.
Proof. intros ?. unfold is_digit, in_range. rewrite digit_code by done. apply andb_true_iff. rewrite !N.leb_le. lia. Qed.

Lemma decimal_go_value fuel n acc :
  (n < 10 ^ N.of_nat fuel)%N -> (0 < fuel)%nat ->
  digits_value 0 (decimal_go fuel n acc) = digits_value (Z.of_N n) acc.
Proof.
  revert n acc. induction fuel as [|fuel IH]; intros n acc Hn Hpos; [lia|]. cbn [decimal_go].
  destruct (N.ltb_spec n 10) as [Hs|Hs].
  - cbn [digits_value]. rewrite digit_code by (rewrite N.mod_small; lia). f_equal. rewrite N.mod_small by done. lia.
  - rewrite Nat2N.inj_succ, N.pow_succ_r' in Hn.
    rewrite IH.
    + cbn [digits_value]. rewrite digit_code by (apply N.mod_lt; lia). f_equal.
      pose proof (N.div_mod' n 10) as E. clear -E. generalize dependent (n mod 10)%N. generalize (n / 10)%N. lia.
    + apply N.Div0.div_lt_upper_bound. lia.
    + destruct fuel; [|lia]. change (N.of_nat 0) with 0%N in Hn. rewrite N.pow_0_r in Hn. lia.
Qed.

Lemma decimal_fuel n : (n < 10 ^ N.of_nat (S (N.to_nat (N.log2 n))))%N.
Proof.
  rewrite Nat2N.inj_succ, N2Nat.id. destruct (decide (n = 0%N)) as [->|Hn]; [done|].
  pose proof (N.log2_spec n ltac:(lia)) as [_ ?].
  eapply N.lt_le_trans; [done|]. apply N.pow_le_mono_l. lia.
Qed.

Lemma decimal_value n : digits_value 0 (decimal n) = Z.of_N n.
Proof. unfold decimal. rewrite decimal_go_value by (first [apply decimal_fuel | lia]). done. Qed.

Fixpoint all_digits (s : string) : bool :=
  match s with String c s' => is_digit c && all_digits s' | EmptyString => true end.

Lemma decimal_go_digits fuel n acc : all_digits acc = true -> all_digits (decimal_go fuel n acc) = true.
Proof.
  revert n acc. induction fuel as [|fuel IH]; intros n acc Hacc; cbn [decimal_go]; [done|].
  assert (all_digits (String (chr (48 + n mod 10)) acc) = true) by
    (cbn [all_digits]; rewrite digit_is_digit, Hacc by (apply N.mod_lt; lia); done).
  destruct (n <? 10)%N; [done|]. by apply IH.
Qed.

Lemma decimal_digits n : all_digits (decimal n) = true.
Proof. by apply decimal_go_digits. Qed.

(** [strconv.ParseInt] in base ten at a width. *)
Definition parse_int (bits : Z) (s : string) : option Z :=
  let '(neg, d) := match s with String "-" d => (true, d) | String "+" d => (false, d) | _ => (false, s) end in
  if bool_decide (d = EmptyString) || negb (all_digits d) then None
  else
    let z := if neg then (- digits_value 0 d)%Z else digits_value 0 d in
    if (- 2 ^ (bits - 1) <=? z)%Z && (z <? 2 ^ (bits - 1))%Z then Some z else None.

Lemma decimal_go_head fuel n acc :
  (0 < n)%N -> (n < 10 ^ N.of_nat fuel)%N ->
  exists d s, decimal_go fuel n acc = String (chr (48 + d)) s /\ (0 < d < 10)%N.
Proof.
  revert n acc. induction fuel as [|fuel IH]; intros n acc Hpos Hn; [change (N.of_nat 0) with 0%N in Hn; rewrite N.pow_0_r in Hn; lia|].
  cbn [decimal_go]. destruct (N.ltb_spec n 10).
  - exists (n mod 10)%N, acc. rewrite N.mod_small by done. split; [done|lia].
  - rewrite Nat2N.inj_succ, N.pow_succ_r' in Hn. apply IH; [apply N.div_str_pos; lia|].
    apply N.Div0.div_lt_upper_bound. lia.
Qed.

(** What may follow the digits, or the whole of a number, without extending it. *)
Definition digits_end (s : string) : bool :=
  match s with EmptyString => true | String c _ => negb (is_digit c) end.

Definition number_end (s : string) : bool :=
  match s with
  | EmptyString => true
  | String c _ => negb (is_digit c) && negb (Ascii.eqb c ".") && negb (Ascii.eqb c "e") && negb (Ascii.eqb c "E")
  end.

Lemma number_digits_end s : number_end s = true -> digits_end s = true.
Proof. destruct s as [|c s]; [done|]. cbn. by destruct (is_digit c). Qed.

Lemma span_digits_app d s :
  all_digits d = true -> digits_end s = true -> span_digits (d +:+ s) = (d, s).
Proof.
  intros Hd Hs. induction d as [|c d IH]; cbn [all_digits] in Hd.
  - rewrite append_nil_l. destruct s as [|c s]; [done|]. cbn in Hs |- *. by destruct (is_digit c).
  - apply andb_true_iff in Hd as [Hc Hd]. rewrite append_cons. cbn [span_digits]. rewrite Hc, IH by done. done.
Qed.

Lemma lex_int_decimal n s : digits_end s = true -> lex_int (decimal n +:+ s) = Some (decimal n, s).
Proof.
  intros Hs. destruct (decide (n = 0%N)) as [->|Hn].
  - by destruct s.
  - destruct (decimal_go_head _ n EmptyString ltac:(lia) (decimal_fuel n)) as (d & r & E & Hd).
    pose proof (decimal_digits n) as Hdig. unfold decimal in *. rewrite E in Hdig |- *.
    rewrite append_cons. cbn [all_digits] in Hdig. apply andb_true_iff in Hdig as [Hc Hr].
    cbn [lex_int]. rewrite Hc.
    assert (Ascii.eqb (chr (48 + d)) "0" = false) as ->.
    { apply Ascii.eqb_neq. intros E0. apply (f_equal code) in E0. rewrite digit_code in E0 by lia. vm_compute (code _) in E0. lia. }
    by rewrite span_digits_app.
Qed.

Lemma lex_fraction_end s : number_end s = true -> lex_fraction s = Some (EmptyString, s).
Proof. destruct s as [|c s]; [done|]. cbn. destruct (Ascii.eqb c "."); [|done]. by rewrite andb_false_r. Qed.

Lemma lex_exponent_end s : number_end s = true -> lex_exponent s = Some (EmptyString, s).
Proof.
  destruct s as [|c s]; [done|]. cbn. destruct (Ascii.eqb c "e"), (Ascii.eqb c "E"); cbn; rewrite ?andb_false_r; done.
Qed.

Lemma lex_sign_decimal n s : lex_sign (decimal n +:+ s) = (EmptyString, decimal n +:+ s).
Proof.
  destruct (decide (n = 0%N)) as [->|Hn]; [done|].
  destruct (decimal_go_head _ n EmptyString ltac:(lia) (decimal_fuel n)) as (d & r & E & Hd).
  unfold decimal. rewrite E, append_cons. cbn [lex_sign].
  replace (Ascii.eqb (chr (48 + d)) "-") with false; [done|]. symmetry. apply Ascii.eqb_neq.
  intros E0. apply (f_equal code) in E0. rewrite digit_code in E0 by lia. vm_compute (code _) in E0. lia.
Qed.

(** A sign, an integer and an optional exponent lex as one number. *)
Lemma lex_number_exact neg n ex s :
  (ex = EmptyString \/ exists k, ex = String "e" (String "-" (decimal k))) -> number_end s = true ->
  let l := (if neg : bool then String "-" EmptyString else EmptyString) +:+ decimal n +:+ ex in
  lex_number (l +:+ s) = Some (l, s).
Proof.
  intros Hex Hs l. subst l. unfold lex_number.
  assert (lex_sign (((if neg then String "-" EmptyString else EmptyString) +:+ decimal n +:+ ex) +:+ s) =
          (if neg then String "-" EmptyString else EmptyString, decimal n +:+ ex +:+ s)) as ->.
  { rewrite !string_app_assoc. destruct neg; [done|]. rewrite append_nil_l. apply lex_sign_decimal. }
  destruct Hex as [->|[k ->]].
  - rewrite append_nil_l, lex_int_decimal, lex_fraction_end, lex_exponent_end by (by try apply number_digits_end). by rewrite !string_app_nil_r.
  - rewrite !append_cons, lex_int_decimal by done. cbn [lex_fraction].
    change (Ascii.eqb "e" ".") with false. cbv iota beta. cbn [lex_exponent].
    change (Ascii.eqb "e" "e") with true. change (Ascii.eqb "-" "+") with false. change (Ascii.eqb "-" "-") with true.
    cbn [orb]. cbv iota beta. rewrite span_digits_app by (first [apply decimal_digits | by apply number_digits_end]).
    destruct (decimal k) eqn:E; [|done].
    pose proof (lex_int_decimal k EmptyString eq_refl) as F. rewrite E in F. discriminate F.
Qed.

(** ** Exact digits *)

(** [m * 2^e] without rounding: an integer, or [m * 5^(-e)] scaled by ten. *)
Definition exact_text (f : float64) : string :=
  (if f_neg f then String "-" EmptyString else EmptyString) +:+
  (if (0 <=? f_exp f)%Z then decimal (f_man f * 2 ^ Z.to_N (f_exp f)) +:+ EmptyString
   else decimal (f_man f * 5 ^ Z.to_N (- f_exp f)) +:+ String "e" (String "-" (decimal (Z.to_N (- f_exp f))))).

Lemma exact_lexeme f : lex_number (exact_text f) = Some (exact_text f, EmptyString).
Proof.
  rewrite <- (string_app_nil_r (exact_text f)) at 1. unfold exact_text.
  destruct (0 <=? f_exp f)%Z; apply lex_number_exact; eauto.
Qed.

Lemma fit_exact k fuel m d e :
  (k < fuel)%nat -> (m < 2 ^ 53)%N -> (2 ^ 52 <= m)%N \/ k = O -> (0 < d)%N ->
  fit fuel (m * 2 ^ N.of_nat k * d) d e = ((2 ^ N.of_nat k * d)%N, (e + Z.of_nat k)%Z).
Proof.
  revert fuel d e. induction k as [|k IH]; intros [|fuel] d e Hf Hm Hlow Hd; try lia; cbn [fit].
  - change (2 ^ N.of_nat 0)%N with 1%N. destruct (N.ltb_spec (m * 1 * d) (d * 2 ^ 53)); [|nia].
    f_equal; lia.
  - destruct Hlow as [Hlow|]; [|done]. rewrite Nat2N.inj_succ, N.pow_succ_r'.
    pose proof (N.pow_nonzero 2 (N.of_nat k) ltac:(done)).
    destruct (N.ltb_spec (m * (2 * 2 ^ N.of_nat k) * d) (d * 2 ^ 53)) as [Hlt|_].
    { exfalso. change (2 ^ 53)%N with (2 * 2 ^ 52)%N in *. remember (2 ^ 52)%N as b. remember (2 ^ N.of_nat k)%N as p.
      assert (b * 1 <= m * p)%N by (apply N.mul_le_mono; lia). nia. }
    replace (m * (2 * 2 ^ N.of_nat k) * d)%N with (m * 2 ^ N.of_nat k * (2 * d))%N by lia.
    rewrite IH by (first [lia | by left]). f_equal; lia.
Qed.

Lemma round_even_exact m d : (0 < d)%N -> round_even (m * d) d = m.
Proof.
  intros ?. unfold round_even. rewrite N.div_mul, N.Div0.mod_mul by lia.
  rewrite N.mul_0_r. by destruct d.
Qed.

(** A value that is a float64 rounds to itself. *)
Lemma round_float_exact neg m e n d :
  finite (mkFloat neg m e) -> (0 < d)%N ->
  (n * 2 ^ 1074 = m * 2 ^ Z.to_N (e + 1074) * d)%N ->
  round_float neg n d = mkFloat neg m e.
Proof.
  intros (Hm & He & Hlow) Hd E. cbn in Hm, He, Hlow. unfold round_float. rewrite E.
  assert (Z.to_N (e + 1074) = N.of_nat (Z.to_nat (e + 1074))) as -> by lia.
  rewrite fit_exact by (first [done | destruct Hlow; [by left | right; lia] | lia]).
  assert (0 < 2 ^ N.of_nat (Z.to_nat (e + 1074)))%N by (apply N.neq_0_lt_0, N.pow_nonzero; done).
  rewrite <- N.mul_assoc, round_even_exact by (apply N.mul_pos_pos; done).
  destruct (N.eqb_spec m (2 ^ 53)); [lia|]. f_equal. lia.
Qed.

(** ** Exact digits parse back *)

Lemma number_parts_exact n k :
  number_parts (decimal n +:+ EmptyString) = (Z.of_N n, 0%Z) /\
  number_parts (decimal n +:+ String "e" (String "-" (decimal k))) = (Z.of_N n, (- Z.of_N k)%Z).
Proof.
  unfold number_parts. split; rewrite span_digits_app by (first [apply decimal_digits | done]);
    cbn [digits_value exponent_value String.length]; rewrite ?decimal_value; f_equal; lia.
Qed.

Lemma decimal_no_minus {A} n r (F : string -> A) (x : A) :
  (match decimal n +:+ r with String "-" s => F s | _ => x end) = x.
Proof.
  destruct (decide (n = 0%N)) as [->|Hn]; [done|].
  destruct (decimal_go_head _ n EmptyString ltac:(lia) (decimal_fuel n)) as (d & s & E & Hd).
  unfold decimal. rewrite E, append_cons.
  assert (d = 1 \/ d = 2 \/ d = 3 \/ d = 4 \/ d = 5 \/ d = 6 \/ d = 7 \/ d = 8 \/ d = 9)%N as Hcases by lia.
  repeat destruct Hcases as [->|Hcases]; try done. by subst.
Qed.

(** The range check on the digits and the power of ten. *)
Definition parts_in_range (p : Z * Z) : bool :=
  let '(mantissa, e10) := p in
  let limit := (2 ^ 1024 - 2 ^ 970)%Z in
  if (mantissa =? 0)%Z then true
  else if (0 <=? e10)%Z then (mantissa * 10 ^ e10 <? limit)%Z
  else (mantissa <? limit * 10 ^ (- e10))%Z.

Lemma in_range_parts l :
  float64_in_range l = parts_in_range (number_parts (match l with String "-" s => s | s => s end)).
Proof.
  unfold float64_in_range, number_parts, parts_in_range.
  destruct (span_digits _) as [i s1]. destruct (match s1 with String "." s2 => _ | _ => _ end) as [f s2]. done.
Qed.

Lemma parse_exact neg t :
  (match t with String "-" s => s | s => s end) = t ->
  (match t with String "-" s => (true, s) | s => (false, s) end) = (false, t) ->
  parse_float64 ((if neg : bool then String "-" EmptyString else EmptyString) +:+ t) =
    let '(m, e10) := number_parts t in
    if parts_in_range (m, e10) then
      Some (if (0 <=? e10)%Z then round_float neg (Z.to_N (m * 10 ^ e10)) 1
            else round_float neg (Z.to_N m) (Z.to_N (10 ^ (- e10))))
    else None.
Proof.
  intros E1 E2. unfold parse_float64. rewrite in_range_parts.
  destruct neg; [rewrite !append_cons, !append_nil_l; cbv iota beta | rewrite append_nil_l, E1, E2];
    destruct (number_parts t) as [m e10]; done.
Qed.

Lemma exact_in_range_int m e : (m < 2 ^ 53)%N -> (0 <= e <= 971)%Z -> parts_in_range (Z.of_N (m * 2 ^ Z.to_N e), 0%Z) = true.
Proof.
  intros Hm He. unfold parts_in_range. destruct (_ =? 0)%Z; [done|].
  change (0 <=? 0)%Z with true. cbv iota. apply Z.ltb_lt. rewrite Z.mul_1_r, N2Z.inj_mul, N2Z.inj_pow, Z2N.id by lia.
  change (Z.of_N 2) with 2%Z.
  assert (2 ^ e <= 2 ^ 971)%Z by (apply Z.pow_le_mono_r; lia).
  assert (Z.of_N m <= 2 ^ 53 - 1)%Z by (change (2 ^ 53)%Z with (Z.of_N (2 ^ 53)); lia).
  apply (Z.le_lt_trans _ ((2 ^ 53 - 1) * 2 ^ 971))%Z; [|done].
  apply Z.mul_le_mono_nonneg; lia.
Qed.

Lemma exact_in_range_frac m k : (m < 2 ^ 53)%N -> (0 < k)%Z -> parts_in_range (Z.of_N (m * 5 ^ Z.to_N k), (- k)%Z) = true.
Proof.
  intros Hm Hk. unfold parts_in_range. destruct (_ =? 0)%Z; [done|].
  destruct (Z.leb_spec 0 (- k)); [lia|]. apply Z.ltb_lt.
  rewrite Z.opp_involutive, N2Z.inj_mul, N2Z.inj_pow, Z2N.id by lia. change (Z.of_N 5) with 5%Z.
  assert (0 < 5 ^ k <= 10 ^ k)%Z by (split; [apply Z.pow_pos_nonneg | apply Z.pow_le_mono_l]; lia).
  assert (Z.of_N m < 2 ^ 1024 - 2 ^ 970)%Z.
  { apply (Z.lt_trans _ (2 ^ 53)); [|done]. change (2 ^ 53)%Z with (Z.of_N (2 ^ 53)). lia. }
  remember (2 ^ 1024 - 2 ^ 970)%Z as limit. apply (Z.lt_le_trans _ (limit * 5 ^ k)).
  - apply Z.mul_lt_mono_pos_r; lia.
  - apply Z.mul_le_mono_nonneg_l; lia.
Qed.

Lemma pow_split k : (0 <= k <= 1074)%Z -> (2 ^ Z.to_N (1074 - k) * (5 ^ Z.to_N k * 2 ^ Z.to_N k) = 5 ^ Z.to_N k * 2 ^ 1074)%N.
Proof.
  intros Hk. replace (2 ^ 1074)%N with (2 ^ (Z.to_N (1074 - k) + Z.to_N k))%N by (f_equal; lia). rewrite N.pow_add_r. lia.
Qed.

Lemma parse_exact_text f : finite f -> parse_float64 (exact_text f) = Some f.
Proof.
  destruct f as [neg m e]. intros Hf. pose proof Hf as (Hm & He & Hlow). cbn in Hm, He, Hlow.
  unfold exact_text. cbn [f_neg f_man f_exp]. destruct (Z.leb_spec 0 e).
  - rewrite parse_exact by (apply (decimal_no_minus _ _ id) || apply (decimal_no_minus _ _ (pair true))).
    rewrite (proj1 (number_parts_exact _ 0)), exact_in_range_int by lia.
    change (0 <=? 0)%Z with true. cbv iota. f_equal. apply round_float_exact; [done|lia|].
    rewrite Z.mul_1_r, N2Z.id, N.mul_1_r, Z2N.inj_add, N.pow_add_r by lia.
    change (Z.to_N 1074) with 1074%N. lia.
  - rewrite parse_exact by (apply (decimal_no_minus _ _ id) || apply (decimal_no_minus _ _ (pair true))).
    rewrite (proj2 (number_parts_exact _ _)), Z2N.id, exact_in_range_frac by lia.
    destruct (Z.leb_spec 0 (- - e)); [lia|]. f_equal. rewrite !Z.opp_involutive, N2Z.id.
    assert (Z.to_N (10 ^ (- e)) = 5 ^ Z.to_N (- e) * 2 ^ Z.to_N (- e))%N as ->.
    { rewrite <- N.pow_mul_l. change (5 * 2)%N with (Z.to_N 10). by rewrite <- Z2N.inj_pow by lia. }
    apply round_float_exact; [done| |].
    + apply N.mul_pos_pos; apply N.neq_0_lt_0, N.pow_nonzero; done.
    + rewrite <- N.mul_assoc, <- N.mul_assoc. f_equal. replace (e + 1074)%Z with (1074 - - e)%Z by lia.
      symmetry. apply pow_split. lia.
Qed.

(** ** Every parsed value is finite *)

Lemma fit_spec fuel n d e d' e' :
  fit fuel n d e = (d', e') ->
  exists j, (j <= fuel)%nat /\ d' = (d * 2 ^ N.of_nat j)%N /\ e' = (e + Z.of_nat j)%Z /\
    (j = O \/ (d' * 2 ^ 52 <= n)%N) /\ ((n < d' * 2 ^ 53)%N \/ j = fuel).
Proof.
  revert d e. induction fuel as [|fuel IH]; intros d e; cbn [fit].
  { intros [= <- <-]. exists O. change (2 ^ N.of_nat 0)%N with 1%N. repeat split; [lia..|by left|by right]. }
  destruct (N.ltb_spec n (d * 2 ^ 53)) as [Hlt|Hge].
  { intros [= <- <-]. exists O. change (2 ^ N.of_nat 0)%N with 1%N. repeat split; [lia..|by left|by left]. }
  intros (j & Hj & Hd & He & Hlow & Hhigh)%IH. exists (S j). rewrite Nat2N.inj_succ, N.pow_succ_r'.
  repeat split; [lia..| |destruct Hhigh; [by left|right; lia]]. right.
  destruct Hlow as [->|]; [|done]. subst d'. change (2 ^ N.of_nat 0)%N with 1%N.
  change (2 ^ 53)%N with (2 * 2 ^ 52)%N in Hge. lia.
Qed.

Lemma round_even_bounds n d a b :
  (0 < d)%N -> (d * a <= n)%N -> (2 * n < d * (2 * b + 1))%N -> (a <= round_even n d <= b)%N.
Proof.
  intros Hd Ha Hb. unfold round_even. pose proof (N.div_mod' n d) as E. pose proof (N.mod_lt n d ltac:(lia)) as Hr.
  set (q := (n / d)%N) in *. set (r := (n mod d)%N) in *. clearbody q r. subst n.
  assert (a <= q)%N by (assert (d * a < d * (q + 1))%N as ?%N.mul_lt_mono_pos_l by lia; lia).
  destruct (N.compare_spec (2 * r) d); [destruct (N.even q)| |]; split; try lia;
    apply N.lt_succ_r, (N.mul_lt_mono_pos_l (2 * d)); lia.
Qed.

Definition overflow : N := (2 ^ 1024 - 2 ^ 970)%N.

Lemma fit_in_range n d d' e' :
  (0 < d)%N -> (n < d * overflow)%N -> fit 2047 (n * 2 ^ 1074) d (-1074) = (d', e') ->
  exists j, (j <= 2045)%nat /\ d' = (d * 2 ^ N.of_nat j)%N /\ e' = (-1074 + Z.of_nat j)%Z /\
    (j = O \/ (d' * 2 ^ 52 <= n * 2 ^ 1074)%N) /\ (n * 2 ^ 1074 < d' * 2 ^ 53)%N.
Proof.
  intros Hd Hn (j & Hj & -> & -> & Hlow & Hhigh)%fit_spec. exists j.
  assert (n * 2 ^ 1074 < d * 2 ^ 2098)%N as Hlt.
  { apply (N.lt_trans _ (d * overflow * 2 ^ 1074)); [by apply N.mul_lt_mono_pos_r|].
    rewrite <- N.mul_assoc. by apply N.mul_lt_mono_pos_l. }
  assert (j <= 2045)%nat as Hj'.
  { destruct (decide (j <= 2045)%nat) as [|Hbig]; [done|]. exfalso. destruct Hlow as [->|Hlow]; [lia|].
    assert (2 ^ 2046 <= 2 ^ N.of_nat j)%N by (apply N.pow_le_mono_r; lia).
    assert (d * 2 ^ 2046 * 2 ^ 52 <= d * 2 ^ N.of_nat j * 2 ^ 52)%N
      by (apply N.mul_le_mono_r, N.mul_le_mono_l; done).
    rewrite <- (N.mul_assoc d (2 ^ 2046)) in *. change (2 ^ 2046 * 2 ^ 52)%N with (2 ^ 2098)%N in *. lia. }
  repeat split; [done..|]. destruct Hhigh; [done|lia].
Qed.

Lemma round_float_finite neg n d : (0 < d)%N -> (n < d * overflow)%N -> finite (round_float neg n d).
Proof.
  intros Hd Hn. unfold round_float. destruct (fit _ _ _ _) as [d' e] eqn:F.
  destruct (fit_in_range n d d' e Hd Hn F) as (j & Hj & Ed & Ee & Hlow & Hhigh).
  assert (0 < d')%N by (subst d'; apply N.mul_pos_pos; [done|apply N.neq_0_lt_0, N.pow_nonzero; done]).
  assert (round_even (n * 2 ^ 1074) d' <= 2 ^ 53)%N as Hub
    by (apply (round_even_bounds _ _ 0); lia).
  assert (j = O \/ (2 ^ 52 <= round_even (n * 2 ^ 1074) d')%N) as Hlb.
  { destruct Hlow as [|Hlow]; [by left|]. right. apply (round_even_bounds _ _ _ (2 ^ 53)); lia. }
  destruct (N.eqb_spec (round_even (n * 2 ^ 1074) d') (2 ^ 53)) as [E|E]; unfold finite; cbn [f_man f_exp].
  - split; [done|]. split; [|by left]. cut (j <> 2045)%nat; [lia|]. intros ->.
    cut (round_even (n * 2 ^ 1074) d' <= 2 ^ 53 - 1)%N; [rewrite E; lia|].
    apply (round_even_bounds _ _ 0); [done|lia|]. subst d'.
    assert (2 * (n * 2 ^ 1074) < d * (overflow * 2 ^ 1075))%N.
    { replace (2 * (n * 2 ^ 1074))%N with (n * 2 ^ 1075)%N by (change (2 ^ 1075)%N with (2 * 2 ^ 1074)%N; lia).
      rewrite N.mul_assoc. by apply N.mul_lt_mono_pos_r. }
    rewrite <- N.mul_assoc. eapply N.lt_le_trans; [done|]. apply N.mul_le_mono_l.
    apply N.leb_le. vm_compute. reflexivity.
  - split; [lia|]. split; [lia|]. destruct Hlb as [->|]; [right; lia|by left].
Qed.

Lemma digits_value_nonneg s a : (0 <= a)%Z -> (0 <= digits_value a s)%Z.
Proof. revert a. induction s as [|c s IH]; intros a Ha; cbn [digits_value]; [done|]. apply IH. lia. Qed.

Lemma parts_nonneg s m e : number_parts s = (m, e) -> (0 <= m)%Z.
Proof.
  unfold number_parts. destruct (span_digits s) as [i s1].
  destruct (match s1 with String "." s2 => _ | _ => _ end) as [f s2]. intros [= <- _].
  by apply digits_value_nonneg, digits_value_nonneg.
Qed.

Lemma parse_float64_finite l f : parse_float64 l = Some f -> finite f.
Proof.
  unfold parse_float64. rewrite in_range_parts.
  assert (exists neg s, (match l with String "-" s => s | s => s end) = s /\
            (match l with String "-" s => (true, s) | s => (false, s) end) = (neg, s)) as (neg & s & -> & ->).
  { destruct l as [|[[][][][][][][][]] l]; cbn; eauto. }
  destruct (number_parts s) as [m e10] eqn:E. apply parts_nonneg in E as Hm.
  destruct (parts_in_range (m, e10)) eqn:Hr; [|done]. intros [= <-]. unfold parts_in_range in Hr.
  assert (Z.of_N overflow = 2 ^ 1024 - 2 ^ 970)%Z as Hov by (vm_compute; reflexivity). rewrite <- Hov in Hr.
  assert (0 < overflow)%N as Hpos by done. clear Hov.
  destruct (Z.leb_spec 0 e10) as [He|He].
  - apply round_float_finite; [done|]. rewrite N.mul_1_l. apply N2Z.inj_lt.
    assert (0 < 10 ^ e10)%Z by (apply Z.pow_pos_nonneg; lia). rewrite Z2N.id by lia.
    destruct (Z.eqb_spec m 0) as [->|]; [lia|]. by apply Z.ltb_lt.
  - assert (0 < 10 ^ (- e10))%Z by (apply Z.pow_pos_nonneg; lia).
    apply round_float_finite; [lia|]. apply N2Z.inj_lt. rewrite N2Z.inj_mul, !Z2N.id by lia.
    destruct (Z.eqb_spec m 0) as [->|]; [lia|]. apply Z.ltb_lt in Hr. lia.
Qed.

#[export] Instance exact_format : FloatFormat := {|
  format_float64 := exact_text;
  format_lexeme f _ := exact_lexeme f;
  parse_format := parse_exact_text;
|}.

(** ** Integers below [2^53] keep their value *)

Lemma round_float_int neg n :
  (n < 2 ^ 53)%N ->
  f_neg (round_float neg n 1) = neg /\
  (f_man (round_float neg n 1) * 2 ^ Z.to_N (f_exp (round_float neg n 1) + 1074) = n * 2 ^ 1074)%N.
Proof.
  intros Hn. unfold round_float. destruct (fit _ _ _ _) as [d' e] eqn:F.
  assert (n < 1 * overflow)%N as Hov by (rewrite N.mul_1_l; eapply N.lt_trans; [done|by vm_compute]).
  destruct (fit_in_range n 1 d' e ltac:(done) Hov F) as (j & Hj & Ed & Ee & Hlow & Hhigh).
  rewrite N.mul_1_l in Ed. subst d' e.
  assert (j <= 1074)%nat as Hj'.
  { destruct (decide (j <= 1074)%nat) as [|Hbig]; [done|]. exfalso. destruct Hlow as [->|Hlow]; [lia|].
    assert (2 ^ 1075 <= 2 ^ N.of_nat j)%N by (apply N.pow_le_mono_r; lia).
    assert (2 ^ 1075 * 2 ^ 52 <= 2 ^ N.of_nat j * 2 ^ 52)%N by (by apply N.mul_le_mono_r).
    assert (n * 2 ^ 1074 < 2 ^ 53 * 2 ^ 1074)%N by (by apply N.mul_lt_mono_pos_r).
    change (2 ^ 1075 * 2 ^ 52)%N with (2 ^ 53 * 2 ^ 1074)%N in *. lia. }
  assert (n * 2 ^ 1074 = n * 2 ^ N.of_nat (1074 - j) * 2 ^ N.of_nat j)%N as E.
  { rewrite <- N.mul_assoc, <- N.pow_add_r. do 2 f_equal. lia. }
  rewrite E, round_even_exact by (apply N.neq_0_lt_0, N.pow_nonzero; done).
  rewrite E in Hhigh. rewrite (N.mul_comm _ (2 ^ 53)) in Hhigh. apply N.mul_lt_mono_pos_r in Hhigh; [|apply N.neq_0_lt_0, N.pow_nonzero; done].
  destruct (N.eqb_spec (n * 2 ^ N.of_nat (1074 - j)) (2 ^ 53)); [lia|]. cbn [f_neg f_man f_exp]. split; [done|].
  do 2 f_equal. lia.
Qed.

Lemma parse_decimalZ z :
  (Z.abs z < 2 ^ 53)%Z -> parse_float64 (decimalZ z) = Some (round_float (z <? 0)%Z (Z.abs_N z) 1).
Proof.
  intros Hz. assert (parse_float64 ((if (z <? 0)%Z then String "-" EmptyString else EmptyString) +:+ decimal (Z.abs_N z) +:+ EmptyString) =
          Some (round_float (z <? 0)%Z (Z.abs_N z) 1)) as E.
  { rewrite parse_exact by (apply (decimal_no_minus _ _ id) || apply (decimal_no_minus _ _ (pair true))).
    rewrite (proj1 (number_parts_exact _ 0)).
    pose proof (exact_in_range_int (Z.abs_N z) 0) as Hr. change (2 ^ Z.to_N 0)%N with 1%N in Hr. rewrite N.mul_1_r in Hr.
    rewrite Hr by (first [lia | apply N2Z.inj_lt; change (Z.of_N (2 ^ 53)) with (2 ^ 53)%Z; lia]).
    change (0 <=? 0)%Z with true. cbv iota. by rewrite Z.mul_1_r, N2Z.id. }
  rewrite string_app_nil_r in E. unfold decimalZ. by destruct (z <? 0)%Z.
Qed.

Lemma decimalZ_inj a b :
  (Z.abs a < 2 ^ 53)%Z -> (Z.abs b < 2 ^ 53)%Z -> parse_float64 (decimalZ a) = parse_float64 (decimalZ b) -> a = b.
Proof.
  intros Ha Hb. rewrite !parse_decimalZ by done. intros [= E].
  destruct (round_float_int (a <? 0)%Z (Z.abs_N a)) as [Sa Va]; [apply N2Z.inj_lt; change (Z.of_N (2 ^ 53)) with (2 ^ 53)%Z; lia|].
  destruct (round_float_int (b <? 0)%Z (Z.abs_N b)) as [Sb Vb]; [apply N2Z.inj_lt; change (Z.of_N (2 ^ 53)) with (2 ^ 53)%Z; lia|].
  rewrite E in Sa, Va. rewrite Sa in Sb. rewrite Va in Vb. apply N.mul_cancel_r in Vb; [|done]. lia.
Qed.
