(* ===== verification/Quote.v ===== *)
(** * Strings in JSON text

    json.Marshal of a string ([escape], [quote]) and the decoder of
    [GoJson.unquote]: a marshalled string decodes to itself with invalid
    bytes replaced ([to_valid]), and every decoded string is UTF-8. *)

From S2P Require Import Prelude GoJson Sha256 Bytes.
From Stdlib Require Import Ascii.

(** ** json.Marshal of a string *)

Definition hex_lower (d : N) : ascii := if (d <? 10)%N then chr (48 + d) else chr (87 + d).

(** The escape of a byte below 128, or [None] when it is copied. *)
Definition escape_ascii (c : ascii) : option string :=
  if Ascii.eqb c dquote then Some (String "\" (String dquote EmptyString))
  else if Ascii.eqb c "\" then Some "\\"
  else if (code c =? 8)%N then Some "\b"
  else if (code c =? 9)%N then Some "\t"
  else if (code c =? 10)%N then Some "\n"
  else if (code c =? 12)%N then Some "\f"
  else if (code c =? 13)%N then Some "\r"
  else if (code c <? 32)%N then
    Some ("\u00" +:+ String (hex_lower (code c / 16)) (String (hex_lower (code c mod 16)) EmptyString))
  else html_escape c.

Definition line_separator (c c2 c3 : ascii) : option string :=
  if (code c =? 226)%N && (code c2 =? 128)%N && (code c3 =? 168)%N then Some "\u2028"
  else if (code c =? 226)%N && (code c2 =? 128)%N && (code c3 =? 169)%N then Some "\u2029"
  else None.

(** The text between the quotes: bytes that are not UTF-8 become U+FFFD. *)
Fixpoint escape (s : string) : string :=
  match s with
  | EmptyString => EmptyString
  | String c s1 =>
      if (code c <? 128)%N then
        default (String c EmptyString) (escape_ascii c) +:+ escape s1
      else if in_range 194 223 c then
        match s1 with
        | String c2 s2 =>
            if is_cont c2 then String c (String c2 (escape s2)) else "\ufffd" +:+ escape s1
        | EmptyString => "\ufffd" +:+ escape s1
        end
      else if in_range 224 239 c then
        match s1 with
        | String c2 (String c3 s3) =>
            if utf8_second_ok c c2 && is_cont c3
            then default (String c (String c2 (String c3 EmptyString))) (line_separator c c2 c3) +:+ escape s3
            else "\ufffd" +:+ escape s1
        | _ => "\ufffd" +:+ escape s1
        end
      else if in_range 240 244 c then
        match s1 with
        | String c2 (String c3 (String c4 s4)) =>
            if utf8_second_ok c c2 && is_cont c3 && is_cont c4
            then String c (String c2 (String c3 (String c4 (escape s4))))
            else "\ufffd" +:+ escape s1
        | _ => "\ufffd" +:+ escape s1
        end
      else "\ufffd" +:+ escape s1
  end.

(** What such a text decodes to again. *)
Fixpoint to_valid (s : string) : string :=
  match s with
  | EmptyString => EmptyString
  | String c s1 =>
      if (code c <? 128)%N then String c (to_valid s1)
      else if in_range 194 223 c then
        match s1 with
        | String c2 s2 =>
            if is_cont c2 then String c (String c2 (to_valid s2)) else replacement +:+ to_valid s1
        | EmptyString => replacement +:+ to_valid s1
        end
      else if in_range 224 239 c then
        match s1 with
        | String c2 (String c3 s3) =>
            if utf8_second_ok c c2 && is_cont c3
            then String c (String c2 (String c3 (to_valid s3)))
            else replacement +:+ to_valid s1
        | _ => replacement +:+ to_valid s1
        end
      else if in_range 240 244 c then
        match s1 with
        | String c2 (String c3 (String c4 s4)) =>
            if utf8_second_ok c c2 && is_cont c3 && is_cont c4
            then String c (String c2 (String c3 (String c4 (to_valid s4))))
            else replacement +:+ to_valid s1
        | _ => replacement +:+ to_valid s1
        end
      else replacement +:+ to_valid s1
  end.

Definition quote (s : string) : string := String dquote (escape s +:+ String dquote EmptyString).

(** ** Lemmas on strings *)

Lemma all_ascii (P : ascii -> bool) :
  forallb P (chr <$> (N.of_nat <$> seq 0 256)) = true -> forall c, P c = true.
Proof.
  intros H c. rewrite forallb_forall in H. apply H. apply list_elem_of_In, list_elem_of_fmap.
  exists (code c). split; [unfold chr, code; by rewrite ascii_N_embedding|].
  apply list_elem_of_fmap. exists (N.to_nat (code c)). split; [lia|]. apply elem_of_seq.
  pose proof (N_ascii_bounded c). unfold code. lia.
Qed.

(** One escaped byte decodes to the byte. *)
Lemma unquote_escape_ascii c rest :
  (code c < 128)%N -> unquote (default (String c EmptyString) (escape_ascii c) +:+ rest) = prepend (String c EmptyString) (unquote rest).
Proof.
  intros Hc.
  assert (forall c0, implb (code c0 <? 128)%N
     (match default (String c0 EmptyString) (escape_ascii c0) with
      | String a EmptyString => Ascii.eqb a c0 && negb (Ascii.eqb a dquote) && negb (Ascii.eqb a "\") && negb (code a <? 32)%N
      | String a (String e EmptyString) => Ascii.eqb a "\" && negb (Ascii.eqb e "u") && bool_decide (simple_escape e = Some c0)
      | String a (String e (String h1 (String h2 (String h3 (String h4 EmptyString))))) =>
          Ascii.eqb a "\" && Ascii.eqb e "u" &&
          match rune4 h1 h2 h3 h4 with
          | Some r => negb (is_high r) && negb (is_low r) && bool_decide (utf8_encode r = String c0 EmptyString)
          | None => false
          end
      | _ => false
      end) = true) as H by (apply all_ascii; vm_compute; reflexivity).
  specialize (H c). rewrite (proj2 (N.ltb_lt _ _) Hc) in H. cbn [implb] in H.
  destruct (default _ _) as [|a [|e [|h1 [|h2 [|h3 [|h4 [|]]]]]]]; try done; rewrite !andb_true_iff in H.
  - destruct H as [[[Ha%Ascii.eqb_eq H1] H2] H3]. subst a. rewrite append_cons, append_nil_l. cbn [unquote].
    rewrite negb_true_iff in H1, H2, H3. rewrite H1, H2, H3, (proj2 (N.ltb_lt _ _) Hc). done.
  - destruct H as [[Ha%Ascii.eqb_eq H1] H2%bool_decide_eq_true]. subst a. rewrite !append_cons, append_nil_l. cbn [unquote].
    change (Ascii.eqb "\" dquote) with false. change (Ascii.eqb "\" "\") with true. cbv iota.
    rewrite negb_true_iff in H1. by rewrite H1, H2.
  - destruct H as [[Ha%Ascii.eqb_eq H1%Ascii.eqb_eq] H2]. subst a e. rewrite !append_cons, append_nil_l. cbn [unquote].
    change (Ascii.eqb "\" dquote) with false. change (Ascii.eqb "\" "\") with true. change (Ascii.eqb "u" "u") with true. cbv iota.
    destruct (rune4 h1 h2 h3 h4) as [r|]; [|done]. rewrite !andb_true_iff, !negb_true_iff in H2.
    destruct H2 as [[-> ->] ->%bool_decide_eq_true]. done.
Qed.

Lemma prepend_app a b r : prepend a (prepend b r) = prepend (a +:+ b) r.
Proof. destruct r as [[t rest]|]; cbn; [|done]. by rewrite string_app_assoc. Qed.

Lemma unquote_replacement rest : unquote ("\ufffd" +:+ rest) = prepend replacement (unquote rest).
Proof.
  rewrite !append_cons, append_nil_l. cbn [unquote].
  change (Ascii.eqb "\" dquote) with false. change (Ascii.eqb "\" "\") with true. change (Ascii.eqb "u" "u") with true. cbv iota.
  change (rune4 "f" "f" "f" "d") with (Some 65533%N). cbv iota beta. done.
Qed.

Lemma unquote_separator c c2 c3 e rest :
  line_separator c c2 c3 = Some e -> unquote (e +:+ rest) = prepend (String c (String c2 (String c3 EmptyString))) (unquote rest).
Proof.
  unfold line_separator. intros H.
  assert (c = chr 226 /\ c2 = chr 128 /\ (c3 = chr 168 /\ e = "\u2028" \/ c3 = chr 169 /\ e = "\u2029")) as (-> & -> & [[-> ->]|[-> ->]]).
  { destruct ((code c =? 226)%N && (code c2 =? 128)%N && (code c3 =? 168)%N) eqn:E1;
      [|destruct ((code c =? 226)%N && (code c2 =? 128)%N && (code c3 =? 169)%N) eqn:E2; [|done]];
      rewrite ?andb_true_iff, ?N.eqb_eq in *; [destruct E1 as [[A B] C] | destruct E2 as [[A B] C]];
      apply (f_equal chr) in A, B, C; unfold chr, code in A, B, C; rewrite ascii_N_embedding in A, B, C;
      injection H as <-; subst; auto. }
  - rewrite !append_cons, append_nil_l. cbn [unquote].
    change (Ascii.eqb "\" dquote) with false. change (Ascii.eqb "\" "\") with true. change (Ascii.eqb "u" "u") with true. cbv iota.
    change (rune4 "2" "0" "2" "8") with (Some 8232%N). cbv iota beta. done.
  - rewrite !append_cons, append_nil_l. cbn [unquote].
    change (Ascii.eqb "\" dquote) with false. change (Ascii.eqb "\" "\") with true. change (Ascii.eqb "u" "u") with true. cbv iota.
    change (rune4 "2" "0" "2" "9") with (Some 8233%N). cbv iota beta. done.
Qed.

(** The tests [unquote] makes on a byte of a multi-byte rune. *)
Lemma high_byte c :
  (128 <= code c)%N -> Ascii.eqb c dquote = false /\ Ascii.eqb c "\" = false /\ (code c <? 32)%N = false /\ (code c <? 128)%N = false.
Proof.
  intros Hc. repeat split; try (apply N.ltb_ge; lia); apply Ascii.eqb_neq; intros ->; vm_compute in Hc; by apply Hc.
Qed.

Lemma unquote_escape_go n s rest :
  (String.length s <= n)%nat -> unquote (escape s +:+ String dquote rest) = Some (to_valid s, rest).
Proof.
  revert s. induction n as [|n IH]; intros [|c s] Hn; cbn [String.length] in Hn; try lia; try done.
  cbn [escape to_valid]. destruct (N.ltb_spec (code c) 128) as [Hc|Hc].
  { rewrite string_app_assoc, unquote_escape_ascii, IH by lia. done. }
  destruct (high_byte c Hc) as (Q1 & Q2 & Q3 & Q4).
  assert (unquote ("\ufffd" +:+ escape s +:+ String dquote rest) = Some (replacement +:+ to_valid s, rest)) as Hrep
    by (rewrite unquote_replacement, IH by lia; done).
  destruct (in_range 194 223 c) eqn:R2; [|destruct (in_range 224 239 c) eqn:R3; [|destruct (in_range 240 244 c) eqn:R4]].
  - destruct s as [|c2 s2]; [by rewrite string_app_assoc, Hrep|].
    destruct (is_cont c2) eqn:C2; [|by rewrite string_app_assoc, Hrep].
    rewrite !append_cons. cbn [unquote]. rewrite Q1, Q2, Q3, Q4, R2, C2. cbn [String.length] in Hn. rewrite IH by lia. done.
  - destruct s as [|c2 [|c3 s3]]; [by rewrite string_app_assoc, Hrep..|].
    destruct (utf8_second_ok c c2 && is_cont c3) eqn:C; [|by rewrite string_app_assoc, Hrep].
    cbn [String.length] in Hn. destruct (line_separator c c2 c3) as [e|] eqn:L; cbn [default].
    + rewrite string_app_assoc, (unquote_separator _ _ _ _ _ L), IH by lia. done.
    + rewrite string_app_assoc, !append_cons, append_nil_l. cbn [unquote]. rewrite Q1, Q2, Q3, Q4, R2, R3, C, IH by lia. done.
  - destruct s as [|c2 [|c3 [|c4 s4]]]; [by rewrite string_app_assoc, Hrep..|].
    destruct (utf8_second_ok c c2 && is_cont c3 && is_cont c4) eqn:C; [|by rewrite string_app_assoc, Hrep].
    cbn [String.length] in Hn. rewrite !append_cons. cbn [unquote]. rewrite Q1, Q2, Q3, Q4, R2, R3, R4, C, IH by lia. done.
  - by rewrite string_app_assoc, Hrep.
Qed.

(** A marshalled string decodes to the same string, with invalid bytes replaced. *)
Lemma unquote_quote s rest : unquote (escape s +:+ String dquote rest) = Some (to_valid s, rest).
Proof. by eapply unquote_escape_go. Qed.

(** ** Decoded strings are UTF-8 *)

(** A chunk that [to_valid] copies as a unit. *)
Definition valid_chunk (c : string) : Prop := forall t, to_valid (c +:+ t) = c +:+ to_valid t.

Lemma valid_ascii c : (code c < 128)%N -> valid_chunk (String c EmptyString).
Proof. intros Hc t. rewrite !append_cons, append_nil_l. cbn [to_valid]. by rewrite (proj2 (N.ltb_lt _ _) Hc). Qed.

Lemma valid_two c c2 : in_range 194 223 c = true -> is_cont c2 = true -> valid_chunk (String c (String c2 EmptyString)).
Proof.
  intros R C t. rewrite !append_cons, append_nil_l. cbn [to_valid]. rewrite R, C.
  unfold in_range in R. rewrite andb_true_iff, !N.leb_le in R. destruct (N.ltb_spec (code c) 128); [lia|done].
Qed.

Lemma valid_three c c2 c3 :
  in_range 224 239 c = true -> utf8_second_ok c c2 = true -> is_cont c3 = true -> valid_chunk (String c (String c2 (String c3 EmptyString))).
Proof.
  intros R S C t. rewrite !append_cons, append_nil_l. cbn [to_valid]. rewrite R, S, C.
  unfold in_range in R |- *. rewrite andb_true_iff, !N.leb_le in R.
  destruct (N.ltb_spec (code c) 128); [lia|]. destruct (N.leb_spec (code c) 223); [lia|]. by rewrite andb_false_r.
Qed.

Lemma valid_four c c2 c3 c4 :
  in_range 240 244 c = true -> utf8_second_ok c c2 = true -> is_cont c3 = true -> is_cont c4 = true ->
  valid_chunk (String c (String c2 (String c3 (String c4 EmptyString)))).
Proof.
  intros R S C D t. rewrite !append_cons, append_nil_l. cbn [to_valid]. rewrite R, S, C, D.
  unfold in_range in R |- *. rewrite andb_true_iff, !N.leb_le in R.
  destruct (N.ltb_spec (code c) 128); [lia|]. destruct (N.leb_spec (code c) 223); [lia|].
  destruct (N.leb_spec (code c) 239); [lia|]. by rewrite !andb_false_r.
Qed.

#[local] Ltac Zify.zify_post_hook ::= Z.to_euclidean_division_equations.

Lemma cont_byte n : is_cont (chr (128 + n mod 64)) = true.
Proof.
  unfold is_cont, in_range. assert (n mod 64 < 64)%N by (apply N.mod_lt; done).
  rewrite code_chr by lia. rewrite andb_true_iff, !N.leb_le. lia.
Qed.

Lemma valid_encode r : (r < 1114112)%N -> is_high r = false -> is_low r = false -> valid_chunk (utf8_encode r).
Proof.
  unfold is_high, is_low, utf8_encode. intros Hr Hh Hl.
  destruct (N.ltb_spec r 128); [apply valid_ascii; rewrite code_chr by lia; done|].
  destruct (N.ltb_spec r 2048).
  { apply valid_two; [|apply cont_byte]. unfold in_range. rewrite code_chr, andb_true_iff, !N.leb_le by lia. lia. }
  destruct (N.ltb_spec r 65536).
  - apply valid_three; [|unfold utf8_second_ok; rewrite (code_chr (224 + _)) by lia|apply cont_byte].
    { unfold in_range. rewrite code_chr, andb_true_iff, !N.leb_le by lia. lia. }
    destruct (N.eqb_spec (224 + r / 4096) 224); [unfold in_range; rewrite code_chr, andb_true_iff, !N.leb_le by lia; lia|].
    destruct (N.eqb_spec (224 + r / 4096) 237).
    { unfold in_range. rewrite code_chr, andb_true_iff, !N.leb_le by lia.
      destruct (N.leb_spec 55296 r), (N.ltb_spec r 56320), (N.leb_spec 56320 r), (N.ltb_spec r 57344); try discriminate; lia. }
    destruct (N.eqb_spec (224 + r / 4096) 240); [lia|]. destruct (N.eqb_spec (224 + r / 4096) 244); [lia|]. apply cont_byte.
  - apply valid_four; [|unfold utf8_second_ok; rewrite (code_chr (240 + _)) by lia|apply cont_byte..].
    { unfold in_range. rewrite code_chr, andb_true_iff, !N.leb_le by lia. lia. }
    destruct (N.eqb_spec (240 + r / 262144) 224); [lia|]. destruct (N.eqb_spec (240 + r / 262144) 237); [lia|].
    destruct (N.eqb_spec (240 + r / 262144) 240); [unfold in_range; rewrite code_chr, andb_true_iff, !N.leb_le by lia; lia|].
    destruct (N.eqb_spec (240 + r / 262144) 244); [unfold in_range; rewrite code_chr, andb_true_iff, !N.leb_le by lia; lia|].
    apply cont_byte.
Qed.

Lemma hexval_bound c n : hexval c = Some n -> (n < 16)%N.
Proof.
  unfold hexval, is_digit, in_range. repeat case_match; intros [= <-];
    rewrite andb_true_iff, !N.leb_le in *; lia.
Qed.

Lemma rune4_bound a b c d r : rune4 a b c d = Some r -> (r < 65536)%N.
Proof.
  unfold rune4. destruct (hexval a) eqn:Ea, (hexval b) eqn:Eb, (hexval c) eqn:Ec, (hexval d) eqn:Ed; try done.
  apply hexval_bound in Ea, Eb, Ec, Ed. intros [= <-]. lia.
Qed.

#[local] Ltac Zify.zify_post_hook ::= idtac.

Lemma surrogates_bound hi lo :
  is_high hi = true -> is_low lo = true ->
  (combine_surrogates hi lo < 1114112)%N /\ is_high (combine_surrogates hi lo) = false /\ is_low (combine_surrogates hi lo) = false.
Proof.
  unfold is_high, is_low, combine_surrogates. rewrite !andb_true_iff, !andb_false_iff, !N.leb_le, !N.ltb_lt, !N.leb_gt, !N.ltb_ge. lia.
Qed.

Lemma prepend_valid chunk s t r :
  valid_chunk chunk -> prepend chunk (unquote s) = Some (t, r) ->
  (forall t' r', unquote s = Some (t', r') -> to_valid t' = t') -> to_valid t = t.
Proof.
  intros Hc. destruct (unquote s) as [[t' r']|]; [|done]. intros [= <- <-] IH. by rewrite Hc, (IH t' r').
Qed.

Lemma replacement_valid : valid_chunk replacement.
Proof. by apply valid_encode. Qed.

Lemma simple_escape_ascii e d : simple_escape e = Some d -> (code d < 128)%N.
Proof. unfold simple_escape. repeat case_match; intros [= <-]; done. Qed.

Lemma unquote_valid_go n s t r : (String.length s <= n)%nat -> unquote s = Some (t, r) -> to_valid t = t.
Proof.
  revert s t r. induction n as [|n IH]; intros [|c s] t r Hn; cbn [String.length] in Hn; try lia; try done.
  cbn [unquote].
  repeat match goal with
  | |- context [match rune4 ?a ?b ?c ?d with _ => _ end] => let E := fresh "E" in destruct (rune4 a b c d) eqn:E
  | |- context [match simple_escape ?e with _ => _ end] => let E := fresh "E" in destruct (simple_escape e) eqn:E
  | |- context [match low_surrogate ?a ?b ?c ?d ?e ?f with _ => _ end] => let E := fresh "L" in destruct (low_surrogate a b c d e f) eqn:E
  | |- context [if ?b then _ else _] => let E := fresh "B" in destruct b eqn:E
  | |- context [match ?s with EmptyString => _ | String _ _ => _ end] => is_var s; destruct s
  end; try done; cbn [String.length] in Hn; try (intros [= <- <-]; done);
  intros H; (eapply prepend_valid; [ |exact H|intros; eapply IH; [|eassumption]; cbn [String.length]; lia]);
  try apply replacement_valid;
  repeat match goal with B : _ && _ = true |- _ => apply andb_true_iff in B as [? ?] end;
  try (by first [apply valid_two | apply valid_three | apply valid_four]).
  all: try (apply valid_ascii; apply N.ltb_lt; assumption).
  all: try (apply valid_ascii; eapply simple_escape_ascii; eassumption).
  all: try (apply valid_encode; [match goal with E : rune4 _ _ _ _ = _ |- _ => apply rune4_bound in E end; lia|assumption|assumption]).
  all: unfold low_surrogate in *; repeat case_match; simplify_eq; by apply valid_encode; apply surrogates_bound.
Qed.

Lemma unquote_valid s t r : unquote s = Some (t, r) -> to_valid t = t.
Proof. by eapply unquote_valid_go. Qed.

Lemma to_valid_idem s : to_valid (to_valid s) = to_valid s.
Proof. eapply unquote_valid. apply (unquote_quote s EmptyString). Qed.
