(* ===== verification/Canonical.v ===== *)
(** * Canonical JSON: internal/audit/canonical.go

    The bytes the audit hash covers: json.Unmarshal into an [any], and
    [writeCanonical], which prints the decoded value with
    sorted keys.  The canonical text parses back to the value it was written
    from, so values with equal texts are equal. *)

From S2P Require Import Prelude GoJson Float64 Quote.
From Stdlib Require Import Ascii.

(** ** A number followed by a delimiter *)

Lemma span_digits_ext s d r t :
  number_end t = true -> span_digits s = (d, r) -> span_digits (s +:+ t) = (d, r +:+ t).
Proof.
  intros Ht. revert d r. induction s as [|c s IH]; intros d r; cbn [span_digits].
  - intros [= <- <-]. rewrite append_nil_l. destruct t as [|c t]; [done|]. apply number_digits_end in Ht.
    cbn in Ht |- *. by destruct (is_digit c).
  - rewrite append_cons. cbn [span_digits]. destruct (is_digit c).
    + destruct (span_digits s) as [d' r']. rewrite (IH d' r' eq_refl). by intros [= <- <-].
    + by intros [= <- <-].
Qed.

Lemma lex_exponent_ext s e r t :
  number_end t = true -> lex_exponent s = Some (e, r) -> lex_exponent (s +:+ t) = Some (e, r +:+ t).
Proof.
  intros Ht. destruct s as [|c s]; [intros [= <- <-]; rewrite !append_nil_l; by apply lex_exponent_end|].
  rewrite append_cons. cbn [lex_exponent]. destruct (Ascii.eqb c "e" || Ascii.eqb c "E"); [|by intros [= <- <-]].
  destruct s as [|c2 s2]; [done|]. rewrite append_cons.
  destruct (Ascii.eqb c2 "+" || Ascii.eqb c2 "-"); cbv iota beta.
  - destruct (span_digits s2) as [d r'] eqn:E. rewrite (span_digits_ext _ _ _ _ Ht E).
    destruct d; [done|]. by intros [= <- <-].
  - rewrite <- append_cons. destruct (span_digits (String c2 s2)) as [d r'] eqn:E. rewrite (span_digits_ext _ _ _ _ Ht E).
    destruct d; [done|]. by intros [= <- <-].
Qed.

Lemma lex_fraction_ext s f r t :
  number_end t = true -> lex_fraction s = Some (f, r) -> lex_fraction (s +:+ t) = Some (f, r +:+ t).
Proof.
  intros Ht. destruct s as [|c s]; [intros [= <- <-]; rewrite !append_nil_l; by apply lex_fraction_end|].
  rewrite append_cons. cbn [lex_fraction]. destruct (Ascii.eqb c "."); [|by intros [= <- <-]].
  destruct (span_digits s) as [d r'] eqn:E. rewrite (span_digits_ext _ _ _ _ Ht E).
  destruct d; [done|]. by intros [= <- <-].
Qed.

Lemma lex_int_ext s i r t :
  number_end t = true -> lex_int s = Some (i, r) -> lex_int (s +:+ t) = Some (i, r +:+ t).
Proof.
  intros Ht. destruct s as [|c s]; [done|]. rewrite append_cons. cbn [lex_int].
  destruct (Ascii.eqb c "0"); [by intros [= <- <-]|]. destruct (is_digit c); [|done].
  destruct (span_digits s) as [d r'] eqn:E. rewrite (span_digits_ext _ _ _ _ Ht E). by intros [= <- <-].
Qed.

Lemma lex_number_ext s l r t :
  number_end t = true -> lex_number s = Some (l, r) -> lex_number (s +:+ t) = Some (l, r +:+ t).
Proof.
  intros Ht. unfold lex_number. destruct (lex_sign s) as [sg s0] eqn:Es.
  destruct (lex_int s0) as [[i s1]|] eqn:Ei; [|done].
  assert (lex_sign (s +:+ t) = (sg, s0 +:+ t)) as ->.
  { destruct s as [|c s]; [injection Es as <- <-; done|]. rewrite append_cons. cbn [lex_sign] in Es |- *.
    destruct (Ascii.eqb c "-"); injection Es as <- <-; done. }
  rewrite (lex_int_ext _ _ _ _ Ht Ei). destruct (lex_fraction s1) as [[f s2]|] eqn:Ef; [|done].
  rewrite (lex_fraction_ext _ _ _ _ Ht Ef). destruct (lex_exponent s2) as [[e s3]|] eqn:Ee; [|done].
  rewrite (lex_exponent_ext _ _ _ _ Ht Ee). by intros [= <- <-].
Qed.

(** A number starts with a sign or a digit, so no other value is tried. *)
Definition number_head (c : ascii) : bool :=
  negb (is_space c) && negb (Ascii.eqb c dquote) && negb (Ascii.eqb c "{") && negb (Ascii.eqb c "[") &&
  negb (Ascii.eqb c "t") && negb (Ascii.eqb c "f") && negb (Ascii.eqb c "n") && negb (Ascii.eqb c "]") && negb (Ascii.eqb c "}").

Lemma lex_number_head s l r : lex_number s = Some (l, r) -> exists c s', s = String c s' /\ number_head c = true.
Proof.
  intros H. destruct s as [|c s]; [done|]. exists c, s. split; [done|].
  assert (forall c0, implb (Ascii.eqb c0 "-" || is_digit c0) (number_head c0) = true) as Hall by (apply all_ascii; vm_compute; reflexivity).
  specialize (Hall c). destruct (number_head c); [done|]. exfalso. rewrite implb_false_r, negb_true_iff, orb_false_iff in Hall.
  destruct Hall as [H1 H2]. unfold lex_number in H. cbn [lex_sign] in H. rewrite H1 in H. cbn [lex_int] in H. rewrite H2 in H.
  destruct (Ascii.eqb c "0") eqn:E0; [|done]. apply Ascii.eqb_eq in E0 as ->. done.
Qed.

(** ** Printing a JSON value without white space *)

Fixpoint commas (l : list string) : string :=
  match l with
  | [] => EmptyString
  | [x] => x
  | x :: l' => x +:+ String "," (commas l')
  end.

Fixpoint print (v : json) : string :=
  match v with
  | JNull => "null"
  | JBool true => "true"
  | JBool false => "false"
  | JNum l => l
  | JStr s => quote s
  | JArr xs => String "[" (commas (print <$> xs) +:+ "]")
  | JObj fs => String "{" (commas ((fun kv => quote kv.1 +:+ String ":" (print kv.2)) <$> fs) +:+ "}")
  end.

(** Induction over the nested lists. *)
Section json_ind'.
Context (P : json -> Prop).
Context (Hnull : P JNull) (Hbool : forall b, P (JBool b)) (Hnum : forall l, P (JNum l)) (Hstr : forall s, P (JStr s)).
Context (Harr : forall xs, Forall P xs -> P (JArr xs)) (Hobj : forall fs, Forall (fun kv => P kv.2) fs -> P (JObj fs)).
Fixpoint json_ind' (v : json) : P v :=
  match v with
  | JNull => Hnull
  | JBool b => Hbool b
  | JNum l => Hnum l
  | JStr s => Hstr s
  | JArr xs => Harr xs ((fix go xs : Forall P xs :=
      match xs with [] => Forall_nil_2 _ | x :: xs' => Forall_cons_2 _ _ _ (json_ind' x) (go xs') end) xs)
  | JObj fs => Hobj fs ((fix go fs : Forall (fun kv => P kv.2) fs :=
      match fs with [] => Forall_nil_2 _ | kv :: fs' => Forall_cons_2 (fun kv => P kv.2) kv fs' (json_ind' kv.2) (go fs') end) fs)
  end.
End json_ind'.

(** Values whose printed text is JSON of the same value: numbers are JSON
    numbers and strings are UTF-8. *)
Fixpoint printable (v : json) : Prop :=
  match v with
  | JNum l => lex_number l = Some (l, EmptyString)
  | JStr s => to_valid s = s
  | JArr xs => foldr (fun x p => printable x /\ p) True xs
  | JObj fs => foldr (fun kv p => (to_valid kv.1 = kv.1 /\ printable kv.2) /\ p) True fs
  | _ => True
  end.

Fixpoint jdepth (v : json) : N :=
  match v with
  | JArr xs => 1 + foldr (fun x d => N.max (jdepth x) d) 0 xs
  | JObj fs => 1 + foldr (fun kv d => N.max (jdepth kv.2) d) 0 fs
  | _ => 0
  end%N.

Lemma skip_ws_head c s : is_space c = false -> skip_ws (String c s) = String c s.
Proof. intros H. cbn [skip_ws]. by rewrite H. Qed.

Lemma print_head v : printable v -> exists c s, print v = String c s /\ is_space c = false /\ Ascii.eqb c "]" = false.
Proof.
  destruct v as [|[]|l|t|xs|fs]; cbn [print printable]; intros Hp; try (do 2 eexists; by split; [reflexivity|]).
  destruct (lex_number_head _ _ _ Hp) as (c & s' & -> & Hc). exists c, s'. split; [done|].
  unfold number_head in Hc. rewrite !andb_true_iff, !negb_true_iff in Hc. tauto.
Qed.

Lemma expect_same c s : is_space c = false -> expect c (String c s) = Some s.
Proof. intros H. unfold expect. rewrite skip_ws_head by done. by rewrite Ascii.eqb_refl. Qed.

Lemma expect_other c c' s : is_space c' = false -> Ascii.eqb c' c = false -> expect c (String c' s) = None.
Proof. intros H E. unfold expect. rewrite skip_ws_head by done. by rewrite E. Qed.

Definition parses {A} (parse : nat -> N -> string -> option (A * string)) (d : N) (text rest : string) (a : A) : Prop :=
  exists n, forall m, (n <= m)%nat -> parse m d (text +:+ rest) = Some (a, rest).

Definition print_member (kv : string * json) : string := quote kv.1 +:+ String ":" (print kv.2).

Lemma member_key_print k s : to_valid k = k -> member_key (quote k +:+ String ":" s) = Some (k, s).
Proof.
  intros Hk. unfold member_key, quote. rewrite append_cons, expect_same by done.
  rewrite string_app_assoc, append_cons, append_nil_l, unquote_quote, Hk, expect_same by done. done.
Qed.

Lemma parses_elems d xs rest :
  xs <> [] -> Forall (fun x => forall rest, number_end rest = true -> parses parse_value d (print x) rest x) xs ->
  exists n, forall m, (n <= m)%nat -> parse_elems m d (commas (print <$> xs) +:+ String "]" rest) = Some (xs, rest).
Proof.
  intros Hne HF. induction HF as [|x xs Hx HF IH]; [done|]. destruct xs as [|y xs].
  - destruct (Hx (String "]" rest) eq_refl) as [n Hn]. exists (S n). intros [|m] Hm; [lia|].
    cbn [parse_elems fmap list_fmap commas]. rewrite Hn by lia. by rewrite expect_same.
  - destruct IH as [n1 H1]; [done|].
    destruct (Hx (String "," (commas (print <$> y :: xs) +:+ String "]" rest)) eq_refl) as [n2 H2].
    exists (S (n1 + n2)). intros [|m] Hm; [lia|].
    change (commas (print <$> x :: y :: xs)) with (print x +:+ String "," (commas (print <$> y :: xs))).
    cbn [parse_elems]. rewrite string_app_assoc, append_cons, H2 by lia.
    rewrite expect_other, expect_same, H1 by (done || lia). done.
Qed.

Lemma parses_members d fs rest :
  fs <> [] ->
  Forall (fun kv => to_valid kv.1 = kv.1 /\ forall rest, number_end rest = true -> parses parse_value d (print kv.2) rest kv.2) fs ->
  exists n, forall m, (n <= m)%nat -> parse_members m d (commas (print_member <$> fs) +:+ String "}" rest) = Some (fs, rest).
Proof.
  intros Hne HF. induction HF as [|[k x] fs [Hk Hx] HF IH]; [done|]. cbn [fst snd] in Hk, Hx. destruct fs as [|y fs].
  - destruct (Hx (String "}" rest) eq_refl) as [n Hn]. exists (S n). intros [|m] Hm; [lia|].
    cbn [parse_members fmap list_fmap commas]. unfold print_member. cbn [fst snd].
    rewrite string_app_assoc, append_cons, member_key_print, Hn by (done || lia). by rewrite expect_same.
  - destruct IH as [n1 H1]; [done|].
    destruct (Hx (String "," (commas (print_member <$> y :: fs) +:+ String "}" rest)) eq_refl) as [n2 H2].
    exists (S (n1 + n2)). intros [|m] Hm; [lia|].
    change (commas (print_member <$> (k, x) :: y :: fs)) with (print_member (k, x) +:+ String "," (commas (print_member <$> y :: fs))).
    unfold print_member at 1. cbn [fst snd parse_members].
    rewrite !string_app_assoc, !append_cons, member_key_print, H2 by (done || lia).
    rewrite expect_other, expect_same, H1 by (done || lia). done.
Qed.

Lemma commas_cons_head x l : exists t, commas (x :: l) = x +:+ t.
Proof. destruct l; [exists EmptyString; by rewrite string_app_nil_r|eexists; reflexivity]. Qed.

Lemma parse_array d xs rest :
  printable (JArr xs) -> (d + jdepth (JArr xs) <= max_nesting_depth)%N ->
  Forall (fun x => forall rest, number_end rest = true -> parses parse_value (d + 1) (print x) rest x) xs ->
  parses parse_value d (print (JArr xs)) rest (JArr xs).
Proof.
  intros Hp Hd HF. cbn [print printable jdepth] in *. destruct xs as [|x xs].
  { exists 1. intros [|m] ?; [lia|]. cbn [fmap list_fmap commas]. rewrite append_nil_l, !append_cons, append_nil_l.
    cbn [parse_value]. rewrite skip_ws_head by done.
    change (Ascii.eqb "[" dquote) with false. change (Ascii.eqb "[" "{") with false. change (Ascii.eqb "[" "[") with true. cbv iota.
    destruct (N.ltb_spec max_nesting_depth (d + 1)); [cbn [foldr] in Hd; lia|]. by rewrite expect_same. }
  destruct (parses_elems (d + 1) (x :: xs) rest ltac:(done) HF) as [n Hn]. exists (S n). intros [|m] ?; [lia|].
  rewrite !append_cons, string_app_assoc, append_cons, append_nil_l.
  cbn [parse_value]. rewrite skip_ws_head by done.
  change (Ascii.eqb "[" dquote) with false. change (Ascii.eqb "[" "{") with false. change (Ascii.eqb "[" "[") with true. cbv iota.
  destruct (N.ltb_spec max_nesting_depth (d + 1)); [lia|]. rewrite Hn by lia.
  destruct (print_head x (proj1 Hp)) as (c & s & Ec & Hs & Hb). destruct (commas_cons_head (print x) (print <$> xs)) as [t Et].
  cbn [fmap list_fmap]. rewrite Et, Ec, !append_cons. by rewrite expect_other.
Qed.

Lemma parse_object d fs rest :
  (d + jdepth (JObj fs) <= max_nesting_depth)%N ->
  Forall (fun kv => to_valid kv.1 = kv.1 /\ forall rest, number_end rest = true -> parses parse_value (d + 1) (print kv.2) rest kv.2) fs ->
  parses parse_value d (print (JObj fs)) rest (JObj fs).
Proof.
  intros Hd HF. change (print (JObj fs)) with (String "{" (commas (print_member <$> fs) +:+ "}")) in *.
  cbn [jdepth] in Hd. destruct fs as [|kv fs].
  { exists 1. intros [|m] ?; [lia|]. cbn [fmap list_fmap commas]. rewrite append_nil_l, !append_cons, append_nil_l.
    cbn [parse_value]. rewrite skip_ws_head by done.
    change (Ascii.eqb "{" dquote) with false. change (Ascii.eqb "{" "{") with true. cbv iota.
    destruct (N.ltb_spec max_nesting_depth (d + 1)); [cbn [foldr] in Hd; lia|]. by rewrite expect_same. }
  destruct (parses_members (d + 1) (kv :: fs) rest ltac:(done) HF) as [n Hn]. exists (S n). intros [|m] ?; [lia|].
  rewrite !append_cons, string_app_assoc, append_cons, append_nil_l.
  cbn [parse_value]. rewrite skip_ws_head by done.
  change (Ascii.eqb "{" dquote) with false. change (Ascii.eqb "{" "{") with true. cbv iota.
  destruct (N.ltb_spec max_nesting_depth (d + 1)); [lia|].
  rewrite Hn by lia. destruct (commas_cons_head (print_member kv) (print_member <$> fs)) as [t Et].
  cbn [fmap list_fmap]. rewrite Et. unfold print_member, quote. rewrite !append_cons. by rewrite expect_other.
Qed.

Lemma parse_print v :
  printable v -> forall d rest, (d + jdepth v <= max_nesting_depth)%N -> number_end rest = true -> parses parse_value d (print v) rest v.
Proof.
  induction v as [|b|l|s|xs IH|fs IH] using json_ind'; intros Hp d rest Hd Hr.
  - exists 1. intros [|m] ?; [lia|]. done.
  - exists 1. intros [|m] ?; [lia|]. by destruct b.
  - exists 1. intros [|m] ?; [lia|]. cbn [print printable] in *.
    destruct (lex_number_head _ _ _ Hp) as (c & s' & -> & Hc). pose proof (lex_number_ext _ _ _ _ Hr Hp) as E.
    unfold number_head in Hc. rewrite !andb_true_iff, !negb_true_iff in Hc. destruct Hc as [[[[[[[[C0 C1] C2] C3] C4] C5] C6] _] _].
    rewrite append_cons in E |- *. cbn [parse_value]. rewrite skip_ws_head by done. rewrite C1, C2, C3, C4, C5, C6, E. done.
  - exists 1. intros [|m] ?; [lia|]. cbn [print printable] in *. unfold quote. rewrite append_cons.
    cbn [parse_value]. rewrite skip_ws_head by done. change (Ascii.eqb dquote dquote) with true. cbv iota.
    by rewrite string_app_assoc, append_cons, append_nil_l, unquote_quote, Hp.
  - apply parse_array; [done..|]. cbn [printable jdepth] in Hp, Hd. clear Hr rest. induction IH as [|y ys Hy IH IHys]; constructor;
      cbn [foldr] in Hp, Hd; [intros rest Hr; apply Hy; [tauto|lia|done]|apply IHys; [tauto|lia]].
  - apply parse_object; [done..|]. cbn [printable jdepth] in Hp, Hd. clear Hr rest. induction IH as [|y ys Hy IH IHys]; constructor;
      cbn [foldr] in Hp, Hd; [split; [tauto|]; intros rest Hr; apply Hy; [tauto|lia|done]|apply IHys; [tauto|lia]].
Qed.

(** The printed text of a value parses to the value. *)
Lemma json_parse_print v : printable v -> (jdepth v <= max_nesting_depth)%N -> json_parse (print v) = Some v.
Proof.
  intros Hp Hd. destruct (parse_print v Hp 0 EmptyString ltac:(lia) eq_refl) as [n Hn].
  rewrite string_app_nil_r in Hn. unfold json_parse.
  rewrite <- (json_fuel_enough (n + json_fuel (print v))) by lia. rewrite Hn by lia. done.
Qed.

(** ** Decoding into an [any] *)

(** The dynamic value json.Unmarshal builds: a map holds one value per key. *)
Inductive any :=
  | ANull
  | ABool (b : bool)
  | AFloat (f : float64)
  | AString (s : string)
  | AArray (items : list any)
  | AMap (entries : list (string * any)).

(** [m[k] = v]. *)
Fixpoint map_set {A} (k : string) (v : A) (m : list (string * A)) : list (string * A) :=
  match m with
  | [] => [(k, v)]
  | (k', v') :: m' => if decide (k = k') then (k, v) :: m' else (k', v') :: map_set k v m'
  end.

Fixpoint decode_any (v : json) : option any :=
  match v with
  | JNull => Some ANull
  | JBool b => Some (ABool b)
  | JNum l => AFloat <$> parse_float64 l
  | JStr s => Some (AString s)
  | JArr xs => AArray <$> mapM decode_any xs
  | JObj fs =>
      entries ← mapM (fun kv => pair kv.1 <$> decode_any kv.2) fs;
      Some (AMap (foldl (fun m kv => map_set kv.1 kv.2 m) [] entries))
  end.

(** ** writeCanonical *)

Fixpoint assoc {A} (k : string) (m : list (string * A)) : option A :=
  match m with
  | [] => None
  | (k', v) :: m' => if decide (k = k') then Some v else assoc k m'
  end.

(** The entries of a map in the order of its sorted keys. *)
Definition sorted_entries {A} (m : list (string * A)) : list (string * A) :=
  omap (fun k => pair k <$> assoc k m) (merge_sort String.le m.*1).

Section write.
Context `{FF : FloatFormat}.

Fixpoint writeCanonical (v : any) : string :=
  match v with
  | ANull => "null"
  | ABool b => if b then "true" else "false"
  | AFloat f => format_float64 f
  | AString s => quote s
  | AArray xs => String "[" (commas (writeCanonical <$> xs) +:+ "]")
  | AMap m =>
      let parts := (fun kv => (kv.1, writeCanonical kv.2)) <$> m in
      String "{" (commas ((fun kv => quote kv.1 +:+ String ":" kv.2) <$> sorted_entries parts) +:+ "}")
  end.

(** The value [writeCanonical] prints, as JSON with sorted keys. *)
Fixpoint canonical (v : any) : json :=
  match v with
  | ANull => JNull
  | ABool b => JBool b
  | AFloat f => JNum (format_float64 f)
  | AString s => JStr s
  | AArray xs => JArr (canonical <$> xs)
  | AMap m => JObj (sorted_entries ((fun kv => (kv.1, canonical kv.2)) <$> m))
  end.

(** [canonicalJSON] of a value whose JSON is [v]; json.Unmarshal refuses deep
    nesting and numbers out of range. *)
Definition canonicalJSON (v : json) : option string :=
  if (jdepth v <=? max_nesting_depth)%N then writeCanonical <$> decode_any v else None.

(** ** The canonical text parses back *)

Lemma assoc_fmap {A B} (g : A -> B) k m : assoc k ((fun kv => (kv.1, g kv.2)) <$> m) = g <$> assoc k m.
Proof. induction m as [|[k' v] m IH]; csimpl; [done|]. by case_decide. Qed.

Lemma sorted_entries_fmap {A B} (g : A -> B) m :
  sorted_entries ((fun kv => (kv.1, g kv.2)) <$> m) = (fun kv => (kv.1, g kv.2)) <$> sorted_entries m.
Proof.
  unfold sorted_entries. rewrite <- list_fmap_compose.
  change ((fst ∘ (fun kv : string * A => (kv.1, g kv.2))) <$> m) with (m.*1).
  induction (merge_sort String.le m.*1) as [|k ks IH]; csimpl; [done|].
  rewrite assoc_fmap, IH. by destruct (assoc k m).
Qed.

Lemma assoc_Some_elem {A} k (v : A) m : assoc k m = Some v -> (k, v) ∈ m.
Proof.
  induction m as [|[k' v'] m IH]; cbn [assoc]; [done|]. case_decide as E.
  - intros [= <-]. subst. by left.
  - intros ?. right. by apply IH.
Qed.

Lemma sorted_entries_elem {A} (kv : string * A) m : kv ∈ sorted_entries m -> kv ∈ m.
Proof.
  unfold sorted_entries. intros (k & _ & E)%list_elem_of_omap. destruct (assoc k m) eqn:Ea; [|done].
  injection E as <-. by apply assoc_Some_elem.
Qed.

Fixpoint any_size (v : any) : nat :=
  match v with
  | AArray xs => S (foldr (fun x n => any_size x + n) 0 xs)
  | AMap m => S (foldr (fun kv n => any_size kv.2 + n) 0 m)
  | _ => 1
  end.

Lemma writeCanonical_print v : writeCanonical v = print (canonical v).
Proof.
  assert (forall n v, (any_size v <= n)%nat -> writeCanonical v = print (canonical v)) as H; [|by eapply H].
  clear v. induction n as [|n IH]; intros v Hn; [destruct v; cbn in Hn; lia|].
  destruct v as [|[]|f|s|xs|m]; try done; cbn [writeCanonical canonical print any_size] in *.
  - do 3 f_equal. rewrite <- list_fmap_compose. apply Forall_fmap_ext_1.
    induction xs as [|x xs IHx]; constructor; cbn [foldr] in Hn; [apply IH; lia|apply IHx; lia].
  - rewrite !sorted_entries_fmap, <- !list_fmap_compose. do 3 f_equal. apply list_fmap_ext.
    intros i [k a] E. cbn. do 2 f_equal. apply IH.
    apply list_elem_of_lookup_2, sorted_entries_elem in E. clear -E Hn.
    induction m as [|kv' m IH']; [by apply not_elem_of_nil in E|]. cbn [foldr] in Hn.
    apply elem_of_cons in E as [<-|E]; [cbn [snd] in Hn; lia|apply IH'; (done || lia)].
Qed.

End write.

(** ** Well-formed values *)

(** Strings are UTF-8 and the nesting is at most [d]. *)
Fixpoint json_ok (d : nat) (v : json) : Prop :=
  match v with
  | JStr s => to_valid s = s
  | JArr xs => match d with O => False | S d' => Forall (json_ok d') xs end
  | JObj fs => match d with O => False | S d' => Forall (fun kv => to_valid kv.1 = kv.1 /\ json_ok d' kv.2) fs end
  | _ => True
  end.

Fixpoint any_ok (d : nat) (v : any) : Prop :=
  match v with
  | AFloat f => finite f
  | AString s => to_valid s = s
  | AArray xs => match d with O => False | S d' => Forall (any_ok d') xs end
  | AMap m => match d with O => False | S d' => Forall (fun kv => to_valid kv.1 = kv.1 /\ any_ok d' kv.2) m end
  | _ => True
  end.

Lemma Forall_map_set {A} (P : string * A -> Prop) k v m : P (k, v) -> Forall P m -> Forall P (map_set k v m).
Proof.
  intros Hv. induction 1 as [|[k' v'] m Hp Hm IH]; cbn [map_set]; [by constructor|].
  case_decide; by constructor.
Qed.

Lemma decode_any_ok d v a : json_ok d v -> decode_any v = Some a -> any_ok d a.
Proof.
  revert v a. induction d as [|d IH]; intros [|b|l|s|xs|fs] a Hok; cbn [decode_any json_ok] in *; try done;
    try (intros [= <-]; done); try (intros (f & Hf & ->)%fmap_Some; cbn [any_ok]; by eapply parse_float64_finite).
  - intros (ys & Hys & ->)%fmap_Some. cbn [any_ok]. apply mapM_Some in Hys.
    induction Hys as [|x y xs ys Hxy Hys IHys]; [constructor|]. inversion Hok; subst. constructor; [by eapply IH|by apply IHys].
  - intros (es & Hes & [= <-])%bind_Some. cbn [any_ok]. apply mapM_Some in Hes.
    assert (Forall (fun kv : string * any => to_valid kv.1 = kv.1 /\ any_ok d kv.2) es) as HF.
    { induction Hes as [|x y xs ys Hxy Hys IHys]; [constructor|]. inversion Hok; subst. constructor; [|by apply IHys].
      apply fmap_Some in Hxy as (a & Ha & ->). split; [tauto|]. eapply IH; [|done]. tauto. }
    assert (Forall (fun kv : string * any => to_valid kv.1 = kv.1 /\ any_ok d kv.2) []) as Hnil by constructor.
    clear Hes Hok. revert Hnil. generalize (@nil (string * any)). induction HF as [|[k v] es Hv HF IHF]; intros m Hm; [done|].
    cbn [foldl]. apply IHF. by apply Forall_map_set.
Qed.

Lemma canonical_ok `{FF : FloatFormat} d a : any_ok d a -> printable (canonical a) /\ (jdepth (canonical a) <= N.of_nat d)%N.
Proof.
  revert a. induction d as [|d IH]; intros [|b|f|s|xs|m] Hok; cbn [any_ok canonical printable jdepth] in *; try done;
    try (split; [first [done | by apply format_lexeme]|lia]).
  - cut (foldr (fun x p => printable x /\ p) True (canonical <$> xs) /\ (foldr (fun x n => N.max (jdepth x) n) 0 (canonical <$> xs) <= N.of_nat d)%N).
    { intros [? ?]. split; [done|lia]. }
    induction Hok as [|x xs Hx Hxs IHxs]; cbn; [split; [done|lia]|]. destruct (IH x Hx). destruct IHxs. split; [tauto|lia].
  - rewrite sorted_entries_fmap.
    assert (Forall (fun kv : string * any => to_valid kv.1 = kv.1 /\ any_ok d kv.2) (sorted_entries m)) as HF.
    { apply Forall_forall. intros kv Hkv%sorted_entries_elem. rewrite Forall_forall in Hok. by apply Hok. }
    cut (foldr (fun kv p => (to_valid kv.1 = kv.1 /\ printable kv.2) /\ p) True ((fun kv => (kv.1, canonical kv.2)) <$> sorted_entries m) /\
         (foldr (fun kv n => N.max (jdepth kv.2) n) 0 ((fun kv => (kv.1, canonical kv.2)) <$> sorted_entries m) <= N.of_nat d)%N).
    { intros [? ?]. split; [done|lia]. }
    induction HF as [|[k x] xs [Hk Hx] Hxs IHxs]; cbn; [split; [done|lia]|]. cbn in Hk, Hx. destruct (IH x Hx). destruct IHxs. split; [tauto|lia].
Qed.

(** ** Parsed values are well formed *)

Lemma json_ok_mono d d' v : (d <= d')%nat -> json_ok d v -> json_ok d' v.
Proof.
  revert d' v. induction d as [|d IH]; intros [|d'] [|b|l|s|xs|fs] Hd; cbn [json_ok]; try done; try lia.
  - intros HF. eapply Forall_impl; [done|]. intros x. apply IH. lia.
  - intros HF. eapply Forall_impl; [done|]. intros kv [? ?]. split; [done|]. eapply IH; [|done]. lia.
Qed.

Lemma member_key_valid s k r : member_key s = Some (k, r) -> to_valid k = k.
Proof.
  unfold member_key. destruct (expect dquote s); [|done]. destruct (unquote _) as [[k' r']|] eqn:E; [|done].
  destruct (expect ":" r'); [|done]. intros [= <- _]. by eapply unquote_valid.
Qed.

(** Strings of a parsed value are UTF-8; its nesting is bounded by the fuel. *)
Lemma parse_ok n :
  (forall d s v r, parse_value n d s = Some (v, r) -> json_ok n v) /\
  (forall d s xs r, parse_elems n d s = Some (xs, r) -> Forall (json_ok n) xs) /\
  (forall d s fs r, parse_members n d s = Some (fs, r) -> Forall (fun kv => to_valid kv.1 = kv.1 /\ json_ok n kv.2) fs).
Proof.
  induction n as [|n (IHv & IHe & IHm)]; [done|]. split_and!; intros d s v r H; cbn [parse_value parse_elems parse_members] in H.
  - destruct (skip_ws s) as [|c s1]; [done|]. repeat case_match; simplify_eq; cbn [json_ok]; try done.
    + by eapply unquote_valid.
    + by eapply IHm.
    + by eapply IHe.
  - destruct (parse_value n d s) as [[x r1]|] eqn:E; [|done]. apply IHv, (json_ok_mono n (S n)) in E; [|lia].
    destruct (expect "]" r1); [injection H as <- <-; by repeat constructor|].
    destruct (expect "," r1); [|done]. destruct (parse_elems n d _) as [[xs r2]|] eqn:E2; [|done].
    injection H as <- <-. constructor; [done|]. eapply Forall_impl; [by eapply IHe|]. intros y. apply json_ok_mono. lia.
  - destruct (member_key s) as [[k r0]|] eqn:Ek; [|done]. apply member_key_valid in Ek.
    destruct (parse_value n d r0) as [[x r1]|] eqn:E; [|done]. apply IHv, (json_ok_mono n (S n)) in E; [|lia].
    destruct (expect "}" r1); [injection H as <- <-; by repeat constructor|].
    destruct (expect "," r1); [|done]. destruct (parse_members n d _) as [[xs r2]|] eqn:E2; [|done].
    injection H as <- <-. constructor; [done|]. eapply Forall_impl; [by eapply IHm|]. intros y [? ?]. split; [done|].
    eapply json_ok_mono; [|done]. lia.
Qed.

(** Strings of any nesting are UTF-8. *)
Definition texts_ok (v : json) : Prop := exists d, json_ok d v.

Lemma json_parse_texts s v : json_parse s = Some v -> texts_ok v.
Proof.
  unfold json_parse. destruct (parse_value _ _ _) as [[v' r]|] eqn:E; [|done]. apply parse_ok in E.
  destruct (skip_ws r); [|done]. intros [= <-]. by eexists.
Qed.

Lemma json_ok_depth d v : json_ok d v -> json_ok (N.to_nat (jdepth v)) v.
Proof.
  revert v. induction d as [|d IH]; intros [|b|l|s|xs|fs]; cbn [json_ok jdepth]; try done.
  - intros HF. replace (N.to_nat (1 + _)) with (S (N.to_nat (foldr (fun x n => N.max (jdepth x) n) 0%N xs))) by lia.
    cbn [json_ok]. induction HF as [|x xs Hx HF IHF]; constructor; cbn [foldr].
    + eapply json_ok_mono; [|by apply IH]. lia.
    + eapply Forall_impl; [done|]. intros y. apply json_ok_mono. lia.
  - intros HF. replace (N.to_nat (1 + _)) with (S (N.to_nat (foldr (fun kv n => N.max (jdepth kv.2) n) 0%N fs))) by lia.
    cbn [json_ok]. induction HF as [|x xs [Hk Hx] HF IHF]; constructor; cbn [foldr].
    + split; [done|]. eapply json_ok_mono; [|by apply IH]. lia.
    + eapply Forall_impl; [done|]. intros y [? ?]. split; [done|]. eapply json_ok_mono; [|done]. lia.
Qed.

Section roundtrip.
Context `{FF : FloatFormat}.

Lemma canonicalJSON_parse v t :
  texts_ok v -> canonicalJSON v = Some t -> exists a, decode_any v = Some a /\ json_parse t = Some (canonical a).
Proof.
  intros [d Hd%json_ok_depth]. unfold canonicalJSON. destruct (N.leb_spec (jdepth v) max_nesting_depth) as [Hmax|]; [|done].
  intros (a & Ha & ->)%fmap_Some. exists a. split; [done|]. rewrite writeCanonical_print.
  destruct (canonical_ok (N.to_nat (jdepth v)) a); [by eapply decode_any_ok|]. apply json_parse_print; [done|lia].
Qed.

(** Two values with the same canonical text decode to the same value. *)
Lemma canonicalJSON_inj v1 v2 t :
  texts_ok v1 -> texts_ok v2 -> canonicalJSON v1 = Some t -> canonicalJSON v2 = Some t ->
  exists a1 a2, decode_any v1 = Some a1 /\ decode_any v2 = Some a2 /\ canonical a1 = canonical a2.
Proof.
  intros H1 H2 (a1 & E1 & P1)%canonicalJSON_parse (a2 & E2 & P2)%canonicalJSON_parse; [|done..].
  exists a1, a2. split_and!; [done..|]. congruence.
Qed.

End roundtrip.

(** ** Members of a canonical object *)

Section members.
Context `{FF : FloatFormat}.

Lemma assoc_key {A} k (v : A) m : assoc k m = Some v -> k ∈ m.*1.
Proof. intros H%assoc_Some_elem. apply list_elem_of_fmap. by exists (k, v). Qed.

Lemma assoc_sorted {A} k (v : A) m : assoc k m = Some v -> (k, v) ∈ sorted_entries m.
Proof.
  intros H. unfold sorted_entries. apply list_elem_of_omap. exists k. split; [|by rewrite H].
  rewrite merge_sort_Permutation. by eapply assoc_key.
Qed.

Lemma sorted_assoc {A} k (v : A) m : (k, v) ∈ sorted_entries m -> assoc k m = Some v.
Proof.
  intros (k' & _ & E)%list_elem_of_omap. destruct (assoc k' m) eqn:Ea; [|done]. injection E as <- <-. done.
Qed.

(** Equal canonical objects agree on every member. *)
Lemma canonical_member m1 m2 k :
  canonical (AMap m1) = canonical (AMap m2) -> canonical <$> assoc k m1 = canonical <$> assoc k m2.
Proof.
  cbn [canonical]. intros [= E]. rewrite !sorted_entries_fmap in E.
  assert (forall m m', (fun kv => (kv.1, canonical kv.2)) <$> sorted_entries m = (fun kv => (kv.1, canonical kv.2)) <$> sorted_entries m' ->
            forall a, assoc k m = Some a -> exists b, assoc k m' = Some b /\ canonical a = canonical b) as H.
  { intros m m' Em a Ha%assoc_sorted.
    assert ((k, canonical a) ∈ (fun kv => (kv.1, canonical kv.2)) <$> sorted_entries m) as Hin
      by (apply list_elem_of_fmap; by exists (k, a)).
    rewrite Em in Hin. apply list_elem_of_fmap in Hin as ([k' b] & [= -> ->] & Hb%sorted_assoc). eauto. }
  destruct (assoc k m1) as [a|] eqn:E1, (assoc k m2) as [b|] eqn:E2; cbn; [..|done].
  - destruct (H _ _ E a E1) as (b' & Eb & Hc). congruence.
  - destruct (H _ _ E a E1) as (b' & Eb & Hc). congruence.
  - destruct (H _ _ (eq_sym E) b E2) as (b' & Eb & Hc). congruence.
Qed.

(** The order in which a map holds its entries does not reach the text. *)
Lemma writeCanonical_order m1 m2 :
  NoDup m1.*1 -> m1 ≡ₚ m2 -> writeCanonical (AMap m1) = writeCanonical (AMap m2).
Proof.
  intros Hnd Hp. rewrite !writeCanonical_print. cbn [canonical]. rewrite !sorted_entries_fmap.
  do 3 f_equal. unfold sorted_entries.
  assert (merge_sort String.le m1.*1 = merge_sort String.le m2.*1) as ->.
  { apply (StronglySorted_unique String.le); [apply (StronglySorted_merge_sort _)..|].
    rewrite !merge_sort_Permutation. by rewrite Hp. }
  apply list_omap_ext, Forall2_same_length_lookup_2; [done|]. intros i k k' Hk Hk'. simplify_eq. f_equal.
  assert (NoDup m2.*1) as Hnd2 by (by rewrite <- Hp).
  assert (forall m (k : string) (v : any), NoDup m.*1 -> (k, v) ∈ m -> assoc k m = Some v) as Hin.
  { clear. intros m k v. induction m as [|[k' v'] m IH]; intros Hnd Hin; [by apply not_elem_of_nil in Hin|].
    csimpl in *. apply NoDup_cons in Hnd as [Hni Hnd]. apply elem_of_cons in Hin as [[= -> ->]|Hin]; [by rewrite decide_True|].
    rewrite decide_False; [by apply IH|]. intros ->. apply Hni, list_elem_of_fmap. by exists (k', v). }
  destruct (assoc k m1) as [v|] eqn:E1.
  - symmetry. apply Hin; [done|]. rewrite <- Hp. by apply assoc_Some_elem.
  - destruct (assoc k m2) as [v|] eqn:E2; [|done]. apply assoc_Some_elem in E2. rewrite <- Hp in E2.
    apply Hin in E2; [congruence|done].
Qed.

End members.
