(* ===== verification/GoTime.v ===== *)
(** * Instants and their RFC 3339 text

    A UTC [time.Time] is its nanoseconds since the zero time, 1 January of
    year 1, so [IsZero] is [0].  [rfc3339nano] is [Format] with
    time.RFC3339Nano and [truncate_micro] is [Truncate(time.Microsecond)]. *)

From S2P Require Import Prelude GoJson Float64.
From Stdlib Require Import Ascii.

Abbreviation instant := Z (only parsing).

Definition is_zero (t : instant) : bool := (t =? 0)%Z.

Definition truncate_micro (t : instant) : instant := (t - t mod 1000)%Z.

(** [Nanosecond]: the part of the second. *)
Definition nanosecond (t : instant) : Z := (t mod 1000000000)%Z.

(** Year, month and day of a day counted from 1 January of year 1, in the
    proleptic Gregorian calendar; years are counted from 1 March. *)
Definition civil (day : Z) : Z * Z * Z :=
  (let z := day + 306 in
   let era := z / 146097 in
   let doe := z mod 146097 in
   let yoe := (doe - doe / 1460 + doe / 36524 - doe / 146096) / 365 in
   let doy := doe - (365 * yoe + yoe / 4 - yoe / 100) in
   let mp := (5 * doy + 2) / 153 in
   let m := if mp <? 10 then mp + 3 else mp - 9 in
   (yoe + era * 400 + (if m <=? 2 then 1 else 0), m, doy - (153 * mp + 2) / 5 + 1))%Z.

Fixpoint zeros (n : nat) : string := match n with O => EmptyString | S n' => String "0" (zeros n') end.

(** A non-negative number padded to [w] digits. *)
Definition padded (w : nat) (n : Z) : string :=
  let t := decimal (Z.to_N n) in zeros (w - String.length t) +:+ t.

Definition year_text (y : Z) : string := if (y <? 0)%Z then String "-" (padded 4 (- y)) else padded 4 y.

(** The fraction without trailing zeros, [.999999999] of the layout. *)
Fixpoint trim_zeros (w : nat) (n : Z) : string :=
  match w with
  | O => EmptyString
  | S w' => if (n mod 10 =? 0)%Z then trim_zeros w' (n / 10) else padded w n
  end.

Definition fraction (n : Z) : string :=
  if (n =? 0)%Z then EmptyString else String "." (trim_zeros 9 n).

Definition rfc3339nano (t : instant) : string :=
  let second := (t / 1000000000)%Z in
  let '(y, m, d) := civil (second / 86400) in
  let s := (second mod 86400)%Z in
  year_text y +:+ "-" +:+ padded 2 m +:+ "-" +:+ padded 2 d +:+ "T" +:+
  padded 2 (s / 3600) +:+ ":" +:+ padded 2 (s / 60 mod 60) +:+ ":" +:+ padded 2 (s mod 60) +:+
  fraction (nanosecond t) +:+ "Z".

(** [time.Time.MarshalJSON] refuses a year outside [0, 9999]. *)
Definition time_json (t : instant) : option json :=
  let '(y, _, _) := civil (t / 1000000000 / 86400) in
  if (0 <=? y)%Z && (y <=? 9999)%Z then Some (JStr (rfc3339nano t)) else None.

Example zero_time_text : rfc3339nano 0 = "0001-01-01T00:00:00Z".
Proof. vm_compute. reflexivity. Qed.

(** 2024-02-29T12:34:56.0789Z; 63844806896 seconds after the zero time. *)
Example leap_day_text : rfc3339nano 63844806896078900000 = "2024-02-29T12:34:56.0789Z".
Proof. vm_compute. reflexivity. Qed.

Lemma truncate_micro_idem t : truncate_micro (truncate_micro t) = truncate_micro t.
Proof. unfold truncate_micro. by rewrite Zminus_mod_idemp_r, Z.sub_diag, Z.mod_0_l, Z.sub_0_r. Qed.

Lemma truncate_micro_nanos t : (nanosecond (truncate_micro t) mod 1000 = 0)%Z.
Proof.
  unfold nanosecond, truncate_micro. rewrite Z.mod_mod_divide by (by exists 1000000%Z).
  by rewrite Zminus_mod_idemp_r, Z.sub_diag.
Qed.

(** ** The text determines the instant *)

(** The day of a year, month and day. *)
Definition day_of (y m d : Z) : Z :=
  (let y' := if m <=? 2 then y - 1 else y in
   let yoe := y' mod 400 in
   let mp := if m <=? 2 then m + 9 else m - 3 in
   y' / 400 * 146097 + (365 * yoe + yoe / 4 - yoe / 100 + ((153 * mp + 2) / 5 + d - 1)) - 306)%Z.

Ltac div_lia := Z.to_euclidean_division_equations; lia.

Lemma yoe_range doe : (0 <= doe < 146097 -> 0 <= (doe - doe / 1460 + doe / 36524 - doe / 146096) / 365 < 400)%Z.
Proof. intros H. div_lia. Qed.

Lemma doy_range doe yoe : (0 <= doe < 146097 -> yoe = (doe - doe / 1460 + doe / 36524 - doe / 146096) / 365 ->
  0 <= doe - (365 * yoe + yoe / 4 - yoe / 100) <= 365)%Z.
Proof. intros H ->. pose proof (yoe_range doe H). div_lia. Qed.

Lemma month_range doy mp : (0 <= doy <= 365 -> mp = (5 * doy + 2) / 153 ->
  0 <= mp <= 11 /\ 1 <= doy - (153 * mp + 2) / 5 + 1 <= 31)%Z.
Proof. intros H ->. div_lia. Qed.

(** [civil] has an inverse, and its fields are those of a calendar. *)
Lemma civil_day day : exists y m d,
  civil day = (y, m, d) /\ day_of y m d = day /\ (1 <= m <= 12)%Z /\ (1 <= d <= 31)%Z /\ (0 <= day -> 0 <= y)%Z.
Proof.
  unfold civil. cbv zeta. do 3 eexists. split; [reflexivity|].
  pose proof (Z.mod_pos_bound (day + 306) 146097 ltac:(lia)) as Hb. pose proof (Z.div_mod (day + 306) 146097 ltac:(lia)) as Hd.
  assert (0 <= day -> 0 <= (day + 306) / 146097)%Z as He by (intros; apply Z.div_pos; lia).
  generalize dependent ((day + 306) mod 146097)%Z. generalize dependent ((day + 306) / 146097)%Z. intros era He doe Hb Hd.
  pose proof (yoe_range doe Hb) as Hy. remember ((doe - doe / 1460 + doe / 36524 - doe / 146096) / 365)%Z as yoe eqn:Eyoe.
  pose proof (doy_range doe yoe Hb Eyoe) as Hdoy. remember (doe - (365 * yoe + yoe / 4 - yoe / 100))%Z as doy eqn:Edoy.
  pose proof (month_range doy _ Hdoy eq_refl) as [Hm Hday]. remember ((5 * doy + 2) / 153)%Z as mp eqn:Emp.
  unfold day_of. clear Eyoe Emp.
  assert (forall x, x = yoe + era * 400 -> x / 400 = era /\ x mod 400 = yoe)%Z as Hera.
  { intros x ->. rewrite Z.div_add, Z.mod_add, Z.div_small, Z.mod_small by lia. lia. }
  destruct (Z.ltb_spec mp 10).
  - assert ((mp + 3 <=? 2)%Z = false) as -> by lia. rewrite Z.add_0_r.
    destruct (Hera _ eq_refl) as [-> ->]. replace (mp + 3 - 3)%Z with mp by lia. lia.
  - assert ((mp - 9 <=? 2)%Z = true) as -> by lia. rewrite Z.add_simpl_r.
    destruct (Hera _ eq_refl) as [-> ->]. replace (mp - 9 + 9)%Z with mp by lia. lia.
Qed.

Lemma zeros_value n s : digits_value 0 (zeros n +:+ s) = digits_value 0 s.
Proof. induction n as [|n IH]; [done|]. cbn [zeros]. rewrite append_cons. cbn [digits_value]. exact IH. Qed.

Lemma padded_value w n : (0 <= n)%Z -> digits_value 0 (padded w n) = n.
Proof. intros ?. unfold padded. rewrite zeros_value, decimal_value. lia. Qed.

Lemma padded_digits w n : all_digits (padded w n) = true.
Proof. unfold padded. induction (w - _)%nat; [apply decimal_digits|]. cbn [zeros]. by rewrite append_cons. Qed.

(** Two texts that start with digits and a separator agree in both parts. *)
Lemma digits_split d1 d2 s1 s2 :
  all_digits d1 = true -> all_digits d2 = true -> digits_end s1 = true -> digits_end s2 = true ->
  d1 +:+ s1 = d2 +:+ s2 -> d1 = d2 /\ s1 = s2.
Proof.
  intros H1 H2 He1 He2 E. apply (f_equal span_digits) in E. rewrite !span_digits_app in E by done. by injection E.
Qed.

Lemma padded_split w n1 n2 s1 s2 :
  (0 <= n1)%Z -> (0 <= n2)%Z -> digits_end s1 = true -> digits_end s2 = true ->
  padded w n1 +:+ s1 = padded w n2 +:+ s2 -> n1 = n2 /\ s1 = s2.
Proof.
  intros ???? [E ?]%digits_split; [|done || apply padded_digits..]. split; [|done].
  apply (f_equal (digits_value 0)) in E. by rewrite !padded_value in E by done.
Qed.

Lemma decimal_go_length fuel n acc w :
  (n < 10 ^ N.of_nat w)%N -> (0 < w)%nat -> (String.length (decimal_go fuel n acc) <= w + String.length acc)%nat.
Proof.
  revert n acc w. induction fuel as [|fuel IH]; intros n acc w Hn Hw; cbn [decimal_go]; [lia|].
  destruct (N.ltb_spec n 10); [simpl; lia|]. destruct w as [|[|w]]; [lia|change (10 ^ N.of_nat 1)%N with 10%N in Hn; lia|].
  etrans; [apply (IH _ _ (S w)); [|lia]|simpl; lia].
  rewrite Nat2N.inj_succ, N.pow_succ_r' in Hn. apply N.Div0.div_lt_upper_bound. lia.
Qed.

Lemma padded_length w n : (0 <= n < 10 ^ Z.of_nat w)%Z -> (0 < w)%nat -> String.length (padded w n) = w.
Proof.
  intros Hn Hw. unfold padded. rewrite string_length_app.
  assert (forall k, String.length (zeros k) = k) as -> by (induction k; simpl; auto).
  assert (String.length (decimal (Z.to_N n)) <= w + 0)%nat; [|lia].
  apply decimal_go_length; [|done]. apply N2Z.inj_lt. rewrite Z2N.id, N2Z.inj_pow, nat_N_Z by lia. lia.
Qed.

(** The fraction without its trailing zeros, read back. *)
Lemma trim_zeros_value w n : (0 < n < 10 ^ Z.of_nat w)%Z ->
  all_digits (trim_zeros w n) = true /\ (String.length (trim_zeros w n) <= w)%nat /\
  (digits_value 0 (trim_zeros w n) * 10 ^ (Z.of_nat w - Z.of_nat (String.length (trim_zeros w n))) = n)%Z.
Proof.
  revert n. induction w as [|w IH]; intros n Hn; [simpl in Hn; lia|]. cbn [trim_zeros].
  destruct (Z.eqb_spec (n mod 10) 0) as [E|E].
  - rewrite Nat2Z.inj_succ, Z.pow_succ_r in Hn by lia.
    pose proof (Z.div_mod n 10 ltac:(lia)) as Hd. rewrite E in Hd.
    destruct (IH (n / 10)%Z) as (Ha & Hl & Hv); [split; [|apply Z.div_lt_upper_bound]; lia|].
    split_and!; [done|lia|].
    replace (Z.of_nat (S w) - _)%Z with (Z.succ (Z.of_nat w - Z.of_nat (String.length (trim_zeros w (n / 10)))))%Z by lia.
    rewrite Z.pow_succ_r by lia. rewrite Z.mul_assoc, (Z.mul_comm _ 10), <- Z.mul_assoc, Hv. lia.
  - rewrite padded_length, padded_value, Z.sub_diag, Z.pow_0_r by lia. split_and!; [apply padded_digits|lia|lia].
Qed.

Lemma fraction_inj n1 n2 : (0 <= n1 < 10 ^ 9)%Z -> (0 <= n2 < 10 ^ 9)%Z ->
  fraction n1 +:+ "Z" = fraction n2 +:+ "Z" -> n1 = n2.
Proof.
  intros H1 H2. unfold fraction. destruct (Z.eqb_spec n1 0) as [->|], (Z.eqb_spec n2 0) as [->|];
    rewrite ?append_nil_l, ?append_cons; [done|by intros [=]..|]. remember 9%nat as w eqn:Ew. intros [= E]. subst w.
  destruct (trim_zeros_value 9 n1) as (Hd1 & _ & Hv1); [simpl; lia|].
  destruct (trim_zeros_value 9 n2) as (Hd2 & _ & Hv2); [simpl; lia|].
  apply digits_split in E as [E _]; [|done..]. rewrite E, Hv2 in Hv1. done.
Qed.

Lemma fraction_end n : digits_end (fraction n +:+ "Z") = true.
Proof. unfold fraction. by case_match. Qed.

(** RFC 3339 text distinguishes the instants from year 1 on. *)
Lemma rfc3339nano_inj t1 t2 : (0 <= t1)%Z -> (0 <= t2)%Z -> rfc3339nano t1 = rfc3339nano t2 -> t1 = t2.
Proof.
  intros H1 H2. unfold rfc3339nano.
  assert (forall t, 0 <= t -> 0 <= t / 1000000000 / 86400)%Z as Hpos by (intros; apply Z.div_pos; [apply Z.div_pos|]; lia).
  destruct (civil_day (t1 / 1000000000 / 86400)) as (y1 & m1 & d1 & -> & Hday1 & ? & ? & Hy1).
  destruct (civil_day (t2 / 1000000000 / 86400)) as (y2 & m2 & d2 & -> & Hday2 & ? & ? & Hy2).
  specialize (Hy1 (Hpos _ H1)). specialize (Hy2 (Hpos _ H2)). unfold year_text.
  destruct (Z.ltb_spec y1 0); [lia|]. destruct (Z.ltb_spec y2 0); [lia|].
  pose proof (Z.mod_pos_bound (t1 / 1000000000) 86400 ltac:(lia)). pose proof (Z.mod_pos_bound (t2 / 1000000000) 86400 ltac:(lia)).
  assert (forall s, 0 <= s -> 0 <= s / 3600 /\ 0 <= s / 60 mod 60 /\ 0 <= s mod 60)%Z as Hs by (intros; div_lia).
  destruct (Hs ((t1 / 1000000000) mod 86400)%Z) as (? & ? & ?); [lia|].
  destruct (Hs ((t2 / 1000000000) mod 86400)%Z) as (? & ? & ?); [lia|]. clear Hs.
  intros [-> [=E]]%padded_split; [|done..]. apply padded_split in E as [-> [=E]]; [|done || lia..].
  apply padded_split in E as [-> [=E]]; [|done || lia..]. apply padded_split in E as [Eh [=E]]; [|done..].
  apply padded_split in E as [Em [=E]]; [|done..]. apply padded_split in E as [Es E]; [|done || apply fraction_end..].
  apply fraction_inj in E; [|unfold nanosecond; apply Z.mod_pos_bound; lia..]. unfold nanosecond in E.
  rewrite Hday1 in Hday2. clear -E Eh Em Es Hday2. div_lia.
Qed.
