(* ===== verification/Domain.v ===== *)
(** * The node model: internal/domain/node

    The data types of internal/domain/node/types.go with the operations on
    them, the hierarchy rules of hierarchy.go, and the interface to the
    libraries outside the repository ([GoLib]). *)

From S2P Require Import Prelude GoJson.

(** ** Libraries outside the repository

    google/uuid and the parsers of net/url and time, with the documented
    behaviour the code relies on: [uuid.Parse] inverts [UUID.String], whose
    text is lower-case hexadecimal and hyphens.  A UUID is its 16 bytes read
    as one big-endian number, so [uuid.Nil] is [0] and [bytes.Compare] is the
    numeric order. *)

Abbreviation uuid := N (only parsing).
Definition uuid_nil : uuid := 0%N.

(** The layouts the repository parses with [time.Parse]. *)
Inductive time_layout := DateOnly | RFC3339.

Class GoLib := {
  uuid_string : uuid -> string;
  uuid_parse : string -> option uuid;
  (** [url.Parse]: scheme and host, or [None] for an error. *)
  url_parse : string -> option (string * string);
  (** [time.Parse] succeeds. *)
  time_parses : time_layout -> string -> bool;
  (** [uuid.NewSHA1]; the version bits make the result non-nil. *)
  uuid_sha1 : uuid -> string -> uuid;
  uuid_parse_string u : uuid_parse (uuid_string u) = Some u;
  uuid_string_plain u : plain (uuid_string u) = true;
  uuid_string_nonempty u : uuid_string u <> EmptyString;
  uuid_sha1_not_nil b s : uuid_sha1 b s <> 0%N;
}.

(** ** Node types *)

Inductive Op := OpCreate | OpRead | OpList | OpUpdate | OpDelete | OpOther (name : string).

Definition AllOps : list Op := [OpCreate; OpRead; OpList; OpUpdate; OpDelete].

Definition FeatureHasAddress : string := "has_address".
Definition FeatureHasWorkflowStates : string := "has_workflow_states".
Definition FeatureHasAssignees : string := "has_assignees".
Definition FeatureHasSequenceID : string := "has_sequence_id".
Definition FeatureIsContainer : string := "is_container".
Definition FeatureHasDueDates : string := "has_due_dates".
Definition FeatureHasComments : string := "has_comments".
Definition FeatureHasActivity : string := "has_activity".
Definition FeatureIsEntryPoint : string := "is_entry_point".
Definition FeatureIsScope : string := "is_scope".
Definition FeatureExcludeFromGenericTools : string := "exclude_from_generic_tools".

Abbreviation Features := (list string) (only parsing).

Fixpoint Features_Has (f : Features) (feat : string) : bool :=
  match f with
  | [] => false
  | s :: f' => if decide (s = feat) then true else Features_Has f' feat
  end.

Fixpoint Features_HasAny (f : Features) (feats : list string) : bool :=
  match feats with
  | [] => false
  | want :: feats' => if Features_Has f want then true else Features_HasAny f feats'
  end.

(** The legacy uint32 bitmask, bit by bit. *)
Definition feature_mapping : list (Z * string) :=
  [ (Z.shiftl 1 0, FeatureHasAddress); (Z.shiftl 1 1, FeatureHasWorkflowStates);
    (Z.shiftl 1 2, FeatureHasAssignees); (Z.shiftl 1 3, FeatureHasSequenceID);
    (Z.shiftl 1 4, FeatureIsContainer); (Z.shiftl 1 5, FeatureHasDueDates);
    (Z.shiftl 1 6, FeatureHasComments); (Z.shiftl 1 7, FeatureHasActivity);
    (Z.shiftl 1 8, FeatureIsEntryPoint); (Z.shiftl 1 9, FeatureIsScope);
    (Z.shiftl 1 10, FeatureExcludeFromGenericTools) ].

Definition features_of_bits (bits : Z) : Features :=
  omap (fun '(bit, name) => if bool_decide (Z.land bits bit = 0%Z) then None else Some name)
    feature_mapping.

(** [json.Unmarshal] into a uint32: the number is an integer literal below
    [2^32]; null leaves zero. *)
Definition unmarshal_uint32 (s : raw) : option Z :=
  match json_parse s with
  | Some (JNum l) =>
      match span_digits l with
      | (d, EmptyString) =>
          let v := digits_value 0 d in
          if (v <? 2 ^ 32)%Z then Some v else None
      | _ => None
      end
  | Some JNull => Some 0%Z
  | _ => None
  end.

Definition Features_UnmarshalJSON (b : raw) : res Features :=
  match unmarshal_strings b with
  | Some ss => Ok ss
  | None =>
      match unmarshal_uint32 b with
      | None => Err ErrDecode
      | Some bits => Ok (features_of_bits bits)
      end
  end.

Inductive ReferenceStrategy :=
  | ReferenceUUIDOnly | ReferenceScopedSequence | ReferenceScopedProperty
  | ReferenceDirectProperty | ReferenceStrategyOther (name : string).

#[export] Instance ReferenceStrategy_eq_dec : EqDecision ReferenceStrategy.
Proof. solve_decision. Defined.

Record ReferenceConfig := mkReferenceConfig {
  rc_Strategy : ReferenceStrategy;
  rc_Property : string;
}.

Definition IsDirectAddress (r : ReferenceConfig) : bool :=
  bool_decide (rc_Strategy r = ReferenceDirectProperty).

(** [strings.TrimSpace] removes the runes of [unicode.IsSpace]: the ASCII
    white space, and the multi-byte runes U+0085, U+00A0, U+1680,
    U+2000-U+200A, U+2028, U+2029, U+202F, U+205F and U+3000. *)
Definition is_space1 (c : Ascii.ascii) : bool := in_range 9 13 c || in_range 32 32 c.

Definition is_space2 (c1 c2 : Ascii.ascii) : bool :=
  in_range 194 194 c1 && (in_range 133 133 c2 || in_range 160 160 c2).

Definition is_space3 (c1 c2 c3 : Ascii.ascii) : bool :=
  (in_range 225 225 c1 && in_range 154 154 c2 && in_range 128 128 c3) ||
  (in_range 226 226 c1 && in_range 128 128 c2 &&
     (in_range 128 138 c3 || in_range 168 169 c3 || in_range 175 175 c3)) ||
  (in_range 226 226 c1 && in_range 129 129 c2 && in_range 159 159 c3) ||
  (in_range 227 227 c1 && in_range 128 128 c2 && in_range 128 128 c3).

Fixpoint trim_left (s : string) : string :=
  match s with
  | EmptyString => s
  | String c1 s1 =>
      if is_space1 c1 then trim_left s1
      else
        match s1 with
        | String c2 s2 =>
            if is_space2 c1 c2 then trim_left s2
            else
              match s2 with
              | String c3 s3 => if is_space3 c1 c2 c3 then trim_left s3 else s
              | EmptyString => s
              end
        | EmptyString => s
        end
  end.

(** The same on a reversed text: the last byte of a rune comes first. *)
Fixpoint trim_left_rev (s : string) : string :=
  match s with
  | EmptyString => s
  | String c1 s1 =>
      if is_space1 c1 then trim_left_rev s1
      else
        match s1 with
        | String c2 s2 =>
            if is_space2 c2 c1 then trim_left_rev s2
            else
              match s2 with
              | String c3 s3 => if is_space3 c3 c2 c1 then trim_left_rev s3 else s
              | EmptyString => s
              end
        | EmptyString => s
        end
  end.

Definition trim_space (s : string) : string :=
  String.rev (trim_left_rev (String.rev (trim_left s))).

Definition DirectAddressProperty (r : ReferenceConfig) : string :=
  if IsDirectAddress r then trim_space (rc_Property r) else EmptyString.

Inductive ReferencePartKind :=
  | ReferencePartScopeRef | ReferencePartProperty | ReferencePartNodeType
  | ReferencePartLiteral | ReferencePartOther (name : string).

#[export] Instance ReferencePartKind_eq_dec : EqDecision ReferencePartKind.
Proof. solve_decision. Defined.

Record ReferencePart := mkPart {
  rp_Kind : ReferencePartKind;
  rp_Value : string;
}.

Record ReferenceTemplate := mkTemplate {
  rt_Name : string;
  rt_Parts : list ReferencePart;
  rt_IsPrimary : bool;
  rt_Generated : string;
}.

Record DefaultChild := mkDefaultChild {
  dc_TypeKey : string;
  dc_Name : string;
  dc_Props : gmap string raw;
}.

Record NodeType := mkNodeType {
  nt_ID : uuid;
  nt_OrgID : uuid;
  nt_Name : string;
  nt_Slug : string;
  nt_Color : string;
  nt_Icon : string;
  nt_AllowedOps : list Op;
  nt_PropertyDefIDs : list uuid;
  nt_PluralSlug : string;
  nt_IsBuiltin : bool;
  nt_TypeKey : string;
  nt_Features : Features;
  nt_CanContain : list string;
  nt_CanLiveUnder : list string;
  nt_Reference : ReferenceConfig;
  nt_ReferenceTemplates : list ReferenceTemplate;
  nt_DefaultChildren : list DefaultChild;
}.

(** Later types overwrite earlier ones with the same key. *)
Definition BuildTypeIndex (types : list NodeType) : gmap string NodeType :=
  foldl (fun m nt => if decide (nt_TypeKey nt = EmptyString) then m else <[nt_TypeKey nt := nt]> m)
    ∅ types.

Definition PrimaryReferenceTemplate (n : NodeType) : option ReferenceTemplate :=
  head (filter (fun t => rt_IsPrimary t = true) (nt_ReferenceTemplates n)).

(** ** Nodes and relationships *)

(** A [time.Time]; [0] is the zero time. *)
Abbreviation gotime := Z (only parsing).

Record Node := mkNode {
  n_ID : uuid;
  n_OrgID : uuid;
  n_NodeType : string;
  n_Name : string;
  n_Props : gmap string raw;
  n_CreatedBy : uuid;
  n_UpdatedBy : uuid;
  n_CreatedAt : gotime;
  n_UpdatedAt : gotime;
}.

#[export] Instance Node_eq_dec : EqDecision Node.
Proof. solve_decision. Defined.

Record Relationship := mkRelationship {
  rel_OrgID : uuid;
  rel_SourceID : uuid;
  rel_RelationType : string;
  rel_TargetID : uuid;
  rel_CreatedBy : uuid;
  rel_CreatedAt : gotime;
  rel_Props : gmap string raw;
}.

#[export] Instance Relationship_eq_dec : EqDecision Relationship.
Proof. solve_decision. Defined.

Definition RelChildOf : string := "child_of".

(** ** Property definitions *)

Inductive PropertyType :=
  | PropertyTypeText | PropertyTypeNumber | PropertyTypeDate | PropertyTypeSelect
  | PropertyTypeMultiSelect | PropertyTypeURL | PropertyTypeCheckbox | PropertyTypeTimestamp
  | PropertyTypeUUID | PropertyTypeOther (name : string).

#[export] Instance PropertyType_eq_dec : EqDecision PropertyType.
Proof. solve_decision. Defined.

Record EnumOption := mkEnumOption {
  eo_Key : string;
  eo_Label : string;
  eo_Color : string;
  eo_SortRank : Z;
}.

Record PropertyDefaultReference := mkDefaultReference {
  dr_Scope : string;
  dr_Reference : string;
}.

Inductive TextRuleMode :=
  | TextRuleScalar | TextRuleObject | TextRuleItems | TextRuleLabels | TextRuleOther (name : string).

(** A rule with its nested rules; [Fields] pairs each key with its rule. *)
Inductive TextRule := mkTextRule {
  tr_Mode : TextRuleMode;
  tr_Fields : list (string * TextRule);
  tr_Items : option TextRule;
  tr_Labels : gmap string string;
}.

Record SearchProjection := mkSearchProjection {
  sp_Include : bool;
  sp_Order : Z;
  sp_Rule : TextRule;
}.

Record PropertyDef := mkPropertyDef {
  pd_ID : uuid;
  pd_OrgID : uuid;
  pd_Name : string;
  pd_Type : PropertyType;
  pd_AppliesToFeatures : list string;
  pd_Indexed : bool;
  pd_Options : list EnumOption;
  pd_Required : bool;
  pd_DefaultValue : raw;
  pd_DefaultReference : option PropertyDefaultReference;
  pd_ReferenceTargetTypeKey : string;
  pd_Search : option SearchProjection;
}.

(** ** Hierarchy *)

Fixpoint hierarchy_scan (parentID : uuid) (targets : list uuid) : res uuid :=
  match targets with
  | [] => Ok parentID
  | targetID :: targets' =>
      if decide (parentID <> uuid_nil /\ targetID <> parentID)
      then Err ErrNoHierarchyParent
      else hierarchy_scan targetID targets'
  end.

Definition requires_parent (kind : option NodeType) : bool :=
  match kind with Some k => negb (bool_decide (nt_CanLiveUnder k = [])) | None => false end.

Definition HierarchyParent (kind : option NodeType) (childOfTargets : list uuid) : res uuid :=
  parentID ← hierarchy_scan uuid_nil childOfTargets;
  if bool_decide (parentID = uuid_nil) && requires_parent kind
  then Err ErrNoHierarchyParent
  else Ok parentID.

Definition LivesUnder (child parent : option NodeType) : bool :=
  match child, parent with
  | Some c, Some p =>
      bool_decide (nt_TypeKey p ∈ nt_CanLiveUnder c) || bool_decide (nt_TypeKey c ∈ nt_CanContain p)
  | _, _ => false
  end.

(** ** Managed properties *)

Definition parentIDName : string := "parent_id".
Definition scopeIDProperty : string := "scope_id".

Definition IsManagedProperty (name : string) : bool :=
  bool_decide (name = "parent_id") || bool_decide (name = "scope_id") || bool_decide (name = "sequence").
