(* ===== verification/Concrete.v ===== *)
(** * A concrete instance of the library interface

    The witnesses of the development run on this instance of [GoLib]: UUIDs
    print as hyphenated lower-case hexadecimal, URLs are split at the first
    [://], and times are recognised by their length.  It shows that the laws
    of [GoLib] can hold. *)

From S2P Require Import Prelude GoJson Sha256 Bytes Domain.
From Stdlib Require Import Ascii.

Fixpoint insert_dashes (k : nat) (s : string) : string :=
  match s with
  | EmptyString => EmptyString
  | String c s' =>
      if bool_decide (k ∈ [8; 12; 16; 20])
      then String "-" (String c (insert_dashes (S k) s'))
      else String c (insert_dashes (S k) s')
  end.

Fixpoint parse_hex (acc : N) (s : string) : option N :=
  match s with
  | EmptyString => Some acc
  | String c s' =>
      if Ascii.eqb c "-" then parse_hex acc s'
      else match hexval c with Some d => parse_hex (acc * 16 + d) s' | None => None end
  end.

Definition hex_width (n : N) : nat := 32 `max` N.to_nat ((N.size n + 3) / 4).
Definition hex_uuid_string (n : N) : string := insert_dashes 0 (hexN (hex_width n) n).
Definition hex_uuid_parse (s : string) : option N :=
  if String.length s <? 32 then None else parse_hex 0 s.

Lemma hexdigit_cases d :
  (d < 16)%N ->
  hexval (hexdigit d) = Some d /\ Ascii.eqb (hexdigit d) "-" = false /\ plain_char (hexdigit d) = true.
Proof.
  intros Hd. rewrite <-(N2Nat.id d). assert (N.to_nat d < 16) as Hk by lia.
  revert Hk. generalize (N.to_nat d) as k. intros k Hk.
  do 16 (destruct k as [|k]; [by vm_compute|]). lia.
Qed.

Lemma parse_hexN w n acc :
  parse_hex acc (hexN w n) = Some (acc * 16 ^ N.of_nat w + n mod 16 ^ N.of_nat w)%N.
Proof.
  revert acc. induction w as [|w IH]; intros acc; cbn [hexN parse_hex].
  { change (N.of_nat 0) with 0%N. rewrite N.pow_0_r, N.mod_1_r. f_equal. lia. }
  assert (n / 16 ^ N.of_nat w mod 16 < 16)%N as Hd by (apply N.mod_lt; lia).
  destruct (hexdigit_cases _ Hd) as (-> & -> & _). rewrite IH. f_equal.
  rewrite Nat2N.inj_succ, N.pow_succ_r', (N.mul_comm 16), N.Div0.mod_mul_r. lia.
Qed.

Lemma parse_insert_dashes k s acc : parse_hex acc (insert_dashes k s) = parse_hex acc s.
Proof.
  revert k acc. induction s as [|c s IH]; intros k acc; [done|].
  cbn [insert_dashes]. case_bool_decide; cbn [parse_hex]; simpl;
    destruct (Ascii.eqb c "-"), (hexval c); auto.
Qed.

Lemma plain_insert_dashes k s : plain s = true -> plain (insert_dashes k s) = true.
Proof.
  revert k. induction s as [|c s IH]; intros k H; [done|].
  cbn [plain] in H. apply andb_prop in H as [H1 H2].
  cbn [insert_dashes]. case_bool_decide; cbn [plain]; rewrite H1, IH by done; done.
Qed.

Lemma plain_hexN w n : plain (hexN w n) = true.
Proof.
  induction w as [|w IH]; cbn [hexN plain]; [done|]. rewrite IH.
  assert (n / 16 ^ N.of_nat w mod 16 < 16)%N as Hd by (apply N.mod_lt; lia).
  by destruct (hexdigit_cases _ Hd) as (_ & _ & ->).
Qed.

Lemma length_insert_dashes k s : String.length s <= String.length (insert_dashes k s).
Proof.
  revert k. induction s as [|c s IH]; intros k; [done|].
  cbn [insert_dashes]. case_bool_decide; cbn [String.length]; specialize (IH (S k)); lia.
Qed.

Lemma length_hexN w n : String.length (hexN w n) = w.
Proof. induction w; simpl; congruence. Qed.

Lemma length_hex_uuid n : 32 <= String.length (hex_uuid_string n).
Proof.
  unfold hex_uuid_string. etrans; [|apply length_insert_dashes].
  rewrite length_hexN. unfold hex_width. lia.
Qed.

Lemma hex_width_bound n : (n < 16 ^ N.of_nat (hex_width n))%N.
Proof.
  eapply N.lt_le_trans; [apply N.size_gt|].
  change 16%N with (2 ^ 4)%N. rewrite <-N.pow_mul_r. apply N.pow_le_mono_r; [done|].
  unfold hex_width. rewrite Nat2N.inj_max, N2Nat.id.
  pose proof (N.Div0.div_mod (N.size n + 3) 4). pose proof (N.mod_lt (N.size n + 3) 4).
  assert (4 <> 0)%N by lia. lia.
Qed.

Lemma hex_uuid_roundtrip n : hex_uuid_parse (hex_uuid_string n) = Some n.
Proof.
  unfold hex_uuid_parse. pose proof (length_hex_uuid n).
  destruct (Nat.ltb_spec (String.length (hex_uuid_string n)) 32); [lia|].
  unfold hex_uuid_string. rewrite parse_insert_dashes, parse_hexN. f_equal.
  rewrite N.mod_small by apply hex_width_bound. lia.
Qed.

Fixpoint split_url (s : string) : option (string * string) :=
  match s with
  | EmptyString => Some (EmptyString, EmptyString)
  | String c s' =>
      match strip_literal "://" s with
      | Some rest => Some (EmptyString, rest)
      | None =>
          match split_url s' with
          | Some (scheme, EmptyString) => Some (EmptyString, EmptyString)
          | Some (scheme, host) => Some (String c scheme, host)
          | None => None
          end
      end
  end.

(** A polynomial hash of the name, kept away from nil. *)
Fixpoint poly_hash (acc : N) (s : string) : N :=
  match s with
  | EmptyString => N.succ acc
  | String c s' => poly_hash ((acc * 257 + code c) mod 2 ^ 127) s'
  end.

Lemma poly_hash_not_nil b s : poly_hash b s <> 0%N.
Proof. revert b. induction s as [|c s IH]; intros b; cbn [poly_hash]; [lia|apply IH]. Qed.

#[export] Instance hex_golib : GoLib := {|
  uuid_string := hex_uuid_string;
  uuid_parse := hex_uuid_parse;
  url_parse := split_url;
  time_parses l s := match l with DateOnly => String.length s =? 10 | RFC3339 => 20 <=? String.length s end;
  uuid_sha1 := poly_hash;
  uuid_parse_string := hex_uuid_roundtrip;
  uuid_string_plain n := plain_insert_dashes 0 _ (plain_hexN _ n);
  uuid_string_nonempty n H := ltac:(pose proof (length_hex_uuid n) as Hl; rewrite H in Hl; simpl in Hl; lia);
  uuid_sha1_not_nil := poly_hash_not_nil;
|}.
