(* ===== verification/Schema.v ===== *)
(** * Property schemas: internal/domain/node/property_*.go

    [Interpret] checks names, applicability and values of a node's properties
    against an organization's definitions; [ValidateResult] adds required
    properties, references and the parent rule.  [WellFormed] is the contract
    the two implement: the refinement theorem at the end says that
    [ValidateResult] returns no error exactly on well-formed results. *)

From S2P Require Import Prelude GoJson Sha256 Bytes Domain Concrete.

Section schema.
Context `{GL : GoLib}.

(** ** Results *)

Inductive PropertyIssueCode :=
  | PropertyIssueUndeclared | PropertyIssueNotApplicable | PropertyIssueValue
  | PropertyIssueOption | PropertyIssueRequired | PropertyIssueReference | PropertyIssueParent.

#[export] Instance PropertyIssueCode_eq_dec : EqDecision PropertyIssueCode.
Proof. solve_decision. Defined.

(** The reason texts, with the arguments the code formats into them. *)
Inductive reason :=
  | ReasonNoDefinition
  | ReasonNotApplicable (typeKey : string)
  | ReasonInvalidJSON
  | ReasonNull
  | ReasonNotNumber
  | ReasonNotBoolean
  | ReasonNotString
  | ReasonLayout (value : string) (layout : time_layout)
  | ReasonNotURL (value : string)
  | ReasonNotUUID (value : string)
  | ReasonLabel (value key : string)
  | ReasonNotOption (value : string)
  | ReasonNotStrings
  | ReasonDuplicateOption (value : string)
  | ReasonRequired
  | ReasonMissingTarget (target : uuid)
  | ReasonTargetType (target : uuid) (found required : string)
  | ReasonEdgesWithoutParent (targets : list uuid)
  | ReasonNeedsParent (typeKey : string) (kinds : list string)
  | ReasonNotNodeID
  | ReasonParentDiffers (parent : uuid) (targets : list uuid)
  | ReasonMissingParent (parent : uuid)
  | ReasonCannotLiveUnder (typeKey : string) (parent : uuid) (parentKey : string).

Record PropertyIssue := mkIssue {
  pi_Property : string;
  pi_Code : PropertyIssueCode;
  pi_Reason : reason;
}.

Inductive ReadFailure :=
  | FailureNodeType (typeKey : string)
  | FailureDuplicateDefinition (name : string)
  | FailureParentType (typeKey : string) (parent : uuid).

Record PropertyResult := mkResult {
  pr_NodeType : string;
  pr_Valid : gmap string raw;
  pr_Invalid : list PropertyIssue;
  pr_Failures : list ReadFailure;
}.

(** [Err] together with [PropertyResultError.Unwrap]: the sentinel the error
    matches. *)
Definition PropertyResult_Err (r : PropertyResult) : option sentinel :=
  match pr_Failures r, pr_Invalid r with
  | [], [] => None
  | [], _ => Some ErrInvalidArgument
  | _, _ => Some ErrSchemaRead
  end.

Definition add_invalid (r : PropertyResult) (i : PropertyIssue) : PropertyResult :=
  mkResult (pr_NodeType r) (pr_Valid r) (pr_Invalid r ++ [i]) (pr_Failures r).
Definition add_failure (r : PropertyResult) (f : ReadFailure) : PropertyResult :=
  mkResult (pr_NodeType r) (pr_Valid r) (pr_Invalid r) (pr_Failures r ++ [f]).
Definition set_valid (r : PropertyResult) (v : gmap string raw) : PropertyResult :=
  mkResult (pr_NodeType r) v (pr_Invalid r) (pr_Failures r).

(** ** Values *)

Definition stringValueIssue (definition : PropertyDef) (r : raw) (check : string -> option reason) : option PropertyIssue :=
  match unmarshal_string r with
  | None => Some (mkIssue (pd_Name definition) PropertyIssueValue ReasonNotString)
  | Some value =>
      match check value with
      | None => None
      | Some why =>
          let code := if decide (pd_Type definition = PropertyTypeSelect) then PropertyIssueOption else PropertyIssueValue in
          Some (mkIssue (pd_Name definition) code why)
      end
  end.

Definition timeFormatReason (layout : time_layout) (value : string) : option reason :=
  if time_parses layout value then None else Some (ReasonLayout value layout).

Definition urlReason (value : string) : option reason :=
  match url_parse value with
  | Some (scheme, host) =>
      if decide (scheme = EmptyString \/ host = EmptyString) then Some (ReasonNotURL value) else None
  | None => Some (ReasonNotURL value)
  end.

Definition uuidReason (value : string) : option reason :=
  match uuid_parse value with
  | Some parsed => if decide (uuid_string parsed = value) then None else Some (ReasonNotUUID value)
  | None => Some (ReasonNotUUID value)
  end.

Definition optionReason (definition : PropertyDef) (value : string) : option reason :=
  if decide (Exists (fun o => eo_Key o = value) (pd_Options definition)) then None
  else
    match filter (fun o => eo_Label o = value) (pd_Options definition) with
    | o :: _ => Some (ReasonLabel value (eo_Key o))
    | [] => Some (ReasonNotOption value)
    end.

Fixpoint multiSelectScan (definition : PropertyDef) (seen : gset string) (values : list string) : option PropertyIssue :=
  match values with
  | [] => None
  | value :: values' =>
      if decide (value ∈ seen)
      then Some (mkIssue (pd_Name definition) PropertyIssueOption (ReasonDuplicateOption value))
      else
        match optionReason definition value with
        | Some why => Some (mkIssue (pd_Name definition) PropertyIssueOption why)
        | None => multiSelectScan definition ({[value]} ∪ seen) values'
        end
  end.

Definition multiSelectIssue (definition : PropertyDef) (r : raw) : option PropertyIssue :=
  match unmarshal_strings r with
  | None => Some (mkIssue (pd_Name definition) PropertyIssueValue ReasonNotStrings)
  | Some values => multiSelectScan definition ∅ values
  end.

Definition propertyValueIssue (definition : PropertyDef) (r : raw) : option PropertyIssue :=
  let issue why := Some (mkIssue (pd_Name definition) PropertyIssueValue why) in
  if negb (json_valid r) then issue ReasonInvalidJSON
  else if decide (trim_space r = "null") then issue ReasonNull
  else
    match pd_Type definition with
    | PropertyTypeText => stringValueIssue definition r (fun _ => None)
    | PropertyTypeNumber => if unmarshal_float64_ok r then None else issue ReasonNotNumber
    | PropertyTypeCheckbox => match unmarshal_bool r with Some _ => None | None => issue ReasonNotBoolean end
    | PropertyTypeDate => stringValueIssue definition r (timeFormatReason DateOnly)
    | PropertyTypeTimestamp => stringValueIssue definition r (timeFormatReason RFC3339)
    | PropertyTypeURL => stringValueIssue definition r urlReason
    | PropertyTypeUUID => stringValueIssue definition r uuidReason
    | PropertyTypeSelect => stringValueIssue definition r (optionReason definition)
    | PropertyTypeMultiSelect => multiSelectIssue definition r
    | PropertyTypeOther _ => None
    end.

(** ** Interpret *)

Record Schema := mkSchema {
  s_OrgID : uuid;
  s_Types : gmap string NodeType;
  s_Definitions : list (option PropertyDef);
}.

Definition PropertyAppliesTo (definition : PropertyDef) (nodeType : NodeType) : bool :=
  match pd_AppliesToFeatures definition with
  | [] => true
  | feats => Features_HasAny (nt_Features nodeType) feats
  end.

Definition definitionsStep (acc : gmap string PropertyDef * list ReadFailure) (d : option PropertyDef) :
    gmap string PropertyDef * list ReadFailure :=
  match d with
  | None => acc
  | Some definition =>
      match acc.1 !! pd_Name definition with
      | Some _ => (acc.1, acc.2 ++ [FailureDuplicateDefinition (pd_Name definition)])
      | None => (<[pd_Name definition := definition]> acc.1, acc.2)
      end
  end.

Definition definitionsByName (s : Schema) : gmap string PropertyDef * list ReadFailure :=
  foldl definitionsStep (∅, []) (s_Definitions s).

Definition sortedPropertyNames (props : gmap string raw) : list string :=
  merge_sort String.le (map_to_list props).*1.

(** The issue of one property, [None] when the schema accepts the value. *)
Definition interpretIssue (definitions : gmap string PropertyDef) (nodeType : NodeType) (typeKey name : string) (r : raw) : option PropertyIssue :=
  match definitions !! name with
  | None => Some (mkIssue name PropertyIssueUndeclared ReasonNoDefinition)
  | Some definition =>
      if PropertyAppliesTo definition nodeType then propertyValueIssue definition r
      else Some (mkIssue name PropertyIssueNotApplicable (ReasonNotApplicable typeKey))
  end.

Definition interpretStep (definitions : gmap string PropertyDef) (nodeType : NodeType) (typeKey : string)
    (props : gmap string raw) (result : PropertyResult) (name : string) : PropertyResult :=
  let r := default EmptyString (props !! name) in
  match interpretIssue definitions nodeType typeKey name r with
  | Some issue => add_invalid result issue
  | None => set_valid result (<[name := r]> (pr_Valid result))
  end.

Definition Interpret (s : Schema) (typeKey : string) (props : gmap string raw) : PropertyResult :=
  match s_Types s !! typeKey with
  | None => mkResult typeKey ∅ [] [FailureNodeType typeKey]
  | Some nodeType =>
      let '(definitions, failures) := definitionsByName s in
      foldl (interpretStep definitions nodeType typeKey props)
        (mkResult typeKey ∅ [] failures) (sortedPropertyNames props)
  end.

(** ** ValidateResult *)

Record ResultTarget := mkTarget {
  t_Found : bool;
  t_OrgID : uuid;
  t_NodeType : string;
}.

Definition absent_target : ResultTarget := mkTarget false uuid_nil EmptyString.

Record ResultGraph := mkGraph {
  g_OrgID : uuid;
  g_ChildOf : list uuid;
  g_Targets : gmap uuid ResultTarget;
}.

Definition graph_target (graph : ResultGraph) (id : uuid) : ResultTarget :=
  default absent_target (g_Targets graph !! id).

Definition resultReferenceID (r : raw) : uuid :=
  match unmarshal_string r with
  | None => uuid_nil
  | Some text => default uuid_nil (uuid_parse text)
  end.

Definition referenceReason (definition : PropertyDef) (r : raw) (graph : ResultGraph) : option reason :=
  let targetID := resultReferenceID r in
  let target := graph_target graph targetID in
  if negb (t_Found target) || bool_decide (t_OrgID target <> g_OrgID graph)
  then Some (ReasonMissingTarget targetID)
  else if decide (t_NodeType target = pd_ReferenceTargetTypeKey definition) then None
  else Some (ReasonTargetType targetID (t_NodeType target) (pd_ReferenceTargetTypeKey definition)).

(** A reason, or a read failure. *)
Definition parentReason (s : Schema) (nodeType : NodeType) (r : raw) (graph : ResultGraph) :
    option reason * option ReadFailure :=
  if decide (r = EmptyString) then
    match g_ChildOf graph with
    | _ :: _ => (Some (ReasonEdgesWithoutParent (g_ChildOf graph)), None)
    | [] =>
        match nt_CanLiveUnder nodeType with
        | _ :: _ => (Some (ReasonNeedsParent (nt_TypeKey nodeType) (nt_CanLiveUnder nodeType)), None)
        | [] => (None, None)
        end
    end
  else
    let parentID := resultReferenceID r in
    if decide (parentID = uuid_nil) then (Some ReasonNotNodeID, None)
    else if negb (bool_decide (g_ChildOf graph = [parentID]))
    then (Some (ReasonParentDiffers parentID (g_ChildOf graph)), None)
    else
      let parent := graph_target graph parentID in
      if negb (t_Found parent) || bool_decide (t_OrgID parent <> g_OrgID graph)
      then (Some (ReasonMissingParent parentID), None)
      else
        match s_Types s !! t_NodeType parent with
        | None => (None, Some (FailureParentType (t_NodeType parent) parentID))
        | Some parentType =>
            if LivesUnder (Some nodeType) (Some parentType) then (None, None)
            else (Some (ReasonCannotLiveUnder (nt_TypeKey nodeType) parentID (nt_TypeKey parentType)), None)
        end.

Definition name_le (a b : PropertyDef) : Prop := String.le (pd_Name a) (pd_Name b).
#[export] Instance name_le_dec a b : Decision (name_le a b).
Proof. unfold name_le. apply _. Defined.

Definition sortedDefinitions (s : Schema) : list PropertyDef :=
  merge_sort name_le (omap id (s_Definitions s)).

Definition validateIssue (nodeType : NodeType) (rejected : gset string) (graph : ResultGraph)
    (valid : gmap string raw) (definition : PropertyDef) : option PropertyIssue :=
  if negb (PropertyAppliesTo definition nodeType) || bool_decide (pd_Name definition ∈ rejected) then None
  else
    match valid !! pd_Name definition with
    | None =>
        if pd_Required definition
        then Some (mkIssue (pd_Name definition) PropertyIssueRequired ReasonRequired)
        else None
    | Some r =>
        if negb (bool_decide (pd_Type definition = PropertyTypeUUID)) ||
           bool_decide (pd_ReferenceTargetTypeKey definition = EmptyString)
        then None
        else
          match referenceReason definition r graph with
          | Some why => Some (mkIssue (pd_Name definition) PropertyIssueReference why)
          | None => None
          end
    end.

Definition validateStep (nodeType : NodeType) (rejected : gset string) (graph : ResultGraph)
    (result : PropertyResult) (definition : PropertyDef) : PropertyResult :=
  match validateIssue nodeType rejected graph (pr_Valid result) definition with
  | None => result
  | Some issue => add_invalid (set_valid result (delete (pi_Property issue) (pr_Valid result))) issue
  end.

(** The parent check at the end of [ValidateResult]. *)
Definition validateParent (s : Schema) (nodeType : NodeType) (rejected : gset string) (graph : ResultGraph)
    (props : gmap string raw) (result : PropertyResult) : PropertyResult :=
  if decide (parentIDName ∈ rejected) then result
  else
    match parentReason s nodeType (default EmptyString (props !! parentIDName)) graph with
    | (_, Some failure) => add_failure result failure
    | (Some why, None) =>
        add_invalid (set_valid result (delete parentIDName (pr_Valid result)))
          (mkIssue parentIDName PropertyIssueParent why)
    | (None, None) => result
    end.

Definition ValidateResult (s : Schema) (typeKey : string) (props : gmap string raw) (graph : ResultGraph) : PropertyResult :=
  let result := Interpret s typeKey props in
  match s_Types s !! typeKey, pr_Failures result with
  | Some nodeType, [] =>
      let rejected : gset string := list_to_set (pi_Property <$> pr_Invalid result) in
      validateParent s nodeType rejected graph props
        (foldl (validateStep nodeType rejected graph) result (sortedDefinitions s))
  | _, _ => result
  end.

(** ** Lookup of definitions *)

Definition schemaDefs (s : Schema) : list PropertyDef := omap id (s_Definitions s).

Lemma definitionsStep_defs ds acc :
  foldl definitionsStep acc ds = foldl definitionsStep acc (Some <$> omap id ds).
Proof. revert acc. induction ds as [|[d|] ds IH]; intros acc; simpl; auto. Qed.

Lemma definitions_lookup ds m fs name :
  (foldl definitionsStep (m, fs) (Some <$> ds)).1 !! name =
  match m !! name with
  | Some d => Some d
  | None => head (filter (fun d => pd_Name d = name) ds)
  end.
Proof.
  revert m fs. induction ds as [|d ds IH]; intros m fs; simpl; [by destruct (m !! name)|].
  destruct (m !! pd_Name d) as [d'|] eqn:E; rewrite IH.
  - destruct (m !! name) eqn:E'; [done|]. rewrite filter_cons_False; [done|]. congruence.
  - destruct (decide (pd_Name d = name)) as [<-|Hn].
    + by rewrite lookup_insert_eq, E, filter_cons_True.
    + by rewrite lookup_insert_ne, filter_cons_False.
Qed.

Lemma definitions_failures ds m fs :
  (foldl definitionsStep (m, fs) (Some <$> ds)).2 = [] <->
  fs = [] /\ NoDup (pd_Name <$> ds) /\ (forall d, d ∈ ds -> m !! pd_Name d = None).
Proof.
  revert m fs. induction ds as [|d ds IH]; intros m fs; simpl.
  { split; [intros ->; split_and!; [done|constructor|set_solver]|naive_solver]. }
  rewrite NoDup_cons. destruct (m !! pd_Name d) as [d'|] eqn:E; rewrite IH.
  - split; [intros [Hf _]; by destruct fs|]. intros (_ & _ & Hn).
    specialize (Hn d). set_solver.
  - split.
    + intros (-> & Hnd & Hn). split_and!; [done| |done|].
      * intros (d' & Heq & Hd')%list_elem_of_fmap. specialize (Hn _ Hd').
        rewrite Heq in Hn. by rewrite lookup_insert_eq in Hn.
      * intros d' [->|Hd']%elem_of_cons; [done|]. specialize (Hn _ Hd').
        by apply lookup_insert_None in Hn as [??].
    + intros (-> & [Hd Hnd] & Hn). split_and!; [done|done|]. intros d' Hd'.
      apply lookup_insert_None. split; [apply Hn; set_solver|].
      intros Heq. apply Hd. rewrite Heq. by apply list_elem_of_fmap_2.
Qed.

Lemma definitionsByName_lookup s name d :
  (definitionsByName s).1 !! name = Some d -> d ∈ schemaDefs s /\ pd_Name d = name.
Proof.
  unfold definitionsByName. rewrite definitionsStep_defs, definitions_lookup, lookup_empty.
  intros [<- Hd]%head_Some_elem_of%list_elem_of_filter. auto.
Qed.

Lemma definitionsByName_failures s :
  (definitionsByName s).2 = [] <-> NoDup (pd_Name <$> schemaDefs s).
Proof.
  unfold definitionsByName. rewrite definitionsStep_defs, definitions_failures.
  split; [naive_solver|]. intros Hnd. split_and!; [done..|]. intros. apply lookup_empty.
Qed.

Lemma definitionsByName_elem s d :
  NoDup (pd_Name <$> schemaDefs s) -> d ∈ schemaDefs s ->
  (definitionsByName s).1 !! pd_Name d = Some d.
Proof.
  intros Hnd Hd. unfold definitionsByName.
  rewrite definitionsStep_defs, definitions_lookup, lookup_empty.
  fold (schemaDefs s). induction Hd as [d ds|d d' ds Hd IH]; simpl in Hnd.
  - by rewrite filter_cons_True.
  - apply NoDup_cons in Hnd as [Hd' Hnd]. rewrite filter_cons_False; [by apply IH|].
    intros Heq. apply Hd'. rewrite Heq. by apply list_elem_of_fmap_2.
Qed.
(** ** Values the schema accepts *)

Definition option_key (definition : PropertyDef) (value : string) : Prop :=
  value ∈ eo_Key <$> pd_Options definition.

(** The declared meaning of each property type. *)
Definition type_accepts (d : PropertyDef) (r : raw) : Prop :=
  match pd_Type d with
  | PropertyTypeText => is_Some (unmarshal_string r)
  | PropertyTypeNumber => unmarshal_float64_ok r = true
  | PropertyTypeCheckbox => is_Some (unmarshal_bool r)
  | PropertyTypeDate => exists v, unmarshal_string r = Some v /\ time_parses DateOnly v = true
  | PropertyTypeTimestamp => exists v, unmarshal_string r = Some v /\ time_parses RFC3339 v = true
  | PropertyTypeURL => exists v scheme host, unmarshal_string r = Some v /\
      url_parse v = Some (scheme, host) /\ scheme <> EmptyString /\ host <> EmptyString
  | PropertyTypeUUID => exists id, unmarshal_string r = Some (uuid_string id)
  | PropertyTypeSelect => exists v, unmarshal_string r = Some v /\ option_key d v
  | PropertyTypeMultiSelect => exists vs, unmarshal_strings r = Some vs /\ NoDup vs /\ Forall (option_key d) vs
  | PropertyTypeOther _ => True
  end.

Definition value_accepted (d : PropertyDef) (r : raw) : Prop :=
  json_valid r = true /\ trim_space r <> "null" /\ type_accepts d r.

Lemma optionReason_None d v : optionReason d v = None <-> option_key d v.
Proof.
  unfold optionReason, option_key. rewrite list_elem_of_fmap.
  case_decide as Hx.
  - apply Exists_exists in Hx. split; [|done]. intros _. destruct Hx as (o & ? & ?). by exists o.
  - split; [by destruct (filter _ _)|]. intros (o & -> & Ho). destruct Hx.
    apply Exists_exists. eauto.
Qed.

Lemma stringValueIssue_None d r check :
  stringValueIssue d r check = None <-> exists v, unmarshal_string r = Some v /\ check v = None.
Proof.
  unfold stringValueIssue. destruct (unmarshal_string r) as [v|]; [|naive_solver].
  destruct (check v) eqn:?; naive_solver.
Qed.

Lemma multiSelectScan_None d seen vs :
  multiSelectScan d seen vs = None <->
  NoDup vs /\ Forall (option_key d) vs /\ Forall (fun v => v ∉ seen) vs.
Proof.
  revert seen. induction vs as [|v vs IH]; intros seen; simpl; [by repeat constructor|].
  rewrite NoDup_cons, !Forall_cons, <-optionReason_None. case_decide; [naive_solver|].
  destruct (optionReason d v); [naive_solver|]. rewrite IH, !Forall_forall. set_solver.
Qed.

Lemma timeFormatReason_None l v : timeFormatReason l v = None <-> time_parses l v = true.
Proof. unfold timeFormatReason. by destruct (time_parses l v). Qed.

Lemma uuidReason_None v : uuidReason v = None <-> exists id, v = uuid_string id.
Proof.
  unfold uuidReason. split.
  - destruct (uuid_parse v) as [id|]; [|done]. case_decide; [|done]. eauto.
  - intros [id ->]. rewrite uuid_parse_string. by case_decide.
Qed.

Lemma urlReason_None v : urlReason v = None <->
  exists scheme host, url_parse v = Some (scheme, host) /\ scheme <> EmptyString /\ host <> EmptyString.
Proof. unfold urlReason. destruct (url_parse v) as [[??]|]; [case_decide|]; naive_solver. Qed.

Lemma propertyValueIssue_name d r i : propertyValueIssue d r = Some i -> pi_Property i = pd_Name d.
Proof.
  unfold propertyValueIssue, stringValueIssue, multiSelectIssue.
  assert (forall seen vs j, multiSelectScan d seen vs = Some j -> pi_Property j = pd_Name d) as Hm.
  { intros seen vs. revert seen. induction vs as [|v vs IH]; intros seen j; simpl; [done|].
    repeat case_match; naive_solver. }
  repeat case_match; naive_solver.
Qed.

(** No value issue is raised exactly on the values the declared type accepts. *)
Lemma propertyValueIssue_None d r : propertyValueIssue d r = None <-> value_accepted d r.
Proof.
  unfold propertyValueIssue, value_accepted, type_accepts.
  destruct (json_valid r); simpl; [|naive_solver].
  case_decide; [naive_solver|].
  destruct (pd_Type d); rewrite ?stringValueIssue_None.
  - unfold is_Some. naive_solver.
  - destruct (unmarshal_float64_ok r); naive_solver.
  - setoid_rewrite timeFormatReason_None. naive_solver.
  - setoid_rewrite optionReason_None. naive_solver.
  - unfold multiSelectIssue. destruct (unmarshal_strings r) as [vs|]; [|naive_solver].
    rewrite multiSelectScan_None. split; [naive_solver|]. intros (_ & _ & ? & [= ->] & ? & ?).
    split_and!; [done..|]. apply Forall_true. set_solver.
  - setoid_rewrite urlReason_None. naive_solver.
  - unfold is_Some. destruct (unmarshal_bool r); naive_solver.
  - setoid_rewrite timeFormatReason_None. naive_solver.
  - setoid_rewrite uuidReason_None. naive_solver.
  - naive_solver.
Qed.
(** ** Interpret *)

(** The verdict on one named property of [props]. *)
Definition verdict (s : Schema) (nodeType : NodeType) (typeKey : string) (props : gmap string raw) (name : string) : option PropertyIssue :=
  interpretIssue (definitionsByName s).1 nodeType typeKey name (default EmptyString (props !! name)).

Lemma verdict_name s nt k props name i : verdict s nt k props name = Some i -> pi_Property i = name.
Proof.
  unfold verdict, interpretIssue. destruct (_.1 !! name) as [d|] eqn:E; [|naive_solver].
  apply definitionsByName_lookup in E as [_ <-].
  destruct (PropertyAppliesTo d nt); [apply propertyValueIssue_name|naive_solver].
Qed.

Lemma interpret_fold s nt k props names r0 :
  foldl (interpretStep (definitionsByName s).1 nt k props) r0 names =
  mkResult (pr_NodeType r0)
    (foldl (fun m name => match verdict s nt k props name with
                          | None => <[name := default EmptyString (props !! name)]> m
                          | Some _ => m end) (pr_Valid r0) names)
    (pr_Invalid r0 ++ omap (verdict s nt k props) names)
    (pr_Failures r0).
Proof.
  revert r0. induction names as [|name names IH]; intros r0; simpl.
  { destruct r0. by rewrite app_nil_r. }
  rewrite IH. unfold interpretStep. fold (verdict s nt k props name).
  destruct (verdict s nt k props name); simpl; [|done]. by rewrite <-app_assoc.
Qed.

Lemma valid_fold_lookup (f : string -> option PropertyIssue) (g : string -> raw) names (m : gmap string raw) x :
  foldl (fun m name => match f name with None => <[name := g name]> m | Some _ => m end) m names !! x =
  if decide (x ∈ names /\ f x = None) then Some (g x) else m !! x.
Proof.
  revert m. induction names as [|n names IH]; intros m.
  { case_decide; [set_solver|done]. }
  cbn [foldl]. rewrite IH. destruct (f n) eqn:E.
  - repeat case_decide; rewrite ?elem_of_cons in *; naive_solver.
  - destruct (decide (x = n)) as [->|Hn].
    + rewrite lookup_insert_eq. repeat case_decide; rewrite ?elem_of_cons in *; naive_solver.
    + rewrite lookup_insert_ne by done. repeat case_decide; rewrite ?elem_of_cons in *; naive_solver.
Qed.

Lemma sortedPropertyNames_elem props x : x ∈ sortedPropertyNames props <-> is_Some (props !! x).
Proof.
  unfold sortedPropertyNames. rewrite merge_sort_Permutation, list_elem_of_fmap. split.
  - intros ([y v] & -> & Hv%elem_of_map_to_list). by exists v.
  - intros [v Hv%elem_of_map_to_list]. by exists (x, v).
Qed.

Lemma sortedPropertyNames_NoDup props : NoDup (sortedPropertyNames props).
Proof. unfold sortedPropertyNames. rewrite merge_sort_Permutation. apply NoDup_fst_map_to_list. Qed.

Lemma verdict_names s nt k props (names : list string) :
  pi_Property <$> omap (verdict s nt k props) names =
  filter (fun x => is_Some (verdict s nt k props x)) names.
Proof.
  induction names as [|n names IH]; csimpl; [done|].
  destruct (verdict s nt k props n) as [i|] eqn:E; csimpl.
  - rewrite filter_cons_True by (rewrite E; eauto). by rewrite IH, (verdict_name _ _ _ _ _ _ E).
  - rewrite filter_cons_False; [done|]. rewrite E. by intros [? ?].
Qed.

Lemma Interpret_known s k props nt :
  s_Types s !! k = Some nt ->
  Interpret s k props =
  foldl (interpretStep (definitionsByName s).1 nt k props)
    (mkResult k ∅ [] (definitionsByName s).2) (sortedPropertyNames props).
Proof. intros Ht. unfold Interpret. rewrite Ht. by destruct (definitionsByName s). Qed.

Lemma Interpret_Valid s k props nt x :
  s_Types s !! k = Some nt ->
  pr_Valid (Interpret s k props) !! x =
  if decide (verdict s nt k props x = None) then props !! x else None.
Proof.
  intros Ht. rewrite (Interpret_known _ _ _ _ Ht), interpret_fold. simpl.
  rewrite (valid_fold_lookup (verdict s nt k props) (fun x => default EmptyString (props !! x))).
  rewrite lookup_empty. destruct (props !! x) as [v|] eqn:E; repeat case_decide;
    rewrite ?sortedPropertyNames_elem, ?E in *; simpl; unfold is_Some in *; naive_solver.
Qed.

Lemma Interpret_Invalid s k props nt :
  s_Types s !! k = Some nt ->
  pr_Invalid (Interpret s k props) = omap (verdict s nt k props) (sortedPropertyNames props).
Proof. intros Ht. by rewrite (Interpret_known _ _ _ _ Ht), interpret_fold. Qed.

Lemma Interpret_Failures s k props nt :
  s_Types s !! k = Some nt -> pr_Failures (Interpret s k props) = (definitionsByName s).2.
Proof. intros Ht. by rewrite (Interpret_known _ _ _ _ Ht), interpret_fold. Qed.
(** ** The contract of ValidateResult *)

Definition reference_resolves (d : PropertyDef) (r : raw) (graph : ResultGraph) : Prop :=
  let target := graph_target graph (resultReferenceID r) in
  t_Found target = true /\ t_OrgID target = g_OrgID graph /\ t_NodeType target = pd_ReferenceTargetTypeKey d.

(** A node without [parent_id] has no containment edge and a type that may
    stand alone; a node with one has exactly that edge, to a node of the
    organization under which its type may live. *)
Definition parent_rule (s : Schema) (nt : NodeType) (r : raw) (graph : ResultGraph) : Prop :=
  if decide (r = EmptyString)
  then g_ChildOf graph = [] /\ nt_CanLiveUnder nt = []
  else exists parentID parentType,
    resultReferenceID r = parentID /\ parentID <> uuid_nil /\ g_ChildOf graph = [parentID] /\
    t_Found (graph_target graph parentID) = true /\
    t_OrgID (graph_target graph parentID) = g_OrgID graph /\
    s_Types s !! t_NodeType (graph_target graph parentID) = Some parentType /\
    LivesUnder (Some nt) (Some parentType) = true.

Record WellFormed (s : Schema) (typeKey : string) (props : gmap string raw) (graph : ResultGraph) (nt : NodeType) : Prop := {
  wf_type : s_Types s !! typeKey = Some nt;
  wf_names : NoDup (pd_Name <$> schemaDefs s);
  wf_declared : forall name r, props !! name = Some r ->
    exists d, d ∈ schemaDefs s /\ pd_Name d = name /\ PropertyAppliesTo d nt = true /\ value_accepted d r;
  wf_required : forall d, d ∈ schemaDefs s -> PropertyAppliesTo d nt = true ->
    pd_Required d = true -> is_Some (props !! pd_Name d);
  wf_references : forall d r, d ∈ schemaDefs s -> PropertyAppliesTo d nt = true ->
    props !! pd_Name d = Some r -> pd_Type d = PropertyTypeUUID ->
    pd_ReferenceTargetTypeKey d <> EmptyString -> reference_resolves d r graph;
  wf_parent : parent_rule s nt (default EmptyString (props !! parentIDName)) graph;
}.

Lemma referenceReason_None d r graph : referenceReason d r graph = None <-> reference_resolves d r graph.
Proof.
  unfold referenceReason, reference_resolves. cbv zeta.
  generalize (graph_target graph (resultReferenceID r)) as t. intros t.
  destruct (t_Found t); simpl; [|naive_solver].
  destruct (decide (t_OrgID t = g_OrgID graph)); [rewrite bool_decide_eq_false_2 by auto|
    rewrite bool_decide_eq_true_2 by auto]; simpl; [case_decide|]; naive_solver.
Qed.

Lemma parentReason_None s nt r graph : parentReason s nt r graph = (None, None) <-> parent_rule s nt r graph.
Proof.
  unfold parentReason, parent_rule. case_decide.
  { destruct (g_ChildOf graph), (nt_CanLiveUnder nt); naive_solver. }
  generalize (resultReferenceID r) as p. intros p. cbv zeta. split.
  - case_decide; [done|]. case_bool_decide; [cbn [negb]|done].
    destruct (t_Found _) eqn:?; [cbn [negb orb]|done]. case_bool_decide; [done|].
    destruct (s_Types s !! _) as [pt|] eqn:?; [|done].
    destruct (LivesUnder _ _) eqn:?; [|done]. intros _. exists p, pt. split_and!; auto.
  - intros (? & pt & -> & Hp & Hc & Hf & Ho & Hty & Hl). rewrite decide_False by done.
    by rewrite bool_decide_eq_true_2, Hf, bool_decide_eq_false_2, Hty, Hl by auto.
Qed.

Lemma validateStep_fold nt rejected graph r ds :
  pr_Invalid (foldl (validateStep nt rejected graph) r ds) = [] <->
  pr_Invalid r = [] /\ forall d, d ∈ ds -> validateIssue nt rejected graph (pr_Valid r) d = None.
Proof.
  revert r. induction ds as [|d ds IH]; intros r; cbn [foldl].
  { split; [|naive_solver]. intros ->. set_solver. }
  rewrite IH. unfold validateStep at 1 2. destruct (validateIssue nt rejected graph (pr_Valid r) d) as [i|] eqn:E.
  - simpl. split; [by intros [[_ ?]%app_eq_nil ?]|]. intros [_ Hd]. by rewrite (Hd d (list_elem_of_here d ds)) in E.
  - setoid_rewrite elem_of_cons. naive_solver.
Qed.

Lemma validateStep_fold_Failures nt rejected graph r ds :
  pr_Failures (foldl (validateStep nt rejected graph) r ds) = pr_Failures r.
Proof.
  revert r. induction ds as [|d ds IH]; intros r; cbn [foldl]; [done|]. rewrite IH.
  unfold validateStep. by destruct (validateIssue _ _ _ _ _).
Qed.

Lemma PropertyResult_Err_None r :
  PropertyResult_Err r = None <-> pr_Failures r = [] /\ pr_Invalid r = [].
Proof. unfold PropertyResult_Err. destruct (pr_Failures r), (pr_Invalid r); naive_solver. Qed.

(** All properties are accepted exactly when each has a declared, applicable
    definition that accepts its value. *)
Lemma verdicts_None s nt k props :
  NoDup (pd_Name <$> schemaDefs s) ->
  omap (verdict s nt k props) (sortedPropertyNames props) = [] <->
  (forall name r, props !! name = Some r ->
     exists d, d ∈ schemaDefs s /\ pd_Name d = name /\ PropertyAppliesTo d nt = true /\ value_accepted d r).
Proof.
  intros Hnd. assert (omap (verdict s nt k props) (sortedPropertyNames props) = [] <->
    forall name r, props !! name = Some r -> verdict s nt k props name = None) as ->.
  { split.
    - intros Ho name r Hr. destruct (verdict s nt k props name) as [i|] eqn:E; [|done].
      assert (i ∈ omap (verdict s nt k props) (sortedPropertyNames props)) as Hi; [|rewrite Ho in Hi; set_solver].
      apply list_elem_of_omap. exists name. by rewrite sortedPropertyNames_elem, Hr.
    - intros Hall. apply elem_of_nil_inv. intros i (name & [r Hr]%sortedPropertyNames_elem & Hv)%list_elem_of_omap.
      by rewrite (Hall _ _ Hr) in Hv. }
  split; intros Hall name r Hr; specialize (Hall name r Hr).
  - unfold verdict, interpretIssue in Hall. rewrite Hr in Hall. simpl in Hall.
    destruct (_.1 !! name) as [d|] eqn:E; [|done]. apply definitionsByName_lookup in E as [Hd Hn].
    exists d. destruct (PropertyAppliesTo d nt); [|done]. by rewrite <-propertyValueIssue_None.
  - destruct Hall as (d & Hd & <- & Ha & Hv). unfold verdict, interpretIssue.
    rewrite (definitionsByName_elem _ _ Hnd Hd), Ha, Hr. by apply propertyValueIssue_None.
Qed.

Lemma validateIssue_None nt graph props d :
  validateIssue nt ∅ graph props d = None <->
  (PropertyAppliesTo d nt = true -> pd_Required d = true -> is_Some (props !! pd_Name d)) /\
  (forall r, PropertyAppliesTo d nt = true -> props !! pd_Name d = Some r ->
     pd_Type d = PropertyTypeUUID -> pd_ReferenceTargetTypeKey d <> EmptyString -> reference_resolves d r graph).
Proof.
  unfold validateIssue. rewrite (bool_decide_eq_false_2 _ (not_elem_of_empty (pd_Name d))).
  destruct (PropertyAppliesTo d nt); simpl; [|naive_solver].
  destruct (props !! pd_Name d) as [r|]; simpl.
  - case_bool_decide; simpl; [|naive_solver]. case_bool_decide; simpl; [naive_solver|].
    split.
    + intros Hn. split; [eauto|]. intros r' _ [= <-] _ _. apply referenceReason_None.
      by destruct (referenceReason d r graph).
    + intros [_ Hr]. specialize (Hr r). rewrite <-referenceReason_None in Hr. by rewrite Hr.
  - destruct (pd_Required d); [|naive_solver]. split; [done|]. intros [Hr _]. by destruct (Hr eq_refl eq_refl).
Qed.
Lemma validateParent_ok s nt rejected graph props r :
  pr_Failures r = [] ->
  (pr_Failures (validateParent s nt rejected graph props r) = [] /\
   pr_Invalid (validateParent s nt rejected graph props r) = []) <->
  pr_Invalid r = [] /\
  (parentIDName ∈ rejected \/ parent_rule s nt (default EmptyString (props !! parentIDName)) graph).
Proof.
  intros Hf. rewrite <-parentReason_None. unfold validateParent. case_decide; [naive_solver|].
  destruct (parentReason _ _ _ _) as [[why|] [f|]]; simpl; rewrite ?Hf;
    try (destruct (pr_Invalid r)); naive_solver.
Qed.

Lemma accepted_all_Valid s nt k props :
  s_Types s !! k = Some nt -> pr_Invalid (Interpret s k props) = [] -> pr_Valid (Interpret s k props) = props.
Proof.
  intros Ht Hi. apply map_eq. intros x. rewrite (Interpret_Valid _ _ _ _ _ Ht).
  case_decide as Hv; [done|]. destruct (props !! x) as [r|] eqn:E; [|done].
  rewrite (Interpret_Invalid _ _ _ _ Ht) in Hi. destruct (verdict s nt k props x) as [i|] eqn:Ev; [|done].
  assert (i ∈ omap (verdict s nt k props) (sortedPropertyNames props)) as Hin; [|rewrite Hi in Hin; set_solver].
  apply list_elem_of_omap. exists x. by rewrite sortedPropertyNames_elem, E.
Qed.

Lemma sortedDefinitions_elem s d : d ∈ sortedDefinitions s <-> d ∈ schemaDefs s.
Proof. unfold sortedDefinitions. by rewrite merge_sort_Permutation. Qed.

(** ValidateResult on a readable schema, reduced to its three checks. *)
Lemma ValidateResult_ok s k props graph nt :
  s_Types s !! k = Some nt -> NoDup (pd_Name <$> schemaDefs s) ->
  PropertyResult_Err (ValidateResult s k props graph) = None <->
  pr_Invalid (Interpret s k props) = [] /\
  (forall d, d ∈ schemaDefs s -> validateIssue nt ∅ graph props d = None) /\
  parent_rule s nt (default EmptyString (props !! parentIDName)) graph.
Proof.
  intros Ht Hnd. rewrite PropertyResult_Err_None. unfold ValidateResult.
  pose proof (Interpret_Failures s k props nt Ht) as Hf.
  rewrite (proj2 (definitionsByName_failures s) Hnd) in Hf.
  rewrite Ht, Hf, validateParent_ok by (by rewrite validateStep_fold_Failures).
  rewrite validateStep_fold. setoid_rewrite sortedDefinitions_elem.
  destruct (pr_Invalid (Interpret s k props)) as [|i l] eqn:Hi; [|naive_solver].
  rewrite (accepted_all_Valid s nt k props Ht Hi). simpl.
  assert (parentIDName ∉ (∅ : gset string)) by set_solver. naive_solver.
Qed.

Lemma ValidateResult_unreadable s k props graph :
  s_Types s !! k = None \/ ~ NoDup (pd_Name <$> schemaDefs s) ->
  PropertyResult_Err (ValidateResult s k props graph) = Some ErrSchemaRead.
Proof.
  intros Hun. unfold ValidateResult. destruct (s_Types s !! k) as [nt|] eqn:Ht.
  - destruct Hun as [|Hun]; [done|].
    pose proof (Interpret_Failures s k props nt Ht) as Hf. rewrite <-definitionsByName_failures, <-Hf in Hun.
    unfold PropertyResult_Err. by destruct (pr_Failures (Interpret s k props)) eqn:E; [|rewrite E].
  - unfold Interpret. by rewrite Ht.
Qed.

(** ** Properties *)

Lemma ValidateResult_WellFormed s k props graph :
  PropertyResult_Err (ValidateResult s k props graph) = None <->
  exists nt, WellFormed s k props graph nt.
Proof.
  split.
  - intros He. destruct (s_Types s !! k) as [nt|] eqn:Ht;
      [|by rewrite ValidateResult_unreadable in He by auto].
    destruct (decide (NoDup (pd_Name <$> schemaDefs s))) as [Hnd|Hnd];
      [|by rewrite ValidateResult_unreadable in He by auto].
    rewrite (ValidateResult_ok s k props graph nt Ht Hnd) in He. destruct He as (Hi & Hd & Hp).
    rewrite (Interpret_Invalid _ _ _ _ Ht), verdicts_None in Hi by done.
    exists nt. split; [done..| | |done]; intros d; [intros Hin|intros r Hin];
      specialize (Hd d Hin); apply validateIssue_None in Hd as [H1 H2]; auto.
  - intros (nt & [Ht Hnd Hd Hr Hrf Hp]). apply (ValidateResult_ok s k props graph nt Ht Hnd).
    rewrite (Interpret_Invalid _ _ _ _ Ht), verdicts_None by done. split_and!; [done| |done].
    intros d Hin. apply validateIssue_None. split; [eauto|]. intros r ????. eauto.
Qed.

(** C28: The refinement of the schema contract.  [ValidateResult] reports no
    error exactly when the node is well formed: its type is known, the
    organization's definition names are distinct, every property is declared,
    applicable and of the declared type, every required property is present,
    every typed reference resolves to a node of that type in the organization,
    and the containment edges agree with [parent_id] and the type rules. *)
Theorem ValidateResult_refines s k props graph :
  PropertyResult_Err (ValidateResult s k props graph) = None <->
  exists nt, WellFormed s k props graph nt.
Proof. apply ValidateResult_WellFormed. Qed.

(** [Interpret] partitions the stored properties.  For a known node type
    every property is either accepted with its value unchanged or reported
    in exactly one issue, never both, and the issues come in name order. *)
Theorem Interpret_partition s k props :
  is_Some (s_Types s !! k) ->
  let r := Interpret s k props in
  let names := pi_Property <$> pr_Invalid r in
  pr_Valid r ⊆ props /\
  dom (pr_Valid r) ∪ list_to_set names = dom props /\
  dom (pr_Valid r) ## list_to_set names /\
  NoDup names /\ StronglySorted String.le names.
Proof.
  intros [nt Ht] r names.
  assert (names = filter (fun x => is_Some (verdict s nt k props x)) (sortedPropertyNames props)) as Hn.
  { unfold names, r. by rewrite (Interpret_Invalid _ _ _ _ Ht), verdict_names. }
  assert (forall x, x ∈ dom (pr_Valid r) <-> verdict s nt k props x = None /\ x ∈ dom props) as Hd.
  { intros x. rewrite !elem_of_dom. unfold r. rewrite (Interpret_Valid _ _ _ _ _ Ht).
    case_decide; [naive_solver|]. split; [by intros [? ?]|naive_solver]. }
  assert (forall x, x ∈ names <-> verdict s nt k props x <> None /\ x ∈ dom props) as Hi.
  { intros x. by rewrite Hn, list_elem_of_filter, sortedPropertyNames_elem, elem_of_dom, not_eq_None_Some. }
  split_and!.
  - apply map_subseteq_spec. intros x v. unfold r. rewrite (Interpret_Valid _ _ _ _ _ Ht). by case_decide.
  - apply set_eq. intros x. rewrite elem_of_union, elem_of_list_to_set, Hd, Hi.
    destruct (verdict s nt k props x); naive_solver.
  - apply elem_of_disjoint. intros x. rewrite elem_of_list_to_set, Hd, Hi. naive_solver.
  - rewrite Hn. apply NoDup_filter, sortedPropertyNames_NoDup.
  - rewrite Hn. apply StronglySorted_filter. unfold sortedPropertyNames.
    apply StronglySorted_merge_sort; apply _.
Qed.

End schema.

(** A schema with a required text, a number and a reference, for the witnesses. *)
Definition example_def (id : uuid) (name : string) (ty : PropertyType) (req : bool) (target : string) : PropertyDef :=
  mkPropertyDef id 1 name ty [] false [] req EmptyString None target None.

Definition example_type (key : string) (parents : list string) : NodeType :=
  mkNodeType 7 1 key key EmptyString EmptyString AllOps [] EmptyString false key [] [] parents
    (mkReferenceConfig ReferenceUUIDOnly EmptyString) [] [].

Definition example_schema : Schema :=
  mkSchema 1 {["task" := example_type "task" []]}
    [Some (example_def 20 "title" PropertyTypeText true EmptyString); None;
     Some (example_def 21 "rank" PropertyTypeNumber false EmptyString)].

Lemma Interpret_partition_witness :
  let props : gmap string raw := {["title" := quote_plain "hello"; "rank" := quote_plain "high"]} in
  let r := Interpret (GL := hex_golib) example_schema "task" props in
  dom (pr_Valid r) ## list_to_set (pi_Property <$> pr_Invalid r) /\
  pr_Valid r = {["title" := quote_plain "hello"]} /\ (pi_Property <$> pr_Invalid r) = ["rank"].
Proof.
  intros props r.
  assert (is_Some (s_Types example_schema !! "task")) as Hk by (vm_compute; eauto).
  destruct (Interpret_partition (GL := hex_golib) example_schema "task" props Hk) as (_ & _ & Hd & _).
  split; [exact Hd|]. split; vm_compute; reflexivity.
Defined.
