(* ===== verification/Store.v ===== *)
(** * The store: FoundationDB as an interface, stored records, transactions

    FoundationDB and its tuple layer are outside the repository.  [Fdb] is
    what the store code relies on: a transaction reads its own writes, point
    and prefix reads agree, and atomic adds wrap at 64 bits.  A key is the
    tuple the code packs; a value is the record whose encoding the code
    stores, so [json.Marshal] followed by [json.Unmarshal] of a record is the
    record in its compact form.  [gmap_fdb] is a concrete instance. *)

From S2P Require Import Prelude GoJson Domain.

(** ** Stored records *)

(** [NodeView] mirrors [Node] field by field (view.go). *)
Record NodeView := mkView {
  v_ID : uuid;
  v_OrgID : uuid;
  v_NodeType : string;
  v_Name : string;
  v_Props : gmap string raw;
  v_CreatedBy : uuid;
  v_UpdatedBy : uuid;
  v_CreatedAt : gotime;
  v_UpdatedAt : gotime;
}.

Record NodeResolve := mkResolve {
  nr_OrgID : uuid;
  nr_NodeType : string;
}.

Record IdempotencyRecord := mkIdempotency {
  ir_Key : string;
  ir_NodeID : uuid;
  ir_Fingerprint : string;
  ir_CreatedAt : gotime;
  ir_Source : string;
}.

Record StrictActivation := mkActivation {
  sa_Active : bool;
  sa_ActivatedAt : gotime;
  sa_ScanID : uuid;
  sa_RecordsValidated : Z;
}.

(** The empty phase is [NoPhase]. *)
Inductive RepairPhase :=
  | NoPhase
  | RepairPhaseCommentCreated
  | RepairPhaseCommentVerified
  | RepairPhaseExported
  | RepairPhaseCompleted
  | RepairPhaseOther (name : string).

#[export] Instance RepairPhase_eq_dec : EqDecision RepairPhase.
Proof. solve_decision. Defined.

Record RepairCheckpoint := mkCheckpoint {
  cp_RepairID : string;
  cp_ManifestDigest : string;
  cp_NodeID : uuid;
  cp_SourceDigest : string;
  cp_Phase : RepairPhase;
  cp_CommentID : uuid;
  cp_ContentDigest : string;
  cp_ExportPath : string;
  cp_ExportDigest : string;
  cp_ResultDigest : string;
  cp_ActorID : uuid;
  cp_UpdatedAt : gotime;
}.

Record SubtreeDeleteJob := mkJob {
  j_ID : uuid;
  j_OrgID : uuid;
  j_RootID : uuid;
  j_RootParentID : uuid;
  j_ActorID : uuid;
  j_Stack : list uuid;
  j_Deleted : Z;
  j_Moved : Z;
  j_UpdatedAt : gotime;
  j_FinishedAt : gotime;
}.

(** One pending search work item (search_records.go). *)
Record searchWorkRecord := mkWork {
  w_OrgID : uuid;
  w_NodeID : uuid;
  w_Generation : Z;
  w_Revision : Z;
  w_Deleted : bool;
  w_EnqueuedAt : gotime;
}.

Record searchProgressRecord := mkProgress {
  pg_Revision : Z;
  pg_Generation : Z;
  pg_Projection : string;
  pg_Cursor : string;
  pg_Ordinal : Z;
  pg_Phase : string;
}.

Record SearchAccess := mkSearchAccess {
  ac_Versions : list string;
  ac_Keys : list string;
  ac_Generation : Z;
}.

Record searchAccessRecord := mkAccessRecord {
  ar_Access : SearchAccess;
  ar_PagesPending : bool;
  ar_DependentsPending : bool;
  ar_PageAccess : option SearchAccess;
  ar_PageAccessTracked : bool;
}.

(** The rollout fields scheduling reads. *)
Record searchRolloutRecord := mkRollout {
  ro_AuthorityID : uuid;
  ro_ActiveVersion : string;
  ro_WriteVersions : list string;
}.

(** The lease of one work item; an empty owner marks a released item. *)
Record searchClaimRecord := mkClaim {
  qc_Owner : string;
  qc_Generation : Z;
  qc_LeaseUntil : gotime;
  qc_Target : string;
  qc_Mirror : string;
}.

(** The projection a metadata pass recomputes, and one organization rescan. *)
Record searchProjectionTarget := mkTargetPass { pt_Renderer : Z; pt_Format : Z; pt_Sum : string; pt_Epoch : Z }.

Record searchScanRecord := mkScan {
  scan_Phase : string;
  scan_Cursor : string;
  scan_Stop : string;
  scan_Wrapped : bool;
  scan_Content : bool;
  scan_Names : list string;
  scan_TypeKeys : list string;
  scan_Features : list string;
  scan_Access : bool;
  scan_Projection : option searchProjectionTarget;
}.

(** The active projection of an organization. *)
Record searchProjectionState := mkProjectionState { proj_Renderer : Z; proj_Format : Z; proj_Digest : string; proj_Activation : Z }.

(** The index replacement (search_rebuild_record.go). *)
Record searchRebuildRecord := mkRebuild {
  ix_ID : uuid;
  ix_Mode : string;
  ix_State : string;
  ix_SourceIndex : string;
  ix_TargetIndex : string;
  ix_ScanCursor : string;
  ix_VerifyCursor : string;
  ix_Failure : string;
  ix_PrimaryShards : Z;
  ix_RoutingShards : Z;
  ix_Replicas : Z;
  ix_ScanComplete : bool;
  ix_Paused : bool;
  ix_Restored : bool;
  ix_PausedAt : gotime;
  ix_Generation : Z;
  ix_InitiatedOperationID : uuid;
  ix_InitiatedActorID : uuid;
}.

(** One abandoned page write. *)
Record searchPendingWriteRecord := mkPendingWrite {
  pw_DocumentID : string;
  pw_Index : string;
  pw_Ordinal : Z;
  pw_Generation : Z;
  pw_AbandonedAt : gotime;
  pw_Deadline : gotime;
}.

Record searchExclusionRecord := mkExclusion { ex_Class : string; ex_Index : string; ex_Reason : string; ex_ExcludedAt : gotime }.

(** The header of a search session (search_session_record.go); the binding is
    hexadecimal text, and a nil sort position the empty text. *)
Record searchSessionRecord := mkSessionRecord {
  sh_ID : uuid;
  sh_PrincipalID : uuid;
  sh_AuthorityID : uuid;
  sh_EntryPointID : uuid;
  sh_Binding : string;
  sh_Text : string;
  sh_Index : string;
  sh_NodeType : string;
  sh_AccessVersion : string;
  sh_AccessKeys : list string;
  sh_Generation : Z;
  sh_PITID : string;
  sh_Sort : raw;
  sh_Version : Z;
  sh_TokenBytes : Z;
  sh_TokenChunks : Z;
  sh_CreatedAt : gotime;
  sh_IdleDeadline : gotime;
  sh_AbsoluteDeadline : gotime;
  sh_Complete : bool;
  sh_Closing : bool;
}.

Record searchReplayRecord := mkReplay {
  rp_ResultIDs : list uuid;
  rp_Complete : bool;
}.

(** What a key stores.  [VEmpty] is a present key with no bytes; [VBytes] is
    text none of the record decoders accept. *)
Inductive value :=
  | VNode (n : Node)
  | VView (v : NodeView)
  | VResolve (r : NodeResolve)
  | VRel (r : Relationship)
  | VText (s : string)
  | VCounter (z : Z)
  | VInt64 (z : Z)
  | VIdempotency (r : IdempotencyRecord)
  | VIdempotencyID (id : uuid)
  | VType (t : NodeType)
  | VDef (d : PropertyDef)
  | VActivation (a : StrictActivation)
  | VCheckpoint (c : RepairCheckpoint)
  | VJob (j : SubtreeDeleteJob)
  | VWork (w : searchWorkRecord)
  | VProgress (p : searchProgressRecord)
  | VAccess (a : searchAccessRecord)
  | VRollout (r : searchRolloutRecord)
  | VClaims (m : gmap string string)
  | VSession (r : searchSessionRecord)
  | VReplay (r : searchReplayRecord)
  | VClaim (r : searchClaimRecord)
  | VScan (r : searchScanRecord)
  | VProjection (r : searchProjectionState)
  | VRebuild (r : searchRebuildRecord)
  | VPendingWrite (r : searchPendingWriteRecord)
  | VExclusion (r : searchExclusionRecord)
  | VBytes (s : string)
  | VEmpty.

(** [len(encoded) == 0]. *)
Definition no_bytes (v : value) : bool :=
  match v with VEmpty | VText EmptyString | VBytes EmptyString => true | _ => false end.

(** ** Keys *)

Inductive elem := TStr (s : string) | TBytes (s : string) | TInt (z : Z).

#[export] Instance elem_eq_dec : EqDecision elem.
Proof. solve_decision. Defined.

#[export] Instance elem_countable : Countable elem.
Proof.
  apply (inj_countable'
    (fun e => match e with TStr s => inl s | TBytes s => inr (inl s) | TInt z => inr (inr z) end)
    (fun c => match c with inl s => TStr s | inr (inl s) => TBytes s | inr (inr z) => TInt z end)).
  by intros [].
Defined.

Abbreviation key := (list elem) (only parsing).

(** The order of packed tuples: byte strings before text before integers,
    elements from the left, a prefix first. *)
Definition elem_le (a b : elem) : Prop :=
  match a, b with
  | TBytes x, TBytes y => String.le x y
  | TBytes _, _ => True
  | TStr x, TStr y => String.le x y
  | TStr _, TInt _ => True
  | TInt x, TInt y => (x <= y)%Z
  | _, _ => False
  end.

#[export] Instance elem_le_dec : RelDecision elem_le.
Proof. intros [?|?|?] [?|?|?]; simpl; apply _. Defined.

#[export] Instance elem_le_total : Total elem_le.
Proof. intros [x|x|x] [y|y|y]; simpl; auto; first [apply (total String.le)|lia]. Qed.

#[export] Instance elem_le_trans : Transitive elem_le.
Proof. intros [x|x|x] [y|y|y] [z|z|z]; simpl; try done; first [apply (transitivity (R := String.le))|lia]. Qed.

#[export] Instance elem_le_antisymm : AntiSymm eq elem_le.
Proof.
  intros [x|x|x] [y|y|y]; simpl; try done; intros H1 H2; f_equal; first [by apply (anti_symm String.le)|lia].
Qed.

Fixpoint key_le (a b : key) : Prop :=
  match a, b with
  | [], _ => True
  | _, [] => False
  | x :: a', y :: b' => if decide (x = y) then key_le a' b' else elem_le x y
  end.

#[export] Instance key_le_dec : RelDecision key_le.
Proof.
  intros a. induction a as [|x a IH]; intros [|y b]; simpl; [left; done..|by right; intros []|].
  destruct (decide (x = y)); [apply IH|apply _].
Defined.

#[export] Instance key_le_total : Total key_le.
Proof.
  intros a. induction a as [|x a IH]; intros [|y b]; simpl; auto.
  destruct (decide (x = y)) as [->|Hn]; [rewrite decide_True by done; apply IH|].
  rewrite decide_False by done. apply (total elem_le).
Qed.

Lemma key_le_refl k : key_le k k.
Proof. by destruct (total key_le k k). Qed.

#[export] Instance key_le_trans : Transitive key_le.
Proof.
  intros a. induction a as [|x a IH]; intros [|y b] [|z c]; simpl; try done.
  destruct (decide (x = y)) as [->|Hxy], (decide (y = z)) as [->|Hyz].
  - apply IH.
  - done.
  - by rewrite decide_False by done.
  - intros H1 H2. destruct (decide (x = z)) as [->|Hxz]; [by destruct Hxy; apply (anti_symm elem_le)|by etrans].
Qed.

#[export] Instance key_le_antisymm : AntiSymm eq key_le.
Proof.
  intros a. induction a as [|x a IH]; intros [|y b]; simpl; try done.
  destruct (decide (x = y)) as [->|Hxy]; [rewrite decide_True by done; intros ??; f_equal; auto|].
  rewrite decide_False by done. intros H1 H2. by destruct Hxy; apply (anti_symm elem_le).
Qed.

(** ** The interface *)

(** The counter an atomic add reads: absent is zero. *)
Definition add_base (v : option value) : option Z :=
  match v with None => Some 0%Z | Some (VInt64 z) => Some z | Some _ => None end.

Class Fdb := {
  kv : Type;
  fget : kv -> key -> option value;
  fset : kv -> key -> value -> kv;
  fclear : kv -> key -> kv;
  (** [GetRange] of the prefix range of a packed tuple. *)
  frange : kv -> key -> list (key * value);
  fclear_range : kv -> key -> kv;
  (** [Add] of a little-endian 64-bit operand. *)
  fadd : kv -> key -> Z -> kv;
  fget_set s k v k' : fget (fset s k v) k' = if decide (k = k') then Some v else fget s k';
  fget_clear s k k' : fget (fclear s k) k' = if decide (k = k') then None else fget s k';
  fget_clear_range s p k : fget (fclear_range s p) k = if decide (p `prefix_of` k) then None else fget s k;
  frange_spec s p k v : (k, v) ∈ frange s p <-> p `prefix_of` k /\ fget s k = Some v;
  frange_nodup s p : NoDup (frange s p).*1;
  frange_sorted s p : StronglySorted key_le (frange s p).*1;
  fget_add_ne s k d k' : k <> k' -> fget (fadd s k d) k' = fget s k';
  fget_add_eq s k d z : add_base (fget s k) = Some z -> fget (fadd s k d) k = Some (VInt64 ((z + d) mod 2 ^ 64)%Z);
}.

(** ** A concrete instance *)

Definition entry_le (a b : key * value) : Prop := key_le a.1 b.1.

#[export] Instance entry_le_dec : RelDecision entry_le.
Proof. intros a b. apply key_le_dec. Defined.

#[export] Instance entry_le_total : Total entry_le.
Proof. intros a b. apply (total key_le). Qed.

#[export] Instance entry_le_trans : Transitive entry_le.
Proof. intros a b c. apply (transitivity (R := key_le)). Qed.

Definition gmap_range (m : gmap key value) (p : key) : list (key * value) :=
  merge_sort entry_le (map_to_list (filter (fun kv => p `prefix_of` kv.1) m)).

Lemma sorted_keys (l : list (key * value)) : StronglySorted entry_le l -> StronglySorted key_le l.*1.
Proof.
  induction 1 as [|x l Hl IH Hx]; csimpl; [constructor|]. constructor; [done|].
  rewrite Forall_fmap. exact Hx.
Qed.

#[export] Program Instance gmap_fdb : Fdb := {|
  kv := gmap key value;
  fget m k := m !! k;
  fset m k v := <[k := v]> m;
  fclear m k := delete k m;
  frange := gmap_range;
  fclear_range m p := filter (fun kv => ~ p `prefix_of` kv.1) m;
  fadd m k d := <[k := VInt64 ((default 0 (add_base (m !! k)) + d) mod 2 ^ 64)%Z]> m;
|}.
Next Obligation. intros m k v k'. apply lookup_insert. Qed.
Next Obligation. intros m k k'. apply lookup_delete. Qed.
Next Obligation.
  intros m p k. simpl. case_decide as Hp.
  - apply map_lookup_filter_None. right. intros v Hv. simpl. tauto.
  - destruct (m !! k) as [v|] eqn:E.
    + by apply map_lookup_filter_Some.
    + apply map_lookup_filter_None. by left.
Qed.
Next Obligation.
  intros m p k v. simpl. unfold gmap_range. rewrite (merge_sort_Permutation entry_le).
  rewrite elem_of_map_to_list, map_lookup_filter_Some. simpl. tauto.
Qed.
Next Obligation.
  intros m p. simpl. unfold gmap_range. rewrite (merge_sort_Permutation entry_le). apply NoDup_fst_map_to_list.
Qed.
Next Obligation. intros m p. apply sorted_keys, (StronglySorted_merge_sort _). Qed.
Next Obligation. intros m k d k' Hk. by apply lookup_insert_ne. Qed.
Next Obligation. intros m k d z Hz. simpl. by rewrite Hz, lookup_insert_eq. Qed.
