(* ===== verification/Tx.v ===== *)
(** * Transactions and the change record

    One attempt of a FoundationDB transaction is a state and error monad over
    the store and the changes that [mutationAudit] collects
    (audit_changes.go).  An attempt that returns an error does not commit.
    [touches] is the footprint calculus of the development: the key families
    an operation may write. *)

From S2P Require Import Prelude GoJson Domain Store.
From Stdlib Require Import Ascii.

(** ** Audit targets and changes: internal/audit *)

Inductive TargetKind :=
  | TargetKindNode | TargetKindRelationship | TargetKindResource | TargetKindExternal
  | TargetKindOther (name : string).

#[export] Instance TargetKind_eq_dec : EqDecision TargetKind.
Proof. solve_decision. Defined.

Record Target := mkAuditTarget {
  at_Kind : TargetKind;
  at_NodeType : string;
  at_Reference : string;
  at_Name : string;
  at_URI : string;
  at_RelationType : string;
  at_ID : uuid;
  at_SourceID : uuid;
  at_TargetID : uuid;
  at_OwnerID : uuid;
}.

Definition nil (id : uuid) : bool := bool_decide (id = uuid_nil).
Definition blank (s : string) : bool := bool_decide (s = EmptyString).

Definition validateTarget (target : Target) : res unit :=
  _ ← match at_Kind target with
      | TargetKindNode => require (negb (nil (at_ID target) || blank (at_NodeType target))) ErrOther
      | TargetKindRelationship =>
          require (negb (nil (at_SourceID target) || nil (at_TargetID target) || blank (at_RelationType target))) ErrOther
      | TargetKindResource => require (negb (blank (at_URI target))) ErrOther
      | TargetKindExternal => require (negb (blank (at_Reference target))) ErrOther
      | TargetKindOther _ => Err ErrOther
      end;
  require (nil (at_OwnerID target) || bool_decide (at_Kind target = TargetKindResource)) ErrOther.

(** A compared member of a record, or one property in its property map. *)
Inductive recordField := Member (member : string) | Property (property : string).

#[export] Instance recordField_eq_dec : EqDecision recordField.
Proof. solve_decision. Defined.
#[export] Instance recordField_countable : Countable recordField.
Proof.
  apply (inj_countable' (fun f => match f with Member m => inl m | Property p => inr p end)
           (fun c => match c with inl m => Member m | inr p => Property p end)).
  by intros [].
Defined.

(** RFC 6901 escaping. *)
Fixpoint escape_pointer (s : string) : string :=
  match s with
  | EmptyString => EmptyString
  | String c s' =>
      if Ascii.eqb c "~" then String "~" (String "0" (escape_pointer s'))
      else if Ascii.eqb c "/" then String "~" (String "1" (escape_pointer s'))
      else String c (escape_pointer s')
  end.

Definition pointer (f : recordField) : string :=
  match f with
  | Member m => String "/" (escape_pointer m)
  | Property p => "/props/" +:+ escape_pointer p
  end.

(** The compact JSON of one compared member. *)
Inductive fieldValue :=
  | FieldText (s : string) | FieldRaw (r : raw) | FieldNumber (z : Z) | FieldClaims (m : gmap string string).

#[export] Instance fieldValue_eq_dec : EqDecision fieldValue.
Proof. solve_decision. Defined.

Section audit.
Context `{GL : GoLib}.

(** The compared members of a record; identifiers, types, actors and times
    are bookkeeping. *)
Definition recordFields (v : option value) : gmap recordField fieldValue :=
  match v with
  | Some (VNode n) => <[Member "name" := FieldText (n_Name n)]> (kmap Property (FieldRaw <$> n_Props n))
  | Some (VRel r) =>
      <[Member "source_id" := FieldText (uuid_string (rel_SourceID r))]>
      (<[Member "relation_type" := FieldText (rel_RelationType r)]>
      (<[Member "target_id" := FieldText (uuid_string (rel_TargetID r))]>
        (kmap Property (FieldRaw <$> rel_Props r))))
  | Some (VClaims m) => {[Member "reference_keys" := FieldClaims m]}
  | Some (VInt64 z) => {[Member "value" := FieldNumber z]}
  | _ => ∅
  end.

Definition changedFields (source result : option value) : list string :=
  let before := recordFields source in
  let after := recordFields result in
  let lost := filter (fun f => after !! f <> before !! f) (map_to_list before).*1 in
  let added := filter (fun f => before !! f = None) (map_to_list after).*1 in
  merge_sort String.le (pointer <$> lost ++ added).

Record Change := mkChange {
  ch_EventID : uuid;
  ch_Target : Target;
  ch_Before : option value;
  ch_After : option value;
  ch_Changed : list string;
}.

Definition absent_bytes (v : option value) : bool :=
  match v with Some v => no_bytes v | None => true end.

Definition ValidateChange (change : Change) : res unit :=
  _ ← require (negb (nil (ch_EventID change))) ErrOther;
  _ ← validateTarget (ch_Target change);
  require (negb (absent_bytes (ch_Before change) && absent_bytes (ch_After change))) ErrOther.

Definition NewChange (eventID : uuid) (target : Target) (before after : option value) : res Change :=
  let change := mkChange eventID target before after (changedFields before after) in
  _ ← ValidateChange change;
  Ok change.

Definition kind_text (k : TargetKind) : string :=
  match k with
  | TargetKindNode => "node" | TargetKindRelationship => "relationship"
  | TargetKindResource => "resource" | TargetKindExternal => "external" | TargetKindOther s => s
  end.

Definition targetKey (target : Target) : string :=
  if decide (at_Kind target = TargetKindRelationship)
  then kind_text (at_Kind target) +:+ ":" +:+ uuid_string (at_SourceID target) +:+ ":" +:+
       at_RelationType target +:+ ":" +:+ uuid_string (at_TargetID target)
  else kind_text (at_Kind target) +:+ ":" +:+ at_NodeType target +:+ ":" +:+ uuid_string (at_ID target).

(** Equality of two stored encodings of audited records. *)
Definition same_bytes (a b : option value) : bool :=
  match a, b with
  | None, None => true
  | Some (VNode x), Some (VNode y) => bool_decide (x = y)
  | Some (VRel x), Some (VRel y) => bool_decide (x = y)
  | Some (VInt64 x), Some (VInt64 y) => bool_decide (x = y)
  | Some (VClaims x), Some (VClaims y) => bool_decide (x = y)
  | _, _ => false
  end.

Definition change_kind (before after : option value) : string :=
  if absent_bytes before then "create" else if absent_bytes after then "delete" else "update".

Definition change_eventID (base : uuid) (target : Target) (before after : option value) : uuid :=
  uuid_sha1 base (change_kind before after +:+ ":" +:+ targetKey target).

Definition nodeIdentityTarget (nodeID : uuid) (nodeType name : string) : Target :=
  mkAuditTarget TargetKindNode nodeType EmptyString name EmptyString EmptyString nodeID uuid_nil uuid_nil uuid_nil.

Definition nodeTarget (current : Node) : Target :=
  nodeIdentityTarget (n_ID current) (n_NodeType current) (n_Name current).

Definition relationshipTarget (sourceID : uuid) (relationType : string) (targetID : uuid) : Target :=
  mkAuditTarget TargetKindRelationship EmptyString EmptyString EmptyString EmptyString relationType
    uuid_nil sourceID targetID uuid_nil.

End audit.

(** ** The transaction monad *)

(** The attempt's environment: the store configuration (search work enabled,
    write fence installed), the clock readings and the base event ID of the
    operation. *)
Record env := mkEnv {
  e_searchWork : bool;
  e_writeFence : bool;
  e_now : gotime;
  e_scheduled : gotime;
  e_base : uuid;
}.

Section tx.
Context `{FDB : Fdb}.

Record txst := mkTx {
  tx_kv : kv;
  tx_changes : list Change;
}.

Definition tx (A : Type) : Type := txst -> res (txst * A).

#[global] Instance tx_ret : MRet tx := fun A a s => Ok (s, a).
#[global] Instance tx_bind : MBind tx := fun A B f m s =>
  match m s with Ok (s', a) => f a s' | Err e => Err e end.

Definition lift {A} (r : res A) : tx A := fun s => match r with Ok a => Ok (s, a) | Err e => Err e end.
Definition fail {A} (e : sentinel) : tx A := fun _ => Err e.
Definition ensure (b : bool) (e : sentinel) : tx unit := lift (require b e).

Definition tr_get (k : key) : tx (option value) := fun s => Ok (s, fget (tx_kv s) k).
Definition tr_range (p : key) : tx (list (key * value)) := fun s => Ok (s, frange (tx_kv s) p).
Definition modify (f : kv -> kv) : tx unit := fun s => Ok (mkTx (f (tx_kv s)) (tx_changes s), tt).
Definition tr_set (k : key) (v : value) : tx unit := modify (fun s => fset s k v).
Definition tr_clear (k : key) : tx unit := modify (fun s => fclear s k).
Definition tr_clear_range (p : key) : tx unit := modify (fun s => fclear_range s p).
Definition tr_add (k : key) (d : Z) : tx unit := modify (fun s => fadd s k d).

(** A read that treats a value without bytes as absent. *)
Definition tr_get_bytes (k : key) : tx (option value) :=
  v ← tr_get k;
  mret (match v with Some v' => if no_bytes v' then None else Some v' | None => None end).

Fixpoint forM {A} (l : list A) (f : A -> tx unit) : tx unit :=
  match l with [] => mret tt | a :: l' => _ ← f a; forM l' f end.

Fixpoint mapM_tx {A B} (f : A -> tx B) (l : list A) : tx (list B) :=
  match l with
  | [] => mret []
  | a :: l' => b ← f a; bs ← mapM_tx f l'; mret (b :: bs)
  end.

Context `{GL : GoLib}.

Definition push_change (change : Change) : tx unit :=
  fun s => Ok (mkTx (tx_kv s) (tx_changes s ++ [change]), tt).

(** [mutationAudit.record]. *)
Definition record (e : env) (target : Target) (before after : option value) : tx unit :=
  if absent_bytes before && absent_bytes after then mret tt
  else if same_bytes before after then mret tt
  else
    change ← lift (NewChange (change_eventID (e_base e) target before after) target before after);
    push_change change.

(** [mutationAudit.startAttempt]. *)
Definition startAttempt : tx unit := fun s => Ok (mkTx (tx_kv s) [], tt).

End tx.

(** ** Running an attempt *)

Section tx_lemmas.
Context `{FDB : Fdb}.

Lemma tx_bind_ok {A B} (m : tx A) (f : A -> tx B) s s' b :
  (m ≫= f) s = Ok (s', b) <-> exists s1 a, m s = Ok (s1, a) /\ f a s1 = Ok (s', b).
Proof.
  unfold mbind, tx_bind. split.
  - destruct (m s) as [[s1 a]|]; [eauto|done].
  - by intros (s1 & a & -> & ?).
Qed.

Lemma tx_ret_ok {A} (a : A) s s' b : (mret a : tx A) s = Ok (s', b) <-> s' = s /\ b = a.
Proof. unfold mret, tx_ret. naive_solver. Qed.

Lemma lift_ok {A} (r : res A) s s' a : lift r s = Ok (s', a) <-> s' = s /\ r = Ok a.
Proof. unfold lift. destruct r; naive_solver. Qed.

Lemma ensure_ok b e s s' u : ensure b e s = Ok (s', u) <-> s' = s /\ b = true.
Proof. unfold ensure, require. rewrite lift_ok. destruct b, u; naive_solver. Qed.

Lemma tr_get_ok k s s' v : tr_get k s = Ok (s', v) <-> s' = s /\ v = fget (tx_kv s) k.
Proof. unfold tr_get. naive_solver. Qed.

Lemma tr_range_ok p s s' v : tr_range p s = Ok (s', v) <-> s' = s /\ v = frange (tx_kv s) p.
Proof. unfold tr_range. naive_solver. Qed.

Lemma modify_ok f s s' u : modify f s = Ok (s', u) <-> s' = mkTx (f (tx_kv s)) (tx_changes s).
Proof. unfold modify. destruct u. naive_solver. Qed.

(** ** Footprints *)

Definition family (k : key) : string := match k with TStr s :: _ => s | _ => EmptyString end.

(** Disjoint families, by evaluation. *)
Lemma families_disjoint (fs gs : list string) f :
  forallb (fun g => negb (bool_decide (g ∈ gs))) fs = true -> f ∈ fs -> f ∉ gs.
Proof.
  intros Hall Hf Hg. rewrite forallb_forall in Hall. apply list_elem_of_In in Hf.
  specialize (Hall f Hf). by rewrite bool_decide_true in Hall.
Qed.

(** [m] writes only keys of the families [fs] and forgets no change. *)
Definition touches {A} (fs : list string) (m : tx A) : Prop :=
  forall s s' a, m s = Ok (s', a) ->
    (forall k, family k ∉ fs -> fget (tx_kv s') k = fget (tx_kv s) k) /\
    tx_changes s `prefix_of` tx_changes s'.

Lemma touches_ret {A} fs (a : A) : touches fs (mret a : tx A).
Proof. by intros s s' b [-> _]%tx_ret_ok. Qed.

Lemma touches_bind {A B} fs (m : tx A) (f : A -> tx B) :
  touches fs m -> (forall a, touches fs (f a)) -> touches fs (m ≫= f).
Proof.
  intros Hm Hf s s' b (s1 & a & H1 & H2)%tx_bind_ok.
  destruct (Hm _ _ _ H1) as [Hk1 Hc1], (Hf _ _ _ _ H2) as [Hk2 Hc2].
  split; [|by etrans]. intros k Hk. by rewrite Hk2, Hk1.
Qed.

Lemma touches_weaken {A} fs gs (m : tx A) : touches fs m -> fs ⊆ gs -> touches gs m.
Proof. intros Hm Hs s s' a E. destruct (Hm _ _ _ E) as [Hk Hc]. split; [|done]. set_solver. Qed.

Lemma touches_lift {A} fs (r : res A) : touches fs (lift r).
Proof. by intros s s' b [-> _]%lift_ok. Qed.

Lemma touches_fail {A} fs e : touches fs (fail (A := A) e).
Proof. by intros s s' b [=]. Qed.

Lemma touches_get fs k : touches fs (tr_get k).
Proof. by intros s s' b [-> _]%tr_get_ok. Qed.

Lemma touches_get_bytes fs k : touches fs (tr_get_bytes k).
Proof. apply touches_bind; [apply touches_get|]. intros. apply touches_ret. Qed.

Lemma touches_range fs p : touches fs (tr_range p).
Proof. by intros s s' b [-> _]%tr_range_ok. Qed.

Lemma touches_modify fs f :
  (forall s k, family k ∉ fs -> fget (f s) k = fget s k) -> touches fs (modify f).
Proof. intros Hf s s' u ->%modify_ok. split; [intros; by apply Hf|done]. Qed.

Lemma touches_set fs k v : family k ∈ fs -> touches fs (tr_set k v).
Proof. intros Hk. apply touches_modify. intros s k' Hk'. rewrite fget_set. case_decide; [|done]. by subst. Qed.

Lemma touches_clear fs k : family k ∈ fs -> touches fs (tr_clear k).
Proof. intros Hk. apply touches_modify. intros s k' Hk'. rewrite fget_clear. case_decide; [|done]. by subst. Qed.

Lemma touches_clear_range fs f p : f ∈ fs -> touches fs (tr_clear_range (TStr f :: p)).
Proof.
  intros Hk. apply touches_modify. intros s k' Hk'. rewrite fget_clear_range. case_decide as Hp; [|done].
  destruct Hp as [l ->]. done.
Qed.

Lemma touches_add fs k d : family k ∈ fs -> touches fs (tr_add k d).
Proof. intros Hk. apply touches_modify. intros s k' Hk'. apply fget_add_ne. by intros ->. Qed.

Lemma touches_forM {A} fs (l : list A) f : (forall a, touches fs (f a)) -> touches fs (forM l f).
Proof.
  intros Hf. induction l as [|a l IH]; simpl; [apply touches_ret|]. apply touches_bind; auto.
Qed.

Lemma touches_mapM {A B} fs (f : A -> tx B) l : (forall a, touches fs (f a)) -> touches fs (mapM_tx f l).
Proof.
  intros Hf. induction l as [|a l IH]; simpl; [apply touches_ret|].
  apply touches_bind; [done|]. intros. apply touches_bind; [done|]. intros. apply touches_ret.
Qed.

Lemma touches_push fs c : touches fs (push_change c).
Proof. intros s s' u [= <- _]. split; [done|]. by apply prefix_app_r. Qed.

Lemma touches_record `{GoLib} fs e t b a : touches fs (record e t b a).
Proof.
  unfold record. destruct (_ && _); [apply touches_ret|]. destruct (same_bytes b a); [apply touches_ret|].
  apply touches_bind; [apply touches_lift|]. intros. apply touches_push.
Qed.

Lemma touches_ensure fs b e : touches fs (ensure b e).
Proof. apply touches_lift. Qed.

(** ** Reads

    [m] does not change the transaction. *)
Definition reads {A} (m : tx A) : Prop := forall s s' a, m s = Ok (s', a) -> s' = s.

Lemma reads_ret {A} (a : A) : reads (mret a : tx A).
Proof. by intros s s' b [-> _]%tx_ret_ok. Qed.

Lemma reads_bind {A B} (m : tx A) (f : A -> tx B) : reads m -> (forall a, reads (f a)) -> reads (m ≫= f).
Proof. intros Hm Hf s s' b (s1 & a & ->%Hm & E)%tx_bind_ok. by eapply Hf. Qed.

Lemma reads_lift {A} (r : res A) : reads (lift r).
Proof. by intros s s' b [-> _]%lift_ok. Qed.

Lemma reads_ensure b e : reads (ensure b e).
Proof. apply reads_lift. Qed.

Lemma reads_fail {A} e : reads (fail (A := A) e).
Proof. by intros s s' b [=]. Qed.

Lemma reads_get k : reads (tr_get k).
Proof. by intros s s' b [-> _]%tr_get_ok. Qed.

Lemma reads_get_bytes k : reads (tr_get_bytes k).
Proof. apply reads_bind; [apply reads_get|intros; apply reads_ret]. Qed.

Lemma reads_range p : reads (tr_range p).
Proof. by intros s s' b [-> _]%tr_range_ok. Qed.

Lemma reads_mapM {A B} (f : A -> tx B) l : (forall a, reads (f a)) -> reads (mapM_tx f l).
Proof.
  intros Hf. induction l as [|a l IH]; simpl; [apply reads_ret|].
  apply reads_bind; [done|]. intros. apply reads_bind; [done|]. intros. apply reads_ret.
Qed.

Lemma reads_forM {A} (l : list A) f : (forall a, reads (f a)) -> reads (forM l f).
Proof. intros Hf. induction l as [|a l IH]; simpl; [apply reads_ret|]. apply reads_bind; auto. Qed.

Lemma reads_touches {A} fs (m : tx A) : reads m -> touches fs m.
Proof. intros Hm s s' a ->%Hm. done. Qed.

(** ** Preservation *)

Definition preserves {A} (I : kv -> Prop) (m : tx A) : Prop :=
  forall s s' a, m s = Ok (s', a) -> I (tx_kv s) -> I (tx_kv s').

(** [I] reads only the families [gs]. *)
Definition depends (gs : list string) (I : kv -> Prop) : Prop :=
  forall s s', (forall k, family k ∈ gs -> fget s' k = fget s k) -> I s -> I s'.

Lemma preserves_bind {A B} I (m : tx A) (f : A -> tx B) :
  preserves I m -> (forall a, preserves I (f a)) -> preserves I (m ≫= f).
Proof. intros Hm Hf s s' b (s1 & a & H1 & H2)%tx_bind_ok HI. eapply Hf; [done|]. by eapply Hm. Qed.

Lemma preserves_touches {A} I fs gs (m : tx A) :
  touches fs m -> depends gs I -> (forall g, g ∈ gs -> g ∉ fs) -> preserves I m.
Proof. intros Hm Hd Hg s s' a E HI. eapply Hd; [|done]. intros k Hk. eapply Hm; eauto. Qed.


Lemma preserves_forM {A} I (l : list A) f : (forall a, preserves I (f a)) -> preserves I (forM l f).
Proof.
  intros Hf. induction l as [|a l IH]; simpl; [by intros s s' b [-> _]%tx_ret_ok|]. apply preserves_bind; auto.
Qed.

End tx_lemmas.

Create HintDb touch.
#[export] Hint Resolve touches_ret touches_lift touches_fail touches_get touches_get_bytes touches_range
  touches_push touches_record touches_ensure : touch.

Create HintDb reads.
#[export] Hint Resolve reads_ret reads_lift reads_ensure reads_fail reads_get reads_get_bytes reads_range : reads.

Ltac reads_step :=
  match goal with
  | |- forall _, _ => intros
  | |- reads (mbind _ _) => apply reads_bind; [|intros]
  | |- reads (mapM_tx _ _) => apply reads_mapM; intros
  | |- reads (forM _ _) => apply reads_forM; intros
  | |- reads _ => progress cbv beta zeta
  | |- reads (match ?x with _ => _ end) => destruct x
  end.
Ltac reads := repeat first [solve [eauto with reads] | reads_step].

(** Footprint goals: split binds and case analyses, close leaves with the
    [touch] database. *)
Ltac touch_step :=
  match goal with
  | |- forall _, _ => intros
  | |- touches _ (mbind _ _) => apply touches_bind; [|intros]
  | |- touches _ (forM _ _) => apply touches_forM; intros
  | |- touches _ (modify _) => apply touches_modify; intros
  | |- touches _ (mapM_tx _ _) => apply touches_mapM; intros
  | |- touches _ (tr_set _ _) => apply touches_set; set_solver
  | |- touches _ (tr_clear _) => apply touches_clear; set_solver
  | |- touches _ (tr_clear_range _) => apply touches_clear_range; set_solver
  | |- touches _ (tr_add _ _) => apply touches_add; set_solver
  | |- touches _ _ => progress cbv beta zeta
  | |- touches _ (match ?x with _ => _ end) => destruct x
  end.
Ltac touch := repeat first [solve [eauto with touch] | touch_step].

(** Decompose a successful attempt. *)
Ltac tx_inv1 H :=
  cbv beta iota zeta in H;
  match type of H with
  | (mbind _ _) _ = Ok _ =>
      let s := fresh "s" in let a := fresh "a" in let H1 := fresh "E" in let H2 := fresh "E" in
      apply tx_bind_ok in H as (s & a & H1 & H2); try tx_inv1 H1; try tx_inv1 H2
  | mret _ _ = Ok _ => apply tx_ret_ok in H as [? ?]; subst
  | lift _ _ = Ok _ => apply lift_ok in H as [? ?]; subst
  | ensure _ _ _ = Ok _ => apply ensure_ok in H as [? ?]; subst
  | tr_get _ _ = Ok _ => apply tr_get_ok in H as [? ?]; subst
  | tr_range _ _ = Ok _ => apply tr_range_ok in H as [? ?]; subst
  | tr_set _ _ _ = Ok _ => apply modify_ok in H; subst
  | tr_clear _ _ = Ok _ => apply modify_ok in H; subst
  | tr_clear_range _ _ = Ok _ => apply modify_ok in H; subst
  | tr_add _ _ _ = Ok _ => apply modify_ok in H; subst
  | fail _ _ = Ok _ => discriminate H
  | Err _ = Ok _ => discriminate H
  | _ => idtac
  end.
