(* ===== verification/Transact.v ===== *)
(** * Transactions and their retries

    node_transaction.go, node_transaction_attempts.go, node_sequence_retry.go,
    search_revision.go and search_session_transaction.go run one function in
    attempts until a commit succeeds, an error is final or the context ends.

    What the database and the context do is the script of a call: one entry
    for each attempt, and the end of the context after the last one.  The
    store is a type [S] of its own here, and the function of the transaction
    is [E -> S -> res (S * A)]: [E] holds what an attempt reads from outside
    (its clock).  A commit may apply and still report an error. *)

From S2P Require Import Prelude.

Inductive contextEnd := Canceled | DeadlineExceeded.

#[export] Instance contextEnd_eq_dec : EqDecision contextEnd.
Proof. solve_decision. Defined.

(** An error of one step: a sentinel of the function, an [fdb.Error], the end
    of the context, or an error of the client library. *)
Inductive txError :=
  | FromApply (e : sentinel)
  | FromDatabase (code : Z)
  | FromContext (c : contextEnd)
  | FromClient.

#[export] Instance txError_eq_dec : EqDecision txError.
Proof. solve_decision. Defined.

(** [errors.As] into an [fdb.Error]. *)
Definition database_code (e : txError) : option Z := match e with FromDatabase code => Some code | _ => None end.

Definition sentinels (e : txError) : list sentinel := match e with FromApply s => [s] | _ => [] end.

Definition transactionNotCommitted : Z := 1020.
Definition transactionTooOld : Z := 1007.
Definition transactionTimedOut : Z := 1031.

(** One attempt of a script. *)
Record attempt (S E : Type) := mkAttempt {
  at_context : option contextEnd;
  at_options : option txError;
  (** What other clients commit before the attempt reads. *)
  at_others : S -> S;
  at_env : E;
  (** A read of the attempt fails with this code. *)
  at_read : option Z;
  at_commit : option txError;
  at_applied : bool;
  (** The answer of [OnError]. *)
  at_retry : option txError;
}.
Arguments mkAttempt {S E} _ _ _ _ _ _ _ _.
Arguments at_context {S E} _.
Arguments at_options {S E} _.
Arguments at_others {S E} _.
Arguments at_env {S E} _.
Arguments at_read {S E} _.
Arguments at_commit {S E} _.
Arguments at_applied {S E} _.
Arguments at_retry {S E} _.

Record script (S E : Type) := mkScript { sc_attempts : list (attempt S E); sc_end : contextEnd }.
Arguments mkScript {S E} _ _.
Arguments sc_attempts {S E} _.
Arguments sc_end {S E} _.

Section transactions.
Context {S E A : Type} (apply : E -> S -> res (S * A)).

(** The function of the attempt, without its commit. *)
Definition run_apply (a : attempt S E) (s : S) : txError + (S * A) :=
  match at_read a with
  | Some code => inl (FromDatabase code)
  | None => match apply (at_env a) s with Ok r => inr r | Err e => inl (FromApply e) end
  end.

(** The store after the attempt, and its error or its value. *)
Definition run_attempt (a : attempt S E) (s : S) : S * (txError + A) :=
  match run_apply a s with
  | inl e => (s, inl e)
  | inr (s', x) => (if at_applied a then s' else s, match at_commit a with None => inr x | Some e => inl e end)
  end.

(** ** Node transactions (node_transaction.go) *)

Definition attemptErrorCodeLimit : nat := 16.

Record transactionAttempts := mkAttempts { ta_count : nat; ta_codes : list Z; ta_omitted : nat; ta_conflicted : bool }.

Definition newTransactionAttempts : transactionAttempts := mkAttempts 0 [] 0 false.

Definition attempts_start (t : transactionAttempts) : transactionAttempts :=
  mkAttempts (1 + ta_count t) (ta_codes t) (ta_omitted t) (ta_conflicted t).

Definition recordError (t : transactionAttempts) (code : Z) : transactionAttempts :=
  let conflicted := (code =? transactionNotCommitted)%Z || ta_conflicted t in
  if length (ta_codes t) <? attemptErrorCodeLimit
  then mkAttempts (ta_count t) (ta_codes t ++ [code]) (ta_omitted t) conflicted
  else mkAttempts (ta_count t) (ta_codes t) (1 + ta_omitted t) conflicted.

(** [*retryRefusedError], or an error that was logged. *)
Inductive nodeError :=
  | retryRefused (e : txError) (attempts : transactionAttempts)
  | nodeFailed (e : txError).

Fixpoint runNodeAttempts (l : list (attempt S E)) (ended : contextEnd) (attempts : transactionAttempts) (s : S) :
    S * (nodeError + A) :=
  match l with
  | [] => (s, inl (nodeFailed (FromContext ended)))
  | a :: l' =>
      let s := at_others a s in
      match at_context a with
      | Some c => (s, inl (nodeFailed (FromContext c)))
      | None =>
          let attempts := attempts_start attempts in
          match run_attempt a s with
          | (s', inr x) => (s', inr x)
          | (s', inl e) =>
              match database_code e with
              | None => (s', inl (nodeFailed e))
              | Some code =>
                  let attempts := recordError attempts code in
                  match at_retry a with
                  | Some refused => (s', inl (retryRefused refused attempts))
                  | None => runNodeAttempts l' ended attempts s'
                  end
              end
          end
      end
  end.

Definition timed_out (e : txError) : bool :=
  match database_code e with Some code => (code =? transactionTimedOut)%Z | None => false end.

(** The sentinels [errors.Is] finds in the returned error. *)
Definition retryFailure (e : txError) : list sentinel := if timed_out e then sentinels e ++ [ErrConflict] else sentinels e.

Definition runNodeMutation (sc : script S E) (s : S) : S * (list sentinel + A) :=
  match runNodeAttempts (sc_attempts sc) (sc_end sc) newTransactionAttempts s with
  | (s', inr x) => (s', inr x)
  | (s', inl (retryRefused e _)) => (s', inl (retryFailure e))
  | (s', inl (nodeFailed e)) => (s', inl (sentinels e))
  end.

Definition conflictTimedOut (e : txError) (attempts : transactionAttempts) : bool := ta_conflicted attempts && timed_out e.

(** node_sequence_retry.go: each transaction has a script of its own, and
    [ended] tells whether the context has ended after it. *)
Fixpoint runSequenceTransactions (l : list (script S E * bool)) (s : S) : option (S * (list sentinel + A)) :=
  match l with
  | [] => None
  | (sc, ended) :: l' =>
      match runNodeAttempts (sc_attempts sc) (sc_end sc) newTransactionAttempts s with
      | (s', inr x) => Some (s', inr x)
      | (s', inl (nodeFailed e)) => Some (s', inl (sentinels e))
      | (s', inl (retryRefused e attempts)) =>
          if negb (conflictTimedOut e attempts) || ended then Some (s', inl (retryFailure e))
          else runSequenceTransactions l' s'
      end
  end.

(** ** Search transactions (search_revision.go) *)

Fixpoint transactSearch (l : list (attempt S E)) (ended : contextEnd) (s : S) : S * (txError + A) :=
  match l with
  | [] => (s, inl (FromContext ended))
  | a :: l' =>
      let s := at_others a s in
      match at_context a, at_options a with
      | Some c, _ => (s, inl (FromContext c))
      | None, Some e => (s, inl e)
      | None, None =>
          match run_attempt a s with
          | (s', inr x) => (s', inr x)
          | (s', inl e) =>
              match database_code e with
              | None => (s', inl e)
              | Some _ =>
                  match at_retry a with
                  | Some refused => (s', inl refused)
                  | None => transactSearch l' ended s'
                  end
              end
          end
      end
  end.

(** ** Session transactions (search_session_transaction.go) *)

(** The sentinels of the error and whether a [commitUncertainError] marks it. *)
Record sessionFault := mkFault { fl_errors : list sentinel; fl_uncertain : bool }.

Definition commitMayHaveApplied (e : option txError) : bool :=
  match e with
  | None => false
  | Some e =>
      match database_code e with
      | None => true
      | Some code => negb (code =? transactionNotCommitted)%Z && negb (code =? transactionTooOld)%Z
      end
  end.

Definition isSessionOutcome (e : txError) : bool :=
  bool_decide (Exists (fun s => s ∈ [ErrSessionChanged; ErrSessionExpired; ErrSessionNotFound; ErrInvalidQuery]) (sentinels e)).

Definition retire_ended (e : txError) : bool :=
  bool_decide (Exists (fun s => s ∈ [ErrRetireAttemptFenced; ErrRetireRebuildEnded]) (sentinels e)).

(** [classifySearchTimeout]. *)
Definition classified (e : txError) : list sentinel :=
  if timed_out e || bool_decide (e = FromContext DeadlineExceeded) then sentinels e ++ [ErrEngineUnavailable] else sentinels e.

(** An end before the first attempt is marked as not started. *)
Definition context_fault (c : contextEnd) (count : nat) (uncertain : bool) : sessionFault :=
  mkFault (classified (FromContext c) ++ (if count =? 0 then [ErrSessionStepNotStarted] else [])) uncertain.

Fixpoint transactSession_loop (l : list (attempt S E)) (ended : contextEnd) (count : nat) (uncertain : bool) (s : S) :
    S * (sessionFault + A) :=
  match l with
  | [] => (s, inl (context_fault ended count uncertain))
  | a :: l' =>
      let s := at_others a s in
      match at_context a, at_options a with
      | Some c, _ => (s, inl (context_fault c count uncertain))
      | None, Some e => (s, inl (mkFault (classified e) uncertain))
      | None, None =>
          let submitted := match run_apply a s with inl _ => false | inr _ => true end in
          let uncertain := uncertain || (submitted && commitMayHaveApplied (at_commit a)) in
          match run_attempt a s with
          | (s', inr x) => (s', inr x)
          | (s', inl e) =>
              if isSessionOutcome e || retire_ended e then (s', inl (mkFault (sentinels e) uncertain))
              else
                match database_code e with
                | None => (s', inl (mkFault (classified e) uncertain))
                | Some _ =>
                    match at_retry a with
                    | Some refused => (s', inl (mkFault (classified refused) uncertain))
                    | None => transactSession_loop l' ended (1 + count) uncertain s'
                    end
                end
          end
      end
  end.

Definition transactSession (sc : script S E) (s : S) : S * (sessionFault + A) :=
  transactSession_loop (sc_attempts sc) (sc_end sc) 0 false s.

(** ** What a run of attempts did

    [history l s s']: between [s] and [s'] the function took effect once for
    each value of [l], in this order; other clients wrote in between. *)
Inductive history (others : S -> S -> Prop) : list A -> S -> S -> Prop :=
  | history_nil s : history others [] s s
  | history_others l s s1 s2 : others s s1 -> history others l s1 s2 -> history others l s s2
  | history_effect l env a s s1 s2 : apply env s = Ok (s1, a) -> history others l s1 s2 -> history others (a :: l) s s2.

(** What FoundationDB documents: a commit without error applied, and a commit
    that certainly failed did not. *)
Definition honest (a : attempt S E) : Prop :=
  (at_commit a = None -> at_applied a = true) /\
  (is_Some (at_commit a) -> commitMayHaveApplied (at_commit a) = false -> at_applied a = false).

(** The client library has no sentinel of the function. *)
Definition database_errors (a : attempt S E) : Prop :=
  forall e, at_options a = Some e \/ at_commit a = Some e \/ at_retry a = Some e -> sentinels e = [].

Record fair (others : S -> S -> Prop) (a : attempt S E) : Prop := {
  fair_commit : honest a;
  fair_errors : database_errors a;
  fair_others s : others s (at_others a s);
}.

Lemma history_app others l1 l2 s s1 s2 : history others l1 s s1 -> history others l2 s1 s2 -> history others (l1 ++ l2) s s2.
Proof.
  induction 1 as [s|l s s0 s1 Ho _ IH|l env a s s0 s1 Ha _ IH]; intros H2; [done|eapply history_others; eauto|].
  eapply history_effect; eauto.
Qed.

(** An attempt takes effect or not; a value means that it did. *)
Lemma run_attempt_history others a s s' r : honest a -> run_attempt a s = (s', r) ->
  exists l, history others l s s' /\ (forall x, r = inr x -> l = [x]) /\
    (l = [] \/ exists x, l = [x]) /\
    ((match run_apply a s with inl _ => false | inr _ => true end) && commitMayHaveApplied (at_commit a) = false ->
     (exists e, r = inl e) -> l = []).
Proof.
  intros [Hnone Hsure] E0. unfold run_attempt in E0. destruct (run_apply a s) as [e|[s1 x]] eqn:Er; injection E0 as <- <-.
  { exists []. split; [constructor|]. split; [done|]. split; [by left|done]. }
  assert (apply (at_env a) s = Ok (s1, x)) as Ha.
  { unfold run_apply in Er. destruct (at_read a); [done|]. destruct (apply _ s) as [[]|]; [|done]. by injection Er as -> ->. }
  destruct (at_applied a) eqn:Happ.
  - exists [x]. split; [eapply history_effect; [exact Ha|constructor]|].
    destruct (at_commit a) as [e|] eqn:Ec; (split; [naive_solver|split; [by right; exists x|]]).
    + intros Hm _. cbn [andb] in Hm. by specialize (Hsure ltac:(eauto) Hm).
    + intros _ [e [=]].
  - exists []. split; [constructor|]. destruct (at_commit a) as [e|] eqn:Ec.
    + split; [done|]. split; [by left|done].
    + by specialize (Hnone eq_refl).
Qed.

Lemma runNodeAttempts_history others l ended attempts s s' r : Forall (fair others) l ->
  runNodeAttempts l ended attempts s = (s', r) ->
  exists done, history others done s s' /\ (forall x, r = inr x -> last done = Some x) /\ length done <= length l.
Proof.
  intros Hl. revert attempts s. induction Hl as [|a l [Ha He Ho] _ IH]; intros attempts s; cbn [runNodeAttempts].
  { intros [= <- <-]. exists []. split; [constructor|]. by split. }
  assert (forall s2 done, history others done (at_others a s) s2 -> history others done s s2) as Hfirst.
  { intros s2 d Hd. eapply history_others; [apply Ho|exact Hd]. }
  destruct (at_context a) as [c|]; [intros [= <- <-]; exists []; split; [apply Hfirst; constructor|split; [done|cbn; lia]]|].
  destruct (run_attempt a (at_others a s)) as [s1 [e|x]] eqn:Erun;
    destruct (run_attempt_history others _ _ _ _ Ha Erun) as (d & Hd & Hx & Hone & _).
  2:{ intros [= <- <-]. exists d. split; [by apply Hfirst|]. rewrite (Hx x eq_refl). split; [by intros y [= <-]|cbn; lia]. }
  assert (length d <= 1) as Hlen by (destruct Hone as [-> |[? ->]]; cbn; lia).
  destruct (database_code e) as [code|].
  - destruct (at_retry a) as [refused|].
    + intros [= <- <-]. exists d. split; [by apply Hfirst|]. split; [done|cbn; lia].
    + intros E1. apply IH in E1 as (d' & Hd' & Hlast & Hlen'). exists (d ++ d').
      split; [apply Hfirst; by eapply history_app|]. split; [intros x ->; rewrite last_app; by rewrite (Hlast x)|].
      rewrite length_app. cbn. lia.
  - intros [= <- <-]. exists d. split; [by apply Hfirst|]. split; [done|cbn; lia].
Qed.

Lemma runNodeMutation_history others sc s s' r : Forall (fair others) (sc_attempts sc) ->
  runNodeMutation sc s = (s', r) ->
  exists done, history others done s s' /\ (forall x, r = inr x -> last done = Some x).
Proof.
  intros Hsc. unfold runNodeMutation. destruct (runNodeAttempts _ _ _ _) as [s1 r1] eqn:E1.
  apply (runNodeAttempts_history others) in E1 as (d & Hd & Hx & _); [|done].
  destruct r1 as [[]|x]; intros [= <- <-]; exists d; (split; [done|]); naive_solver.
Qed.

(** A certain failure wrote nothing. *)
Lemma transactSession_history others l ended count uncertain s s' r : Forall (fair others) l ->
  transactSession_loop l ended count uncertain s = (s', r) ->
  exists done, history others done s s' /\ (forall x, r = inr x -> last done = Some x) /\
    (forall f, r = inl f -> fl_uncertain f = false -> done = [] /\ uncertain = false).
Proof.
  intros Hl. revert count uncertain s. induction Hl as [|a l [Ha He Ho] _ IH]; intros count uncertain s; cbn [transactSession_loop].
  { intros [= <- <-]. exists []. split; [constructor|]. split; [done|]. by intros f [= <-]. }
  assert (forall s2 done, history others done (at_others a s) s2 -> history others done s s2) as Hfirst.
  { intros s2 d Hd. eapply history_others; [apply Ho|exact Hd]. }
  destruct (at_context a) as [c|];
    [intros [= <- <-]; exists []; split; [apply Hfirst; constructor|]; split; [done|]; by intros f [= <-]|].
  destruct (at_options a) as [e|];
    [intros [= <- <-]; exists []; split; [apply Hfirst; constructor|]; split; [done|]; by intros f [= <-]|].
  set (maybe := _ && commitMayHaveApplied (at_commit a)).
  destruct (run_attempt a (at_others a s)) as [s1 [e|x]] eqn:Erun;
    destruct (run_attempt_history others _ _ _ _ Ha Erun) as (d & Hd & Hx & _ & Hsure); fold maybe in Hsure.
  2:{ intros [= <- <-]. exists d. split; [by apply Hfirst|]. rewrite (Hx x eq_refl). split; [by intros y [= <-]|done]. }
  assert (forall u, uncertain || maybe = u -> u = false -> d = [] /\ uncertain = false) as Hcertain.
  { intros u <- [H1 H2]%orb_false_iff. split; [apply Hsure; eauto|done]. }
  assert (forall errors, (s1, inl (mkFault errors (uncertain || maybe))) = (s', r) ->
    exists done, history others done s s' /\ (forall x, r = inr x -> last done = Some x) /\
      (forall f, r = inl f -> fl_uncertain f = false -> done = [] /\ uncertain = false)) as Hend.
  { intros errors [= <- <-]. exists d. split; [by apply Hfirst|]. split; [done|]. intros f [= <-]. cbn. by apply Hcertain. }
  destruct (_ || retire_ended e); [apply Hend|]. destruct (database_code e) as [code|]; [|apply Hend].
  destruct (at_retry a) as [refused|]; [apply Hend|].
  intros E1. apply IH in E1 as (d' & Hd' & Hlast & Hfail). exists (d ++ d').
  split; [apply Hfirst; by eapply history_app|]. split; [intros x ->; rewrite last_app; by rewrite (Hlast x)|].
  intros f -> Hf. destruct (Hfail f eq_refl Hf) as [-> Hu]. by destruct (Hcertain _ eq_refl Hu) as [-> ->].
Qed.

(** Whatever the attempts do, they keep what the function and the other
    clients keep. *)
Lemma history_keeps (others : S -> S -> Prop) (Inv : S -> Prop) l s s' :
  (forall s s', others s s' -> Inv s -> Inv s') ->
  (forall env s s' x, Inv s -> apply env s = Ok (s', x) -> Inv s') ->
  history others l s s' -> Inv s -> Inv s'.
Proof. intros Ho Ha. induction 1; eauto. Qed.

(** A sentinel of the function is the refusal of the last attempt, on the
    store the call leaves. *)
Lemma transactSession_refused others l ended count uncertain s s' f target : Forall (fair others) l ->
  transactSession_loop l ended count uncertain s = (s', inl f) -> target ∈ fl_errors f ->
  target <> ErrEngineUnavailable -> target <> ErrSessionStepNotStarted -> exists env, apply env s' = Err target.
Proof.
  intros Hl E0 Hin H1 H2.
  assert (forall e, sentinels e = [] -> target ∈ classified e -> False) as Hdb.
  { intros e He. unfold classified. rewrite He. destruct (_ || _); [intros ->%list_elem_of_singleton; done|by intros ?%elem_of_nil]. }
  assert (forall c count uncertain, target ∈ fl_errors (context_fault c count uncertain) -> False) as Hctx.
  { intros c n u. unfold context_fault. cbn [fl_errors]. rewrite elem_of_app. intros [Hc|Hc]; [by apply (Hdb (FromContext c))|].
    destruct (n =? 0); [by apply list_elem_of_singleton in Hc|by apply elem_of_nil in Hc]. }
  revert count uncertain s E0. induction Hl as [|a l [_ He _] _ IH]; intros count uncertain s; cbn [transactSession_loop].
  { intros [= <- <-]. by destruct (Hctx _ _ _ Hin). }
  destruct (at_context a) as [c|]; [intros [= <- <-]; by destruct (Hctx _ _ _ Hin)|].
  destruct (at_options a) as [e|] eqn:Eo; [intros [= <- <-]; destruct (Hdb e); [apply He; auto|done]|].
  destruct (run_attempt a (at_others a s)) as [s1 [e|x]] eqn:Erun; [|done].
  assert ((target ∈ sentinels e \/ target ∈ classified e) -> exists env, apply env s1 = Err target) as Hsent.
  { intros Hc. unfold run_attempt in Erun. destruct (run_apply a (at_others a s)) as [e0|[s2 x]] eqn:Er.
    - injection Erun as <- <-. unfold run_apply in Er. destruct (at_read a) as [code|]; [injection Er as <-|].
      { cbn in Hc. destruct Hc as [Hc|Hc]; [by apply elem_of_nil in Hc|by destruct (Hdb (FromDatabase code) eq_refl Hc)]. }
      destruct (apply (at_env a) _) as [|e1] eqn:Ea; [done|]. injection Er as <-. cbn in Hc.
      exists (at_env a). rewrite Ea. by destruct Hc as [->%list_elem_of_singleton| ->%list_elem_of_singleton].
    - destruct (at_commit a) as [e0|] eqn:Ec; [|done]. injection Erun as _ <-. exfalso.
      assert (sentinels e0 = []) as Hs by (apply He; auto). rewrite Hs in Hc.
      destruct Hc as [Hc|Hc]; [by apply elem_of_nil in Hc|by apply (Hdb e0)]. }
  destruct (_ || retire_ended e); [intros [= <- <-]; apply Hsent; by left|].
  destruct (database_code e) as [code|]; [|intros [= <- <-]; apply Hsent; by right].
  destruct (at_retry a) as [refused|] eqn:Ea; [|apply IH]. intros [= <- <-]. destruct (Hdb refused); [apply He; auto|done].
Qed.

(** A function that refuses a store in which it has taken effect takes effect
    at most once. *)
Lemma history_once (others : S -> S -> Prop) (Inv spent : S -> Prop) l s s' :
  (forall s s', others s s' -> Inv s -> Inv s' /\ (spent s -> spent s')) ->
  (forall env s, spent s -> is_ok (apply env s) = false) ->
  (forall env s s' x, Inv s -> apply env s = Ok (s', x) -> Inv s' /\ spent s') ->
  history others l s s' -> Inv s -> length l <= 1 /\ (spent s -> l = []).
Proof.
  intros Ho Hr Hs. induction 1 as [s|l s s1 s2 Hos _ IH|l env a s s1 s2 Ha _ IH]; intros Hinv.
  - split; [cbn; lia|done].
  - destruct (Ho _ _ Hos Hinv) as [Hinv1 Hsp]. destruct (IH Hinv1) as [H1 H2]. split; [done|]. auto.
  - destruct (Hs _ _ _ _ Hinv Ha) as [Hinv1 Hsp1]. destruct (IH Hinv1) as [H1 H2].
    split; [cbn; rewrite (H2 Hsp1); cbn; lia|]. intros Hsp. specialize (Hr env _ Hsp). by rewrite Ha in Hr.
Qed.

End transactions.
