(* ===== verification/Keys.v ===== *)
(** * The key space: internal/adapters/foundationdb/keys*.go

    Each key is the tuple the code packs.  The families are disjoint by
    their first element, and every key determines the identifiers packed
    into it. *)

From S2P Require Import Prelude GoJson Domain Store Tx.

Section keys.
Context `{GL : GoLib}.

Definition id_elem (id : uuid) : elem := TStr (uuid_string id).

Definition nodeInstanceKey (orgID : uuid) (nodeType : string) (nodeID : uuid) : key :=
  [TStr "node_instance"; id_elem orgID; TStr nodeType; id_elem nodeID].
Definition nodeViewKey (orgID : uuid) (nodeType : string) (nodeID : uuid) : key :=
  [TStr "node_view"; id_elem orgID; TStr nodeType; id_elem nodeID].
Definition nodeResolveKey (nodeID : uuid) : key := [TStr "node_resolve"; id_elem nodeID].
Definition nodeByPropertyKey (orgID : uuid) (nodeType propName : string) (encodedValue : string) (nodeID : uuid) : key :=
  [TStr "node_by_property"; id_elem orgID; TStr nodeType; TStr propName; TBytes encodedValue; id_elem nodeID].
Definition nodeByPropertyValuePrefix (orgID : uuid) (nodeType propName : string) (encodedValue : string) : key :=
  [TStr "node_by_property"; id_elem orgID; TStr nodeType; TStr propName; TBytes encodedValue].
Definition nodeReferenceKey (orgID : uuid) (templateName encoded : string) : key :=
  [TStr "node_reference"; id_elem orgID; TStr templateName; TStr encoded].
Definition nodeReferenceOwnedKey (orgID nodeID : uuid) (templateName : string) : key :=
  [TStr "node_reference_owned"; id_elem orgID; id_elem nodeID; TStr templateName].
Definition nodeReferenceOwnedPrefix (orgID nodeID : uuid) : key :=
  [TStr "node_reference_owned"; id_elem orgID; id_elem nodeID].
Definition nodeTypeDefKey (orgID typeID : uuid) : key := [TStr "node_type_def"; id_elem orgID; id_elem typeID].
Definition nodeTypeDefPrefix (orgID : uuid) : key := [TStr "node_type_def"; id_elem orgID].
Definition nodeTypeByKeyPrefix (orgID : uuid) (typeKey : string) : key :=
  [TStr "node_type_by_key"; id_elem orgID; TStr typeKey].
Definition nodeTypeByKeyKey (orgID : uuid) (typeKey : string) (typeID : uuid) : key :=
  [TStr "node_type_by_key"; id_elem orgID; TStr typeKey; id_elem typeID].
Definition propertyDefKey (orgID defID : uuid) : key := [TStr "property_def"; id_elem orgID; id_elem defID].
Definition propertyDefPrefix (orgID : uuid) : key := [TStr "property_def"; id_elem orgID].
Definition nodeDeleteJobKey (jobID : uuid) : key := [TStr "node_delete_job"; id_elem jobID].
Definition idempotencyKey (orgID : uuid) (k : string) : key := [TStr "idempotency_key"; id_elem orgID; TStr k].

Definition relationshipKey (orgID sourceID : uuid) (relationType : string) (targetID : uuid) : key :=
  [TStr "relationship"; id_elem orgID; id_elem sourceID; TStr relationType; id_elem targetID].
Definition relationshipReverseKey (orgID targetID : uuid) (relationType : string) (sourceID : uuid) : key :=
  [TStr "relationship_reverse"; id_elem orgID; id_elem targetID; TStr relationType; id_elem sourceID].
Definition relationshipPrefixBySource (orgID sourceID : uuid) (relationType : string) : key :=
  if decide (relationType = EmptyString)
  then [TStr "relationship"; id_elem orgID; id_elem sourceID]
  else [TStr "relationship"; id_elem orgID; id_elem sourceID; TStr relationType].
Definition relationshipReversePrefixByTarget (orgID targetID : uuid) (relationType : string) : key :=
  if decide (relationType = EmptyString)
  then [TStr "relationship_reverse"; id_elem orgID; id_elem targetID]
  else [TStr "relationship_reverse"; id_elem orgID; id_elem targetID; TStr relationType].

Definition sequenceKey (orgID scopeNodeID : uuid) (nodeType : string) : key :=
  [TStr "sequence"; id_elem orgID; id_elem scopeNodeID; TStr nodeType].
Definition sequenceByKeyKey (orgID : uuid) (counterKey : string) : key :=
  [TStr "sequence"; id_elem orgID; TStr counterKey].
Definition strictActivationKey : key := [TStr "strict_activation"].
Definition writeFenceBucketKey (bucket : Z) : key := [TStr "write_fence"; TInt bucket].
Definition repairCheckpointKey (repairID : string) : key := [TStr "repair_checkpoint"; TStr repairID].

(** ** The search families: search_keys.go *)

Definition searchEpochKey (orgID : uuid) : key := [TStr "search_epoch"; id_elem orgID].
Definition searchGenerationKey (orgID nodeID : uuid) : key := [TStr "search_generation"; id_elem orgID; id_elem nodeID].
Definition searchRevisionKey (orgID nodeID : uuid) : key := [TStr "search_revision"; id_elem orgID; id_elem nodeID].
Definition searchWorkKey (class : string) (bucket : Z) (orgID nodeID : uuid) : key :=
  [TStr "search_work"; TStr class; TInt bucket; id_elem orgID; id_elem nodeID].
Definition searchAgeKey (class : string) (bucket : Z) (enqueuedAt : gotime) (orgID nodeID : uuid) : key :=
  [TStr "search_age"; TStr class; TInt bucket; TInt enqueuedAt; id_elem orgID; id_elem nodeID].
Definition searchAgePrefix (class : string) (bucket : Z) : key := [TStr "search_age"; TStr class; TInt bucket].
Definition searchAgeClassPrefix (class : string) : key := [TStr "search_age"; TStr class].
Definition searchClaimKey (class : string) (bucket : Z) (orgID nodeID : uuid) : key :=
  [TStr "search_claim"; TStr class; TInt bucket; id_elem orgID; id_elem nodeID].
Definition searchCursorKey (class : string) (orgID nodeID : uuid) : key :=
  [TStr "search_cursor"; TStr class; id_elem orgID; id_elem nodeID].
Definition searchIssuedPrefix (orgID nodeID : uuid) : key := [TStr "search_issued"; id_elem orgID; id_elem nodeID].
Definition searchAccessKey (orgID nodeID : uuid) : key := [TStr "search_access"; id_elem orgID; id_elem nodeID].
Definition searchFanoutKey (orgID deletedID counterpartID : uuid) : key :=
  [TStr "search_fanout"; id_elem orgID; id_elem deletedID; id_elem counterpartID].
Definition searchExclusionKey (orgID nodeID : uuid) : key := [TStr "search_exclusion"; id_elem orgID; id_elem nodeID].
Definition searchRolloutKey (authorityID : uuid) : key := [TStr "search_rollout"; id_elem authorityID].
Definition searchRolloutAffectedCollectKey (authorityID : uuid) : key :=
  [TStr "search_rollout"; id_elem authorityID; TStr "affected_collect"].
Definition searchRolloutAffectedKey (authorityID : uuid) (generation : Z) (nodeID : uuid) : key :=
  [TStr "search_rollout"; id_elem authorityID; TStr "affected"; TInt generation; id_elem nodeID].
Definition searchRolloutAffectedCountKey (authorityID : uuid) (generation : Z) : key :=
  [TStr "search_rollout"; id_elem authorityID; TStr "affected_count"; TInt generation].
Definition searchPermissionEventKey (authorityID : uuid) : key := [TStr "search_permission_event"; id_elem authorityID].
Definition searchErrorKey (class : string) (orgID nodeID : uuid) : key :=
  [TStr "search_error"; TStr class; id_elem orgID; id_elem nodeID].
Definition searchAttemptKey (class : string) (orgID nodeID : uuid) : key :=
  [TStr "search_attempt"; TStr class; id_elem orgID; id_elem nodeID].
Definition searchScanKey (orgID : uuid) : key := [TStr "search_scan"; id_elem orgID].
Definition searchProjectionStateKey (orgID : uuid) : key := [TStr "search_projection_state"; id_elem orgID].
Definition searchIndexKey : key := [TStr "search_index"].
Definition searchRebuildKey : key := [TStr "search_rebuild"].
Definition searchPendingWriteKey (class : string) (orgID nodeID : uuid) (documentID index : string) : key :=
  [TStr "search_pending_write"; TStr class; id_elem orgID; id_elem nodeID; TStr documentID; TStr index].
Definition searchPendingWritePrefix (class : string) (orgID nodeID : uuid) : key :=
  [TStr "search_pending_write"; TStr class; id_elem orgID; id_elem nodeID].

(** ** Reading a key back *)

(** The UUID in a tuple element, as [uuid.Parse] of a string element. *)
Definition elem_id (e : elem) : option uuid := match e with TStr s => uuid_parse s | _ => None end.
Definition elem_text (e : elem) : option string := match e with TStr s => Some s | _ => None end.

(** [edgeEnd]: the fifth element of a relationship key. *)
Definition edgeEnd (k : key) : res uuid :=
  match k with
  | _ :: _ :: _ :: _ :: e :: _ => match elem_id e with Some id => Ok id | None => Err ErrDecode end
  | _ => Err ErrDecode
  end.

(** [lastTupleID]. *)
Definition lastTupleID (k : key) : res uuid :=
  match last k with
  | Some e => match elem_id e with Some id => Ok id | None => Err ErrDecode end
  | None => Err ErrDecode
  end.

Lemma uuid_string_inj a b : uuid_string a = uuid_string b -> a = b.
Proof. intros E. apply (f_equal uuid_parse) in E. rewrite !uuid_parse_string in E. congruence. Qed.

Lemma id_elem_inj a b : id_elem a = id_elem b -> a = b.
Proof. intros [= E]. by apply uuid_string_inj. Qed.

Lemma elem_id_id id : elem_id (id_elem id) = Some id.
Proof. apply uuid_parse_string. Qed.

Lemma edgeEnd_forward o a t b : edgeEnd (relationshipKey o a t b) = Ok b.
Proof. simpl. by rewrite uuid_parse_string. Qed.

Lemma edgeEnd_reverse o a t b : edgeEnd (relationshipReverseKey o a t b) = Ok b.
Proof. simpl. by rewrite uuid_parse_string. Qed.

Lemma relationshipPrefix_spec o a t o' a' t' b' :
  relationshipPrefixBySource o a t `prefix_of` relationshipKey o' a' t' b' <->
  o = o' /\ a = a' /\ (t = EmptyString \/ t = t').
Proof.
  unfold relationshipPrefixBySource, relationshipKey. split.
  - case_decide; intros [l E]; simpl in E; injection E; intros; subst;
      split_and!; auto using uuid_string_inj.
  - intros (-> & -> & Ht). case_decide as Hd.
    + by exists [TStr t'; id_elem b'].
    + destruct Ht as [->| ->]; [done|]. by exists [id_elem b'].
Qed.

Lemma relationshipReversePrefix_spec o a t o' a' t' b' :
  relationshipReversePrefixByTarget o a t `prefix_of` relationshipReverseKey o' a' t' b' <->
  o = o' /\ a = a' /\ (t = EmptyString \/ t = t').
Proof.
  unfold relationshipReversePrefixByTarget, relationshipReverseKey. split.
  - case_decide; intros [l E]; simpl in E; injection E; intros; subst;
      split_and!; auto using uuid_string_inj.
  - intros (-> & -> & Ht). case_decide as Hd.
    + by exists [TStr t'; id_elem b'].
    + destruct Ht as [->| ->]; [done|]. by exists [id_elem b'].
Qed.

End keys.

(** Simplify equations between keys: distinct families and lengths are
    absurd, equal families give equal components. *)
Ltac key_inv :=
  repeat match goal with
  | E : uuid_string _ = uuid_string _ |- _ => apply uuid_string_inj in E
  | E : id_elem _ = id_elem _ |- _ => apply id_elem_inj in E
  | E : @eq (list elem) _ _ |- _ => progress (injection E; clear E; intros)
  | E : @eq (list elem) _ _ |- _ => discriminate E
  end; simplify_eq.
