(* ===== verification/Records.v ===== *)
(** * Node records, reference claims and relationships

    The write primitives every store operation is built from
    (node_update.go, node_create.go, node_reference.go, audit_records.go),
    with the three invariants of the store:
    - [RefInv]: the forward and reverse reference indexes are inverse, so a
      rendered reference has at most one owner;
    - [RelInv]: every relationship has both its forward and its reverse key;
    - [NodeInv]: primary record, resolution record and view agree. *)

From S2P Require Import Prelude GoJson Sha256 Bytes Domain Concrete Store Tx Keys.

(** ** Encoding *)

(** [json.Marshal] of an embedded [RawMessage]: a nil message is null. *)
Definition compact_raw (r : raw) : option raw :=
  if decide (r = EmptyString) then Some "null" else json_compact r.

Definition marshal_props (props : gmap string raw) : res (gmap string raw) :=
  if decide (map_Forall (fun _ r => is_Some (compact_raw r)) props)
  then Ok ((fun r => default r (compact_raw r)) <$> props)
  else Err ErrEncode.

Definition marshal_node (n : Node) : res Node :=
  props ← marshal_props (n_Props n);
  Ok (mkNode (n_ID n) (n_OrgID n) (n_NodeType n) (n_Name n) props
        (n_CreatedBy n) (n_UpdatedBy n) (n_CreatedAt n) (n_UpdatedAt n)).

Definition marshal_view (v : NodeView) : res NodeView :=
  props ← marshal_props (v_Props v);
  Ok (mkView (v_ID v) (v_OrgID v) (v_NodeType v) (v_Name v) props
        (v_CreatedBy v) (v_UpdatedBy v) (v_CreatedAt v) (v_UpdatedAt v)).

Definition marshal_relationship (r : Relationship) : res Relationship :=
  props ← marshal_props (rel_Props r);
  Ok (mkRelationship (rel_OrgID r) (rel_SourceID r) (rel_RelationType r) (rel_TargetID r)
        (rel_CreatedBy r) (rel_CreatedAt r) props).

(** The index value is the raw JSON text (property.go). *)
Definition encodePropertyValue (r : raw) : string := r.

Record ReferenceKey := mkReferenceKey { rk_TemplateName : string; rk_Encoded : string }.

Record RelationshipChanges := mkRelChanges { rc_Add : list Relationship; rc_Remove : list Relationship }.

(** The bytes of a text value. *)
Definition text_of (v : value) : option string :=
  match v with VText s | VBytes s => Some s | VEmpty => Some EmptyString | _ => None end.

Section records.
Context `{FDB : Fdb} `{GL : GoLib}.

(** ** Node records *)

Definition writeNodeRecords (current : Node) (view : option NodeView) : tx Node :=
  encodedNode ← lift (marshal_node current);
  _ ← tr_set (nodeInstanceKey (n_OrgID current) (n_NodeType current) (n_ID current)) (VNode encodedNode);
  _ ← tr_set (nodeResolveKey (n_ID current)) (VResolve (mkResolve (n_OrgID current) (n_NodeType current)));
  _ ← match view with
      | Some view =>
          encodedView ← lift (marshal_view view);
          tr_set (nodeViewKey (n_OrgID current) (n_NodeType current) (n_ID current)) (VView encodedView)
      | None => mret tt
      end;
  mret encodedNode.

Definition writeCreatePropertyIndexes (current : Node) (indexedProps : list string) : tx unit :=
  forM indexedProps (fun propName =>
    match n_Props current !! propName with
    | Some value =>
        if decide (value = EmptyString) then mret tt
        else tr_set (nodeByPropertyKey (n_OrgID current) (n_NodeType current) propName (encodePropertyValue value) (n_ID current)) VEmpty
    | None => mret tt
    end).

Definition reconcilePropertyIndexes (current : Node) (oldProps : gmap string raw) (indexedProps : list string) : tx unit :=
  forM indexedProps (fun propName =>
    let oldValue := default EmptyString (oldProps !! propName) in
    let newValue := default EmptyString (n_Props current !! propName) in
    let entry value := nodeByPropertyKey (n_OrgID current) (n_NodeType current) propName (encodePropertyValue value) (n_ID current) in
    if decide (oldValue = newValue) then mret tt
    else
      _ ← (if decide (oldValue = EmptyString) then mret tt else tr_clear (entry oldValue));
      if decide (newValue = EmptyString) then mret tt else tr_set (entry newValue) VEmpty).

(** ** Reference claims *)

(** The template name of a reverse entry; a malformed entry fails the
    transaction. *)
Definition ownedTemplate (k : key) : res string :=
  match k with
  | [_; _; _; e] => match elem_text e with Some t => Ok t | None => Err ErrOther end
  | _ => Err ErrOther
  end.

Definition clearOwnedEntry (orgID : uuid) (item : key * value) : tx unit :=
  templateName ← lift (ownedTemplate item.1);
  encoded ← lift (match text_of item.2 with Some t => Ok t | None => Err ErrDecode end);
  tr_clear (nodeReferenceKey orgID templateName encoded).

Definition clearReferenceKeys (orgID nodeID : uuid) : tx unit :=
  ownedKeys ← tr_range (nodeReferenceOwnedPrefix orgID nodeID);
  _ ← forM ownedKeys (clearOwnedEntry orgID);
  tr_clear_range (nodeReferenceOwnedPrefix orgID nodeID).

Definition writeReferenceKey (orgID nodeID : uuid) (k : ReferenceKey) : tx unit :=
  let forwardKey := nodeReferenceKey orgID (rk_TemplateName k) (rk_Encoded k) in
  existing ← tr_get_bytes forwardKey;
  match existing with
  | None =>
      _ ← tr_set forwardKey (VText (uuid_string nodeID));
      tr_set (nodeReferenceOwnedKey orgID nodeID (rk_TemplateName k)) (VText (rk_Encoded k))
  | Some holder =>
      ownerID ← lift (match text_of holder ≫= uuid_parse with Some id => Ok id | None => Err ErrOther end);
      if decide (ownerID = nodeID) then mret tt else fail ErrConflict
  end.

Definition writeReferenceKeys (orgID nodeID : uuid) (keys : list ReferenceKey) : tx unit :=
  _ ← clearReferenceKeys orgID nodeID;
  forM keys (writeReferenceKey orgID nodeID).

Definition claimReferenceKeys (orgID nodeID : uuid) (keys : list ReferenceKey) : tx unit :=
  match keys with [] => mret tt | _ => writeReferenceKeys orgID nodeID keys end.

Definition LookupReference (orgID : uuid) (templateName encoded : string) : tx uuid :=
  owner ← tr_get_bytes (nodeReferenceKey orgID templateName encoded);
  match owner with
  | None => mret uuid_nil
  | Some holder => lift (match text_of holder ≫= uuid_parse with Some id => Ok id | None => Err ErrOther end)
  end.

(** ** Relationships *)

Definition rel_key (r : Relationship) : key :=
  relationshipKey (rel_OrgID r) (rel_SourceID r) (rel_RelationType r) (rel_TargetID r).
Definition rel_reverse_key (r : Relationship) : key :=
  relationshipReverseKey (rel_OrgID r) (rel_TargetID r) (rel_RelationType r) (rel_SourceID r).

Definition readRelationshipValues (relationships : list Relationship) : tx (list (option value)) :=
  mapM_tx (fun r => tr_get (rel_key r)) relationships.

Definition removeRelationship (e : env) (item : Relationship * option value) : tx unit :=
  let relationship := item.1 in
  _ ← tr_clear (rel_key relationship);
  _ ← tr_clear (rel_reverse_key relationship);
  record e (relationshipTarget (rel_SourceID relationship) (rel_RelationType relationship) (rel_TargetID relationship)) item.2 None.

Definition removeRelationships (e : env) (removed : list Relationship) : tx unit :=
  stored ← readRelationshipValues removed;
  forM (zip removed stored) (removeRelationship e).

Definition addRelationship (e : env) (item : Relationship * option value) : tx unit :=
  let relationship := item.1 in
  metadata ← lift (marshal_relationship relationship);
  _ ← tr_set (rel_key relationship) (VRel metadata);
  _ ← tr_set (rel_reverse_key relationship) VEmpty;
  record e (relationshipTarget (rel_SourceID relationship) (rel_RelationType relationship) (rel_TargetID relationship)) item.2 (Some (VRel metadata)).

Definition addRelationships (e : env) (added : list Relationship) : tx unit :=
  stored ← readRelationshipValues added;
  forM (zip added stored) (addRelationship e).

Definition applyRelationshipChanges (e : env) (changesList : list RelationshipChanges) : tx unit :=
  forM changesList (fun set =>
    _ ← removeRelationships e (rc_Remove set);
    addRelationships e (rc_Add set)).

(** ** Footprints *)

Definition record_families : list string := ["node_instance"; "node_resolve"; "node_view"].
Definition reference_families : list string := ["node_reference"; "node_reference_owned"].
Definition relationship_families : list string := ["relationship"; "relationship_reverse"].

Lemma touches_writeNodeRecords current view : touches record_families (writeNodeRecords current view).
Proof. unfold writeNodeRecords. touch. Qed.

Lemma touches_writeCreatePropertyIndexes current props : touches ["node_by_property"] (writeCreatePropertyIndexes current props).
Proof. unfold writeCreatePropertyIndexes. touch. Qed.

Lemma touches_reconcilePropertyIndexes current old props : touches ["node_by_property"] (reconcilePropertyIndexes current old props).
Proof. unfold reconcilePropertyIndexes. touch. Qed.

Lemma touches_clearReferenceKeys o n : touches reference_families (clearReferenceKeys o n).
Proof. unfold clearReferenceKeys, clearOwnedEntry, nodeReferenceOwnedPrefix. touch. Qed.

Lemma touches_writeReferenceKeys o n keys : touches reference_families (writeReferenceKeys o n keys).
Proof.
  unfold writeReferenceKeys, writeReferenceKey. apply touches_bind; [apply touches_clearReferenceKeys|]. touch.
Qed.

Lemma touches_claimReferenceKeys o n keys : touches reference_families (claimReferenceKeys o n keys).
Proof. unfold claimReferenceKeys. destruct keys; [touch|]. apply touches_writeReferenceKeys. Qed.

Lemma touches_removeRelationships e l : touches relationship_families (removeRelationships e l).
Proof. unfold removeRelationships, readRelationshipValues, removeRelationship. touch. Qed.

Lemma touches_addRelationships e l : touches relationship_families (addRelationships e l).
Proof. unfold addRelationships, readRelationshipValues, addRelationship. touch. Qed.

Lemma touches_applyRelationshipChanges e l : touches relationship_families (applyRelationshipChanges e l).
Proof.
  unfold applyRelationshipChanges. touch; eauto using touches_removeRelationships, touches_addRelationships.
Qed.

(** ** Reference ownership *)

Definition owner (s : kv) (orgID : uuid) (t e : string) : option uuid :=
  match fget s (nodeReferenceKey orgID t e) with Some v => text_of v ≫= uuid_parse | None => None end.

(** The forward and the reverse index describe the same claims. *)
Record RefInv (s : kv) : Prop := {
  ref_forward o t e v : fget s (nodeReferenceKey o t e) = Some v ->
    exists id, v = VText (uuid_string id) /\ fget s (nodeReferenceOwnedKey o id t) = Some (VText e);
  ref_reverse k v : family k = "node_reference_owned" -> fget s k = Some v ->
    exists o id t e, k = nodeReferenceOwnedKey o id t /\ v = VText e /\
      fget s (nodeReferenceKey o t e) = Some (VText (uuid_string id));
}.

Lemma RefInv_depends : depends reference_families RefInv.
Proof.
  intros s s' Heq [Hf Hr]. split.
  - intros o t e v Hv. rewrite Heq in Hv by (simpl; set_solver).
    destruct (Hf _ _ _ _ Hv) as (id & -> & Ho). exists id. by rewrite Heq by (simpl; set_solver).
  - intros k v Hk Hv. rewrite Heq in Hv by (rewrite Hk; set_solver).
    destruct (Hr _ _ Hk Hv) as (o & id & t & e & -> & -> & Ho). exists o, id, t, e.
    by rewrite Heq by (simpl; set_solver).
Qed.

Lemma owner_Some s o t e id : RefInv s ->
  owner s o t e = Some id <-> fget s (nodeReferenceKey o t e) = Some (VText (uuid_string id)).
Proof.
  intros [Hf _]. unfold owner. split.
  - destruct (fget s (nodeReferenceKey o t e)) as [v|] eqn:E; [|done].
    destruct (Hf _ _ _ _ E) as (id' & -> & _). simpl. rewrite uuid_parse_string. congruence.
  - intros ->. simpl. apply uuid_parse_string.
Qed.

Lemma owner_None s o t e : RefInv s -> owner s o t e = None <-> fget s (nodeReferenceKey o t e) = None.
Proof.
  intros [Hf _]. unfold owner. destruct (fget s (nodeReferenceKey o t e)) as [v|] eqn:E; [|done].
  destruct (Hf _ _ _ _ E) as (id' & -> & _). simpl. by rewrite uuid_parse_string.
Qed.

Lemma owned_Some s o id t e : RefInv s ->
  fget s (nodeReferenceOwnedKey o id t) = Some (VText e) <-> owner s o t e = Some id.
Proof.
  intros HI. rewrite owner_Some by done. split.
  - intros Hv. destruct (ref_reverse s HI (nodeReferenceOwnedKey o id t) _ eq_refl Hv) as (o' & id' & t' & e' & Hk & [= <-] & Hf).
    unfold nodeReferenceOwnedKey in Hk. by key_inv.
  - intros Hf. destruct (ref_forward s HI _ _ _ _ Hf) as (id' & [= ->%uuid_string_inj] & Ho). done.
Qed.

Lemma owned_prefix o id k v s : RefInv s -> fget s k = Some v ->
  nodeReferenceOwnedPrefix o id `prefix_of` k -> exists t e, k = nodeReferenceOwnedKey o id t /\ v = VText e.
Proof.
  intros HI Hv [l E]. assert (family k = "node_reference_owned") as Hk by (by rewrite E).
  destruct (ref_reverse s HI _ _ Hk Hv) as (o' & id' & t & e & Hk' & -> & _).
  exists t, e. split; [|done]. rewrite Hk' in E |- *.
  unfold nodeReferenceOwnedKey, nodeReferenceOwnedPrefix in E. simpl in E. clear Hk' Hk. by key_inv.
Qed.

(** The forward key of a reverse entry. *)
Definition claim_key (orgID : uuid) (item : key * value) : key :=
  match ownedTemplate item.1, text_of item.2 with Ok t, Some e => nodeReferenceKey orgID t e | _, _ => [] end.

Lemma clearOwned_forM orgID items st :
  Forall (fun it => exists id t e, it = (nodeReferenceOwnedKey orgID id t, VText e)) items ->
  exists st', forM items (clearOwnedEntry orgID) st = Ok (st', tt) /\ tx_changes st' = tx_changes st /\
    forall k, fget (tx_kv st') k = if decide (k ∈ claim_key orgID <$> items) then None else fget (tx_kv st) k.
Proof.
  intros Hall. revert st. induction Hall as [|it items (id & t & e & ->) Hall IH]; intros st.
  { exists st. split_and!; [done..|]. intros k. case_decide; [set_solver|done]. }
  destruct (IH (mkTx (fclear (tx_kv st) (nodeReferenceKey orgID t e)) (tx_changes st))) as (st' & E & Hc & Hk).
  exists st'. split_and!; [done..|]. intros k. rewrite Hk. simpl. rewrite fget_clear.
  repeat case_decide; set_solver.
Qed.

(** Clearing a node's claims removes exactly its claims and cannot fail. *)
Lemma clearReferenceKeys_spec orgID nodeID st :
  RefInv (tx_kv st) ->
  exists st', clearReferenceKeys orgID nodeID st = Ok (st', tt) /\ tx_changes st' = tx_changes st /\
    (forall k, fget (tx_kv st') k =
       if decide (nodeReferenceOwnedPrefix orgID nodeID `prefix_of` k) then None
       else if decide (k ∈ claim_key orgID <$> frange (tx_kv st) (nodeReferenceOwnedPrefix orgID nodeID))
       then None else fget (tx_kv st) k).
Proof.
  intros HI. unfold clearReferenceKeys.
  destruct (clearOwned_forM orgID (frange (tx_kv st) (nodeReferenceOwnedPrefix orgID nodeID)) st) as (st1 & E & Hc & Hk).
  { apply Forall_forall. intros [k v] [Hp Hv]%frange_spec.
    destruct (owned_prefix _ _ _ _ _ HI Hv Hp) as (t & e & -> & ->). eauto. }
  eexists. split_and!.
  - unfold mbind, tx_bind, tr_range. rewrite E. reflexivity.
  - done.
  - intros k. simpl. rewrite fget_clear_range, Hk. done.
Qed.

Lemma claimed_keys s orgID nodeID t e :
  RefInv s ->
  nodeReferenceKey orgID t e ∈ claim_key orgID <$> frange s (nodeReferenceOwnedPrefix orgID nodeID) <->
  owner s orgID t e = Some nodeID.
Proof.
  intros HI. rewrite list_elem_of_fmap, <-owned_Some by done. split.
  - intros ([k v] & Hk & [Hp Hv]%frange_spec). destruct (owned_prefix _ _ _ _ _ HI Hv Hp) as (t' & e' & -> & ->).
    unfold claim_key in Hk. simpl in Hk. by key_inv.
  - intros Ho. exists (nodeReferenceOwnedKey orgID nodeID t, VText e). split; [done|].
    apply frange_spec. split; [by exists [TStr t]|done].
Qed.

Lemma clearReferenceKeys_owner orgID nodeID st st' :
  RefInv (tx_kv st) -> clearReferenceKeys orgID nodeID st = Ok (st', tt) ->
  RefInv (tx_kv st') /\
  forall o t e, owner (tx_kv st') o t e =
    if decide (o = orgID /\ owner (tx_kv st) o t e = Some nodeID) then None else owner (tx_kv st) o t e.
Proof.
  intros HI E. destruct (clearReferenceKeys_spec orgID nodeID st HI) as (st1 & E1 & _ & Hk).
  rewrite E1 in E. injection E as <-.
  assert (forall o t e, fget (tx_kv st1) (nodeReferenceKey o t e) =
    if decide (o = orgID /\ owner (tx_kv st) o t e = Some nodeID) then None else fget (tx_kv st) (nodeReferenceKey o t e)) as Hf.
  { intros o t e. rewrite Hk. rewrite decide_False by (intros [l [=]]).
    pose proof (claimed_keys (tx_kv st) orgID nodeID t e HI) as Hc.
    destruct (decide (o = orgID)) as [->|Hne]; [repeat case_decide; naive_solver|].
    rewrite (decide_False (P := _ /\ _)) by naive_solver. rewrite decide_False; [done|].
    intros ([k v] & Hkey & [Hp Hv]%frange_spec)%list_elem_of_fmap.
    destruct (owned_prefix _ _ _ _ _ HI Hv Hp) as (t' & e' & -> & ->).
    unfold claim_key in Hkey. simpl in Hkey. by key_inv. }
  assert (forall o t e, owner (tx_kv st1) o t e =
    if decide (o = orgID /\ owner (tx_kv st) o t e = Some nodeID) then None else owner (tx_kv st) o t e) as Ho.
  { intros o t e. unfold owner at 1. rewrite Hf. case_decide; done. }
  split; [|done]. split.
  - intros o t e v. rewrite Hf. case_decide as Hd; [done|]. intros Hv.
    destruct (ref_forward _ HI _ _ _ _ Hv) as (id & -> & Hw). exists id. split; [done|].
    rewrite Hk. rewrite !decide_False; [done| |].
    + intros ([k v] & Hkey & [Hp' Hv']%frange_spec)%list_elem_of_fmap.
      destruct (owned_prefix _ _ _ _ _ HI Hv' Hp') as (t' & e' & -> & ->). by unfold claim_key in Hkey.
    + intros [l E]. unfold nodeReferenceOwnedPrefix, nodeReferenceOwnedKey in E. simpl in E. key_inv.
      destruct Hd. split; [done|]. by apply owner_Some.
  - intros k v Hfam. rewrite Hk. case_decide as Hp; [done|]. case_decide; [done|]. intros Hv.
    destruct (ref_reverse _ HI _ _ Hfam Hv) as (o & id & t & e & -> & -> & Hw). exists o, id, t, e.
    split_and!; [done..|]. rewrite Hf, decide_False; [done|]. intros [-> Hown].
    apply owner_Some in Hown; [|done]. rewrite Hw in Hown. injection Hown as ->%uuid_string_inj.
    apply Hp. by exists [TStr t].
Qed.

(** One claim on a free reference. *)
Definition claim (s : kv) (orgID nodeID : uuid) (t e : string) : kv :=
  fset (fset s (nodeReferenceKey orgID t e) (VText (uuid_string nodeID)))
    (nodeReferenceOwnedKey orgID nodeID t) (VText e).

Lemma claim_RefInv s o n t e :
  RefInv s -> owner s o t e = None -> (forall e', owner s o t e' <> Some n) ->
  RefInv (claim s o n t e) /\
  forall o' t' e', owner (claim s o n t e) o' t' e' =
    if decide (o' = o /\ t' = t /\ e' = e) then Some n else owner s o' t' e'.
Proof.
  intros HI Hfree Hnone.
  assert (forall o' t' e', fget (claim s o n t e) (nodeReferenceKey o' t' e') =
    if decide (o' = o /\ t' = t /\ e' = e) then Some (VText (uuid_string n)) else fget s (nodeReferenceKey o' t' e')) as Hf.
  { intros o' t' e'. unfold claim. rewrite !fget_set. rewrite decide_False by done.
    repeat case_decide; try done.
    - unfold nodeReferenceKey in *. key_inv. naive_solver.
    - destruct_and!. by subst. }
  assert (forall o' n' t', fget (claim s o n t e) (nodeReferenceOwnedKey o' n' t') =
    if decide (o' = o /\ n' = n /\ t' = t) then Some (VText e) else fget s (nodeReferenceOwnedKey o' n' t')) as Hw.
  { intros o' n' t'. unfold claim. rewrite !fget_set. rewrite (decide_False (P := nodeReferenceKey _ _ _ = _)) by done.
    repeat case_decide; try done.
    - unfold nodeReferenceOwnedKey in *. key_inv. naive_solver.
    - destruct_and!. by subst. }
  assert (forall o' t' e', owner (claim s o n t e) o' t' e' =
    if decide (o' = o /\ t' = t /\ e' = e) then Some n else owner s o' t' e') as Ho.
  { intros o' t' e'. unfold owner at 1. rewrite Hf. case_decide; [|done]. simpl. apply uuid_parse_string. }
  split; [|done]. split.
  - intros o' t' e' v. rewrite Hf. case_decide as Hd.
    + destruct Hd as (-> & -> & ->). intros [= <-]. exists n. split; [done|]. by rewrite Hw, decide_True.
    + intros Hv. destruct (ref_forward _ HI _ _ _ _ Hv) as (id & -> & Hid). exists id. split; [done|].
      rewrite Hw, decide_False; [done|]. intros (-> & -> & ->).
      apply (Hnone e'). by apply owner_Some.
  - intros k v Hk Hv. unfold claim in Hv. rewrite !fget_set in Hv. case_decide as Hd.
    + injection Hv as <-. subst k. exists o, n, t, e. split_and!; [done..|]. by rewrite Hf, decide_True.
    + case_decide; [by subst k|]. destruct (ref_reverse _ HI _ _ Hk Hv) as (o' & id & t' & e' & -> & -> & Hr).
      exists o', id, t', e'. split_and!; [done..|]. rewrite Hf, decide_False; [done|].
      intros (-> & -> & ->). apply owner_None in Hfree; [|done]. congruence.
Qed.

Lemma tr_get_bytes_ref o t e st :
  RefInv (tx_kv st) -> tr_get_bytes (nodeReferenceKey o t e) st = Ok (st, fget (tx_kv st) (nodeReferenceKey o t e)).
Proof.
  intros HI. unfold tr_get_bytes, mbind, tx_bind, tr_get, mret, tx_ret.
  destruct (fget (tx_kv st) (nodeReferenceKey o t e)) as [v|] eqn:E; [|done].
  destruct (ref_forward _ HI _ _ _ _ E) as (id & -> & _). simpl.
  by destruct (uuid_string id) eqn:Es; [apply uuid_string_nonempty in Es|].
Qed.

Lemma writeReferenceKey_spec o n k st :
  RefInv (tx_kv st) -> (forall e, owner (tx_kv st) o (rk_TemplateName k) e <> Some n) ->
  writeReferenceKey o n k st =
  match owner (tx_kv st) o (rk_TemplateName k) (rk_Encoded k) with
  | None => Ok (mkTx (claim (tx_kv st) o n (rk_TemplateName k) (rk_Encoded k)) (tx_changes st), tt)
  | Some _ => Err ErrConflict
  end.
Proof.
  intros HI Hn. unfold writeReferenceKey, mbind at 1, tx_bind at 1. rewrite tr_get_bytes_ref by done.
  destruct (owner (tx_kv st) o (rk_TemplateName k) (rk_Encoded k)) as [m|] eqn:E.
  - pose proof E as Em. apply owner_Some in E as ->; [|done].
    unfold mbind, tx_bind, lift. simpl. rewrite uuid_parse_string. simpl.
    rewrite decide_False by (intros ->; by eapply Hn). done.
  - apply owner_None in E as ->; done.
Qed.

Lemma writeReferenceKeys_loop o n keys st :
  RefInv (tx_kv st) -> NoDup (rk_TemplateName <$> keys) ->
  (forall k e, k ∈ keys -> owner (tx_kv st) o (rk_TemplateName k) e <> Some n) ->
  match forM keys (writeReferenceKey o n) st with
  | Ok (st', _) => RefInv (tx_kv st') /\ tx_changes st' = tx_changes st /\
      (forall o' t e, owner (tx_kv st') o' t e =
        if decide (o' = o /\ (t, e) ∈ (fun k => (rk_TemplateName k, rk_Encoded k)) <$> keys)
        then Some n else owner (tx_kv st) o' t e) /\
      (forall k, k ∈ keys -> owner (tx_kv st) o (rk_TemplateName k) (rk_Encoded k) = None)
  | Err er => er = ErrConflict /\
      exists k m, k ∈ keys /\ m <> n /\ owner (tx_kv st) o (rk_TemplateName k) (rk_Encoded k) = Some m
  end.
Proof.
  revert st. induction keys as [|k keys IH]; intros st HI Hnd Hn; cbn [forM].
  { split_and!; [done..| |set_solver]. intros. case_decide; [set_solver|done]. }
  csimpl in Hnd. apply NoDup_cons in Hnd as [Hk Hnd].
  unfold mbind, tx_bind. rewrite writeReferenceKey_spec by (try done; intros; apply Hn; left).
  destruct (owner (tx_kv st) o (rk_TemplateName k) (rk_Encoded k)) as [m|] eqn:E.
  { split; [done|]. exists k, m. split_and!; [left|intros ->|done]. by eapply Hn; [left|]. }
  destruct (claim_RefInv (tx_kv st) o n (rk_TemplateName k) (rk_Encoded k)) as [HI' Ho'];
    [done|done|intros; apply Hn; left|].
  specialize (IH (mkTx (claim (tx_kv st) o n (rk_TemplateName k) (rk_Encoded k)) (tx_changes st)) HI' Hnd).
  assert (forall k', k' ∈ keys -> rk_TemplateName k' <> rk_TemplateName k) as Hne.
  { intros k' Hk' Heq. apply Hk. rewrite <-Heq. by apply list_elem_of_fmap_2. }
  destruct (forM keys _ _) as [[st' u]|er]; simpl in IH.
  - destruct IH as (HI2 & Hc & Ho2 & Hfree).
    { intros k' e Hk'. rewrite Ho', decide_False by naive_solver. apply Hn. by right. }
    split_and!; [done..| |].
    + intros o' t e. rewrite Ho2, Ho'. csimpl. repeat case_decide; rewrite ?elem_of_cons in *; naive_solver.
    + intros k' [->|Hk']%elem_of_cons; [done|]. specialize (Hfree k' Hk').
      rewrite Ho' in Hfree. by case_decide.
  - destruct IH as (-> & k' & m & Hk' & Hm & Hown).
    { intros k' e Hk'. rewrite Ho', decide_False by naive_solver. apply Hn. by right. }
    split; [done|]. exists k', m. split_and!; [by right|done|].
    rewrite Ho' in Hown. rewrite decide_False in Hown by naive_solver. done.
Qed.

(** Replacing a node's references. *)
Lemma writeReferenceKeys_spec o n keys st :
  RefInv (tx_kv st) -> NoDup (rk_TemplateName <$> keys) ->
  match writeReferenceKeys o n keys st with
  | Ok (st', _) => RefInv (tx_kv st') /\
      (forall t e, owner (tx_kv st') o t e = Some n <-> mkReferenceKey t e ∈ keys) /\
      (forall o' t e m, o' <> o \/ m <> n -> owner (tx_kv st') o' t e = Some m <-> owner (tx_kv st) o' t e = Some m)
  | Err er => er = ErrConflict /\
      exists k m, k ∈ keys /\ m <> n /\ owner (tx_kv st) o (rk_TemplateName k) (rk_Encoded k) = Some m
  end.
Proof.
  intros HI Hnd. unfold writeReferenceKeys, mbind, tx_bind.
  destruct (clearReferenceKeys_spec o n st HI) as (st1 & E1 & _ & _). rewrite E1.
  destruct (clearReferenceKeys_owner _ _ _ _ HI E1) as [HI1 Ho1].
  assert (forall t e, (t, e) ∈ (fun k => (rk_TemplateName k, rk_Encoded k)) <$> keys <-> mkReferenceKey t e ∈ keys) as Hin.
  { intros t e. rewrite list_elem_of_fmap. split; [|intros Hk; by exists (mkReferenceKey t e)].
    intros ([t' e'] & [= -> ->] & Hk). done. }
  pose proof (writeReferenceKeys_loop o n keys st1 HI1 Hnd) as Hl.
  destruct (forM keys _ st1) as [[st' u]|er].
  - destruct Hl as (HI' & _ & Ho' & Hfree). { intros k e _. rewrite Ho1. case_decide; naive_solver. }
    split_and!; [done| |].
    + intros t e. rewrite Ho', <-Hin. case_decide; [naive_solver|]. rewrite Ho1. case_decide; naive_solver.
    + intros o' t e m Hm. rewrite Ho'. case_decide as Hc.
      * destruct Hc as [-> Hk%Hin]. apply Hfree in Hk. simpl in Hk. rewrite Ho1 in Hk. case_decide; naive_solver.
      * rewrite Ho1. case_decide; naive_solver.
  - destruct Hl as (-> & k & m & Hk & Hm & Hown). { intros k e _. rewrite Ho1. case_decide; naive_solver. }
    split; [done|]. exists k, m. split_and!; [done..|]. rewrite Ho1 in Hown. case_decide; naive_solver.
Qed.

(** Replacing a node's references is all or nothing and keeps references
    unique.  With one key per template name, [writeReferenceKeys] either
    leaves the node owning exactly the given keys, every other node and
    organization owning what it owned, and the two indexes inverse of each
    other, or it fails with a conflict because another node already holds
    one of the keys. *)
Theorem writeReferenceKeys_correct o n keys st :
  RefInv (tx_kv st) -> NoDup (rk_TemplateName <$> keys) ->
  match writeReferenceKeys o n keys st with
  | Ok (st', _) => RefInv (tx_kv st') /\
      (forall t e, owner (tx_kv st') o t e = Some n <-> mkReferenceKey t e ∈ keys) /\
      (forall o' t e m, o' <> o \/ m <> n -> owner (tx_kv st') o' t e = Some m <-> owner (tx_kv st) o' t e = Some m)
  | Err er => er = ErrConflict /\
      exists k m, k ∈ keys /\ m <> n /\ owner (tx_kv st) o (rk_TemplateName k) (rk_Encoded k) = Some m
  end.
Proof. apply writeReferenceKeys_spec. Qed.

Lemma preserves_writeReferenceKeys o n keys :
  NoDup (rk_TemplateName <$> keys) -> preserves RefInv (writeReferenceKeys o n keys).
Proof.
  intros Hnd st st' u E HI. pose proof (writeReferenceKeys_spec o n keys st HI Hnd) as Hs. rewrite E in Hs. by destruct Hs.
Qed.

(** ** The audit trail *)

Definition audited_families : list string := ["node_instance"; "relationship"].

(** The change identifies the record stored under the key. *)
Definition names (c : Change) (k : key) : Prop :=
  match at_Kind (ch_Target c) with
  | TargetKindNode => exists o, k = nodeInstanceKey o (at_NodeType (ch_Target c)) (at_ID (ch_Target c))
  | TargetKindRelationship =>
      exists o, k = relationshipKey o (at_SourceID (ch_Target c)) (at_RelationType (ch_Target c)) (at_TargetID (ch_Target c))
  | _ => False
  end.

(** Every node or relationship record is as in [s0] or has a recorded
    change. *)
Definition covered (s0 : kv) (st : txst) : Prop :=
  forall k, family k ∈ audited_families ->
    fget (tx_kv st) k = fget s0 k \/ exists c, c ∈ tx_changes st /\ names c k.

(** [m] keeps [I], forgets no change and records every record it changes. *)
Definition audits {A} (I : kv -> Prop) (m : tx A) : Prop :=
  forall st st' a, m st = Ok (st', a) -> I (tx_kv st) ->
    I (tx_kv st') /\ tx_changes st `prefix_of` tx_changes st' /\ covered (tx_kv st) st'.

Lemma covered_trans s0 st st' :
  covered s0 st -> covered (tx_kv st) st' -> tx_changes st `prefix_of` tx_changes st' -> covered s0 st'.
Proof.
  intros H1 H2 [l Hl] k Hk. destruct (H2 k Hk) as [->|]; [|by right].
  destruct (H1 k Hk) as [->|(c & Hc & Hn)]; [by left|]. right. exists c. rewrite Hl. set_solver.
Qed.

Lemma audits_bind {A B} I (m : tx A) (f : A -> tx B) :
  audits I m -> (forall a, audits I (f a)) -> audits I (m ≫= f).
Proof.
  intros Hm Hf st st' b (s1 & a & H1 & H2)%tx_bind_ok HI.
  destruct (Hm _ _ _ H1 HI) as (HI1 & Hp1 & Hc1). destruct (Hf _ _ _ _ H2 HI1) as (HI2 & Hp2 & Hc2).
  split_and!; [done|by etrans|]. by eapply covered_trans.
Qed.

Lemma audits_touches {A} I fs gs (m : tx A) :
  touches fs m -> depends gs I -> (forall g, g ∈ gs ++ audited_families -> g ∉ fs) -> audits I m.
Proof.
  intros Hm Hd Hg st st' a E HI. destruct (Hm _ _ _ E) as [Hk Hp]. split_and!; [|done|].
  - eapply Hd; [|done]. intros k Hin. apply Hk, Hg. set_solver.
  - intros k Hin. left. apply Hk, Hg. set_solver.
Qed.

Lemma audits_forM {A} I (l : list A) f : (forall a, audits I (f a)) -> audits I (forM l f).
Proof.
  intros Hf. induction l as [|a l IH]; simpl; [|apply audits_bind; auto].
  intros st st' u [-> _]%tx_ret_ok HI. split_and!; [done..|]. intros k _. by left.
Qed.

Lemma same_bytes_eq a b : same_bytes a b = true -> a = b.
Proof.
  destruct a as [[]|], b as [[]|]; simpl; try done; intros E%bool_decide_eq_true; congruence.
Qed.

Lemma record_ok e target before after st st' u :
  record e target before after st = Ok (st', u) ->
  tx_kv st' = tx_kv st /\ tx_changes st `prefix_of` tx_changes st' /\
  ((absent_bytes before = true /\ absent_bytes after = true) \/ before = after \/
   exists c, c ∈ tx_changes st' /\ ch_Target c = target /\ ch_Before c = before /\ ch_After c = after).
Proof.
  unfold record. destruct (absent_bytes before) eqn:Eb, (absent_bytes after) eqn:Ea; simpl.
  { intros [-> _]%tx_ret_ok. auto. }
  all: destruct (same_bytes before after) eqn:Es;
    [intros [-> _]%tx_ret_ok; apply same_bytes_eq in Es; auto|].
  all: intros (s1 & c & [-> Hc]%lift_ok & E)%tx_bind_ok; injection E as <- _;
    simpl; split_and!; [done|by apply prefix_app_r|]; right; right; exists c; split; [set_solver|];
    unfold NewChange in Hc; destruct (ValidateChange _); [|done]; simpl in Hc; injection Hc as <-; done.
Qed.

(** ** Relationships *)

Record RelInv (s : kv) : Prop := {
  rel_forward k v : family k = "relationship" -> fget s k = Some v ->
    exists r, k = rel_key r /\ v = VRel r /\ is_Some (fget s (rel_reverse_key r));
  rel_reverse k v : family k = "relationship_reverse" -> fget s k = Some v ->
    exists o a t b, k = relationshipReverseKey o b t a /\ is_Some (fget s (relationshipKey o a t b));
}.

Lemma RelInv_depends : depends relationship_families RelInv.
Proof.
  intros s s' Heq [Hf Hr]. split; intros k v Hk Hv; rewrite Heq in Hv by (rewrite Hk; set_solver).
  - destruct (Hf _ _ Hk Hv) as (r & -> & -> & Ho). exists r.
    by rewrite Heq by (simpl; set_solver).
  - destruct (Hr _ _ Hk Hv) as (o & a & t & b & -> & Ho). exists o, a, t, b.
    by rewrite Heq by (simpl; set_solver).
Qed.

Lemma rel_symmetric s o a t b : RelInv s ->
  is_Some (fget s (relationshipKey o a t b)) <-> is_Some (fget s (relationshipReverseKey o b t a)).
Proof.
  intros [Hf Hr]. split; intros [v Hv].
  - destruct (Hf (relationshipKey o a t b) _ eq_refl Hv) as (r & E & _ & Hs).
    unfold rel_key, relationshipKey in E. unfold rel_reverse_key in Hs. by key_inv.
  - destruct (Hr (relationshipReverseKey o b t a) _ eq_refl Hv) as (o' & a' & t' & b' & E & Hs).
    unfold relationshipReverseKey in E. by key_inv.
Qed.

Lemma rel_stored s r v : RelInv s -> fget s (rel_key r) = Some v -> exists r', v = VRel r' /\ rel_key r' = rel_key r.
Proof. intros [Hf _] Hv. destruct (Hf (rel_key r) _ eq_refl Hv) as (r' & E & -> & _). eauto. Qed.

Lemma rel_key_reverse r r' : rel_reverse_key r = rel_reverse_key r' <-> rel_key r = rel_key r'.
Proof.
  unfold rel_reverse_key, rel_key, relationshipKey, relationshipReverseKey.
  split; intros E; key_inv; congruence.
Qed.

Lemma marshal_relationship_key r m : marshal_relationship r = Ok m -> rel_key m = rel_key r.
Proof. unfold marshal_relationship. destruct (marshal_props _); [|done]. by intros [= <-]. Qed.

Lemma RelInv_set s r m :
  rel_key m = rel_key r -> RelInv s -> RelInv (fset (fset s (rel_key r) (VRel m)) (rel_reverse_key r) VEmpty).
Proof.
  intros Hm HI.
  assert (forall k, family k = "relationship" -> fget (fset (fset s (rel_key r) (VRel m)) (rel_reverse_key r) VEmpty) k =
    if decide (rel_key r = k) then Some (VRel m) else fget s k) as Hf.
  { intros k Hk. rewrite fget_set, decide_False by (intros <-; done). apply fget_set. }
  assert (forall k, family k = "relationship_reverse" -> fget (fset (fset s (rel_key r) (VRel m)) (rel_reverse_key r) VEmpty) k =
    if decide (rel_reverse_key r = k) then Some VEmpty else fget s k) as Hr.
  { intros k Hk. rewrite !fget_set. case_decide; [done|]. by rewrite decide_False by (intros <-; done). }
  split.
  - intros k v Hk. rewrite Hf by done. case_decide as Hd.
    + intros [= <-]. subst k. exists m.
      split_and!; [done..|]. rewrite Hr by done. rewrite decide_True by (by apply rel_key_reverse). eauto.
    + intros Hv. destruct (rel_forward s HI k v Hk Hv) as (r' & -> & -> & Hs).
      exists r'. split_and!; [done..|]. rewrite Hr by done. case_decide; eauto.
  - intros k v Hk. rewrite Hr by done. case_decide as Hd.
    + intros _. subst k. exists (rel_OrgID r), (rel_SourceID r), (rel_RelationType r), (rel_TargetID r).
      split; [done|]. rewrite Hf by done. rewrite decide_True by done. eauto.
    + intros Hv. destruct (rel_reverse s HI k v Hk Hv) as (o & a & t & b & -> & Hs).
      exists o, a, t, b. split; [done|]. rewrite Hf by done. case_decide; eauto.
Qed.

Lemma RelInv_clear s r : RelInv s -> RelInv (fclear (fclear s (rel_key r)) (rel_reverse_key r)).
Proof.
  intros HI.
  assert (forall k, family k = "relationship" -> fget (fclear (fclear s (rel_key r)) (rel_reverse_key r)) k =
    if decide (rel_key r = k) then None else fget s k) as Hf.
  { intros k Hk. rewrite fget_clear, decide_False by (intros <-; done). apply fget_clear. }
  assert (forall k, family k = "relationship_reverse" -> fget (fclear (fclear s (rel_key r)) (rel_reverse_key r)) k =
    if decide (rel_reverse_key r = k) then None else fget s k) as Hr.
  { intros k Hk. rewrite !fget_clear. case_decide; [done|]. by rewrite decide_False by (intros <-; done). }
  split.
  - intros k v Hk. rewrite Hf by done. case_decide as Hd; [done|]. intros Hv.
    destruct (rel_forward s HI k v Hk Hv) as (r' & -> & -> & Hs).
    exists r'. split_and!; [done..|]. rewrite Hr by done. rewrite decide_False; [done|].
    intros E. apply Hd. by apply rel_key_reverse.
  - intros k v Hk. rewrite Hr by done. case_decide as Hd; [done|]. intros Hv.
    destruct (rel_reverse s HI k v Hk Hv) as (o & a & t & b & -> & Hs).
    exists o, a, t, b. split; [done|]. rewrite Hf by done. rewrite decide_False; [done|].
    intros E. apply Hd. unfold rel_key, relationshipKey in E. by key_inv.
Qed.

Lemma readRelationshipValues_ok l st st' vs :
  readRelationshipValues l st = Ok (st', vs) -> st' = st /\ vs = (fun r => fget (tx_kv st) (rel_key r)) <$> l.
Proof.
  unfold readRelationshipValues. revert st' vs. induction l as [|r l IH]; intros st' vs; simpl.
  - by intros [-> ->]%tx_ret_ok.
  - intros (s1 & v & [-> ->]%tr_get_ok & (s2 & ws & E & [-> ->]%tx_ret_ok)%tx_bind_ok)%tx_bind_ok.
    by destruct (IH _ _ E) as [-> ->].
Qed.

Lemma zip_stored_values s (l : list Relationship) :
  Forall (fun it => it.2 = fget s (rel_key it.1)) (zip l ((fun r => fget s (rel_key r)) <$> l)).
Proof. induction l as [|r l IH]; csimpl; constructor; done. Qed.

Lemma zip_stored_fst s (l : list Relationship) : (zip l ((fun r => fget s (rel_key r)) <$> l)).*1 = l.
Proof. induction l as [|r l IH]; csimpl; congruence. Qed.

Lemma names_target c r :
  ch_Target c = relationshipTarget (rel_SourceID r) (rel_RelationType r) (rel_TargetID r) -> names c (rel_key r).
Proof. intros E. unfold names. rewrite E. simpl. unfold rel_key. eauto. Qed.

Lemma covered_record s0 st st1 st' e r before after u :
  covered s0 st -> RelInv s0 ->
  before = fget s0 (rel_key r) ->
  (forall k, family k ∈ audited_families -> k <> rel_key r -> fget (tx_kv st1) k = fget (tx_kv st) k) ->
  fget (tx_kv st1) (rel_key r) = after -> tx_changes st1 = tx_changes st ->
  record e (relationshipTarget (rel_SourceID r) (rel_RelationType r) (rel_TargetID r)) before after st1 = Ok (st', u) ->
  (after = None \/ exists m, after = Some (VRel m)) ->
  covered s0 st'.
Proof.
  intros Hc HI Hb Hother Hafter Hch E Ha. destruct (record_ok _ _ _ _ _ _ _ E) as (Hkv & [l Hl] & Hcase).
  intros k Hk. rewrite Hkv. destruct (decide (k = rel_key r)) as [->|Hne].
  - destruct Hcase as [[Hab Haa]|[Heq|(c & Hin & Ht & _)]].
    + left. rewrite Hafter. destruct Ha as [->|[m ->]]; [|done].
      destruct before as [v|] eqn:Ev; [|done].
      symmetry in Hb. destruct (rel_stored _ _ _ HI Hb) as (r' & -> & _). done.
    + left. congruence.
    + right. exists c. split; [done|]. by apply names_target.
  - rewrite Hother by done. destruct (Hc k Hk) as [->|(c & Hin & Hn)]; [by left|].
    right. exists c. rewrite Hl, Hch. set_solver.
Qed.

Lemma audited_not_reverse k r : family k ∈ audited_families -> k <> rel_reverse_key r.
Proof. intros Hk ->. revert Hk. simpl. set_solver. Qed.

Lemma addRelationship_loop e s0 items st st' u :
  RelInv s0 -> Forall (fun it => it.2 = fget s0 (rel_key it.1)) items ->
  forM items (addRelationship e) st = Ok (st', u) -> RelInv (tx_kv st) -> covered s0 st ->
  RelInv (tx_kv st') /\ covered s0 st' /\
  (forall k, family k = "relationship" ->
     (is_Some (fget (tx_kv st') k) <-> is_Some (fget (tx_kv st) k) \/ k ∈ rel_key <$> items.*1)).
Proof.
  intros HI0 Hit. revert st. induction Hit as [|[r before] items Hb _ IH]; intros st E HI Hc; simpl in E.
  { apply tx_ret_ok in E as [-> _]. split_and!; [done..|]. set_solver. }
  apply tx_bind_ok in E as (s1 & [] & E1 & E2).
  unfold addRelationship in E1. simpl in E1.
  apply tx_bind_ok in E1 as (sa & m & [-> Em]%lift_ok & E1).
  apply tx_bind_ok in E1 as (sb & [] & ->%modify_ok & E1).
  apply tx_bind_ok in E1 as (sc & [] & ->%modify_ok & E1). simpl in E1.
  destruct (record_ok _ _ _ _ _ _ _ E1) as (Hkv & _ & _).
  assert (forall k, k <> rel_key r -> k <> rel_reverse_key r -> fget (tx_kv s1) k = fget (tx_kv st) k) as Hoth.
  { intros k H1 H2. rewrite Hkv. simpl. by rewrite !fget_set, !decide_False by done. }
  assert (fget (tx_kv s1) (rel_key r) = Some (VRel m)) as Hset.
  { rewrite Hkv. simpl. by rewrite fget_set, decide_False, fget_set, decide_True by done. }
  destruct (IH s1) as (HI' & Hc' & Hdom); [done| | |].
  - rewrite Hkv. apply RelInv_set; [by apply marshal_relationship_key|done].
  - eapply covered_record; [exact Hc|exact HI0|exact Hb| | | |exact E1|eauto]; [|simpl; by rewrite fget_set, decide_False, fget_set, decide_True by done|done].
    intros k Hk Hne. simpl. by rewrite !fget_set, !decide_False by (auto using audited_not_reverse, not_eq_sym).
  - split_and!; [done..|]. intros k Hk. rewrite Hdom by done. csimpl.
    destruct (decide (k = rel_key r)) as [->|Hne].
    + rewrite Hset. set_solver.
    + rewrite Hoth; [set_solver|done|]. intros ->. done.
Qed.

Lemma removeRelationship_loop e s0 items st st' u :
  RelInv s0 -> Forall (fun it => it.2 = fget s0 (rel_key it.1)) items ->
  forM items (removeRelationship e) st = Ok (st', u) -> RelInv (tx_kv st) -> covered s0 st ->
  RelInv (tx_kv st') /\ covered s0 st' /\
  (forall k, family k = "relationship" ->
     fget (tx_kv st') k = if decide (k ∈ rel_key <$> items.*1) then None else fget (tx_kv st) k).
Proof.
  intros HI0 Hit. revert st. induction Hit as [|[r before] items Hb _ IH]; intros st E HI Hc; simpl in E.
  { apply tx_ret_ok in E as [-> _]. split_and!; [done..|]. intros. case_decide; [set_solver|done]. }
  apply tx_bind_ok in E as (s1 & [] & E1 & E2).
  unfold removeRelationship in E1. simpl in E1.
  apply tx_bind_ok in E1 as (sb & [] & ->%modify_ok & E1).
  apply tx_bind_ok in E1 as (sc & [] & ->%modify_ok & E1). simpl in E1.
  destruct (record_ok _ _ _ _ _ _ _ E1) as (Hkv & _ & _).
  assert (fget (fclear (fclear (tx_kv st) (rel_key r)) (rel_reverse_key r)) (rel_key r) = None) as Hset.
  { by rewrite fget_clear, decide_False, fget_clear, decide_True by done. }
  assert (forall k, k <> rel_key r -> k <> rel_reverse_key r ->
    fget (fclear (fclear (tx_kv st) (rel_key r)) (rel_reverse_key r)) k = fget (tx_kv st) k) as Hoth.
  { intros k H1 H2. by rewrite !fget_clear, !decide_False by done. }
  destruct (IH s1) as (HI' & Hc' & Hdom); [done| | |].
  - rewrite Hkv. by apply RelInv_clear.
  - eapply (covered_record _ _ (mkTx _ (tx_changes st))); [exact Hc|exact HI0|exact Hb| |exact Hset|done|exact E1|by left].
    intros k Hk Hne. simpl. apply Hoth; auto using audited_not_reverse.
  - split_and!; [done..|]. intros k Hk. rewrite Hdom by done. csimpl. rewrite Hkv. simpl.
    destruct (decide (k = rel_key r)) as [->|Hne].
    + rewrite Hset. repeat case_decide; set_solver.
    + rewrite Hoth; [|done|by intros ->]. repeat case_decide; set_solver.
Qed.

Lemma addRelationships_spec e l st st' u :
  addRelationships e l st = Ok (st', u) -> RelInv (tx_kv st) ->
  RelInv (tx_kv st') /\ covered (tx_kv st) st' /\
  (forall k, family k = "relationship" ->
     (is_Some (fget (tx_kv st') k) <-> is_Some (fget (tx_kv st) k) \/ k ∈ rel_key <$> l)).
Proof.
  intros (s1 & vs & [-> ->]%readRelationshipValues_ok & E)%tx_bind_ok HI. revert E.
  generalize (zip_stored_values (tx_kv st) l) (zip_stored_fst (tx_kv st) l). generalize (zip l ((fun r => fget (tx_kv st) (rel_key r)) <$> l)).
  intros items Hv Hl E.
  rewrite <-Hl. eapply addRelationship_loop; [exact HI|exact Hv|exact E|exact HI|]. intros k _. by left.
Qed.

Lemma removeRelationships_spec e l st st' u :
  removeRelationships e l st = Ok (st', u) -> RelInv (tx_kv st) ->
  RelInv (tx_kv st') /\ covered (tx_kv st) st' /\
  (forall k, family k = "relationship" ->
     fget (tx_kv st') k = if decide (k ∈ rel_key <$> l) then None else fget (tx_kv st) k).
Proof.
  intros (s1 & vs & [-> ->]%readRelationshipValues_ok & E)%tx_bind_ok HI. revert E.
  generalize (zip_stored_values (tx_kv st) l) (zip_stored_fst (tx_kv st) l). generalize (zip l ((fun r => fget (tx_kv st) (rel_key r)) <$> l)).
  intros items Hv Hl E.
  rewrite <-Hl. eapply removeRelationship_loop; [exact HI|exact Hv|exact E|exact HI|]. intros k _. by left.
Qed.

Lemma audits_addRelationships e l : audits RelInv (addRelationships e l).
Proof.
  intros st st' u E HI. destruct (addRelationships_spec _ _ _ _ _ E HI) as (HI' & Hc & _).
  by destruct (touches_addRelationships _ _ _ _ _ E) as [_ Hp].
Qed.

Lemma audits_removeRelationships e l : audits RelInv (removeRelationships e l).
Proof.
  intros st st' u E HI. destruct (removeRelationships_spec _ _ _ _ _ E HI) as (HI' & Hc & _).
  by destruct (touches_removeRelationships _ _ _ _ _ E) as [_ Hp].
Qed.

Lemma audits_applyRelationshipChanges e l : audits RelInv (applyRelationshipChanges e l).
Proof.
  apply audits_forM. intros set. apply audits_bind; [apply audits_removeRelationships|].
  intros. apply audits_addRelationships.
Qed.
End records.
