(* ===== verification/Schedule.v ===== *)
(** * Search scheduling: search_schedule*.go, search_work_records.go, search_records.go

    Every source mutation schedules search work in its own transaction.  The
    model covers the counters, the pending work records with their age index,
    the plan table, the access state of a new node and the fan-out of a
    deletion.  [WorkInv] says that the age index and the work records
    describe the same pending items, which is what a claim scan relies on. *)

From S2P Require Import Prelude GoJson Sha256 Bytes Domain Concrete Store Tx Keys Records.

(** ** Digests

    The bytes [json.Marshal] writes for a record are a parameter; a digest is
    SHA-256 of them. *)
Class Encoder := {
  encoding : value -> string;
}.

Definition digest `{Encoder} (v : value) : N := sha256 (encoding v).

Definition searchBucket (orgID nodeID : uuid) : Z :=
  Z.of_N (first_byte (sha256_bytes (be_bytes 16 orgID ++ be_bytes 16 nodeID))).

(** Proofs use no fact about SHA-256. *)
#[global] Opaque digest searchBucket.

Definition MaxInt64 : Z := (2 ^ 63 - 1)%Z.

Inductive searchChange :=
  | searchChangeContent | searchChangeAccess | searchChangeDeletion | searchChangeExclusion | searchChangeRepair.

#[export] Instance searchChange_eq_dec : EqDecision searchChange.
Proof. solve_decision. Defined.

Inductive searchRecordPlan :=
  | searchRecordRewrite | searchRecordRestart | searchRecordPut | searchRecordRemove.

#[export] Instance searchRecordPlan_eq_dec : EqDecision searchRecordPlan.
Proof. solve_decision. Defined.

Definition WorkClassLive : string := "live".
Definition WorkClassAccess : string := "access".
Definition WorkClassCleanup : string := "cleanup".
Definition WorkClassCopy : string := "copy".

Inductive workClass := CLive | CAccess | CCleanup | CCopy.

#[export] Instance workClass_eq_dec : EqDecision workClass.
Proof. solve_decision. Defined.

Definition class_name (c : workClass) : string :=
  match c with CLive => WorkClassLive | CAccess => WorkClassAccess | CCleanup => WorkClassCleanup | CCopy => WorkClassCopy end.
Coercion class_name : workClass >-> string.
Definition searchNodeClasses : list workClass := [CLive; CAccess; CCleanup; CCopy].

Definition searchRecordPlanFor (change : searchChange) (class : workClass) : searchRecordPlan :=
  match change, class with
  | searchChangeContent, CLive => searchRecordPut
  | searchChangeContent, CAccess => searchRecordRestart
  | searchChangeContent, CCleanup => searchRecordRewrite
  | searchChangeContent, CCopy => searchRecordRemove
  | searchChangeAccess, CLive => searchRecordRewrite
  | searchChangeAccess, CAccess => searchRecordPut
  | searchChangeAccess, CCleanup => searchRecordRewrite
  | searchChangeAccess, CCopy => searchRecordRewrite
  | searchChangeDeletion, CCleanup => searchRecordPut
  | searchChangeDeletion, _ => searchRecordRemove
  | searchChangeExclusion, CCleanup => searchRecordPut
  | searchChangeExclusion, _ => searchRecordRemove
  | searchChangeRepair, CLive => searchRecordPut
  | searchChangeRepair, CAccess => searchRecordPut
  | searchChangeRepair, CCleanup => searchRecordRewrite
  | searchChangeRepair, CCopy => searchRecordRemove
  end.

Definition earliestSearchTime (first second : gotime) : gotime :=
  if bool_decide (first = 0%Z) || (second <? first)%Z then second else first.

Section schedule.
Context `{FDB : Fdb} `{GL : GoLib} `{HS : Encoder}.

(** ** Counters *)

(** A tuple-encoded counter: a nonnegative int64.  Absent is zero, anything
    else is an error. *)
Definition counter_value (v : option value) : res Z :=
  match v with
  | None => Ok 0%Z
  | Some (VCounter z) => if (0 <=? z)%Z && (z <=? MaxInt64)%Z then Ok z else Err ErrDecode
  | Some _ => Err ErrDecode
  end.

Definition readSearchCounter (k : key) : tx Z := v ← tr_get_bytes k; lift (counter_value v).
Definition writeSearchCounter (k : key) (z : Z) : tx unit := tr_set k (VCounter z).

Definition incrementSearchCounter (k : key) : tx Z :=
  current ← readSearchCounter k;
  _ ← ensure (negb (current =? MaxInt64)%Z) ErrOther;
  _ ← writeSearchCounter k (current + 1);
  mret (current + 1)%Z.

(** ** Pending work *)

Definition work_key (class : string) (orgID nodeID : uuid) : key :=
  searchWorkKey class (searchBucket orgID nodeID) orgID nodeID.
Definition age_key (class : string) (t : gotime) (orgID nodeID : uuid) : key :=
  searchAgeKey class (searchBucket orgID nodeID) t orgID nodeID.

Definition readSearchWork (class : string) (orgID nodeID : uuid) : tx (option searchWorkRecord) :=
  v ← tr_get_bytes (work_key class orgID nodeID);
  lift (match v with None => Ok None | Some (VWork w) => Ok (Some w) | Some _ => Err ErrDecode end).

Definition with_enqueued (w : searchWorkRecord) (t : gotime) : searchWorkRecord :=
  mkWork (w_OrgID w) (w_NodeID w) (w_Generation w) (w_Revision w) (w_Deleted w) t.

Definition writeSearchWork (class : string) (record : searchWorkRecord) (previous : option searchWorkRecord) : tx unit :=
  let record := match previous with
                | Some p => with_enqueued record (earliestSearchTime (w_EnqueuedAt p) (w_EnqueuedAt record))
                | None => record
                end in
  _ ← match previous with
      | Some p =>
          tr_clear (searchAgeKey class (searchBucket (w_OrgID record) (w_NodeID record))
                      (w_EnqueuedAt p) (w_OrgID p) (w_NodeID p))
      | None => mret tt
      end;
  _ ← tr_set (age_key class (w_EnqueuedAt record) (w_OrgID record) (w_NodeID record)) VEmpty;
  tr_set (work_key class (w_OrgID record) (w_NodeID record)) (VWork record).

Definition removeSearchWork (class : string) (record : searchWorkRecord) : tx unit :=
  _ ← tr_clear (work_key class (w_OrgID record) (w_NodeID record));
  tr_clear (age_key class (w_EnqueuedAt record) (w_OrgID record) (w_NodeID record)).

Definition clearPendingWrites (class : string) (orgID nodeID : uuid) : tx unit :=
  tr_clear_range (searchPendingWritePrefix class orgID nodeID).

Definition applySearchRecordPlan (class : workClass) (plan : searchRecordPlan) (current : searchWorkRecord) : tx unit :=
  let orgID := w_OrgID current in
  let nodeID := w_NodeID current in
  let cursorKey := searchCursorKey (class_name class) orgID nodeID in
  existing ← readSearchWork class orgID nodeID;
  match plan with
  | searchRecordRemove =>
      _ ← match existing with Some w => removeSearchWork class w | None => mret tt end;
      _ ← tr_clear (searchClaimKey (class_name class) (searchBucket orgID nodeID) orgID nodeID);
      _ ← tr_clear cursorKey;
      clearPendingWrites class orgID nodeID
  | _ =>
      match existing, plan with
      | None, searchRecordPut => _ ← tr_clear cursorKey; writeSearchWork class current None
      | None, _ => mret tt
      | Some w, searchRecordRewrite =>
          writeSearchWork class
            (mkWork orgID nodeID (w_Generation current) (w_Revision w) (w_Deleted w) (w_EnqueuedAt current)) (Some w)
      | Some w, _ => _ ← tr_clear cursorKey; writeSearchWork class current (Some w)
      end
  end.

(** ** Scheduling *)

Definition exclusionAdjustedChange (orgID nodeID : uuid) (change : searchChange) : tx searchChange :=
  match change with
  | searchChangeDeletion => _ ← tr_clear (searchExclusionKey orgID nodeID); mret change
  | searchChangeAccess =>
      excluded ← tr_get_bytes (searchExclusionKey orgID nodeID);
      mret (match excluded with Some _ => searchChangeRepair | None => change end)
  | _ => mret change
  end.

Definition recordRolloutAffected (orgID nodeID : uuid) : tx unit :=
  encoded ← tr_get_bytes (searchRolloutAffectedCollectKey orgID);
  match encoded with
  | None => mret tt
  | Some v =>
      generation ← lift (counter_value (Some v));
      _ ← tr_set (searchRolloutAffectedKey orgID generation nodeID) (VBytes "1");
      tr_add (searchRolloutAffectedCountKey orgID generation) 1
  end.

Definition StableVersion : string := "org-scope-v1".

Definition readRollout (authorityID : uuid) : tx searchRolloutRecord :=
  v ← tr_get_bytes (searchRolloutKey authorityID);
  lift (match v with
        | None => Ok (mkRollout authorityID StableVersion [StableVersion])
        | Some (VRollout r) => Ok r
        | Some _ => Err ErrDecode
        end).

Definition initializeSearchAccess (orgID nodeID : uuid) : tx unit :=
  existing ← tr_get_bytes (searchAccessKey orgID nodeID);
  match existing with
  | Some (VAccess _) => mret tt
  | Some _ => fail ErrDecode
  | None =>
      rollout ← readRollout orgID;
      issued ← tr_range (searchIssuedPrefix orgID nodeID);
      tr_set (searchAccessKey orgID nodeID)
        (VAccess (mkAccessRecord (mkSearchAccess (ro_WriteVersions rollout) [] 0) false false None
                    (bool_decide (issued = []))))
  end.

Definition starts_revision (change : searchChange) : bool :=
  match change with searchChangeContent | searchChangeExclusion | searchChangeRepair => true | _ => false end.

Definition scheduleSearchChange (now : gotime) (orgID nodeID : uuid) (requested : searchChange) : tx searchWorkRecord :=
  change ← exclusionAdjustedChange orgID nodeID requested;
  generation ← incrementSearchCounter (searchGenerationKey orgID nodeID);
  stored ← readSearchCounter (searchRevisionKey orgID nodeID);
  let revision := if starts_revision change then generation else stored in
  _ ← (if starts_revision change then writeSearchCounter (searchRevisionKey orgID nodeID) revision else mret tt);
  let current := mkWork orgID nodeID generation revision (bool_decide (change = searchChangeDeletion)) now in
  _ ← forM searchNodeClasses (fun class => applySearchRecordPlan class (searchRecordPlanFor change class) current);
  _ ← match change with
      | searchChangeAccess | searchChangeRepair => recordRolloutAffected orgID nodeID
      | _ => mret tt
      end;
  match change with
  | searchChangeDeletion => mret current
  | _ => _ ← initializeSearchAccess orgID nodeID; mret current
  end.

Definition scheduleExistingSearchChange (now : gotime) (orgID nodeID : uuid) (change : searchChange) : tx unit :=
  resolved ← tr_get_bytes (nodeResolveKey nodeID);
  match resolved with
  | None => mret tt
  | Some _ => _ ← scheduleSearchChange now orgID nodeID change; mret tt
  end.

Definition addPermissionEvent (authorityID : uuid) : tx unit := tr_add (searchPermissionEventKey authorityID) 1.

(** The loop threads the identities scheduled and the authorities recorded. *)
Definition relatedEndpoint (now : gotime) (orgID : uuid) (scheduled : gset (uuid * uuid)) (nodeID : uuid) : tx (gset (uuid * uuid)) :=
  if decide ((orgID, nodeID) ∈ scheduled \/ nodeID = uuid_nil) then mret scheduled
  else
    _ ← scheduleExistingSearchChange now orgID nodeID searchChangeAccess;
    mret ({[(orgID, nodeID)]} ∪ scheduled).

Definition relatedStep (now : gotime) (acc : gset (uuid * uuid) * gset uuid) (r : Relationship) : tx (gset (uuid * uuid) * gset uuid) :=
  let '(scheduled, authorities) := acc in
  _ ← (if decide (rel_OrgID r ∈ authorities) then mret tt else addPermissionEvent (rel_OrgID r));
  scheduled1 ← relatedEndpoint now (rel_OrgID r) scheduled (rel_SourceID r);
  scheduled2 ← relatedEndpoint now (rel_OrgID r) scheduled1 (rel_TargetID r);
  mret (scheduled2, {[rel_OrgID r]} ∪ authorities).

Fixpoint relatedLoop (now : gotime) (acc : gset (uuid * uuid) * gset uuid) (rs : list Relationship) : tx unit :=
  match rs with
  | [] => mret tt
  | r :: rs' => acc' ← relatedStep now acc r; relatedLoop now acc' rs'
  end.

Definition scheduleRelatedSearchWork (now : gotime) (changes : list RelationshipChanges) : tx unit :=
  relatedLoop now (∅, ∅) (changes ≫= fun c => rc_Add c ++ rc_Remove c).

Definition scheduleDeletedFanout (deletion : searchWorkRecord) (counterparts : list uuid) : tx unit :=
  let recorded := filter (fun id => id <> w_NodeID deletion /\ id <> uuid_nil) counterparts in
  _ ← forM recorded (fun id => tr_set (searchFanoutKey (w_OrgID deletion) (w_NodeID deletion) id) VEmpty);
  match recorded with
  | [] => mret tt
  | _ =>
      _ ← addPermissionEvent (w_OrgID deletion);
      _ ← writeSearchWork CAccess deletion None;
      _ ← recordRolloutAffected (w_OrgID deletion) (w_NodeID deletion);
      tr_set (searchCursorKey WorkClassAccess (w_OrgID deletion) (w_NodeID deletion))
        (VProgress (mkProgress (w_Revision deletion) (w_Generation deletion) EmptyString EmptyString 0 "dependents"))
  end.

(** ** Footprints *)

Definition search_families : list string :=
  ["search_generation"; "search_revision"; "search_work"; "search_age"; "search_claim"; "search_cursor";
   "search_access"; "search_fanout"; "search_exclusion"; "search_rollout"; "search_permission_event";
   "search_pending_write"].

Lemma touches_writeSearchWork class r p : touches search_families (writeSearchWork class r p).
Proof. unfold writeSearchWork. touch. Qed.

Lemma touches_applySearchRecordPlan class plan current : touches search_families (applySearchRecordPlan class plan current).
Proof.
  unfold applySearchRecordPlan, readSearchWork, removeSearchWork, clearPendingWrites, searchPendingWritePrefix.
  touch; eauto using touches_writeSearchWork.
Qed.

Lemma touches_scheduleSearchChange now o n change : touches search_families (scheduleSearchChange now o n change).
Proof.
  unfold scheduleSearchChange, exclusionAdjustedChange, incrementSearchCounter, writeSearchCounter,
    readSearchCounter, initializeSearchAccess, recordRolloutAffected, readRollout.
  touch; eauto using touches_applySearchRecordPlan.
Qed.

Lemma touches_relatedEndpoint now o acc n : touches search_families (relatedEndpoint now o acc n).
Proof. unfold relatedEndpoint, scheduleExistingSearchChange. touch; eauto using touches_scheduleSearchChange. Qed.

Lemma touches_scheduleRelatedSearchWork now changes : touches search_families (scheduleRelatedSearchWork now changes).
Proof.
  unfold scheduleRelatedSearchWork. generalize (∅ : gset (uuid * uuid), ∅ : gset uuid).
  induction (changes ≫= _) as [|r rs IH]; intros acc; cbn [relatedLoop]; [touch|].
  apply touches_bind; [|done]. unfold relatedStep, addPermissionEvent. touch; eauto using touches_relatedEndpoint.
Qed.

Lemma touches_scheduleDeletedFanout d l : touches search_families (scheduleDeletedFanout d l).
Proof.
  unfold scheduleDeletedFanout, addPermissionEvent, recordRolloutAffected. touch; eauto using touches_writeSearchWork.
Qed.

(** ** The age index *)

Lemma class_name_inj a b : class_name a = class_name b -> a = b.
Proof. by destruct a, b. Qed.

(** The buckets stay variables here: nothing reduces a digest. *)
Lemma searchWorkKey_inj c b o n c' b' o' n' :
  searchWorkKey c b o n = searchWorkKey c' b' o' n' -> c = c' /\ b = b' /\ o = o' /\ n = n'.
Proof. unfold searchWorkKey. intros E. by key_inv. Qed.

Lemma searchAgeKey_inj c b t o n c' b' t' o' n' :
  searchAgeKey c b t o n = searchAgeKey c' b' t' o' n' -> c = c' /\ b = b' /\ t = t' /\ o = o' /\ n = n'.
Proof. unfold searchAgeKey. intros E. by key_inv. Qed.

Lemma work_key_inj (c : workClass) o n (c' : workClass) o' n' : work_key c o n = work_key c' o' n' -> c = c' /\ o = o' /\ n = n'.
Proof. intros (? & _ & ? & ?)%searchWorkKey_inj. eauto using class_name_inj. Qed.

Lemma age_key_inj (c : workClass) t o n (c' : workClass) t' o' n' :
  age_key c t o n = age_key c' t' o' n' -> c = c' /\ t = t' /\ o = o' /\ n = n'.
Proof. intros (? & _ & ? & ? & ?)%searchAgeKey_inj. eauto using class_name_inj. Qed.

Record WorkInv (s : kv) : Prop := {
  wi_work (c : workClass) o n v : fget s (work_key c o n) = Some v ->
    exists w, v = VWork w /\ w_OrgID w = o /\ w_NodeID w = n /\ fget s (age_key c (w_EnqueuedAt w) o n) = Some VEmpty;
  wi_age (c : workClass) t o n v : fget s (age_key c t o n) = Some v ->
    exists w, fget s (work_key c o n) = Some (VWork w) /\ w_EnqueuedAt w = t;
}.

Lemma WorkInv_depends : depends ["search_work"; "search_age"] WorkInv.
Proof.
  intros s s' Heq [Hw Ha]. split.
  - intros c o n v. rewrite !Heq by (simpl; set_solver). intros Hv.
    destruct (Hw _ _ _ _ Hv) as (w & -> & Ho & Hn & Hage). exists w. by rewrite Heq by (simpl; set_solver).
  - intros c t o n v. rewrite !Heq by (simpl; set_solver). apply Ha.
Qed.

(** The pending record of a class. *)
Definition pending (s : kv) (c : workClass) (o n : uuid) : option searchWorkRecord :=
  match fget s (work_key c o n) with Some (VWork w) => Some w | _ => None end.

Lemma pending_None s c o n : WorkInv s -> pending s c o n = None <-> fget s (work_key c o n) = None.
Proof.
  intros [Hw _]. unfold pending. destruct (fget s (work_key c o n)) as [v|] eqn:E; [|done].
  by destruct (Hw _ _ _ _ E) as (w & -> & _).
Qed.

Lemma pending_Some s c o n w : WorkInv s ->
  pending s c o n = Some w <-> fget s (work_key c o n) = Some (VWork w).
Proof.
  intros [Hw _]. unfold pending. destruct (fget s (work_key c o n)) as [v|] eqn:E; [|done].
  destruct (Hw _ _ _ _ E) as (w' & -> & _). split; congruence.
Qed.

(** What one plan makes of a pending record. *)
Definition plan_result (plan : searchRecordPlan) (current : searchWorkRecord) (old : option searchWorkRecord) : option searchWorkRecord :=
  match plan, old with
  | searchRecordRemove, _ => None
  | searchRecordPut, None => Some current
  | (searchRecordRewrite | searchRecordRestart), None => None
  | searchRecordRewrite, Some w =>
      Some (mkWork (w_OrgID current) (w_NodeID current) (w_Generation current) (w_Revision w) (w_Deleted w)
              (earliestSearchTime (w_EnqueuedAt w) (w_EnqueuedAt current)))
  | (searchRecordPut | searchRecordRestart), Some w =>
      Some (with_enqueued current (earliestSearchTime (w_EnqueuedAt w) (w_EnqueuedAt current)))
  end.

(** The stored pair of work record and age entry. *)
Definition put_work (s : kv) (c : workClass) (w : searchWorkRecord) : kv :=
  fset (fset s (age_key c (w_EnqueuedAt w) (w_OrgID w) (w_NodeID w)) VEmpty) (work_key c (w_OrgID w) (w_NodeID w)) (VWork w).
Definition drop_work (s : kv) (c : workClass) (w : searchWorkRecord) : kv :=
  fclear (fclear s (work_key c (w_OrgID w) (w_NodeID w))) (age_key c (w_EnqueuedAt w) (w_OrgID w) (w_NodeID w)).

Lemma put_work_inv s (c : workClass) w :
  WorkInv s -> fget s (work_key c (w_OrgID w) (w_NodeID w)) = None ->
  WorkInv (put_work s c w) /\
  forall c' o n, pending (put_work s c w) c' o n =
    if decide (c' = c /\ o = w_OrgID w /\ n = w_NodeID w) then Some w else pending s c' o n.
Proof.
  intros HI Hnone.
  assert (forall (c' : workClass) o n, fget (put_work s c w) (work_key c' o n) =
    if decide (c' = c /\ o = w_OrgID w /\ n = w_NodeID w) then Some (VWork w) else fget s (work_key c' o n)) as Hw.
  { intros c' o n. unfold put_work. rewrite !fget_set.
    case_decide as Hk.
    - apply work_key_inj in Hk as (-> & -> & ->). by rewrite decide_True.
    - rewrite (decide_False (P := age_key _ _ _ _ = _)) by done. rewrite decide_False; [done|].
      intros (-> & -> & ->). done. }
  assert (forall (c' : workClass) t o n, fget (put_work s c w) (age_key c' t o n) =
    if decide (c' = c /\ t = w_EnqueuedAt w /\ o = w_OrgID w /\ n = w_NodeID w) then Some VEmpty else fget s (age_key c' t o n)) as Ha.
  { intros c' t o n. unfold put_work. rewrite !fget_set. rewrite (decide_False (P := work_key _ _ _ = _)) by done.
    case_decide as Hk.
    - apply age_key_inj in Hk as (-> & -> & -> & ->). by rewrite decide_True.
    - rewrite decide_False; [done|]. intros (-> & -> & -> & ->). done. }
  split; [split|].
  - intros c' o n v. rewrite Hw. case_decide as Hd.
    + destruct Hd as (-> & -> & ->). intros [= <-]. exists w. rewrite Ha, decide_True by done. done.
    + intros Hv. destruct (wi_work _ HI _ _ _ _ Hv) as (w' & -> & Ho & Hn & Hage). exists w'.
      rewrite Ha, decide_False by naive_solver. done.
  - intros c' t o n v. rewrite Ha, Hw. case_decide as Hd.
    + destruct Hd as (-> & -> & -> & ->). intros _. exists w. by rewrite decide_True.
    + intros Hv. destruct (wi_age _ HI _ _ _ _ _ Hv) as (w' & Hw' & Ht). rewrite decide_False; [eauto|].
      intros (-> & -> & ->). congruence.
  - intros c' o n. unfold pending. rewrite Hw. by case_decide.
Qed.

Lemma drop_work_inv s (c : workClass) w :
  WorkInv s -> fget s (work_key c (w_OrgID w) (w_NodeID w)) = Some (VWork w) ->
  WorkInv (drop_work s c w) /\
  forall c' o n, pending (drop_work s c w) c' o n =
    if decide (c' = c /\ o = w_OrgID w /\ n = w_NodeID w) then None else pending s c' o n.
Proof.
  intros HI Hsome.
  assert (forall (c' : workClass) o n, fget (drop_work s c w) (work_key c' o n) =
    if decide (c' = c /\ o = w_OrgID w /\ n = w_NodeID w) then None else fget s (work_key c' o n)) as Hw.
  { intros c' o n. unfold drop_work. rewrite !fget_clear. rewrite (decide_False (P := age_key _ _ _ _ = _)) by done.
    case_decide as Hk.
    - apply work_key_inj in Hk as (-> & -> & ->). by rewrite decide_True.
    - rewrite decide_False; [done|]. intros (-> & -> & ->). done. }
  assert (forall (c' : workClass) t o n, fget (drop_work s c w) (age_key c' t o n) =
    if decide (c' = c /\ t = w_EnqueuedAt w /\ o = w_OrgID w /\ n = w_NodeID w) then None else fget s (age_key c' t o n)) as Ha.
  { intros c' t o n. unfold drop_work. rewrite !fget_clear.
    case_decide as Hk.
    - apply age_key_inj in Hk as (-> & -> & -> & ->). by rewrite decide_True.
    - rewrite (decide_False (P := work_key _ _ _ = _)) by done. rewrite decide_False; [done|].
      intros (-> & -> & -> & ->). done. }
  split; [split|].
  - intros c' o n v. rewrite Hw. case_decide as Hd; [done|]. intros Hv.
    destruct (wi_work _ HI _ _ _ _ Hv) as (w' & -> & Ho & Hn & Hage). exists w'.
    rewrite Ha, decide_False by naive_solver. done.
  - intros c' t o n v. rewrite Ha, Hw. case_decide as Hd; [done|]. intros Hv.
    destruct (wi_age _ HI _ _ _ _ _ Hv) as (w' & Hw' & Ht). rewrite decide_False; [eauto|].
    intros (-> & -> & ->). apply Hd. split_and!; [done| |done..]. congruence.
  - intros c' o n. unfold pending. rewrite Hw. by case_decide.
Qed.

(** Stores that answer every read alike. *)
Definition keq (s s' : kv) : Prop := forall k, fget s k = fget s' k.

#[export] Instance keq_equiv : Equivalence keq.
Proof. split; [by intros s k|by intros s s' E k|intros a b c E1 E2 k; by rewrite E1]. Qed.

#[export] Instance WorkInv_proper : Proper (keq ==> iff) WorkInv.
Proof. intros s s' E. split; apply WorkInv_depends; intros k _; by rewrite E. Qed.

#[export] Instance pending_proper : Proper (keq ==> eq ==> eq ==> eq ==> eq) pending.
Proof. intros s s' E c ? <- o ? <- n ? <-. unfold pending. by rewrite E. Qed.

Lemma WorkInv_untouched {A} fs (m : tx A) st st' a :
  touches fs m -> "search_work" ∉ fs -> "search_age" ∉ fs -> m st = Ok (st', a) -> WorkInv (tx_kv st) ->
  WorkInv (tx_kv st') /\ forall c o n, pending (tx_kv st') c o n = pending (tx_kv st) c o n.
Proof.
  intros Hm Hw Ha E HI. destruct (Hm _ _ _ E) as [Hk _]. split.
  - eapply WorkInv_depends; [|done]. intros k Hin. apply Hk.
    rewrite !elem_of_cons, elem_of_nil in Hin. by destruct Hin as [->|[->|[]]].
  - intros c o n. unfold pending. by rewrite Hk.
Qed.

Lemma writeSearchWork_new (c : workClass) r st st' u :
  writeSearchWork c r None st = Ok (st', u) -> keq (tx_kv st') (put_work (tx_kv st) c r).
Proof. unfold writeSearchWork, put_work. intros E. tx_inv1 E. done. Qed.

Lemma writeSearchWork_rewrite (c : workClass) r p st st' u :
  w_OrgID p = w_OrgID r -> w_NodeID p = w_NodeID r ->
  writeSearchWork c r (Some p) st = Ok (st', u) ->
  keq (tx_kv st') (put_work (drop_work (tx_kv st) c p) c
                     (with_enqueued r (earliestSearchTime (w_EnqueuedAt p) (w_EnqueuedAt r)))).
Proof.
  intros Ho Hn. unfold writeSearchWork, put_work, drop_work. intros E. tx_inv1 E. intros k. simpl.
  rewrite Ho, Hn. fold (age_key c (w_EnqueuedAt p) (w_OrgID r) (w_NodeID r)).
  rewrite !fget_set, !fget_clear. repeat case_decide; congruence.
Qed.

(** [s'] is [s] with the pending record of one class replaced. *)
Definition replaced (s s' : kv) (c : workClass) (o n : uuid) (r : option searchWorkRecord) : Prop :=
  WorkInv s' /\ forall c' o' n', pending s' c' o' n' =
    if decide (c' = c /\ o' = o /\ n' = n) then r else pending s c' o' n'.

Lemma replaced_put s s' c r :
  WorkInv s -> pending s c (w_OrgID r) (w_NodeID r) = None -> keq s' (put_work s c r) ->
  replaced s s' c (w_OrgID r) (w_NodeID r) (Some r).
Proof.
  intros HI Hp E. apply pending_None in Hp; [|done]. destruct (put_work_inv s c r HI Hp) as [HI' Hp'].
  split; [by apply (WorkInv_proper _ _ E)|]. intros. rewrite (pending_proper _ _ E _ _ eq_refl _ _ eq_refl _ _ eq_refl). apply Hp'.
Qed.

Lemma pending_owner s c o n w : WorkInv s -> pending s c o n = Some w -> w_OrgID w = o /\ w_NodeID w = n.
Proof.
  intros HI Hp. apply pending_Some in Hp; [|done].
  destruct (wi_work _ HI _ _ _ _ Hp) as (w' & [= <-] & ? & ? & _). done.
Qed.

Lemma replaced_drop s s' c o n w :
  WorkInv s -> pending s c o n = Some w -> keq s' (drop_work s c w) -> replaced s s' c o n None.
Proof.
  intros HI Hp E. destruct (pending_owner _ _ _ _ _ HI Hp) as [<- <-]. apply pending_Some in Hp; [|done].
  destruct (drop_work_inv s c w HI Hp) as [HI' Hp'].
  split; [by apply (WorkInv_proper _ _ E)|]. intros. rewrite (pending_proper _ _ E _ _ eq_refl _ _ eq_refl _ _ eq_refl). apply Hp'.
Qed.

Lemma replaced_rewrite s s' c w r :
  WorkInv s -> pending s c (w_OrgID r) (w_NodeID r) = Some w -> keq s' (put_work (drop_work s c w) c r) ->
  replaced s s' c (w_OrgID r) (w_NodeID r) (Some r).
Proof.
  intros HI Hp E. destruct (replaced_drop s _ c _ _ w HI Hp (reflexivity _)) as [HI1 Hp1].
  destruct (replaced_put (drop_work s c w) s' c r HI1) as [HI2 Hp2]; [by rewrite Hp1, decide_True|done|].
  split; [done|]. intros. rewrite Hp2. case_decide; [done|]. by rewrite Hp1, decide_False.
Qed.

Lemma replaced_same s s' c o n r :
  WorkInv s' -> (forall c o n, pending s' c o n = pending s c o n) -> pending s c o n = r -> replaced s s' c o n r.
Proof.
  intros HI Hp Hr. split; [done|]. intros c' o' n'. rewrite Hp. case_decide as Hd; [|done]. by destruct Hd as (-> & -> & ->).
Qed.

Lemma replaced_after {A} fs (m : tx A) s st st' a c o n r :
  touches fs m -> "search_work" ∉ fs -> "search_age" ∉ fs -> m st = Ok (st', a) ->
  replaced s (tx_kv st) c o n r -> replaced s (tx_kv st') c o n r.
Proof.
  intros Hm H1 H2 E [HI Hp]. destruct (WorkInv_untouched fs m st st' a Hm H1 H2 E HI) as [HI' Hp'].
  split; [done|]. intros. by rewrite Hp'.
Qed.

Lemma replaced_before s0 s s' c o n r :
  (forall c o n, pending s c o n = pending s0 c o n) -> replaced s s' c o n r -> replaced s0 s' c o n r.
Proof. intros Hp [HI Hp']. split; [done|]. intros. by rewrite Hp', Hp. Qed.

Lemma readSearchWork_ok (c : workClass) o n st st' w :
  WorkInv (tx_kv st) -> readSearchWork c o n st = Ok (st', w) -> st' = st /\ w = pending (tx_kv st) c o n.
Proof.
  intros HI E. unfold readSearchWork, tr_get_bytes in E. tx_inv1 E. unfold pending.
  destruct (fget (tx_kv st) (work_key c o n)) as [v|] eqn:Ev.
  - destruct (wi_work _ HI _ _ _ _ Ev) as (w' & -> & _). simpl in *. naive_solver.
  - naive_solver.
Qed.

Lemma clear_cursor_ok c o n st st' u :
  WorkInv (tx_kv st) -> tr_clear (searchCursorKey c o n) st = Ok (st', u) ->
  WorkInv (tx_kv st') /\ forall c o n, pending (tx_kv st') c o n = pending (tx_kv st) c o n.
Proof.
  intros HI E. eapply (WorkInv_untouched ["search_cursor"]); [| | |exact E|exact HI]; [touch|set_solver..].
Qed.

(** One plan step replaces the pending record of one class by
    [plan_result] and keeps the age index exact. *)
Lemma applySearchRecordPlan_spec (c : workClass) plan current st st' u :
  WorkInv (tx_kv st) -> applySearchRecordPlan c plan current st = Ok (st', u) ->
  replaced (tx_kv st) (tx_kv st') c (w_OrgID current) (w_NodeID current)
    (plan_result plan current (pending (tx_kv st) c (w_OrgID current) (w_NodeID current))).
Proof.
  intros HI E. unfold applySearchRecordPlan in E. cbv zeta in E.
  apply tx_bind_ok in E as (s1 & existing & [-> ->]%(readSearchWork_ok _ _ _ _ _ _ HI) & E).
  destruct (pending (tx_kv st) c (w_OrgID current) (w_NodeID current)) as [w|] eqn:Hp.
  - destruct (pending_owner _ _ _ _ _ HI Hp) as [Ho Hn]. destruct plan; simpl.
    + apply writeSearchWork_rewrite in E; [|done..]. eapply replaced_rewrite in E; [exact E|done|done].
    + apply tx_bind_ok in E as (s1 & [] & Ec & E). destruct (clear_cursor_ok _ _ _ _ _ _ HI Ec) as [HI1 Hp1].
      apply writeSearchWork_rewrite in E; [|done..].
      eapply replaced_before; [exact Hp1|]. eapply replaced_rewrite in E; [exact E|done|by rewrite Hp1].
    + apply tx_bind_ok in E as (s1 & [] & Ec & E). destruct (clear_cursor_ok _ _ _ _ _ _ HI Ec) as [HI1 Hp1].
      apply writeSearchWork_rewrite in E; [|done..].
      eapply replaced_before; [exact Hp1|]. eapply replaced_rewrite in E; [exact E|done|by rewrite Hp1].
    + apply tx_bind_ok in E as (s1 & [] & Er & E).
      assert (replaced (tx_kv st) (tx_kv s1) c (w_OrgID current) (w_NodeID current) None) as Hr.
      { eapply replaced_drop; [done|exact Hp|]. unfold removeSearchWork in Er. tx_inv1 Er. done. }
      refine (replaced_after ["search_claim"; "search_cursor"; "search_pending_write"] _ _ _ _ _ _ _ _ _ _ _ _ E Hr);
        [unfold clearPendingWrites, searchPendingWritePrefix; touch|set_solver..].
  - destruct plan; simpl.
    + apply tx_ret_ok in E as [-> _]. by apply replaced_same.
    + apply tx_ret_ok in E as [-> _]. by apply replaced_same.
    + apply tx_bind_ok in E as (s1 & [] & Ec & E). destruct (clear_cursor_ok _ _ _ _ _ _ HI Ec) as [HI1 Hp1].
      apply writeSearchWork_new in E. eapply replaced_before; [exact Hp1|].
      eapply replaced_put in E; [exact E|done|by rewrite Hp1].
    + apply tx_bind_ok in E as (s1 & [] & [-> _]%tx_ret_ok & E).
      refine (replaced_after ["search_claim"; "search_cursor"; "search_pending_write"] _ _ _ _ _ _ _ _ _ _ _ _ E _);
        [unfold clearPendingWrites, searchPendingWritePrefix; touch|set_solver..|by apply replaced_same].
Qed.

Lemma plan_loop change current cs st st' u :
  NoDup cs -> WorkInv (tx_kv st) ->
  forM cs (fun class => applySearchRecordPlan class (searchRecordPlanFor change class) current) st = Ok (st', u) ->
  WorkInv (tx_kv st') /\
  forall c o n, pending (tx_kv st') c o n =
    if decide (c ∈ cs /\ o = w_OrgID current /\ n = w_NodeID current)
    then plan_result (searchRecordPlanFor change c) current (pending (tx_kv st) c o n) else pending (tx_kv st) c o n.
Proof.
  revert st. induction cs as [|c cs IH]; intros st Hnd HI E; cbn [forM] in E.
  { apply tx_ret_ok in E as [-> _]. split; [done|]. intros. case_decide; [set_solver|done]. }
  apply NoDup_cons in Hnd as [Hc Hnd]. apply tx_bind_ok in E as (s1 & [] & E1 & E2).
  destruct (applySearchRecordPlan_spec _ _ _ _ _ _ HI E1) as [HI1 Hp1].
  destruct (IH _ Hnd HI1 E2) as [HI2 Hp2]. split; [done|]. intros c' o n. rewrite Hp2, Hp1.
  repeat case_decide; rewrite ?elem_of_cons in *; naive_solver.
Qed.

(** The change that is scheduled: access work of an excluded node becomes a
    repair. *)
Definition adjusted (s : kv) (o n : uuid) (requested : searchChange) : searchChange :=
  match requested with
  | searchChangeAccess =>
      match fget s (searchExclusionKey o n) with
      | Some v => if no_bytes v then searchChangeAccess else searchChangeRepair
      | None => searchChangeAccess
      end
  | _ => requested
  end.

Lemma exclusionAdjustedChange_ok o n requested st st' change :
  WorkInv (tx_kv st) -> exclusionAdjustedChange o n requested st = Ok (st', change) ->
  change = adjusted (tx_kv st) o n requested /\ WorkInv (tx_kv st') /\
  (forall c o n, pending (tx_kv st') c o n = pending (tx_kv st) c o n) /\
  (forall k, family k <> "search_exclusion" -> fget (tx_kv st') k = fget (tx_kv st) k).
Proof.
  intros HI E.
  assert (touches ["search_exclusion"] (exclusionAdjustedChange o n requested)) as Ht by (unfold exclusionAdjustedChange; touch).
  destruct (WorkInv_untouched _ _ _ _ _ Ht ltac:(set_solver) ltac:(set_solver) E HI) as [HI' Hp].
  destruct (Ht _ _ _ E) as [Hk _]. split_and!; [|done|done|intros k Hf; apply Hk; set_solver].
  unfold exclusionAdjustedChange, tr_get_bytes, adjusted in *. destruct requested; tx_inv1 E; try done.
  destruct (fget _ _) as [v|]; [|done]. by destruct (no_bytes v).
Qed.

(** The stored counter value. *)
Definition counter (s : kv) (k : key) : res Z :=
  counter_value (match fget s k with Some v => if no_bytes v then None else Some v | None => None end).

Lemma counter_range s k z : counter s k = Ok z -> (0 <= z <= MaxInt64)%Z.
Proof.
  unfold counter. destruct (match fget s k with Some v => _ | None => None end) as [v|]; simpl.
  - destruct v; try done. destruct (0 <=? z0)%Z eqn:E1, (z0 <=? MaxInt64)%Z eqn:E2; simpl; try done.
    intros [= ->]. lia.
  - intros [= <-]. unfold MaxInt64. lia.
Qed.

Lemma readSearchCounter_ok k st st' z :
  readSearchCounter k st = Ok (st', z) -> st' = st /\ counter (tx_kv st) k = Ok z.
Proof. unfold readSearchCounter, tr_get_bytes, counter. intros E. tx_inv1 E. done. Qed.

Lemma incrementSearchCounter_ok k st st' z :
  incrementSearchCounter k st = Ok (st', z) ->
  exists z0, counter (tx_kv st) k = Ok z0 /\ z = (z0 + 1)%Z /\ (z0 < MaxInt64)%Z /\
    st' = mkTx (fset (tx_kv st) k (VCounter z)) (tx_changes st).
Proof.
  unfold incrementSearchCounter, writeSearchCounter. intros E.
  apply tx_bind_ok in E as (s1 & z0 & [-> Hz]%readSearchCounter_ok & E). tx_inv1 E.
  exists z0. split_and!; [done|done| |done]. apply counter_range in Hz. lia.
Qed.

(** *** The phases of a schedule *)

Definition plan_steps (change : searchChange) (current : searchWorkRecord) : tx unit :=
  forM searchNodeClasses (fun class => applySearchRecordPlan class (searchRecordPlanFor change class) current).

Lemma touches_plan_steps change current :
  touches ["search_work"; "search_age"; "search_claim"; "search_cursor"; "search_pending_write"] (plan_steps change current).
Proof.
  apply touches_forM. intros c. unfold applySearchRecordPlan, readSearchWork, removeSearchWork, clearPendingWrites,
    searchPendingWritePrefix, writeSearchWork. touch.
Qed.

(** [s'] differs from [s] in the families [fs] only. *)
Definition framed (fs : list string) (s s' : kv) : Prop := forall k, family k ∉ fs -> fget s' k = fget s k.

Lemma framed_touches {A} fs (m : tx A) st st' a : touches fs m -> m st = Ok (st', a) -> framed fs (tx_kv st) (tx_kv st').
Proof. intros Hm E. exact (proj1 (Hm _ _ _ E)). Qed.

Lemma framed_trans fs gs s1 s2 s3 : framed fs s1 s2 -> framed gs s2 s3 -> framed (fs ++ gs) s1 s3.
Proof.
  intros H1 H2 k Hk. rewrite H2, H1; [done|..]; intros Hin; apply Hk, elem_of_app; auto.
Qed.

Lemma framed_WorkInv fs s s' :
  framed fs s s' -> "search_work" ∉ fs -> "search_age" ∉ fs -> WorkInv s ->
  WorkInv s' /\ forall c o n, pending s' c o n = pending s c o n.
Proof.
  intros Hf Hw Ha HI. split.
  - eapply WorkInv_depends; [|done]. intros k Hin. apply Hf.
    rewrite !elem_of_cons, elem_of_nil in Hin. by destruct Hin as [->|[->|[]]].
  - intros c o n. unfold pending. by rewrite Hf.
Qed.

(** A schedule writes the counters, applies the plan of every class, and then
    touches rollout and access state only. *)
Lemma scheduleSearchChange_ok now o n requested st st' w :
  WorkInv (tx_kv st) -> scheduleSearchChange now o n requested st = Ok (st', w) ->
  let change := adjusted (tx_kv st) o n requested in
  exists z rev s1 s2,
    counter (tx_kv st) (searchGenerationKey o n) = Ok z /\ (z < MaxInt64)%Z /\
    counter (tx_kv st) (searchRevisionKey o n) = Ok rev /\
    w = mkWork o n (z + 1) (if starts_revision change then (z + 1)%Z else rev) (bool_decide (change = searchChangeDeletion)) now /\
    framed ["search_exclusion"; "search_generation"; "search_revision"] (tx_kv st) (tx_kv s1) /\
    fget (tx_kv s1) (searchGenerationKey o n) = Some (VCounter (z + 1)) /\
    plan_steps change w s1 = Ok (s2, tt) /\
    framed ["search_rollout"; "search_access"] (tx_kv s2) (tx_kv st').
Proof.
  intros HI E. cbv zeta. unfold scheduleSearchChange in E.
  apply tx_bind_ok in E as (s1 & change & E1 & E).
  destruct (exclusionAdjustedChange_ok _ _ _ _ _ _ HI E1) as (<- & _ & _ & Hk1). clear E1.
  apply tx_bind_ok in E as (s2 & z & (z0 & Hz0 & -> & Hlt & ->)%incrementSearchCounter_ok & E).
  apply tx_bind_ok in E as (s3 & rev & [-> Hrev]%readSearchCounter_ok & E). cbv zeta in E.
  apply tx_bind_ok in E as (s4 & [] & E4 & E).
  set (current := mkWork o n (z0 + 1) (if starts_revision change then (z0 + 1)%Z else rev)
                    (bool_decide (change = searchChangeDeletion)) now) in *.
  apply tx_bind_ok in E as (s5 & [] & E5 & E).
  apply tx_bind_ok in E as (s6 & [] & E6 & E).
  eapply (framed_touches ["search_revision"]) in E4; [|unfold writeSearchCounter; touch].
  assert (w = current) as -> by (destruct change; tx_inv1 E; done).
  eapply (framed_touches ["search_rollout"]) in E6; [|unfold recordRolloutAffected; touch].
  eapply (framed_touches ["search_access"]) in E; [|unfold initializeSearchAccess, readRollout; touch].
  exists z0, rev, s4, s5. split_and!; [|done| |done| | |done|exact (framed_trans _ _ _ _ _ E6 E)].
  - rewrite <-Hz0. unfold counter. by rewrite Hk1.
  - rewrite <-Hrev. unfold counter. simpl. by rewrite fget_set, decide_False, Hk1 by done.
  - intros k Hk. rewrite E4 by set_solver. simpl. rewrite fget_set, decide_False by (intros <-; set_solver). apply Hk1. set_solver.
  - rewrite E4 by (simpl; set_solver). simpl. by rewrite fget_set, decide_True.
Qed.

(** The pending work after a schedule. *)
Lemma scheduleSearchChange_pending now o n requested st st' w :
  WorkInv (tx_kv st) -> scheduleSearchChange now o n requested st = Ok (st', w) ->
  WorkInv (tx_kv st') /\
  (forall c o' n', pending (tx_kv st') c o' n' =
     if decide (o' = o /\ n' = n)
     then plan_result (searchRecordPlanFor (adjusted (tx_kv st) o n requested) c) w (pending (tx_kv st) c o' n')
     else pending (tx_kv st) c o' n').
Proof.
  intros HI E. destruct (scheduleSearchChange_ok _ _ _ _ _ _ _ HI E) as (z & rev & s1 & s2 & _ & _ & _ & -> & F1 & _ & Es & F2).
  destruct (framed_WorkInv _ _ _ F1 ltac:(set_solver) ltac:(set_solver) HI) as [HI1 Hp1].
  assert (NoDup searchNodeClasses) as Hnd by (unfold searchNodeClasses; repeat constructor; set_solver).
  destruct (plan_loop _ _ _ _ _ _ Hnd HI1 Es) as [HI2 Hp2].
  destruct (framed_WorkInv _ _ _ F2 ltac:(set_solver) ltac:(set_solver) HI2) as [HI3 Hp3].
  split; [done|]. intros c o' n'. rewrite Hp3, Hp2, Hp1. simpl.
  assert (c ∈ searchNodeClasses) by (destruct c; unfold searchNodeClasses; set_solver).
  repeat case_decide; naive_solver.
Qed.

(** C29: Scheduling refines the plan table.  A successful
    [scheduleSearchChange] advances the node's generation by exactly one,
    makes that generation the revision exactly when the change starts one,
    replaces the pending record of each work class by what the plan table
    prescribes, leaves every other node's pending work alone, and keeps the
    age index exact. *)
Theorem scheduleSearchChange_refines now o n requested st st' w :
  WorkInv (tx_kv st) -> scheduleSearchChange now o n requested st = Ok (st', w) ->
  let change := adjusted (tx_kv st) o n requested in
  WorkInv (tx_kv st') /\
  (exists z, counter (tx_kv st) (searchGenerationKey o n) = Ok z /\ w_Generation w = (z + 1)%Z /\ (z < MaxInt64)%Z) /\
  fget (tx_kv st') (searchGenerationKey o n) = Some (VCounter (w_Generation w)) /\
  (if starts_revision change then w_Revision w = w_Generation w
   else counter (tx_kv st) (searchRevisionKey o n) = Ok (w_Revision w)) /\
  (forall c o' n', pending (tx_kv st') c o' n' =
     if decide (o' = o /\ n' = n) then plan_result (searchRecordPlanFor change c) w (pending (tx_kv st) c o' n')
     else pending (tx_kv st) c o' n').
Proof.
  intros HI E change. destruct (scheduleSearchChange_pending _ _ _ _ _ _ _ HI E) as [HI' Hp'].
  destruct (scheduleSearchChange_ok _ _ _ _ _ _ _ HI E) as (z & rev & s1 & s2 & Hz & Hlt & Hr & -> & _ & Hg & Es & F2).
  split_and!; [done|by exists z| | |done].
  - rewrite F2 by (simpl; set_solver). rewrite (framed_touches _ _ _ _ _ (touches_plan_steps _ _) Es) by (simpl; set_solver). done.
  - simpl. fold change. by destruct (starts_revision change).
Qed.

(** Scheduling the endpoints of relationships keeps the age index exact. *)
Lemma preserves_scheduleRelatedSearchWork now changes : preserves WorkInv (scheduleRelatedSearchWork now changes).
Proof.
  assert (forall o acc id, preserves WorkInv (relatedEndpoint now o acc id)) as He.
  { intros o acc id. unfold relatedEndpoint. case_decide; [by intros s s' b [-> _]%tx_ret_ok|].
    apply preserves_bind; [|by intros [] s s' b [-> _]%tx_ret_ok]. unfold scheduleExistingSearchChange.
    apply preserves_bind; [intros s s' b ->%reads_get_bytes; done|]. intros [v|]; [|by intros s s' b [-> _]%tx_ret_ok].
    apply preserves_bind; [intros s s' b E HI; by eapply scheduleSearchChange_pending|].
    by intros w s s' b [-> _]%tx_ret_ok. }
  unfold scheduleRelatedSearchWork. generalize (∅ : gset (uuid * uuid), ∅ : gset uuid).
  induction (changes ≫= _) as [|r rs IH]; intros acc; cbn [relatedLoop]; [by intros s s' b [-> _]%tx_ret_ok|].
  apply preserves_bind; [|done]. destruct acc as [sch auth]. unfold relatedStep.
  apply preserves_bind.
  { eapply (preserves_touches _ ["search_permission_event"]); [unfold addPermissionEvent; touch|apply WorkInv_depends|set_solver]. }
  intros _. apply preserves_bind; [apply He|]. intros s1. apply preserves_bind; [apply He|].
  by intros s2 s s' b [-> _]%tx_ret_ok.
Qed.
End schedule.
