(* ===== verification/Fence.v ===== *)
(** * The write fence and strict activation: strict.go, write_fence.go, strict_evidence.go,
      strict_activation.go, repair_checkpoint.go

    Every product write adds one to the epoch of its node's bucket.  A strict
    validation scan captures all epochs first; activation compares them with
    the epochs at activation time and commits only if none moved, so no
    record was written between the scan and the activation. *)

From S2P Require Import Prelude GoJson Sha256 Bytes Domain Concrete Store Tx Keys Records Schedule.

(** ** Buckets *)

Definition WriteFenceBuckets : Z := 64.

(** FNV-1a over 32 bits. *)
Definition fnv_offset : Z := 2166136261.
Definition fnv_prime : Z := 16777619.
Definition fnv_step (h b : Z) : Z := ((Z.lxor h b * fnv_prime) mod 2 ^ 32)%Z.

(** The 16 bytes of a UUID, most significant first. *)
Definition uuid_bytes (id : uuid) : list Z :=
  (fun i : nat => Z.land (Z.shiftr (Z.of_N id) (8 * (15 - Z.of_nat i))) 255) <$> seq 0 16.

Definition WriteFenceBucket (orgID nodeID : uuid) : Z :=
  (foldl fnv_step (foldl fnv_step fnv_offset (uuid_bytes orgID)) (uuid_bytes nodeID) mod WriteFenceBuckets)%Z.

Arguments WriteFenceBucket : simpl never.

Lemma WriteFenceBucket_range o n : (0 <= WriteFenceBucket o n < WriteFenceBuckets)%Z.
Proof. unfold WriteFenceBucket, WriteFenceBuckets. apply Z.mod_pos_bound. lia. Qed.

(** ** Evidence *)

Record StrictEvidence := mkEvidence {
  se_Buckets : list Z;
  se_MetadataEpochs : gmap uuid Z;
}.

Record StrictEvidenceChange := mkEvidenceChange {
  sc_Buckets : list nat;
  sc_Organizations : list uuid;
}.

Definition evidence_empty (c : StrictEvidenceChange) : bool :=
  bool_decide (sc_Buckets c = []) && bool_decide (sc_Organizations c = []).

Definition evidenceAt (values : list Z) (position : nat) : Z := default 0%Z (values !! position).

Definition Compare (e later : StrictEvidence) : StrictEvidenceChange :=
  mkEvidenceChange
    (filter (fun bucket => evidenceAt (se_Buckets e) bucket <> evidenceAt (se_Buckets later) bucket)
       (seq 0 (length (se_Buckets e) `max` length (se_Buckets later))))
    (merge_sort N.le
       ((filter (fun oe => default 0%Z (se_MetadataEpochs later !! oe.1) <> oe.2) (map_to_list (se_MetadataEpochs e))).*1 ++
        (filter (fun oe => se_MetadataEpochs e !! oe.1 = None /\ oe.2 <> 0%Z) (map_to_list (se_MetadataEpochs later))).*1)).

(** ** Repair phases *)

Definition repairPhaseRank (phase : RepairPhase) : option Z :=
  match phase with
  | RepairPhaseExported => Some 1%Z
  | RepairPhaseCommentCreated => Some 2%Z
  | RepairPhaseCommentVerified => Some 3%Z
  | RepairPhaseCompleted => Some 4%Z
  | _ => None
  end.

Definition phase_valid (phase : RepairPhase) : bool :=
  match repairPhaseRank phase with Some _ => true | None => false end.

Definition Follows (phase previous : RepairPhase) : bool :=
  if negb (phase_valid phase) then false
  else if decide (previous = NoPhase) then true
  else
    phase_valid previous &&
    (default 0 (repairPhaseRank previous) <? default 0 (repairPhaseRank phase))%Z.

Section fence.
Context `{FDB : Fdb} `{GL : GoLib}.

Definition inactive : StrictActivation := mkActivation false 0 uuid_nil 0.

Definition readStrictActivation : tx StrictActivation :=
  v ← tr_get_bytes strictActivationKey;
  lift (match v with None => Ok inactive | Some (VActivation a) => Ok a | Some _ => Err ErrDecode end).

Definition fenceNodeMutation (orgID nodeID : uuid) : tx bool :=
  activation ← readStrictActivation;
  _ ← tr_add (writeFenceBucketKey (WriteFenceBucket orgID nodeID)) 1;
  mret (sa_Active activation).

(** An epoch of eight bytes in the signed range; absent is zero. *)
Definition decodeFenceEpoch (v : option value) : res Z :=
  match v with
  | None => Ok 0%Z
  | Some (VInt64 z) => if (z <=? MaxInt64)%Z then Ok z else Err ErrOther
  | Some v => if no_bytes v then Ok 0%Z else Err ErrOther
  end.

Definition metadataEpochOrganization (k : key) : res uuid :=
  match k with
  | [_; e] => match elem_id e with Some id => Ok id | None => Err ErrDecode end
  | _ => Err ErrDecode
  end.

Fixpoint readEpochs (items : list (key * value)) (acc : gmap uuid Z) : res (gmap uuid Z) :=
  match items with
  | [] => Ok acc
  | (k, v) :: items' =>
      orgID ← metadataEpochOrganization k;
      epoch ← counter_value (Some v);
      readEpochs items' (<[orgID := epoch]> acc)
  end.

Definition readBucket (bucket : nat) : tx Z :=
  v ← tr_get (writeFenceBucketKey (Z.of_nat bucket)); lift (decodeFenceEpoch v).

Definition readStrictEvidence : tx StrictEvidence :=
  items ← tr_range [TStr "search_epoch"];
  buckets ← mapM_tx readBucket (seq 0 (Z.to_nat WriteFenceBuckets));
  epochs ← lift (readEpochs items ∅);
  mret (mkEvidence buckets epochs).

Definition ActivateStrict (evidence : StrictEvidence) (activation : StrictActivation) : tx unit :=
  current ← readStrictActivation;
  _ ← ensure (negb (sa_Active current)) ErrConflict;
  later ← readStrictEvidence;
  _ ← ensure (evidence_empty (Compare evidence later)) ErrStrictEvidenceChanged;
  tr_set strictActivationKey (VActivation activation).

(** ** Repair checkpoints *)

Definition readRepairCheckpoint (repairID : string) : tx (option RepairCheckpoint) :=
  v ← tr_get_bytes (repairCheckpointKey repairID);
  lift (match v with None => Ok None | Some (VCheckpoint c) => Ok (Some c) | Some _ => Err ErrDecode end).

Definition advanceRepairCheckpoint (previous : RepairPhase) (next : RepairCheckpoint) : tx unit :=
  stored ← readRepairCheckpoint (cp_RepairID next);
  let storedPhase := match stored with Some c => cp_Phase c | None => NoPhase end in
  _ ← ensure (bool_decide (storedPhase = previous)) ErrConflict;
  _ ← match stored with
      | Some c =>
          ensure (bool_decide (cp_SourceDigest c = cp_SourceDigest next) && bool_decide (cp_NodeID c = cp_NodeID next)) ErrConflict
      | None => mret tt
      end;
  _ ← ensure (Follows (cp_Phase next) storedPhase) ErrConflict;
  tr_set (repairCheckpointKey (cp_RepairID next)) (VCheckpoint next).

Lemma touches_fenceNodeMutation o n : touches ["write_fence"] (fenceNodeMutation o n).
Proof. unfold fenceNodeMutation, readStrictActivation. touch. Qed.

Lemma touches_advanceRepairCheckpoint p c : touches ["repair_checkpoint"] (advanceRepairCheckpoint p c).
Proof. unfold advanceRepairCheckpoint, readRepairCheckpoint. touch. Qed.

(** ** Evidence *)

Lemma evidence_buckets e later b :
  Forall (fun b => evidenceAt e b = evidenceAt later b) (seq 0 (length e `max` length later)) ->
  evidenceAt e b = evidenceAt later b.
Proof.
  intros Hall. destruct (decide (b < length e `max` length later)) as [Hb|Hb].
  - rewrite Forall_forall in Hall. apply Hall, elem_of_seq. lia.
  - unfold evidenceAt. by rewrite !lookup_ge_None_2 by lia.
Qed.

Lemma filter_nil_Forall {A} (P : A -> Prop) `{!forall x, Decision (P x)} (l : list A) :
  filter P l = [] <-> Forall (fun x => ~ P x) l.
Proof.
  rewrite Forall_forall. split.
  - intros E x Hx Hp. assert (x ∈ filter P l) as Hin by (by apply list_elem_of_filter). rewrite E in Hin. by apply elem_of_nil in Hin.
  - intros Hall. apply elem_of_nil_inv. intros x [Hp Hx]%list_elem_of_filter. by eapply Hall.
Qed.

(** The comparison is exact.  [Compare] reports no change if and only if
    every bucket epoch and every organization's metadata epoch is the same in
    both captures, an absent epoch counting as zero. *)
Lemma Compare_empty e later :
  evidence_empty (Compare e later) = true <->
  (forall b, evidenceAt (se_Buckets e) b = evidenceAt (se_Buckets later) b) /\
  (forall o, default 0%Z (se_MetadataEpochs e !! o) = default 0%Z (se_MetadataEpochs later !! o)).
Proof.
  unfold evidence_empty, Compare. simpl. rewrite andb_true_iff, !bool_decide_eq_true, filter_nil_Forall.
  assert (forall l : list uuid, merge_sort N.le l = [] <-> l = []) as ->.
  { intros l. pose proof (merge_sort_Permutation N.le l) as Hp. split; [|by intros ->].
    intros E. rewrite E in Hp. by apply Permutation_nil_l in Hp. }
  assert (forall l1 l2 : list uuid, l1 ++ l2 = [] <-> l1 = [] /\ l2 = []) as -> by
    (intros l1 l2; split; [apply app_eq_nil|by intros [-> ->]]).
  assert (forall l : list (uuid * Z), l.*1 = [] <-> l = []) as Hfst by (by intros []).
  rewrite !Hfst, !filter_nil_Forall, !Forall_forall. split.
  - intros (Hb & He & Hl). split.
    + intros b. apply evidence_buckets. apply Forall_forall. intros x Hx. apply dec_stable. auto.
    + intros o. destruct (se_MetadataEpochs e !! o) as [v|] eqn:Ee.
      * apply elem_of_map_to_list in Ee. specialize (He _ Ee). apply dec_stable in He. simpl in *. congruence.
      * destruct (se_MetadataEpochs later !! o) as [v|] eqn:El; [|done]. simpl.
        apply elem_of_map_to_list in El. specialize (Hl _ El). simpl in Hl.
        destruct (decide (v = 0%Z)); naive_solver.
  - intros [Hb Ho]. split_and!.
    + intros b _ Hne. by apply Hne.
    + intros [o v] Hv%elem_of_map_to_list Hne. apply Hne. simpl. by rewrite <-Ho, Hv.
    + intros [o v] Hv%elem_of_map_to_list [Hn Hz]. simpl in *. apply Hz. specialize (Ho o). by rewrite Hn, Hv in Ho.
Qed.

(** ** Activation

    A run of product writes, each with its fence, between the capture of the
    evidence and the activation. *)

Definition fence_writes (writes : list (uuid * uuid)) : tx unit :=
  forM writes (fun w => _ ← fenceNodeMutation w.1 w.2; mret tt).

Definition hits (b : Z) (writes : list (uuid * uuid)) : Z :=
  Z.of_nat (length (filter (fun w => WriteFenceBucket w.1 w.2 = b) writes)).

(** Bucket values are 64-bit counters. *)
Definition FenceInv (s : kv) : Prop :=
  forall b v, fget s (writeFenceBucketKey b) = Some v -> exists z, v = VInt64 z /\ (0 <= z < 2 ^ 64)%Z.

Definition epoch (s : kv) (b : Z) : Z := default 0%Z (add_base (fget s (writeFenceBucketKey b))).

Lemma readStrictActivation_ok st st' a : readStrictActivation st = Ok (st', a) -> st' = st.
Proof. unfold readStrictActivation, tr_get_bytes. intros E. tx_inv1 E. done. Qed.

Lemma fenceNodeMutation_ok o n st st' b :
  fenceNodeMutation o n st = Ok (st', b) ->
  st' = mkTx (fadd (tx_kv st) (writeFenceBucketKey (WriteFenceBucket o n)) 1) (tx_changes st).
Proof.
  unfold fenceNodeMutation. intros E. apply tx_bind_ok in E as (s1 & a & ->%readStrictActivation_ok & E).
  tx_inv1 E. done.
Qed.

Lemma FenceInv_add_base s b : FenceInv s -> add_base (fget s (writeFenceBucketKey b)) = Some (epoch s b).
Proof.
  intros HI. unfold epoch. destruct (fget s (writeFenceBucketKey b)) as [v|] eqn:E; [|done].
  by destruct (HI _ _ E) as (z & -> & _).
Qed.

Lemma FenceInv_range s b : FenceInv s -> (0 <= epoch s b < 2 ^ 64)%Z.
Proof.
  intros HI. unfold epoch. destruct (fget s (writeFenceBucketKey b)) as [v|] eqn:E; [|simpl; lia].
  by destruct (HI _ _ E) as (z & -> & ?).
Qed.

Lemma fence_add s b b' :
  FenceInv s ->
  FenceInv (fadd s (writeFenceBucketKey b) 1) /\
  epoch (fadd s (writeFenceBucketKey b) 1) b' =
    if decide (b = b') then ((epoch s b' + 1) mod 2 ^ 64)%Z else epoch s b'.
Proof.
  intros HI. pose proof (fget_add_eq s (writeFenceBucketKey b) 1 _ (FenceInv_add_base s b HI)) as Ha.
  split.
  - intros b1 v. destruct (decide (writeFenceBucketKey b = writeFenceBucketKey b1)) as [Hk|Hk].
    + rewrite <-Hk, Ha. intros [= <-]. eexists. split; [done|]. apply Z.mod_pos_bound. lia.
    + rewrite fget_add_ne by done. apply HI.
  - unfold epoch at 1. case_decide as Hd; [by subst; rewrite Ha|].
    by rewrite fget_add_ne by (unfold writeFenceBucketKey; congruence).
Qed.

(** Every bucket counts the writes that hash to it. *)
Lemma fence_writes_epoch writes st st' u :
  fence_writes writes st = Ok (st', u) -> FenceInv (tx_kv st) ->
  FenceInv (tx_kv st') /\
  forall b, epoch (tx_kv st') b = ((epoch (tx_kv st) b + hits b writes) mod 2 ^ 64)%Z.
Proof.
  revert st. induction writes as [|[o n] writes IH]; intros st E HI; unfold fence_writes in E; cbn [forM] in E.
  { apply tx_ret_ok in E as [-> _]. split; [done|]. intros b. unfold hits. simpl.
    by rewrite Z.add_0_r, Z.mod_small by (by apply FenceInv_range). }
  apply tx_bind_ok in E as (s1 & [] & E1 & E2).
  apply tx_bind_ok in E1 as (s0 & act & ->%fenceNodeMutation_ok & [-> _]%tx_ret_ok).
  destruct (IH _ E2) as [HI' He]; [by apply (fence_add _ _ 0%Z)|]. split; [done|].
  intros b. rewrite He. cbn [fst snd tx_kv]. rewrite (proj2 (fence_add _ _ b HI)). unfold hits. rewrite filter_cons. cbn [fst snd tx_kv].
  case_decide; [|done]. cbn [length]. rewrite Zplus_mod_idemp_l. f_equal. lia.
Qed.

Lemma readBucket_ok b st st' z :
  readBucket b st = Ok (st', z) -> FenceInv (tx_kv st) ->
  st' = st /\ z = epoch (tx_kv st) (Z.of_nat b) /\ (z <= MaxInt64)%Z.
Proof.
  unfold readBucket. intros E HI. apply tx_bind_ok in E as (s1 & v & [-> ->]%tr_get_ok & [-> E]%lift_ok).
  split; [done|]. unfold epoch, decodeFenceEpoch in *.
  destruct (fget (tx_kv st) (writeFenceBucketKey (Z.of_nat b))) as [v|] eqn:Ev; [|injection E as <-; done].
  destruct (HI _ _ Ev) as (y & -> & _). simpl. destruct (Z.leb_spec y MaxInt64); [|done].
  injection E as <-. done.
Qed.

Lemma readBuckets_ok l st st' zs :
  mapM_tx readBucket l st = Ok (st', zs) -> FenceInv (tx_kv st) ->
  st' = st /\ zs = (fun b => epoch (tx_kv st) (Z.of_nat b)) <$> l /\ Forall (fun z => z <= MaxInt64)%Z zs.
Proof.
  revert st zs. induction l as [|b l IH]; intros st zs; cbn [mapM_tx].
  { by intros [-> ->]%tx_ret_ok. }
  intros (s1 & z & E1 & (s2 & zs' & E2 & [-> ->]%tx_ret_ok)%tx_bind_ok)%tx_bind_ok HI.
  destruct (readBucket_ok _ _ _ _ E1 HI) as (-> & -> & ?). destruct (IH _ _ E2 HI) as (-> & -> & ?).
  split_and!; [done..|]. by constructor.
Qed.

Lemma readStrictEvidence_ok st st' ev b :
  readStrictEvidence st = Ok (st', ev) -> FenceInv (tx_kv st) -> (0 <= b < WriteFenceBuckets)%Z ->
  st' = st /\ evidenceAt (se_Buckets ev) (Z.to_nat b) = epoch (tx_kv st) b /\ (epoch (tx_kv st) b <= MaxInt64)%Z.
Proof.
  unfold readStrictEvidence. intros E HI Hb.
  apply tx_bind_ok in E as (s1 & items & [-> _]%tr_range_ok & E).
  apply tx_bind_ok in E as (s2 & zs & (-> & -> & Hr)%readBuckets_ok & E); [|done].
  apply tx_bind_ok in E as (s3 & eps & [-> _]%lift_ok & [-> ->]%tx_ret_ok). split; [done|].
  set (zs := _ <$> _) in *.
  assert (zs !! Z.to_nat b = Some (epoch (tx_kv st) b)) as Hl.
  { unfold zs. rewrite list_lookup_fmap, lookup_seq_lt by lia. simpl. by rewrite Z2Nat.id by lia. }
  unfold evidenceAt. simpl. rewrite Hl. split; [done|]. by eapply (Forall_lookup_1 _ _ _ _ Hr Hl).
Qed.

Lemma ActivateStrict_ok ev act st st' u :
  ActivateStrict ev act st = Ok (st', u) ->
  exists st1 later, readStrictEvidence st = Ok (st1, later) /\ evidence_empty (Compare ev later) = true /\
    st' = mkTx (fset (tx_kv st1) strictActivationKey (VActivation act)) (tx_changes st1).
Proof.
  unfold ActivateStrict. intros E.
  apply tx_bind_ok in E as (s1 & cur & ->%readStrictActivation_ok & E).
  apply tx_bind_ok in E as (s2 & [] & [-> _]%ensure_ok & E).
  apply tx_bind_ok in E as (s3 & later & El & E).
  apply tx_bind_ok in E as (s4 & [] & [-> Hc]%ensure_ok & ->%modify_ok). eauto.
Qed.

(** C32: Activation never slips past a write.  If the evidence was captured
    at [st], at least one and fewer than 2^63 fenced product writes
    committed since, and nothing else wrote the fence buckets, then
    activation at [st3] does not succeed, whatever else changed. *)
Theorem ActivateStrict_detects_writes st st1 ev writes st2 st3 act :
  FenceInv (tx_kv st) -> readStrictEvidence st = Ok (st1, ev) ->
  fence_writes writes st = Ok (st2, tt) ->
  writes <> [] -> (Z.of_nat (length writes) < 2 ^ 63)%Z ->
  (forall b, fget (tx_kv st3) (writeFenceBucketKey b) = fget (tx_kv st2) (writeFenceBucketKey b)) ->
  is_ok (ActivateStrict ev act st3) = false.
Proof.
  intros HI Hev Hw Hne Hlen Heq. destruct (ActivateStrict ev act st3) as [[st' []]|] eqn:E; [exfalso|done].
  apply ActivateStrict_ok in E as (st4 & later & El & Hc & _).
  destruct (fence_writes_epoch _ _ _ _ Hw HI) as [HI2 He].
  assert (FenceInv (tx_kv st3)) as HI3 by (intros b v; rewrite Heq; apply HI2).
  destruct writes as [|[o n] writes]; [done|]. set (b := WriteFenceBucket o n).
  pose proof (WriteFenceBucket_range o n) as Hb. fold b in Hb.
  apply Compare_empty in Hc as [Hc _]. specialize (Hc (Z.to_nat b)).
  destruct (readStrictEvidence_ok _ _ _ b Hev HI Hb) as (_ & E1 & Hm).
  destruct (readStrictEvidence_ok _ _ _ b El HI3 Hb) as (_ & E2 & _).
  assert (epoch (tx_kv st3) b = epoch (tx_kv st2) b) as Hst by (unfold epoch; by rewrite Heq).
  assert (0 < hits b ((o, n) :: writes) < 2 ^ 63)%Z as Hh.
  { unfold hits. pose proof (length_filter (fun w => WriteFenceBucket w.1 w.2 = b) ((o, n) :: writes)) as Hle.
    split; [|lia]. rewrite filter_cons_True by done. cbn [length]. lia. }
  pose proof (FenceInv_range _ b HI). unfold MaxInt64 in Hm.
  rewrite E1, E2, Hst, He, Z.mod_small in Hc by lia. lia.
Qed.

(** ** Repair checkpoints *)

Definition stored_checkpoint (s : kv) (repairID : string) : option RepairCheckpoint :=
  match fget s (repairCheckpointKey repairID) with Some (VCheckpoint c) => Some c | _ => None end.

Definition phase_of (c : option RepairCheckpoint) : RepairPhase :=
  match c with Some c => cp_Phase c | None => NoPhase end.

Definition rank (p : RepairPhase) : Z := default 0%Z (repairPhaseRank p).

Lemma Follows_rank p q : Follows p q = true -> (rank q < rank p)%Z.
Proof.
  unfold Follows, phase_valid, rank. destruct (repairPhaseRank p) as [r|] eqn:Ep; [|done]. simpl.
  assert (0 < r)%Z by (destruct p; simpl in Ep; congruence || (injection Ep as <-; lia)).
  case_decide; [by subst|]. destruct (repairPhaseRank q) as [r'|]; simpl; [|done]. intros ?%Z.ltb_lt. done.
Qed.

(** A repair only moves forward and keeps its subject.  A successful
    advance found exactly the phase the caller expected, stored the next
    checkpoint, moved to a strictly later phase, and kept the source digest
    and node of an earlier checkpoint; it changed no other key. *)
Theorem advanceRepairCheckpoint_forward previous next st st' u :
  advanceRepairCheckpoint previous next st = Ok (st', u) ->
  let before := stored_checkpoint (tx_kv st) (cp_RepairID next) in
  stored_checkpoint (tx_kv st') (cp_RepairID next) = Some next /\
  phase_of before = previous /\ (rank previous < rank (cp_Phase next))%Z /\
  (forall c, before = Some c -> cp_SourceDigest c = cp_SourceDigest next /\ cp_NodeID c = cp_NodeID next) /\
  (forall k, k <> repairCheckpointKey (cp_RepairID next) -> fget (tx_kv st') k = fget (tx_kv st) k).
Proof.
  unfold advanceRepairCheckpoint. intros E.
  apply tx_bind_ok in E as (s1 & stored & Er & E).
  assert (s1 = st /\ stored = stored_checkpoint (tx_kv st) (cp_RepairID next)) as [-> ->].
  { unfold readRepairCheckpoint, tr_get_bytes in Er. tx_inv1 Er. split; [done|]. unfold stored_checkpoint.
    destruct (fget _ _) as [v|]; [|congruence]. destruct v; simpl in *; repeat case_match; simpl in *; congruence. }
  apply tx_bind_ok in E as (s2 & [] & [-> Hp%bool_decide_eq_true]%ensure_ok & E).
  apply tx_bind_ok in E as (s3 & [] & Hid & E).
  apply tx_bind_ok in E as (s4 & [] & [-> Hf%Follows_rank]%ensure_ok & ->%modify_ok).
  fold (phase_of (stored_checkpoint (tx_kv st) (cp_RepairID next))) in *.
  assert (s3 = st) as ->.
  { destruct (stored_checkpoint _ _); [by apply ensure_ok in Hid as [-> _]|by apply tx_ret_ok in Hid as [-> _]]. }
  split_and!.
  - unfold stored_checkpoint. simpl. by rewrite fget_set, decide_True.
  - done.
  - by rewrite <-Hp.
  - intros c Hc. rewrite Hc in Hid. apply ensure_ok in Hid as [_ [?%bool_decide_eq_true ?%bool_decide_eq_true]%andb_prop]. done.
  - intros k Hk. simpl. by rewrite fget_set, decide_False by congruence.
Qed.

End fence.
