(* ===== verification/MutationRead.v ===== *)
(** * What a mutation reads and checks

    node_mutation_read.go, node_mutation_check.go, node_mutation_schema.go,
    node_mutation_validate.go, strict_graph.go, strict_relationship.go,
    strict_result.go and the plan types of
    internal/domain/node/mutation_plan.go.  Nothing in this file writes. *)

From S2P Require Import Prelude GoJson Sha256 Bytes Domain Concrete Schema Store Tx Keys Records Schedule Fence.

(** ** Plans *)

Record SourceExpectation := mkSourceExpectation { se_Absent : bool; se_PrimaryDigest : N }.
Record GraphRecord := mkGraphRecord { gr_NodeID : uuid; gr_PrimaryDigest : N }.
Record RelationshipExpectation := mkRelExpectation { re_RelationType : string; re_TargetID : uuid; re_Digest : N }.
Record IncomingRelationshipExpectation := mkIncomingExpectation { ie_SourceID : uuid; ie_RelationType : string; ie_Digest : N }.

Record GraphExpectation := mkGraphExpectation {
  ge_Records : list GraphRecord;
  ge_Relationships : list RelationshipExpectation;
  ge_Incoming : list IncomingRelationshipExpectation;
}.

Record CheckpointWrite := mkCheckpointWrite { cw_Previous : RepairPhase; cw_Next : RepairCheckpoint }.

(** A nil slice of reference keys is [None]; a nil parent keeps the stored
    one. *)
Record MutationPlan := mkPlan {
  mp_OrgID : uuid;
  mp_NodeID : uuid;
  mp_NodeType : string;
  mp_ActorID : uuid;
  mp_Source : SourceExpectation;
  mp_MetadataEpoch : Z;
  mp_Graph : GraphExpectation;
  mp_Name : option string;
  mp_Props : gmap string raw;
  mp_Parent : option uuid;
  mp_ReferenceKeys : option (list ReferenceKey);
  mp_Relationships : RelationshipChanges;
  mp_Idempotency : option IdempotencyRecord;
  mp_Checkpoint : option CheckpointWrite;
}.

Record MutationReceipt := mkReceipt {
  mr_OrgID : uuid;
  mr_NodeID : uuid;
  mr_SourceDigest : N;
  mr_ResultDigest : N;
}.

(** The zero digest of an absent source. *)
Definition no_digest : N := 0%N.

Record mutationSource := mkSource {
  ms_Exists : bool;
  ms_TypeKey : string;
  ms_Encoding : option value;
  ms_Node : Node;
}.

Definition absentNode : Node := mkNode uuid_nil uuid_nil EmptyString EmptyString ∅ uuid_nil uuid_nil 0 0.
Definition absentSource : mutationSource := mkSource false EmptyString None absentNode.

Record RelationshipSnapshot := mkRelSnapshot { rs_Relationship : Relationship; rs_Digest : N }.

Definition MutationEdgeLimit : nat := 100.
Definition maxDeleteEdgePage : nat := 100.
Definition strictChildOfLimit : nat := 2.
Definition maxIndexedMatches : nat := 2.

Section read.
Context `{FDB : Fdb} `{GL : GoLib} `{HS : Encoder}.

(** ** Sources *)

Definition storedUUID (r : raw) : uuid :=
  match unmarshal_string r with
  | None => uuid_nil
  | Some text => default uuid_nil (uuid_parse text)
  end.

Definition stored_parent (n : Node) : uuid := storedUUID (default EmptyString (n_Props n !! parentIDName)).

Definition readMutationSource (orgID nodeID : uuid) : tx mutationSource :=
  resolved ← tr_get_bytes (nodeResolveKey nodeID);
  match resolved with
  | None => mret absentSource
  | Some (VResolve resolve) =>
      if decide (nr_OrgID resolve = orgID) then
        encoded ← tr_get_bytes (nodeInstanceKey orgID (nr_NodeType resolve) nodeID);
        match encoded with
        | None => mret absentSource
        | Some (VNode current) => mret (mkSource true (nr_NodeType resolve) (Some (VNode current)) current)
        | Some _ => fail ErrDecode
        end
      else mret absentSource
  | Some _ => fail ErrDecode
  end.

Definition PrimaryDigest (encoding : option value) : N :=
  match encoding with Some v => digest v | None => sha256 EmptyString end.

Definition decodeRelationshipSnapshot (v : value) : res RelationshipSnapshot :=
  match v with VRel r => Ok (mkRelSnapshot r (digest v)) | _ => Err ErrDecode end.

Definition readOutgoingSnapshots (orgID nodeID : uuid) (relationType : string) : tx (list RelationshipSnapshot) :=
  items ← tr_range (relationshipPrefixBySource orgID nodeID relationType);
  lift (res_mapM (fun item => decodeRelationshipSnapshot item.2) items).

Record deleteEdge := mkEdge { de_SourceID : uuid; de_RelationType : string; de_TargetID : uuid }.

Definition decodeDeleteEdge (k : key) : res (string * uuid) :=
  match k with
  | _ :: _ :: _ :: e :: _ :: _ =>
      match elem_text e with
      | Some relationType => otherID ← edgeEnd k; Ok (relationType, otherID)
      | None => Err ErrDecode
      end
  | _ => Err ErrDecode
  end.

Definition deleteEdgeOf (nodeID : uuid) (incoming : bool) (item : key * value) : res deleteEdge :=
  '(relationType, otherID) ← decodeDeleteEdge item.1;
  Ok (if incoming then mkEdge otherID relationType nodeID else mkEdge nodeID relationType otherID).

Definition readDeleteEdges (orgID nodeID : uuid) (relationType : string) (incoming : bool) : tx (list deleteEdge) :=
  let limit := maxDeleteEdgePage + 1 in
  let prefix := if incoming then relationshipReversePrefixByTarget orgID nodeID relationType
                else relationshipPrefixBySource orgID nodeID relationType in
  items ← tr_range prefix;
  lift (res_mapM (deleteEdgeOf nodeID incoming) (take limit items)).

(** A second component [true] means that there are too many edges. *)
Definition readIncomingSnapshots (orgID nodeID : uuid) : tx (list RelationshipSnapshot * bool) :=
  edges ← readDeleteEdges orgID nodeID EmptyString true;
  if decide (MutationEdgeLimit < length edges) then mret ([], true)
  else
    snapshots ← mapM_tx (fun edge =>
      metadata ← tr_get (relationshipKey orgID (de_SourceID edge) (de_RelationType edge) (de_TargetID edge));
      lift (match metadata with Some v => decodeRelationshipSnapshot v | None => Err ErrDecode end)) edges;
    mret (snapshots, false).

(** ** Expectations *)

Definition checkSource (expected : SourceExpectation) (source : mutationSource) : res unit :=
  if se_Absent expected then require (negb (ms_Exists source)) ErrConflict
  else
    _ ← require (ms_Exists source) ErrConflict;
    require (bool_decide (PrimaryDigest (ms_Encoding source) = se_PrimaryDigest expected)) ErrConflict.

Definition is_child_of (r : Relationship) : bool := bool_decide (rel_RelationType r = RelChildOf).

Definition checkPlanShape (plan : MutationPlan) (source : mutationSource) : res unit :=
  _ ← require (negb (bool_decide (is_Some (mp_Props plan !! parentIDName)))) ErrInvalidArgument;
  _ ← require (negb (existsb is_child_of (rc_Add (mp_Relationships plan) ++ rc_Remove (mp_Relationships plan)))) ErrReservedParentRelation;
  require (negb (ms_Exists source && bool_decide (ms_TypeKey source <> mp_NodeType plan))) ErrConflict.

Definition graphRecordStep (orgID : uuid) (record : GraphRecord) : tx (uuid * mutationSource) :=
  source ← readMutationSource orgID (gr_NodeID record);
  _ ← ensure (ms_Exists source && bool_decide (PrimaryDigest (ms_Encoding source) = gr_PrimaryDigest record)) ErrConflict;
  mret (gr_NodeID record, source).

Fixpoint checkGraphLoop (orgID : uuid) (expected : list GraphRecord) (sources : gmap uuid mutationSource) : tx (gmap uuid mutationSource) :=
  match expected with
  | [] => mret sources
  | record :: expected' =>
      '(id, source) ← graphRecordStep orgID record;
      checkGraphLoop orgID expected' (<[id := source]> sources)
  end.

Definition checkGraphRecords (orgID : uuid) (expected : list GraphRecord) : tx (gmap uuid mutationSource) :=
  checkGraphLoop orgID expected ∅.

(** ** The parent chain

    The walk follows [parent_id] through the verified records.  Each step
    that continues visits one more of them, so [size records + 1] steps
    always suffice ([walkChain_fuel]). *)

Inductive chainEnd := ChainRoot | ChainCycle | ChainUnlisted (id : uuid).

Fixpoint walkChain (fuel : nat) (nodeID : uuid) (records : gmap uuid mutationSource) (visited : gset uuid) (currentID : uuid) : option chainEnd :=
  match fuel with
  | O => None
  | S fuel' =>
      if decide (currentID = uuid_nil) then Some ChainRoot
      else if decide (currentID = nodeID \/ currentID ∈ visited) then Some ChainCycle
      else
        match records !! currentID with
        | None => Some (ChainUnlisted currentID)
        | Some ancestor => walkChain fuel' nodeID records ({[currentID]} ∪ visited) (stored_parent (ms_Node ancestor))
        end
  end.

Definition chain_fuel (records : gmap uuid mutationSource) : nat := S (size records).

Definition checkParentChain (orgID nodeID parentID : uuid) (records : gmap uuid mutationSource) : tx unit :=
  match walkChain (chain_fuel records) nodeID records ∅ parentID with
  | Some ChainRoot => mret tt
  | Some ChainCycle => fail ErrInvalidArgument
  | Some (ChainUnlisted currentID) =>
      stored ← readMutationSource orgID currentID;
      if negb (ms_Exists stored) && bool_decide (currentID <> parentID) then mret tt
      else if negb (ms_Exists stored) then fail ErrInvalidArgument
      else fail ErrConflict
  | None => fail ErrOther
  end.

(** The scope walk has no visited set; it relies on [checkParentChain]. *)
Fixpoint walkScope (fuel : nat) (scopeID : uuid) (records : gmap uuid mutationSource) (currentID : uuid) : option bool :=
  match fuel with
  | O => None
  | S fuel' =>
      if decide (currentID = uuid_nil) then Some false
      else if decide (currentID = scopeID) then Some true
      else
        match records !! currentID with
        | None => Some false
        | Some ancestor => walkScope fuel' scopeID records (stored_parent (ms_Node ancestor))
        end
  end.

Definition moveScope (plan : MutationPlan) (source : mutationSource) (result : Node) (records : gmap uuid mutationSource) : option bool :=
  match mp_Parent plan with
  | None => Some true
  | Some parentID =>
      if negb (ms_Exists source) then Some true
      else
        let scopeID := storedUUID (default EmptyString (n_Props result !! scopeIDProperty)) in
        if decide (scopeID = uuid_nil \/ parentID = stored_parent (ms_Node source)) then Some true
        else walkScope (chain_fuel records) scopeID records parentID
  end.

Definition checkMoveScope (plan : MutationPlan) (source : mutationSource) (result : Node) (records : gmap uuid mutationSource) : res unit :=
  match moveScope plan source result records with
  | Some true => Ok tt
  | Some false => Err ErrInvalidArgument
  | None => Err ErrOther
  end.

(** ** Schema reads *)

Definition readMetadataEpoch (orgID : uuid) : tx Z := readSearchCounter (searchEpochKey orgID).

Definition decode_def (item : key * value) : res PropertyDef :=
  match item.2 with VDef d => Ok d | _ => Err ErrDecode end.
Definition decode_type (item : key * value) : res NodeType :=
  match item.2 with VType t => Ok t | _ => Err ErrDecode end.

Definition readDefinitions (orgID : uuid) : tx (list PropertyDef) :=
  items ← tr_range (propertyDefPrefix orgID); lift (res_mapM decode_def items).
Definition readTypes (orgID : uuid) : tx (list NodeType) :=
  items ← tr_range (nodeTypeDefPrefix orgID); lift (res_mapM decode_type items).

Definition readSchemaSnapshot (orgID : uuid) : tx (Schema * Z) :=
  epoch ← readMetadataEpoch orgID;
  definitions ← readDefinitions orgID;
  types ← readTypes orgID;
  mret (mkSchema orgID (BuildTypeIndex types) (Some <$> definitions), epoch).

Definition indexedIDs (prefix : key) : tx (list uuid) :=
  items ← tr_range prefix;
  lift (res_mapM (fun item => lastTupleID item.1) (take maxIndexedMatches items)).

(** The lookup behind the cache. *)
Definition nodeTypeByKey (orgID : uuid) (typeKey : string) : tx (option NodeType) :=
  typeIDs ← indexedIDs (nodeTypeByKeyPrefix orgID typeKey);
  match typeIDs with
  | [] => mret None
  | [typeID] =>
      encoded ← tr_get_bytes (nodeTypeDefKey orgID typeID);
      match encoded with
      | None => mret None
      | Some (VType decoded) => mret (if decide (nt_TypeKey decoded = typeKey) then Some decoded else None)
      | Some _ => fail ErrDecode
      end
  | _ => fail ErrOther
  end.

Definition cachedNodeTypeByKey (orgID : uuid) (typeKey : string) (kinds : gmap string (option NodeType)) :
    tx (option NodeType * gmap string (option NodeType)) :=
  match kinds !! typeKey with
  | Some kind => mret (kind, kinds)
  | None => kind ← nodeTypeByKey orgID typeKey; mret (kind, <[typeKey := kind]> kinds)
  end.

Definition checkMutationSchema (plan : MutationPlan) : tx Schema :=
  epoch ← readMetadataEpoch (mp_OrgID plan);
  _ ← ensure (epoch =? mp_MetadataEpoch plan)%Z ErrConflict;
  '(kind, _) ← cachedNodeTypeByKey (mp_OrgID plan) (mp_NodeType plan) ∅;
  match kind with
  | None => fail ErrInvalidArgument
  | Some kind =>
      definitions ← readDefinitions (mp_OrgID plan);
      mret (mkSchema (mp_OrgID plan) {[nt_TypeKey kind := kind]} (Some <$> definitions))
  end.

Definition indexedPropertyNames (schema : Schema) (kind : NodeType) : list string :=
  pd_Name <$> filter (fun d => pd_Indexed d = true /\ PropertyAppliesTo d kind = true) (omap id (s_Definitions schema)).

(** ** Ordinary validation *)

Definition ordinaryIssue (issue : PropertyIssue) : bool :=
  match pi_Code issue with
  | PropertyIssueParent => false
  | PropertyIssueNotApplicable => negb (IsManagedProperty (pi_Property issue))
  | _ => true
  end.

Definition checked_name (plan : MutationPlan) (source : mutationSource) (name : string) : bool :=
  negb (ms_Exists source) || bool_decide (is_Some (mp_Props plan !! name)).

Fixpoint readResultTargets (orgID : uuid) (props : gmap string raw) (checked : string -> bool)
    (definitions : list (option PropertyDef)) (targets : gmap uuid ResultTarget) : tx (gmap uuid ResultTarget) :=
  match definitions with
  | [] => mret targets
  | None :: rest => readResultTargets orgID props checked rest targets
  | Some d :: rest =>
      if negb (bool_decide (pd_Type d = PropertyTypeUUID)) || bool_decide (pd_ReferenceTargetTypeKey d = EmptyString) || negb (checked (pd_Name d))
      then readResultTargets orgID props checked rest targets
      else
        let targetID := storedUUID (default EmptyString (props !! pd_Name d)) in
        if decide (targetID = uuid_nil \/ is_Some (targets !! targetID)) then readResultTargets orgID props checked rest targets
        else
          target ← readMutationSource orgID targetID;
          readResultTargets orgID props checked rest (<[targetID := mkTarget (ms_Exists target) orgID (ms_TypeKey target)]> targets)
  end.

Definition readResultGraph (plan : MutationPlan) (result : Node) (schema : Schema) (checked : string -> bool) : tx ResultGraph :=
  targets ← readResultTargets (mp_OrgID plan) (n_Props result) checked (s_Definitions schema) ∅;
  mret (mkGraph (mp_OrgID plan) [] targets).

Definition checkMutationResult (plan : MutationPlan) (source : mutationSource) (result : Node) (schema : Schema) : tx unit :=
  let checked := checked_name plan source in
  graph ← readResultGraph plan result schema checked;
  let validated := ValidateResult schema (mp_NodeType plan) (n_Props result) graph in
  _ ← ensure (bool_decide (length (pr_Failures validated) = 0)) ErrSchemaRead;
  ensure (negb (existsb (fun issue => checked (pi_Property issue) && ordinaryIssue issue) (pr_Invalid validated))) ErrInvalidArgument.

(** ** Strict validation *)

Definition readResultTarget (targetID : uuid) : tx ResultTarget :=
  encoded ← tr_get_bytes (nodeResolveKey targetID);
  match encoded with
  | None => mret absent_target
  | Some (VResolve resolve) => mret (mkTarget true (nr_OrgID resolve) (nr_NodeType resolve))
  | Some _ => fail ErrDecode
  end.

Fixpoint readStrictTargets (targetIDs : list uuid) (targets : gmap uuid ResultTarget) : tx (gmap uuid ResultTarget) :=
  match targetIDs with
  | [] => mret targets
  | targetID :: rest =>
      if decide (targetID = uuid_nil) then readStrictTargets rest targets
      else target ← readResultTarget targetID; readStrictTargets rest (<[targetID := target]> targets)
  end.

Definition strict_targets (definitions : list PropertyDef) (record : Node) : list uuid :=
  stored_parent record ::
  ((fun d => storedUUID (default EmptyString (n_Props record !! pd_Name d))) <$>
     filter (fun d => pd_Type d = PropertyTypeUUID /\ pd_ReferenceTargetTypeKey d <> EmptyString) definitions).

Definition readStrictGraph (definitions : list PropertyDef) (record : Node) : tx ResultGraph :=
  edges ← tr_range (relationshipPrefixBySource (n_OrgID record) (n_ID record) RelChildOf);
  childOf ← lift (res_mapM (fun edge => edgeEnd edge.1) (take strictChildOfLimit edges));
  targets ← readStrictTargets (strict_targets definitions record) ∅;
  mret (mkGraph (n_OrgID record) childOf targets).

Definition readStrictSchema (record : Node) : tx (option Schema * ResultGraph) :=
  '(kind, kinds) ← cachedNodeTypeByKey (n_OrgID record) (n_NodeType record) ∅;
  match kind with
  | None => mret (None, mkGraph (n_OrgID record) [] ∅)
  | Some kind =>
      definitions ← readDefinitions (n_OrgID record);
      let types := {[nt_TypeKey kind := kind]} in
      graph ← readStrictGraph definitions record;
      let parent := graph_target graph (stored_parent record) in
      if negb (t_Found parent) || bool_decide (t_OrgID parent <> n_OrgID record)
      then mret (Some (mkSchema (n_OrgID record) types (Some <$> definitions)), graph)
      else
        '(parentKind, _) ← cachedNodeTypeByKey (n_OrgID record) (t_NodeType parent) kinds;
        let types := match parentKind with Some pk => <[nt_TypeKey pk := pk]> types | None => types end in
        mret (Some (mkSchema (n_OrgID record) types (Some <$> definitions)), graph)
  end.

Definition strictResultError (r : option sentinel) : res unit :=
  match r with
  | None => Ok tt
  | Some ErrSchemaRead => Err ErrSchemaRead
  | Some _ => Err ErrInvalidArgument
  end.

(** The graph the strict check uses: the plan's parent replaces the stored
    edges. *)
Definition planned_graph (graph : ResultGraph) (parent : option uuid) : ResultGraph :=
  match parent with Some p => mkGraph (g_OrgID graph) [p] (g_Targets graph) | None => graph end.

Definition checkStrictMutation (strict : bool) (result : Node) (parent : option uuid) : tx unit :=
  if negb strict then mret tt
  else
    '(schema, graph) ← readStrictSchema result;
    match schema with
    | None => fail ErrInvalidArgument
    | Some schema =>
        lift (strictResultError (PropertyResult_Err
                (ValidateResult schema (n_NodeType result) (n_Props result) (planned_graph graph parent))))
    end.

Definition checkStrictRelationship (strict : bool) (rel : Relationship) (memberTarget : bool) : tx unit :=
  if negb strict then mret tt
  else
    _ ← ensure (negb (is_child_of rel)) ErrReservedParentRelation;
    source ← readResultTarget (rel_SourceID rel);
    target ← readResultTarget (rel_TargetID rel);
    _ ← ensure (t_Found source && bool_decide (t_OrgID source = rel_OrgID rel)) ErrInvalidArgument;
    _ ← ensure (negb (t_Found target && bool_decide (t_OrgID target <> rel_OrgID rel))) ErrInvalidArgument;
    ensure (t_Found target || memberTarget) ErrInvalidArgument.

Definition checkStrictRelationshipAdds (strict : bool) (changesList : list RelationshipChanges) : tx unit :=
  if negb strict then mret tt
  else
    forM changesList (fun changes =>
      forM (rc_Add changes) (fun relationship =>
        if is_child_of relationship then mret tt else checkStrictRelationship strict relationship false)).

Definition checkStrictRecord (strict : bool) (record : Node) : tx unit := checkStrictMutation strict record None.

Definition checkStrictWrite (strict : bool) (record : Node) (changesList : list RelationshipChanges) : tx unit :=
  _ ← checkStrictRelationshipAdds strict changesList;
  checkStrictRecord strict record.

(** ** Reads do not write *)

Lemma reads_readMutationSource o n : reads (readMutationSource o n).
Proof. unfold readMutationSource. reads. Qed.

Lemma reads_readOutgoingSnapshots o n t : reads (readOutgoingSnapshots o n t).
Proof. unfold readOutgoingSnapshots. reads. Qed.

Lemma reads_checkGraphLoop o l m : reads (checkGraphLoop o l m).
Proof.
  revert m. induction l as [|r l IH]; intros m; cbn [checkGraphLoop]; [reads|].
  apply reads_bind; [unfold graphRecordStep; eauto using reads_bind, reads_readMutationSource with reads|].
  intros [id src]. apply IH.
  Unshelve. all: reads; eauto using reads_readMutationSource.
Qed.

Lemma reads_checkParentChain o n p m : reads (checkParentChain o n p m).
Proof. unfold checkParentChain. reads; eauto using reads_readMutationSource. Qed.

Lemma reads_cachedNodeTypeByKey o k m : reads (cachedNodeTypeByKey o k m).
Proof. unfold cachedNodeTypeByKey, nodeTypeByKey, indexedIDs. reads. Qed.

Lemma reads_checkMutationSchema plan : reads (checkMutationSchema plan).
Proof.
  unfold checkMutationSchema, readMetadataEpoch, readSearchCounter, readDefinitions.
  reads; eauto using reads_cachedNodeTypeByKey.
Qed.

Lemma reads_readResultTargets o props checked ds m : reads (readResultTargets o props checked ds m).
Proof.
  revert m. induction ds as [|[d|] ds IH]; intros m; cbn [readResultTargets]; [reads| |auto].
  reads; eauto using reads_readMutationSource.
Qed.

Lemma reads_checkMutationResult plan source result schema : reads (checkMutationResult plan source result schema).
Proof. unfold checkMutationResult, readResultGraph. reads; eauto using reads_readResultTargets. Qed.

Lemma reads_readResultTarget id : reads (readResultTarget id).
Proof. unfold readResultTarget. reads. Qed.

Lemma reads_readStrictTargets ids m : reads (readStrictTargets ids m).
Proof.
  revert m. induction ids as [|id ids IH]; intros m; cbn [readStrictTargets]; [reads|].
  reads; eauto using reads_readResultTarget.
Qed.

Lemma reads_readStrictSchema record : reads (readStrictSchema record).
Proof.
  unfold readStrictSchema, readStrictGraph, readDefinitions.
  reads; eauto using reads_cachedNodeTypeByKey, reads_readStrictTargets.
Qed.

Lemma reads_checkStrictMutation strict result parent : reads (checkStrictMutation strict result parent).
Proof. unfold checkStrictMutation. reads; eauto using reads_readStrictSchema. Qed.

Lemma reads_checkStrictRelationshipAdds strict l : reads (checkStrictRelationshipAdds strict l).
Proof. unfold checkStrictRelationshipAdds, checkStrictRelationship. reads; eauto using reads_readResultTarget. Qed.

(** ** Stored nodes *)

(** The node an organization stores under an identifier. *)
Definition lookup_node (s : kv) (orgID nodeID : uuid) : option Node :=
  match fget s (nodeResolveKey nodeID) with
  | Some (VResolve r) =>
      if decide (nr_OrgID r = orgID) then
        match fget s (nodeInstanceKey orgID (nr_NodeType r) nodeID) with Some (VNode n) => Some n | _ => None end
      else None
  | _ => None
  end.

Lemma readMutationSource_ok o n st st' src :
  readMutationSource o n st = Ok (st', src) ->
  st' = st /\
  ((src = absentSource /\ lookup_node (tx_kv st) o n = None) \/
   exists t current, src = mkSource true t (Some (VNode current)) current /\ lookup_node (tx_kv st) o n = Some current /\
     fget (tx_kv st) (nodeResolveKey n) = Some (VResolve (mkResolve o t)) /\
     fget (tx_kv st) (nodeInstanceKey o t n) = Some (VNode current)).
Proof.
  intros E. split; [by eapply reads_readMutationSource|].
  unfold readMutationSource, tr_get_bytes in E. unfold lookup_node.
  apply tx_bind_ok in E as (s1 & v & E1 & E). tx_inv1 E1.
  destruct (fget (tx_kv st) (nodeResolveKey n)) as [v|]; [|tx_inv1 E; by left].
  destruct (no_bytes v) eqn:Hv; [tx_inv1 E; left; by destruct v|].
  destruct v; try discriminate E. destruct r as [o' t]. cbn [nr_OrgID nr_NodeType] in *. case_decide; [|tx_inv1 E; by left].
  subst o'. apply tx_bind_ok in E as (s2 & w & E2 & E). tx_inv1 E2.
  destruct (fget (tx_kv st) (nodeInstanceKey o t n)) as [w|] eqn:Ei; [|tx_inv1 E; by left].
  destruct (no_bytes w) eqn:Hw; [tx_inv1 E; left; by destruct w|].
  destruct w; try discriminate E. tx_inv1 E. right. exists t, n0. by split_and!.
Qed.

Lemma readMutationSource_stored o n st st' src :
  readMutationSource o n st = Ok (st', src) -> ms_Exists src = true ->
  lookup_node (tx_kv st) o n = Some (ms_Node src).
Proof. by intros (_ & [[-> _]|(t & c & -> & ? & _)])%readMutationSource_ok Hx. Qed.

Lemma readMutationSource_absent o n st st' src :
  readMutationSource o n st = Ok (st', src) -> ms_Exists src = false -> lookup_node (tx_kv st) o n = None.
Proof. by intros (_ & [[-> ?]|(t & c & -> & ? & _)])%readMutationSource_ok Hx. Qed.

(** The sources of a graph check are the stored nodes. *)
Definition agrees (s : kv) (o : uuid) (records : gmap uuid mutationSource) : Prop :=
  forall id src, records !! id = Some src -> lookup_node s o id = Some (ms_Node src).

Lemma checkGraphLoop_agrees o l m st st' records :
  checkGraphLoop o l m st = Ok (st', records) -> agrees (tx_kv st) o m -> agrees (tx_kv st) o records.
Proof.
  revert m st. induction l as [|r l IH]; intros m st E Hm; cbn [checkGraphLoop] in E.
  { by apply tx_ret_ok in E as [-> ->]. }
  apply tx_bind_ok in E as (s1 & [id src] & E1 & E). unfold graphRecordStep in E1.
  apply tx_bind_ok in E1 as (s2 & src' & E1 & E2).
  apply tx_bind_ok in E2 as (s3 & [] & [-> [Hx _]%andb_prop]%ensure_ok & [-> [= -> ->]]%tx_ret_ok).
  pose proof (reads_readMutationSource _ _ _ _ _ E1) as ->.
  eapply IH; [exact E|]. intros id' src''. rewrite lookup_insert. case_decide; [|apply Hm].
  intros [= <-]. subst. by eapply readMutationSource_stored.
Qed.

Lemma checkGraphRecords_agrees o l st st' records :
  checkGraphRecords o l st = Ok (st', records) -> agrees (tx_kv st) o records.
Proof. intros E. by eapply checkGraphLoop_agrees. Qed.

(** ** The parent hierarchy *)

Definition parent_rel (s : kv) (o : uuid) : relation uuid := fun a b =>
  exists n, lookup_node s o a = Some n /\ stored_parent n = b /\ b <> uuid_nil.

Definition Forest (s : kv) : Prop := forall o, acyclic (parent_rel s o).

Lemma walkChain_fuel fuel nodeID records visited cur :
  size (dom records ∖ visited) < fuel -> walkChain fuel nodeID records visited cur <> None.
Proof.
  revert visited cur. induction fuel as [|fuel IH]; intros visited cur Hf; [lia|]. cbn [walkChain].
  case_decide; [done|]. case_decide as Hc; [done|]. destruct (records !! cur) as [src|] eqn:E; [|done].
  apply IH. apply elem_of_dom_2 in E.
  assert (size (dom records ∖ ({[cur]} ∪ visited)) < size (dom records ∖ visited)); [|lia].
  apply subset_size. set_solver.
Qed.

(** The walk runs over the stored parents and does not meet the node. *)
Lemma walkChain_unreachable s o nodeID records fuel visited cur r :
  agrees s o records -> walkChain fuel nodeID records visited cur = Some r ->
  (r = ChainRoot \/ exists id, r = ChainUnlisted id /\ lookup_node s o id = None) ->
  cur <> uuid_nil -> ~ rtc (parent_rel s o) cur nodeID.
Proof.
  intros Ha. revert visited cur. induction fuel as [|fuel IH]; intros visited cur E Hr Hcur; [done|].
  cbn [walkChain] in E. rewrite decide_False in E by done. case_decide as Hc; [naive_solver|].
  intros [Heq|(y & (n & Hn & <- & Hy) & Hrest)]%rtc_inv; [naive_solver|].
  destruct (records !! cur) as [src|] eqn:El.
  - apply Ha in El. rewrite El in Hn. injection Hn as <-. by eapply IH.
  - injection E as <-. destruct Hr as [?|(id & [= <-] & Hnone)]; [done|]. congruence.
Qed.

Lemma checkParentChain_unreachable o nodeID parentID records st st' u :
  checkParentChain o nodeID parentID records st = Ok (st', u) -> agrees (tx_kv st) o records ->
  parentID <> uuid_nil -> ~ rtc (parent_rel (tx_kv st) o) parentID nodeID.
Proof.
  intros E Ha Hp. unfold checkParentChain in E.
  destruct (walkChain _ _ _ _ _) as [[| |id]|] eqn:Ew; try discriminate E.
  - eapply walkChain_unreachable; eauto.
  - apply tx_bind_ok in E as (s1 & src & E1 & E). destruct (ms_Exists src) eqn:Hx; [discriminate E|].
    eapply walkChain_unreachable; [done|exact Ew| |done]. right. exists id. split; [done|].
    by eapply readMutationSource_absent.
Qed.

Lemma walkScope_chain fuel nodeID scopeID records visited cur r :
  walkChain fuel nodeID records visited cur = Some r -> r <> ChainCycle ->
  walkScope fuel scopeID records cur <> None.
Proof.
  revert visited cur. induction fuel as [|fuel IH]; intros visited cur E Hr; [done|].
  cbn [walkChain walkScope] in *. case_decide; [done|]. case_decide; [naive_solver|].
  case_decide; [done|]. destruct (records !! cur); [|done]. by eapply IH.
Qed.

(** Both walks up the hierarchy terminate.  [checkParentChain] always
    reaches a verdict within its bound, and although the walk of
    [checkMoveScope] has no visited set, it reaches a verdict too whenever
    [checkParentChain] accepted the same parent and records. *)
Theorem parent_walks_terminate plan source result records parentID st st' u :
  mp_Parent plan = Some parentID ->
  checkParentChain (mp_OrgID plan) (mp_NodeID plan) parentID records st = Ok (st', u) ->
  walkChain (chain_fuel records) (mp_NodeID plan) records ∅ parentID <> None /\
  moveScope plan source result records <> None.
Proof.
  intros Hp E. assert (walkChain (chain_fuel records) (mp_NodeID plan) records ∅ parentID <> None) as Hw.
  { apply walkChain_fuel. rewrite difference_empty_L, size_dom. unfold chain_fuel. lia. }
  split; [done|]. unfold moveScope. rewrite Hp. destruct (ms_Exists source); [|done]. cbn [negb]. cbv zeta. case_decide; [done|].
  unfold checkParentChain in E. destruct (walkChain _ _ _ _ _) as [r|] eqn:Ew; [|done].
  eapply walkScope_chain; [exact Ew|]. intros ->. discriminate E.
Qed.

End read.
