(* ===== verification/Mutation.v ===== *)
(** * One mutation attempt: node_mutation_apply.go and its helpers

    [applyMutationAttempt] is the whole body of one transaction attempt of
    [NodeStore.ApplyMutation]: the idempotency lookup, every check, and every
    write in the order of the code.  The theorems are about a successful
    attempt, which is what commits. *)

From S2P Require Import Prelude GoJson Sha256 Bytes Domain Concrete Schema Store Tx Keys Records Schedule Fence MutationRead.

Section mutation.
Context `{FDB : Fdb} `{GL : GoLib} `{HS : Encoder}.

(** ** The planned result: node_mutation_result.go *)

Definition patch_removes (r : raw) : bool := bool_decide (r = EmptyString) || bool_decide (r = "null").

(** The patch removes a property whose value is empty or null. *)
Definition patch_props (props patch : gmap string raw) : gmap string raw :=
  filter (fun nv => patch_removes nv.2 = false) patch ∪ filter (fun nv => patch !! nv.1 = None) props.

Definition with_props (n : Node) (props : gmap string raw) : Node :=
  mkNode (n_ID n) (n_OrgID n) (n_NodeType n) (n_Name n) props (n_CreatedBy n) (n_UpdatedBy n) (n_CreatedAt n) (n_UpdatedAt n).

Definition mutationResult (plan : MutationPlan) (source : mutationSource) (now : gotime) : Node :=
  let base :=
    if ms_Exists source then
      let n := ms_Node source in
      mkNode (n_ID n) (n_OrgID n) (n_NodeType n) (n_Name n) (n_Props n) (n_CreatedBy n) (mp_ActorID plan) (n_CreatedAt n) now
    else
      mkNode (mp_NodeID plan) (mp_OrgID plan) (mp_NodeType plan) EmptyString ∅ (mp_ActorID plan) (mp_ActorID plan) now now in
  mkNode (n_ID base) (n_OrgID base) (n_NodeType base) (default (n_Name base) (mp_Name plan))
    (patch_props (n_Props base) (mp_Props plan))
    (n_CreatedBy base) (n_UpdatedBy base) (n_CreatedAt base) (n_UpdatedAt base).

Definition expectsRelationship (expected : list RelationshipExpectation) (edge : RelationshipSnapshot) : bool :=
  existsb (fun candidate =>
    bool_decide (re_RelationType candidate = rel_RelationType (rs_Relationship edge)) &&
    bool_decide (re_TargetID candidate = rel_TargetID (rs_Relationship edge)) &&
    bool_decide (re_Digest candidate = rs_Digest edge)) expected.

(** The edges to another parent, in the organization and from the node of
    the plan. *)
Fixpoint removedEdges (plan : MutationPlan) (targetID : uuid) (edges : list RelationshipSnapshot) : res (list Relationship) :=
  match edges with
  | [] => Ok []
  | edge :: edges' =>
      let r := rs_Relationship edge in
      if decide (rel_TargetID r = targetID) then removedEdges plan targetID edges'
      else
        _ ← require (expectsRelationship (ge_Relationships (mp_Graph plan)) edge) ErrConflict;
        rest ← removedEdges plan targetID edges';
        Ok (mkRelationship (mp_OrgID plan) (mp_NodeID plan) (rel_RelationType r) (rel_TargetID r)
              (rel_CreatedBy r) (rel_CreatedAt r) (rel_Props r) :: rest)
  end.

Definition childOfChanges (plan : MutationPlan) (source : mutationSource) (result : Node) : tx (Node * RelationshipChanges) :=
  match mp_Parent plan with
  | None => mret (result, mkRelChanges [] [])
  | Some targetID =>
      let result := with_props result (<[parentIDName := quote_plain (uuid_string targetID)]> (n_Props result)) in
      edges ← (if ms_Exists source then readOutgoingSnapshots (mp_OrgID plan) (mp_NodeID plan) RelChildOf else mret []);
      removed ← lift (removedEdges plan targetID edges);
      let kept := existsb (fun edge => bool_decide (rel_TargetID (rs_Relationship edge) = targetID)) edges in
      let added := if kept then [] else
        [mkRelationship (mp_OrgID plan) (mp_NodeID plan) RelChildOf targetID (mp_ActorID plan) (n_UpdatedAt result) ∅] in
      mret (result, mkRelChanges added removed)
  end.

Definition stamp (plan : MutationPlan) (r : Relationship) : Relationship :=
  mkRelationship
    (if decide (rel_OrgID r = uuid_nil) then mp_OrgID plan else rel_OrgID r)
    (if decide (rel_SourceID r = uuid_nil) then mp_NodeID plan else rel_SourceID r)
    (rel_RelationType r) (rel_TargetID r) (rel_CreatedBy r) (rel_CreatedAt r) (rel_Props r).

Definition planRelationshipChanges (plan : MutationPlan) : RelationshipChanges :=
  mkRelChanges (stamp plan <$> rc_Add (mp_Relationships plan)) (rc_Remove (mp_Relationships plan)).

Definition mutationView (result : Node) : NodeView :=
  mkView (n_ID result) (n_OrgID result) (n_NodeType result) (n_Name result) (n_Props result)
    (n_CreatedBy result) (n_UpdatedBy result) (n_CreatedAt result) (n_UpdatedAt result).

(** ** The search change: node_mutation_search.go *)

Definition changedPropertyNames (source result : gmap string raw) : list string :=
  (filter (fun nv => default EmptyString (source !! nv.1) <> nv.2) (map_to_list result)).*1 ++
  (filter (fun nv => result !! nv.1 = None) (map_to_list source)).*1.

Definition excludedStep (excluded : gmap string bool) (definition : option PropertyDef) : gmap string bool :=
  match definition with
  | None => excluded
  | Some d =>
      let declaredExcluded := match pd_Search d with Some sp => negb (sp_Include sp) | None => false end in
      <[pd_Name d := declaredExcluded && default true (excluded !! pd_Name d)]> excluded
  end.

Definition excludedSearchProperties (definitions : list (option PropertyDef)) : gmap string bool :=
  foldl excludedStep ∅ definitions.

Definition rejectsProperty (schema : Schema) (typeKey : string) (names : list string) (props : gmap string raw) : bool :=
  let values := filter (fun nv => nv.1 ∈ names) props in
  if decide (values = ∅) then false
  else
    let interpreted := Interpret schema typeKey values in
    negb (bool_decide (length (pr_Invalid interpreted) = 0)) || negb (bool_decide (length (pr_Failures interpreted) = 0)).

Definition mutationSearchChange (source : mutationSource) (result : Node) (schema : Schema) : searchChange :=
  if negb (ms_Exists source) || bool_decide (n_Name (ms_Node source) <> n_Name result) then searchChangeContent
  else
    let excluded := excludedSearchProperties (s_Definitions schema) in
    let changed := changedPropertyNames (n_Props (ms_Node source)) (n_Props result) in
    if existsb (fun name => negb (default false (excluded !! name))) changed then searchChangeContent
    else if rejectsProperty schema (n_NodeType result) changed (n_Props (ms_Node source)) ||
            rejectsProperty schema (n_NodeType result) changed (n_Props result) then searchChangeContent
    else searchChangeAccess.

(** ** Idempotency: node_mutation_idempotency.go, idempotency.go *)

Definition decodeIdempotencyRecord (k : string) (v : value) : res IdempotencyRecord :=
  match v with
  | VIdempotencyID id => Ok (mkIdempotency k id EmptyString 0 EmptyString)
  | VIdempotency r => Ok (mkIdempotency k (ir_NodeID r) (ir_Fingerprint r) (ir_CreatedAt r) (ir_Source r))
  | _ => Err ErrDecode
  end.

Definition readCreateIdempotency (plan : MutationPlan) : tx (option MutationReceipt) :=
  match mp_Idempotency plan with
  | None => mret None
  | Some wanted =>
      encoded ← tr_get_bytes (idempotencyKey (mp_OrgID plan) (ir_Key wanted));
      match encoded with
      | None => mret None
      | Some v =>
          existing ← lift (decodeIdempotencyRecord (ir_Key wanted) v);
          _ ← ensure (bool_decide (ir_Fingerprint existing = EmptyString) || bool_decide (ir_Fingerprint wanted = EmptyString) ||
                      bool_decide (ir_Fingerprint existing = ir_Fingerprint wanted)) ErrConflict;
          source ← readMutationSource (mp_OrgID plan) (ir_NodeID existing);
          _ ← ensure (ms_Exists source) ErrConflict;
          mret (Some (mkReceipt (mp_OrgID plan) (ir_NodeID existing) no_digest (PrimaryDigest (ms_Encoding source))))
      end
  end.

Definition writeCreateIdempotencyRecord (plan : MutationPlan) : tx unit :=
  match mp_Idempotency plan with
  | None => mret tt
  | Some r => tr_set (idempotencyKey (mp_OrgID plan) (ir_Key r)) (VIdempotency r)
  end.

(** ** The fence and the checkpoint *)

Definition fenceAttempt (e : env) (orgID nodeID : uuid) : tx bool :=
  if e_writeFence e then fenceNodeMutation orgID nodeID else mret false.

(** [encoded] is [None] for a deletion. *)
Definition advanceMutationCheckpoint (write : option CheckpointWrite) (encoded : option value) : tx unit :=
  match write with
  | None => mret tt
  | Some w =>
      let next := cw_Next w in
      let next :=
        match encoded with
        | Some v =>
            if decide (cp_Phase next = RepairPhaseCompleted) then
              mkCheckpoint (cp_RepairID next) (cp_ManifestDigest next) (cp_NodeID next) (cp_SourceDigest next) (cp_Phase next)
                (cp_CommentID next) (cp_ContentDigest next) (cp_ExportPath next) (cp_ExportDigest next)
                (digest_hex (digest v)) (cp_ActorID next) (cp_UpdatedAt next)
            else next
        | None => next
        end in
      advanceRepairCheckpoint (cw_Previous w) next
  end.

(** ** The writes *)

Definition with_reference (t : Target) (keys : option (list ReferenceKey)) : Target :=
  match keys with
  | Some (k :: _) =>
      mkAuditTarget (at_Kind t) (at_NodeType t) (rk_Encoded k) (at_Name t) (at_URI t) (at_RelationType t)
        (at_ID t) (at_SourceID t) (at_TargetID t) (at_OwnerID t)
  | _ => t
  end.

Definition writeReferences (plan : MutationPlan) (source : mutationSource) : tx unit :=
  if ms_Exists source then
    match mp_ReferenceKeys plan with
    | Some keys => writeReferenceKeys (mp_OrgID plan) (mp_NodeID plan) keys
    | None => mret tt
    end
  else claimReferenceKeys (mp_OrgID plan) (mp_NodeID plan) (default [] (mp_ReferenceKeys plan)).

Definition scheduleMutation (e : env) (plan : MutationPlan) (source : mutationSource) (result : Node) (schema : Schema)
    (relationshipChanges : list RelationshipChanges) : tx unit :=
  if negb (e_searchWork e) then mret tt
  else
    _ ← scheduleSearchChange (e_scheduled e) (mp_OrgID plan) (mp_NodeID plan) (mutationSearchChange source result schema);
    if ms_Exists source then scheduleRelatedSearchWork (e_scheduled e) relationshipChanges else mret tt.

Definition writeMutation (e : env) (plan : MutationPlan) (source : mutationSource) (result : Node) (schema : Schema)
    (relationshipChanges : list RelationshipChanges) : tx value :=
  encoded ← writeNodeRecords result (Some (mutationView result));
  _ ← record e (with_reference (nodeTarget result) (mp_ReferenceKeys plan)) (ms_Encoding source) (Some (VNode encoded));
  _ ← reconcilePropertyIndexes result (n_Props (ms_Node source))
        (match s_Types schema !! mp_NodeType plan with Some kind => indexedPropertyNames schema kind | None => [] end);
  _ ← writeReferences plan source;
  _ ← applyRelationshipChanges e relationshipChanges;
  _ ← writeCreateIdempotencyRecord plan;
  _ ← scheduleMutation e plan source result schema relationshipChanges;
  mret (VNode encoded).

(** The checks of an attempt before the fence: source, shape, schema, graph
    and parent. *)
Definition prepareMutation (e : env) (plan : MutationPlan) : tx (mutationSource * Schema * Node * RelationshipChanges) :=
  source ← readMutationSource (mp_OrgID plan) (mp_NodeID plan);
  _ ← lift (checkSource (mp_Source plan) source);
  _ ← lift (checkPlanShape plan source);
  schema ← checkMutationSchema plan;
  records ← checkGraphRecords (mp_OrgID plan) (ge_Records (mp_Graph plan));
  _ ← match mp_Parent plan with
      | Some parentID => checkParentChain (mp_OrgID plan) (mp_NodeID plan) parentID records
      | None => mret tt
      end;
  let result := mutationResult plan source (e_now e) in
  _ ← lift (checkMoveScope plan source result records);
  '(result, parentChanges) ← childOfChanges plan source result;
  mret (source, schema, result, parentChanges).

(** The rest of an attempt: fence, validation, checkpoint and writes. *)
Definition commitMutation (e : env) (plan : MutationPlan) (source : mutationSource) (schema : Schema) (result : Node)
    (parentChanges : RelationshipChanges) : tx MutationReceipt :=
  strict ← fenceAttempt e (mp_OrgID plan) (mp_NodeID plan);
  _ ← checkStrictMutation strict result (mp_Parent plan);
  _ ← checkMutationResult plan source result schema;
  planned ← lift (marshal_node result);
  _ ← advanceMutationCheckpoint (mp_Checkpoint plan) (Some (VNode planned));
  let relationshipChanges := [planRelationshipChanges plan; parentChanges] in
  encoded ← writeMutation e plan source result schema relationshipChanges;
  _ ← checkStrictRelationshipAdds strict relationshipChanges;
  mret (mkReceipt (mp_OrgID plan) (mp_NodeID plan)
          (if ms_Exists source then PrimaryDigest (ms_Encoding source) else no_digest) (digest encoded)).

Definition applyMutationAttempt (e : env) (plan : MutationPlan) : tx MutationReceipt :=
  existing ← readCreateIdempotency plan;
  match existing with
  | Some receipt => mret receipt
  | None =>
      '(source, schema, result, parentChanges) ← prepareMutation e plan;
      commitMutation e plan source schema result parentChanges
  end.

(** ** Footprints *)

Lemma touches_fenceAttempt e o n : touches ["write_fence"] (fenceAttempt e o n).
Proof. unfold fenceAttempt. touch. apply touches_fenceNodeMutation. Qed.

Lemma touches_advanceMutationCheckpoint w v : touches ["repair_checkpoint"] (advanceMutationCheckpoint w v).
Proof. unfold advanceMutationCheckpoint. touch; apply touches_advanceRepairCheckpoint. Qed.

Lemma touches_writeReferences plan source : touches reference_families (writeReferences plan source).
Proof. unfold writeReferences. touch; [apply touches_writeReferenceKeys|apply touches_claimReferenceKeys]. Qed.

Lemma touches_writeCreateIdempotencyRecord plan : touches ["idempotency_key"] (writeCreateIdempotencyRecord plan).
Proof. unfold writeCreateIdempotencyRecord. touch. Qed.

Lemma touches_scheduleMutation e plan source result schema l :
  touches search_families (scheduleMutation e plan source result schema l).
Proof.
  unfold scheduleMutation. touch; eauto using touches_scheduleSearchChange, touches_scheduleRelatedSearchWork.
Qed.

Lemma reads_readCreateIdempotency plan : reads (readCreateIdempotency plan).
Proof. unfold readCreateIdempotency. reads; eauto using reads_readMutationSource. Qed.

Lemma reads_childOfChanges plan source result : reads (childOfChanges plan source result).
Proof. unfold childOfChanges. reads; eauto using reads_readOutgoingSnapshots. Qed.

Lemma reads_prepareMutation e plan : reads (prepareMutation e plan).
Proof.
  unfold prepareMutation, checkGraphRecords. reads;
    eauto using reads_readMutationSource, reads_checkMutationSchema, reads_checkGraphLoop, reads_checkParentChain, reads_childOfChanges.
Qed.

(** ** Encodings *)

Lemma marshal_props_lookup props props' name :
  marshal_props props = Ok props' -> props' !! name = props !! name ≫= compact_raw.
Proof.
  unfold marshal_props. case_decide as Hall; [|done]. intros [= <-]. rewrite lookup_fmap.
  destruct (props !! name) as [r|] eqn:E; [|done]. simpl. destruct (Hall _ _ E) as [r' ->]. done.
Qed.

Lemma marshal_node_view n n' : marshal_node n = Ok n' -> marshal_view (mutationView n) = Ok (mutationView n').
Proof.
  unfold marshal_node, marshal_view. simpl. destruct (marshal_props (n_Props n)); [|done]. by intros [= <-].
Qed.

Lemma marshal_node_fields n n' :
  marshal_node n = Ok n' ->
  n_ID n' = n_ID n /\ n_OrgID n' = n_OrgID n /\ n_NodeType n' = n_NodeType n /\ n_Name n' = n_Name n /\
  marshal_props (n_Props n) = Ok (n_Props n').
Proof. unfold marshal_node. destruct (marshal_props (n_Props n)); [|done]. by intros [= <-]. Qed.

(** The three records of one node. *)
Definition write_records (s : kv) (n : Node) : kv :=
  fset (fset (fset s (nodeInstanceKey (n_OrgID n) (n_NodeType n) (n_ID n)) (VNode n))
          (nodeResolveKey (n_ID n)) (VResolve (mkResolve (n_OrgID n) (n_NodeType n))))
    (nodeViewKey (n_OrgID n) (n_NodeType n) (n_ID n)) (VView (mutationView n)).

Lemma writeNodeRecords_ok n st st' enc :
  writeNodeRecords n (Some (mutationView n)) st = Ok (st', enc) ->
  marshal_node n = Ok enc /\ st' = mkTx (write_records (tx_kv st) enc) (tx_changes st).
Proof.
  unfold writeNodeRecords. intros E.
  apply tx_bind_ok in E as (s1 & enc' & [-> Em]%lift_ok & E).
  apply tx_bind_ok in E as (s2 & [] & ->%modify_ok & E).
  apply tx_bind_ok in E as (s3 & [] & ->%modify_ok & E).
  apply tx_bind_ok in E as (s4 & [] & E4 & [-> ->]%tx_ret_ok).
  apply tx_bind_ok in E4 as (s5 & v & [-> Ev]%lift_ok & ->%modify_ok).
  rewrite (marshal_node_view _ _ Em) in Ev. injection Ev as <-.
  destruct (marshal_node_fields _ _ Em) as (Hi & Ho & Ht & _ & _).
  split; [done|]. unfold write_records. by rewrite Hi, Ho, Ht.
Qed.

(** ** Node records agree *)

Definition parent_ok (n : Node) : Prop :=
  forall r, n_Props n !! parentIDName = Some r -> exists p, r = quote_plain (uuid_string p).

(** Primary record, resolution record and view describe the same nodes, and
    each parent is a UUID in its quoted form. *)
Record NodeInv (s : kv) : Prop := {
  ni_resolve id v : fget s (nodeResolveKey id) = Some v ->
    exists n, v = VResolve (mkResolve (n_OrgID n) (n_NodeType n)) /\ n_ID n = id /\ parent_ok n /\
      fget s (nodeInstanceKey (n_OrgID n) (n_NodeType n) id) = Some (VNode n) /\
      fget s (nodeViewKey (n_OrgID n) (n_NodeType n) id) = Some (VView (mutationView n));
  ni_instance o t id v : fget s (nodeInstanceKey o t id) = Some v ->
    fget s (nodeResolveKey id) = Some (VResolve (mkResolve o t));
  ni_view o t id v : fget s (nodeViewKey o t id) = Some v ->
    fget s (nodeResolveKey id) = Some (VResolve (mkResolve o t));
}.

Lemma NodeInv_depends : depends record_families NodeInv.
Proof.
  intros s s' Heq [Hr Hi Hv].
  assert (forall k, family k ∈ record_families -> fget s' k = fget s k) as Hk by done.
  split.
  - intros id v. rewrite Hk by (simpl; set_solver). intros E.
    destruct (Hr _ _ E) as (n & -> & Hid & Hp & H1 & H2). exists n. by rewrite !Hk by (simpl; set_solver).
  - intros o t id v. rewrite !Hk by (simpl; set_solver). apply Hi.
  - intros o t id v. rewrite !Hk by (simpl; set_solver). apply Hv.
Qed.

(** The identifier is free or belongs to a node of this organization and
    type. *)
Definition available (s : kv) (o : uuid) (t : string) (id : uuid) : Prop :=
  forall v, fget s (nodeResolveKey id) = Some v -> v = VResolve (mkResolve o t).

Lemma write_records_resolve s n id :
  fget (write_records s n) (nodeResolveKey id) =
  if decide (id = n_ID n) then Some (VResolve (mkResolve (n_OrgID n) (n_NodeType n))) else fget s (nodeResolveKey id).
Proof.
  unfold write_records. rewrite !fget_set, (decide_False (P := nodeViewKey _ _ _ = _)) by done.
  case_decide as Hk.
  - unfold nodeResolveKey in Hk. key_inv. by rewrite decide_True.
  - rewrite (decide_False (P := nodeInstanceKey _ _ _ = _)) by done.
    rewrite decide_False; [done|]. intros ->. done.
Qed.

Lemma write_records_instance s n o t id :
  fget (write_records s n) (nodeInstanceKey o t id) =
  if decide (o = n_OrgID n /\ t = n_NodeType n /\ id = n_ID n) then Some (VNode n) else fget s (nodeInstanceKey o t id).
Proof.
  unfold write_records. rewrite !fget_set, (decide_False (P := nodeViewKey _ _ _ = _)), (decide_False (P := nodeResolveKey _ = _)) by done.
  case_decide as Hk.
  - unfold nodeInstanceKey in Hk. key_inv. by rewrite decide_True.
  - rewrite decide_False; [done|]. intros (-> & -> & ->). done.
Qed.

Lemma write_records_view s n o t id :
  fget (write_records s n) (nodeViewKey o t id) =
  if decide (o = n_OrgID n /\ t = n_NodeType n /\ id = n_ID n) then Some (VView (mutationView n)) else fget s (nodeViewKey o t id).
Proof.
  unfold write_records. rewrite !fget_set, (decide_False (P := nodeResolveKey _ = _)), (decide_False (P := nodeInstanceKey _ _ _ = _)) by done.
  case_decide as Hk.
  - unfold nodeViewKey in Hk. key_inv. by rewrite decide_True.
  - rewrite decide_False; [done|]. intros (-> & -> & ->). done.
Qed.

Lemma write_records_NodeInv s n :
  NodeInv s -> available s (n_OrgID n) (n_NodeType n) (n_ID n) -> parent_ok n -> NodeInv (write_records s n).
Proof.
  intros HI Hav Hp. split.
  - intros id v. rewrite write_records_resolve. case_decide as Hd.
    + intros [= <-]. subst id. exists n. by rewrite write_records_instance, write_records_view, !decide_True.
    + intros E. destruct (ni_resolve _ HI _ _ E) as (m & -> & Hid & Hm & H1 & H2). exists m.
      by rewrite write_records_instance, write_records_view, !decide_False by naive_solver.
  - intros o t id v. rewrite write_records_instance, write_records_resolve. case_decide as Hd.
    + destruct Hd as (-> & -> & ->). by rewrite decide_True.
    + intros E%(ni_instance _ HI). rewrite decide_False; [done|]. intros ->. apply Hav in E as [= -> ->]. by destruct Hd.
  - intros o t id v. rewrite write_records_view, write_records_resolve. case_decide as Hd.
    + destruct Hd as (-> & -> & ->). by rewrite decide_True.
    + intros E%(ni_view _ HI). rewrite decide_False; [done|]. intros ->. apply Hav in E as [= -> ->]. by destruct Hd.
Qed.

Lemma write_records_lookup s n o id :
  available s (n_OrgID n) (n_NodeType n) (n_ID n) ->
  lookup_node (write_records s n) o id = if decide (o = n_OrgID n /\ id = n_ID n) then Some n else lookup_node s o id.
Proof.
  intros Hav. unfold lookup_node. rewrite write_records_resolve. destruct (decide (id = n_ID n)) as [->|Hid].
  - cbn [nr_OrgID nr_NodeType]. destruct (decide (n_OrgID n = o)) as [<-|Ho].
    + by rewrite write_records_instance, !decide_True.
    + rewrite decide_False by naive_solver. destruct (fget s (nodeResolveKey (n_ID n))) as [v|] eqn:E; [|done].
      apply Hav in E as ->. cbn [nr_OrgID]. by rewrite decide_False.
  - rewrite (decide_False (P := _ /\ _)) by naive_solver.
    destruct (fget s (nodeResolveKey id)) as [[]|]; try done. case_decide; [|done].
    by rewrite write_records_instance, decide_False by naive_solver.
Qed.

Lemma lookup_node_ext s s' o id :
  (forall k, family k ∈ record_families -> fget s' k = fget s k) -> lookup_node s' o id = lookup_node s o id.
Proof.
  intros Hk. unfold lookup_node. rewrite Hk by (simpl; set_solver).
  destruct (fget s (nodeResolveKey id)) as [[]|]; try done. by rewrite Hk by (simpl; set_solver).
Qed.

Lemma NodeInv_lookup s o id n : NodeInv s -> lookup_node s o id = Some n ->
  n_OrgID n = o /\ n_ID n = id /\ parent_ok n /\ fget s (nodeResolveKey id) = Some (VResolve (mkResolve o (n_NodeType n))).
Proof.
  intros HI. unfold lookup_node. destruct (fget s (nodeResolveKey id)) as [v|] eqn:E; [|done].
  destruct (ni_resolve _ HI _ _ E) as (m & -> & Hid & Hp & H1 & _). cbn [nr_OrgID nr_NodeType].
  case_decide as Ho; [|done]. rewrite <-Ho, H1. intros [= <-]. done.
Qed.

(** ** What the checks establish *)

(** The result before the parent is set. *)
Definition planned_result (plan : MutationPlan) (source : mutationSource) (now : gotime) : Node :=
  let result := mutationResult plan source now in
  match mp_Parent plan with
  | None => result
  | Some targetID => with_props result (<[parentIDName := quote_plain (uuid_string targetID)]> (n_Props result))
  end.

Record prepared (s : kv) (e : env) (plan : MutationPlan) (source : mutationSource) (result : Node) (changes : RelationshipChanges) : Prop := {
  pr_source : (source = absentSource /\ lookup_node s (mp_OrgID plan) (mp_NodeID plan) = None) \/
    exists current, source = mkSource true (mp_NodeType plan) (Some (VNode current)) current /\
      lookup_node s (mp_OrgID plan) (mp_NodeID plan) = Some current /\
      fget s (nodeInstanceKey (mp_OrgID plan) (mp_NodeType plan) (mp_NodeID plan)) = Some (VNode current);
  pr_expected : checkSource (mp_Source plan) source = Ok tt;
  pr_noparent : mp_Props plan !! parentIDName = None;
  pr_nochildof r : r ∈ rc_Add (mp_Relationships plan) ++ rc_Remove (mp_Relationships plan) -> rel_RelationType r <> RelChildOf;
  pr_acyclic p : mp_Parent plan = Some p -> p <> uuid_nil -> ~ rtc (parent_rel s (mp_OrgID plan)) p (mp_NodeID plan);
  pr_result : result = planned_result plan source (e_now e);
  pr_changes : exists st, tx_kv st = s /\
    childOfChanges plan source (mutationResult plan source (e_now e)) st = Ok (st, (result, changes));
}.

Lemma childOfChanges_result plan source n st st' result changes :
  childOfChanges plan source n st = Ok (st', (result, changes)) ->
  result = match mp_Parent plan with
           | None => n
           | Some targetID => with_props n (<[parentIDName := quote_plain (uuid_string targetID)]> (n_Props n))
           end.
Proof.
  unfold childOfChanges. destruct (mp_Parent plan).
  - intros (s1 & edges & _ & (s2 & removed & _ & [_ [= -> _]]%tx_ret_ok)%tx_bind_ok)%tx_bind_ok. done.
  - by intros [_ [= -> _]]%tx_ret_ok.
Qed.

Lemma checkPlanShape_ok plan source :
  checkPlanShape plan source = Ok tt ->
  mp_Props plan !! parentIDName = None /\
  (forall r, r ∈ rc_Add (mp_Relationships plan) ++ rc_Remove (mp_Relationships plan) -> rel_RelationType r <> RelChildOf) /\
  (ms_Exists source = true -> ms_TypeKey source = mp_NodeType plan).
Proof.
  unfold checkPlanShape, require. intros E.
  destruct (bool_decide (is_Some _)) eqn:H1; simpl in E; [done|]. apply bool_decide_eq_false in H1.
  destruct (existsb is_child_of _) eqn:E2; simpl in E; [done|].
  split_and!; [by apply eq_None_not_Some| |].
  - intros r Hr Hc. assert (existsb is_child_of (rc_Add (mp_Relationships plan) ++ rc_Remove (mp_Relationships plan)) = true); [|congruence].
    apply existsb_exists. exists r. split; [by apply list_elem_of_In|]. by apply bool_decide_eq_true.
  - intros Hx. rewrite Hx in E. simpl in E. by case_bool_decide.
Qed.

Lemma prepareMutation_ok e plan st st' source schema result changes :
  prepareMutation e plan st = Ok (st', (source, schema, result, changes)) ->
  st' = st /\ prepared (tx_kv st) e plan source result changes.
Proof.
  intros E. split; [by eapply reads_prepareMutation|]. unfold prepareMutation in E.
  apply tx_bind_ok in E as (s1 & src & E1 & E).
  pose proof (reads_readMutationSource _ _ _ _ _ E1) as ->.
  apply tx_bind_ok in E as (s2 & [] & [-> Hexp]%lift_ok & E).
  apply tx_bind_ok in E as (s3 & [] & [-> Hshape]%lift_ok & E).
  apply tx_bind_ok in E as (s4 & sch & E4 & E). pose proof (reads_checkMutationSchema _ _ _ _ E4) as ->.
  apply tx_bind_ok in E as (s5 & records & E5 & E). pose proof (reads_checkGraphLoop _ _ _ _ _ _ E5) as ->.
  apply tx_bind_ok in E as (s6 & [] & E6 & E). cbv zeta in E.
  apply tx_bind_ok in E as (s7 & [] & [-> Hscope]%lift_ok & E).
  apply tx_bind_ok in E as (s8 & [res chg] & E8 & [-> [= <- <- <- <-]]%tx_ret_ok).
  pose proof (reads_childOfChanges _ _ _ _ _ _ E8) as ->.
  destruct (checkPlanShape_ok _ _ Hshape) as (Hnp & Hnc & Hty).
  assert (s6 = st) as ->.
  { destruct (mp_Parent plan); [by eapply reads_checkParentChain|by apply tx_ret_ok in E6 as [-> _]]. }
  apply readMutationSource_ok in E1 as [_ E1]. split.
  - destruct E1 as [?|(t & cur & -> & Hl & _ & Hi)]; [by left|]. right. simpl in Hty. rewrite Hty in * by done. eauto.
  - done.
  - done.
  - done.
  - intros p Hp Hnil. rewrite Hp in E6. eapply checkParentChain_unreachable; [exact E6| |done].
    by eapply checkGraphRecords_agrees.
  - unfold planned_result. by apply childOfChanges_result in E8.
  - eauto.
Qed.

(** The result has the identity of the plan. *)
Lemma prepared_identity s e plan source result changes :
  NodeInv s -> prepared s e plan source result changes ->
  n_ID result = mp_NodeID plan /\ n_OrgID result = mp_OrgID plan /\ n_NodeType result = mp_NodeType plan.
Proof.
  intros HI P. rewrite (pr_result _ _ _ _ _ _ P).
  assert (n_ID (mutationResult plan source (e_now e)) = mp_NodeID plan /\ n_OrgID (mutationResult plan source (e_now e)) = mp_OrgID plan /\
    n_NodeType (mutationResult plan source (e_now e)) = mp_NodeType plan) as H.
  { unfold mutationResult. destruct (pr_source _ _ _ _ _ _ P) as [[-> _]|(cur & -> & Hl & Hi)]; simpl; [done|].
    destruct (NodeInv_lookup _ _ _ _ HI Hl) as (Ho & Hid & _ & Hr). split_and!; [done..|].
    apply (ni_instance _ HI) in Hi. rewrite Hi in Hr. by injection Hr. }
  unfold planned_result. by destruct (mp_Parent plan).
Qed.

(** The parent property of the result. *)
Definition next_parent (plan : MutationPlan) (source : mutationSource) : option raw :=
  match mp_Parent plan with
  | Some p => Some (quote_plain (uuid_string p))
  | None => n_Props (ms_Node source) !! parentIDName
  end.

Lemma patch_props_lookup props patch name :
  patch_props props patch !! name =
  match patch !! name with
  | Some r => if patch_removes r then None else Some r
  | None => props !! name
  end.
Proof.
  unfold patch_props. destruct (patch !! name) as [r|] eqn:Ep.
  - destruct (patch_removes r) eqn:Er.
    + apply lookup_union_None. split; apply map_lookup_filter_None; right; intros x Hx; simpl; congruence.
    + apply lookup_union_Some_l. by apply map_lookup_filter_Some.
  - rewrite lookup_union_r by (apply map_lookup_filter_None; by left).
    destruct (props !! name) as [r|] eqn:Eq.
    + by apply map_lookup_filter_Some.
    + apply map_lookup_filter_None. by left.
Qed.

Lemma prepared_parent s e plan source result changes :
  prepared s e plan source result changes -> n_Props result !! parentIDName = next_parent plan source.
Proof.
  intros P. rewrite (pr_result _ _ _ _ _ _ P). unfold planned_result, next_parent.
  destruct (mp_Parent plan); [simpl; apply lookup_insert_eq|].
  unfold mutationResult. cbn [n_Props]. rewrite patch_props_lookup, (pr_noparent _ _ _ _ _ _ P).
  by destruct (pr_source _ _ _ _ _ _ P) as [[-> _]|(cur & -> & _)].
Qed.

Lemma compact_quote id : compact_raw (quote_plain (uuid_string id)) = Some (quote_plain (uuid_string id)).
Proof.
  unfold compact_raw. rewrite decide_False by apply quote_plain_nonempty. apply json_compact_quote, uuid_string_plain.
Qed.

Lemma storedUUID_quote id : storedUUID (quote_plain (uuid_string id)) = id.
Proof. unfold storedUUID. rewrite unmarshal_quote by apply uuid_string_plain. by rewrite uuid_parse_string. Qed.

Lemma next_parent_ok s e plan source result changes :
  NodeInv s -> prepared s e plan source result changes ->
  forall r, next_parent plan source = Some r -> exists p, r = quote_plain (uuid_string p).
Proof.
  intros HI P r. unfold next_parent. destruct (mp_Parent plan) as [p|]; [intros [= <-]; eauto|].
  destruct (pr_source _ _ _ _ _ _ P) as [[-> _]|(cur & -> & Hl & _)]; [simpl; by rewrite lookup_empty|].
  destruct (NodeInv_lookup _ _ _ _ HI Hl) as (_ & _ & Hp & _). apply Hp.
Qed.

(** Encoding keeps the parent property. *)
Lemma encoded_parent s e plan source result changes enc :
  NodeInv s -> prepared s e plan source result changes -> marshal_node result = Ok enc ->
  n_Props enc !! parentIDName = next_parent plan source.
Proof.
  intros HI P Em. destruct (marshal_node_fields _ _ Em) as (_ & _ & _ & _ & Hp).
  rewrite (marshal_props_lookup _ _ _ Hp), (prepared_parent _ _ _ _ _ _ P).
  pose proof (next_parent_ok _ _ _ _ _ _ HI P) as Hq. destruct (next_parent plan source) as [r|]; [|done].
  destruct (Hq _ eq_refl) as [p ->]. simpl. apply compact_quote.
Qed.

(** ** What a committed attempt writes *)

(** The writes after the node records. *)
Definition writeRest (e : env) (plan : MutationPlan) (source : mutationSource) (result : Node) (schema : Schema)
    (changes : list RelationshipChanges) : tx unit :=
  _ ← reconcilePropertyIndexes result (n_Props (ms_Node source))
        (match s_Types schema !! mp_NodeType plan with Some kind => indexedPropertyNames schema kind | None => [] end);
  _ ← writeReferences plan source;
  _ ← applyRelationshipChanges e changes;
  _ ← writeCreateIdempotencyRecord plan;
  scheduleMutation e plan source result schema changes.

Definition rest_families : list string :=
  ["node_by_property"] ++ reference_families ++ relationship_families ++ ["idempotency_key"] ++ search_families.

Lemma touches_writeRest e plan source result schema changes : touches rest_families (writeRest e plan source result schema changes).
Proof.
  unfold writeRest, rest_families.
  apply touches_bind; [eapply touches_weaken; [apply touches_reconcilePropertyIndexes|set_solver]|intros _].
  apply touches_bind; [eapply touches_weaken; [apply touches_writeReferences|set_solver]|intros _].
  apply touches_bind; [eapply touches_weaken; [apply touches_applyRelationshipChanges|set_solver]|intros _].
  apply touches_bind; [eapply touches_weaken; [apply touches_writeCreateIdempotencyRecord|set_solver]|intros _].
  eapply touches_weaken; [apply touches_scheduleMutation|set_solver].
Qed.

(** The phases of a committed attempt: guards that touch the fence and the
    checkpoint, the node records with their change, and the rest. *)
Lemma commitMutation_ok e plan source schema result changes st st' receipt :
  commitMutation e plan source schema result changes st = Ok (st', receipt) ->
  exists s1 s2 enc,
    framed ["write_fence"; "repair_checkpoint"] (tx_kv st) (tx_kv s1) /\ tx_changes st `prefix_of` tx_changes s1 /\
    marshal_node result = Ok enc /\
    record e (with_reference (nodeTarget result) (mp_ReferenceKeys plan)) (ms_Encoding source) (Some (VNode enc))
      (mkTx (write_records (tx_kv s1) enc) (tx_changes s1)) = Ok (s2, tt) /\
    writeRest e plan source result schema [planRelationshipChanges plan; changes] s2 = Ok (st', tt) /\
    receipt = mkReceipt (mp_OrgID plan) (mp_NodeID plan)
      (if ms_Exists source then PrimaryDigest (ms_Encoding source) else no_digest) (digest (VNode enc)).
Proof.
  unfold commitMutation. intros E.
  apply tx_bind_ok in E as (sa & strict & Ea & E).
  apply tx_bind_ok in E as (sb & [] & Eb%reads_checkStrictMutation & E). subst sb.
  apply tx_bind_ok in E as (sc & [] & Ec%reads_checkMutationResult & E). subst sc.
  apply tx_bind_ok in E as (sd & planned & [-> Hm]%lift_ok & E).
  apply tx_bind_ok in E as (s1 & [] & Ed & E). cbv zeta in E.
  apply tx_bind_ok in E as (sf & v & Ew & E).
  apply tx_bind_ok in E as (sg & [] & Eg%reads_checkStrictRelationshipAdds & [-> ->]%tx_ret_ok). subst sg.
  destruct (touches_fenceAttempt _ _ _ _ _ _ Ea) as [Fa Pa], (touches_advanceMutationCheckpoint _ _ _ _ _ Ed) as [Fd Pd].
  unfold writeMutation in Ew.
  apply tx_bind_ok in Ew as (s3 & enc & [Hm' ->]%writeNodeRecords_ok & Ew). rewrite Hm in Hm'. injection Hm' as <-.
  apply tx_bind_ok in Ew as (s2 & [] & Er & Ew).
  exists s1, s2, planned. split_and!; [exact (framed_trans _ _ _ _ _ Fa Fd)|by etrans|done|done| |].
  - unfold writeRest. apply tx_bind_ok in Ew as (t1 & [] & H1 & Ew). apply tx_bind_ok. exists t1, tt. split; [done|].
    apply tx_bind_ok in Ew as (t2 & [] & H2 & Ew). apply tx_bind_ok. exists t2, tt. split; [done|].
    apply tx_bind_ok in Ew as (t3 & [] & H3 & Ew). apply tx_bind_ok. exists t3, tt. split; [done|].
    apply tx_bind_ok in Ew as (t4 & [] & H4 & Ew). apply tx_bind_ok. exists t4, tt. split; [done|].
    by apply tx_bind_ok in Ew as (t5 & [] & H5 & [-> _]%tx_ret_ok).
  - by apply tx_bind_ok in Ew as (t1 & [] & _ & (t2 & [] & _ & (t3 & [] & _ & (t4 & [] & _ & (t5 & [] & _ & [_ ->]%tx_ret_ok)%tx_bind_ok)%tx_bind_ok)%tx_bind_ok)%tx_bind_ok).
Qed.

(** The node records after a commit. *)
Lemma commitMutation_records e plan source schema result changes st st' receipt :
  commitMutation e plan source schema result changes st = Ok (st', receipt) ->
  exists enc, marshal_node result = Ok enc /\ mr_ResultDigest receipt = digest (VNode enc) /\
    forall k, family k ∈ record_families -> fget (tx_kv st') k = fget (write_records (tx_kv st) enc) k.
Proof.
  intros (s1 & s2 & enc & F & _ & Hm & Er & Ew & ->)%commitMutation_ok. exists enc. split_and!; [done..|].
  intros k Hk. destruct (touches_writeRest _ _ _ _ _ _ _ _ _ Ew) as [Fw _].
  rewrite Fw by (eapply families_disjoint; [|exact Hk]; done).
  apply record_ok in Er as (-> & _ & _). simpl. unfold write_records. rewrite !fget_set.
  repeat (case_decide; [done|]). apply F. eapply families_disjoint; [|exact Hk]; done.
Qed.

(** A successful attempt either replays or prepares and commits. *)
Lemma applyMutationAttempt_ok e plan st st' receipt :
  applyMutationAttempt e plan st = Ok (st', receipt) ->
  (readCreateIdempotency plan st = Ok (st, Some receipt) /\ st' = st) \/
  (readCreateIdempotency plan st = Ok (st, None) /\
   exists source schema result changes, prepared (tx_kv st) e plan source result changes /\
     prepareMutation e plan st = Ok (st, (source, schema, result, changes)) /\
     commitMutation e plan source schema result changes st = Ok (st', receipt)).
Proof.
  unfold applyMutationAttempt. intros (s1 & existing & E1 & E)%tx_bind_ok.
  pose proof (reads_readCreateIdempotency _ _ _ _ E1) as ->. destruct existing as [r|].
  - apply tx_ret_ok in E as [-> ->]. by left.
  - right. split; [done|]. apply tx_bind_ok in E as (s2 & [[[source schema] result] changes] & E2 & E).
    destruct (prepareMutation_ok _ _ _ _ _ _ _ _ E2) as [-> P]. eauto 10.
Qed.

End mutation.
