(* ===== verification/MutationSpec.v ===== *)
(** * What a mutation guarantees

    The theorems about [applyMutationAttempt]: it keeps the store's
    invariants and the parent hierarchy a forest, it records every change it
    makes, it stores exactly the planned result, it replays idempotently,
    it leaves exactly one parent edge, and under strict validation it only
    stores well-formed results. *)

From S2P Require Import Prelude GoJson Sha256 Bytes Domain Concrete Schema Store Tx Keys Records Schedule Fence MutationRead Mutation.

Section spec.
Context `{FDB : Fdb} `{GL : GoLib} `{HS : Encoder}.

(** ** The invariant of the store *)

Record StoreInv (s : kv) : Prop := {
  si_nodes : NodeInv s;
  si_references : RefInv s;
  si_relationships : RelInv s;
  si_work : WorkInv s;
}.

(** The identifier of the plan is not a node of another organization, and
    the plan has one reference key per template. *)
Record plan_ok (s : kv) (plan : MutationPlan) : Prop := {
  po_org r : fget s (nodeResolveKey (mp_NodeID plan)) = Some (VResolve r) -> nr_OrgID r = mp_OrgID plan;
  po_keys : NoDup (rk_TemplateName <$> default [] (mp_ReferenceKeys plan));
}.

Lemma prepared_available s e plan source result changes :
  NodeInv s -> plan_ok s plan -> prepared s e plan source result changes ->
  available s (mp_OrgID plan) (mp_NodeType plan) (mp_NodeID plan).
Proof.
  intros HI HP P v Hv. destruct (pr_source _ _ _ _ _ _ P) as [[_ Hn]|(cur & _ & _ & Hi)].
  - destruct (ni_resolve _ HI _ _ Hv) as (n & -> & Hid & _ & H1 & _).
    pose proof (po_org _ _ HP _ Hv) as Ho. simpl in Ho. unfold lookup_node in Hn. rewrite Hv in Hn. cbn [nr_OrgID nr_NodeType] in Hn.
    rewrite decide_True in Hn by done. rewrite <-Ho, H1 in Hn. done.
  - apply (ni_instance _ HI) in Hi. congruence.
Qed.

Lemma encoded_identity s e plan source result changes enc :
  NodeInv s -> prepared s e plan source result changes -> marshal_node result = Ok enc ->
  n_ID enc = mp_NodeID plan /\ n_OrgID enc = mp_OrgID plan /\ n_NodeType enc = mp_NodeType plan.
Proof.
  intros HI P Hm. destruct (marshal_node_fields _ _ Hm) as (-> & -> & -> & _).
  by eapply prepared_identity.
Qed.

Lemma audits_writeRest e plan source result schema changes :
  audits RelInv (writeRest e plan source result schema changes).
Proof.
  unfold writeRest.
  apply audits_bind; [eapply audits_touches; [apply touches_reconcilePropertyIndexes|apply RelInv_depends|intros g; by apply families_disjoint]|intros _].
  apply audits_bind; [eapply audits_touches; [apply touches_writeReferences|apply RelInv_depends|intros g; by apply families_disjoint]|intros _].
  apply audits_bind; [apply audits_applyRelationshipChanges|intros _].
  apply audits_bind; [eapply audits_touches; [apply touches_writeCreateIdempotencyRecord|apply RelInv_depends|intros g; by apply families_disjoint]|intros _].
  eapply audits_touches; [apply touches_scheduleMutation|apply RelInv_depends|intros g; by apply families_disjoint].
Qed.

Lemma preserves_writeReferences plan source :
  NoDup (rk_TemplateName <$> default [] (mp_ReferenceKeys plan)) -> preserves RefInv (writeReferences plan source).
Proof.
  intros Hnd. unfold writeReferences, claimReferenceKeys.
  destruct (mp_ReferenceKeys plan) as [[|k keys]|], (ms_Exists source); simpl in *;
    first [by apply preserves_writeReferenceKeys | by intros s s' b [-> _]%tx_ret_ok].
Qed.

Lemma preserves_writeRest_RefInv e plan source result schema changes :
  NoDup (rk_TemplateName <$> default [] (mp_ReferenceKeys plan)) ->
  preserves RefInv (writeRest e plan source result schema changes).
Proof.
  intros Hnd. unfold writeRest.
  apply preserves_bind; [eapply preserves_touches; [apply touches_reconcilePropertyIndexes|apply RefInv_depends|intros g; by apply families_disjoint]|intros _].
  apply preserves_bind; [by apply preserves_writeReferences|intros _].
  apply preserves_bind; [eapply preserves_touches; [apply touches_applyRelationshipChanges|apply RefInv_depends|intros g; by apply families_disjoint]|intros _].
  apply preserves_bind; [eapply preserves_touches; [apply touches_writeCreateIdempotencyRecord|apply RefInv_depends|intros g; by apply families_disjoint]|intros _].
  eapply preserves_touches; [apply touches_scheduleMutation|apply RefInv_depends|intros g; by apply families_disjoint].
Qed.

Lemma preserves_scheduleMutation e plan source result schema changes :
  preserves WorkInv (scheduleMutation e plan source result schema changes).
Proof.
  unfold scheduleMutation. destruct (e_searchWork e); [|by intros s s' b [-> _]%tx_ret_ok].
  apply preserves_bind; [intros s s' b E HI; by eapply scheduleSearchChange_pending|intros _].
  destruct (ms_Exists source); [apply preserves_scheduleRelatedSearchWork|by intros s s' b [-> _]%tx_ret_ok].
Qed.

Lemma preserves_writeRest_WorkInv e plan source result schema changes :
  preserves WorkInv (writeRest e plan source result schema changes).
Proof.
  unfold writeRest.
  apply preserves_bind; [eapply preserves_touches; [apply touches_reconcilePropertyIndexes|apply WorkInv_depends|intros g; by apply families_disjoint]|intros _].
  apply preserves_bind; [eapply preserves_touches; [apply touches_writeReferences|apply WorkInv_depends|intros g; by apply families_disjoint]|intros _].
  apply preserves_bind; [eapply preserves_touches; [apply touches_applyRelationshipChanges|apply WorkInv_depends|intros g; by apply families_disjoint]|intros _].
  apply preserves_bind; [eapply preserves_touches; [apply touches_writeCreateIdempotencyRecord|apply WorkInv_depends|intros g; by apply families_disjoint]|intros _].
  apply preserves_scheduleMutation.
Qed.

(** ** Invariants *)

(** An invariant that does not read the node records, the fence or the
    checkpoint survives a commit when the remaining writes keep it. *)
Lemma commitMutation_preserves gs I e plan source schema result changes st st' receipt :
  depends gs I -> (forall g, g ∈ gs -> g ∉ record_families ++ ["write_fence"; "repair_checkpoint"]) ->
  preserves I (writeRest e plan source result schema [planRelationshipChanges plan; changes]) ->
  commitMutation e plan source schema result changes st = Ok (st', receipt) -> I (tx_kv st) -> I (tx_kv st').
Proof.
  intros Hd Hg Hw (s1 & s2 & enc & F & _ & _ & Er & Ew & _)%commitMutation_ok HI.
  apply record_ok in Er as (Hkv & _ & _). eapply Hw; [exact Ew|]. rewrite Hkv. simpl.
  eapply Hd; [|exact HI]. intros k Hk. apply Hg in Hk. rewrite elem_of_app in Hk. unfold write_records. rewrite !fget_set.
  rewrite !decide_False; [apply F; tauto|..]; intros <-; apply Hk; left; simpl; set_solver.
Qed.

Lemma commitMutation_NodeInv e plan source schema result changes st st' receipt :
  NodeInv (tx_kv st) -> plan_ok (tx_kv st) plan -> prepared (tx_kv st) e plan source result changes ->
  commitMutation e plan source schema result changes st = Ok (st', receipt) -> NodeInv (tx_kv st').
Proof.
  intros HI HP P (enc & Hm & _ & Hk)%commitMutation_records.
  destruct (encoded_identity _ _ _ _ _ _ _ HI P Hm) as (Hid & Ho & Ht).
  eapply NodeInv_depends; [exact Hk|]. apply write_records_NodeInv; [done| |].
  - rewrite Hid, Ho, Ht. by eapply prepared_available.
  - intros r Hr. rewrite (encoded_parent _ _ _ _ _ _ _ HI P Hm) in Hr. by eapply next_parent_ok.
Qed.

Lemma applyMutationAttempt_StoreInv e plan st st' receipt :
  StoreInv (tx_kv st) -> plan_ok (tx_kv st) plan ->
  applyMutationAttempt e plan st = Ok (st', receipt) -> StoreInv (tx_kv st').
Proof.
  intros HI HP [[_ ->]|(_ & source & schema & result & changes & P & _ & E)]%applyMutationAttempt_ok; [done|].
  split.
  - eapply commitMutation_NodeInv; [apply HI|done..].
  - eapply commitMutation_preserves; [apply RefInv_depends|intros g; by apply families_disjoint| |exact E|apply HI].
    apply preserves_writeRest_RefInv, HP.
  - eapply commitMutation_preserves; [apply RelInv_depends|intros g; by apply families_disjoint| |exact E|apply HI].
    intros s s' u Ew Hr. by eapply audits_writeRest.
  - eapply commitMutation_preserves; [apply WorkInv_depends|intros g; by apply families_disjoint| |exact E|apply HI].
    apply preserves_writeRest_WorkInv.
Qed.

(** C2: A mutation keeps the store consistent.  When the identifier is not
    taken by another organization and the plan has one key per reference
    template, a successful attempt keeps primary, resolution and view
    records in agreement, references owned by one node, relationship keys
    paired, and the search work index exact. *)
Theorem applyMutation_invariants e plan st st' receipt :
  StoreInv (tx_kv st) -> plan_ok (tx_kv st) plan ->
  applyMutationAttempt e plan st = Ok (st', receipt) -> StoreInv (tx_kv st').
Proof. apply applyMutationAttempt_StoreInv. Qed.

(** ** The stored result *)

(** The nodes after a commit. *)
Lemma commitMutation_lookup e plan source schema result changes st st' receipt :
  NodeInv (tx_kv st) -> plan_ok (tx_kv st) plan -> prepared (tx_kv st) e plan source result changes ->
  commitMutation e plan source schema result changes st = Ok (st', receipt) ->
  exists enc, marshal_node result = Ok enc /\ mr_ResultDigest receipt = digest (VNode enc) /\
    forall o id, lookup_node (tx_kv st') o id =
      if decide (o = mp_OrgID plan /\ id = mp_NodeID plan) then Some enc else lookup_node (tx_kv st) o id.
Proof.
  intros HI HP P (enc & Hm & Hdig & Hk)%commitMutation_records. exists enc. split_and!; [done..|].
  destruct (encoded_identity _ _ _ _ _ _ _ HI P Hm) as (Hid & Ho & Ht).
  intros o id. rewrite (lookup_node_ext _ _ _ _ Hk), write_records_lookup; [by rewrite Hid, Ho|].
  rewrite Hid, Ho, Ht. by eapply prepared_available.
Qed.

Lemma applyMutationAttempt_Forest e plan st st' receipt :
  StoreInv (tx_kv st) -> plan_ok (tx_kv st) plan -> Forest (tx_kv st) ->
  applyMutationAttempt e plan st = Ok (st', receipt) -> Forest (tx_kv st').
Proof.
  intros HI HP HF [[_ ->]|(_ & source & schema & result & changes & P & _ & E)]%applyMutationAttempt_ok; [done|].
  destruct (commitMutation_lookup _ _ _ _ _ _ _ _ _ (si_nodes _ HI) HP P E) as (enc & Hm & _ & Hl). intros o.
  pose proof (encoded_parent _ _ _ _ _ _ _ (si_nodes _ HI) P Hm) as Hpar.
  assert (forall a b, parent_rel (tx_kv st') o a b -> parent_rel (tx_kv st) o a b \/
    (o = mp_OrgID plan /\ a = mp_NodeID plan /\ mp_Parent plan = Some b /\ b <> uuid_nil)) as Hrel.
  { intros a b (n & Hn & Hb & Hnil). rewrite Hl in Hn. case_decide as Hd; [|left; by exists n].
    destruct Hd as [-> ->]. injection Hn as <-. unfold stored_parent in Hb. rewrite Hpar in Hb. unfold next_parent in Hb.
    destruct (mp_Parent plan) as [p|].
    - right. simpl in Hb. rewrite storedUUID_quote in Hb. by subst.
    - left. destruct (pr_source _ _ _ _ _ _ P) as [[-> _]|(cur & -> & Hc & _)]; [by subst|]. by exists cur. }
  destruct (decide (o = mp_OrgID plan)) as [->|Ho].
  - destruct (mp_Parent plan) as [p|] eqn:Hp; [|eapply acyclic_subrel; [|apply HF]; intros a b Hab; by destruct (Hrel _ _ Hab) as [?|(_ & _ & ? & _)]].
    destruct (decide (p = uuid_nil)) as [->|Hnil].
    + eapply acyclic_subrel; [|apply HF]. intros a b Hab. destruct (Hrel _ _ Hab) as [?|(_ & _ & [= <-] & ?)]; done.
    + eapply (acyclic_redirect _ _ (mp_NodeID plan) p); [|apply HF|by eapply pr_acyclic].
      intros a b Hab. destruct (Hrel _ _ Hab) as [?|(_ & -> & [= ->] & _)]; auto.
  - eapply acyclic_subrel; [|apply HF]. intros a b Hab. by destruct (Hrel _ _ Hab) as [?|(? & _)].
Qed.

(** C1: A mutation keeps the hierarchy a forest.  If following [parent_id]
    never returns to its start before a successful attempt, it never does
    after it: the chain check rules out exactly the moves that close a
    cycle. *)
Theorem applyMutation_forest e plan st st' receipt :
  StoreInv (tx_kv st) -> plan_ok (tx_kv st) plan -> Forest (tx_kv st) ->
  applyMutationAttempt e plan st = Ok (st', receipt) -> Forest (tx_kv st').
Proof. apply applyMutationAttempt_Forest. Qed.


(** ** The audit trail *)

Lemma names_node c keys n o :
  ch_Target c = with_reference (nodeTarget n) keys -> names c (nodeInstanceKey o (n_NodeType n) (n_ID n)).
Proof. intros E. unfold names. rewrite E. destruct keys as [[|]|]; simpl; eauto. Qed.

(** C8: Nothing changes unaudited.  After a successful attempt every node
    and relationship record either has its old value or is named by a change
    that the attempt recorded for the audit log. *)
Theorem applyMutation_audited e plan st st' receipt :
  StoreInv (tx_kv st) -> plan_ok (tx_kv st) plan ->
  applyMutationAttempt e plan st = Ok (st', receipt) -> covered (tx_kv st) st'.
Proof.
  intros HI HP [[_ ->]|(_ & source & schema & result & changes & P & _ & E)]%applyMutationAttempt_ok; [intros k _; by left|].
  apply commitMutation_ok in E as (s1 & s2 & enc & F & Hp1 & Hm & Er & Ew & _).
  destruct (encoded_identity _ _ _ _ _ _ _ (si_nodes _ HI) P Hm) as (Hid & Ho & Ht).
  destruct (marshal_node_fields _ _ Hm) as (Hid' & _ & Ht' & _).
  destruct (record_ok _ _ _ _ _ _ _ Er) as (Hkv & Hp2 & Hcase). simpl in Hkv, Hp2.
  assert (forall k, family k ∈ audited_families -> k <> nodeInstanceKey (mp_OrgID plan) (mp_NodeType plan) (mp_NodeID plan) ->
    fget (tx_kv s2) k = fget (tx_kv st) k) as Hother.
  { intros k Hk Hne. rewrite Hkv. unfold write_records. rewrite Hid, Ho, Ht, !fget_set.
    rewrite !decide_False; [apply F; eapply families_disjoint; [|exact Hk]; done|congruence|..];
      intros <-; simpl in Hk; set_solver. }
  assert (RelInv (tx_kv s2)) as HR.
  { eapply RelInv_depends; [|apply HI]. intros k Hk. rewrite Hkv. unfold write_records. rewrite !fget_set.
    rewrite !decide_False; [apply F; eapply families_disjoint; [|exact Hk]; done|..]; intros <-; simpl in Hk; set_solver. }
  destruct (audits_writeRest _ _ _ _ _ _ _ _ _ Ew HR) as (_ & Hp3 & Hc3).
  eapply covered_trans; [|exact Hc3|exact Hp3]. intros k Hk.
  destruct (decide (k = nodeInstanceKey (mp_OrgID plan) (mp_NodeType plan) (mp_NodeID plan))) as [->|Hne]; [|left; auto].
  destruct Hcase as [[_ ?]|[Hsame|(c & Hc & Htgt & _)]]; [done| |].
  - left. rewrite Hkv, write_records_instance, decide_True by done. rewrite <-Hsame.
    by destruct (pr_source _ _ _ _ _ _ P) as [[-> _]|(cur & -> & _ & ->)].
  - right. exists c. split; [done|]. rewrite <-Ht, <-Hid, Ht', Hid'. by eapply names_node.
Qed.

(** ** Replay *)

Lemma readMutationSource_run o t n current st :
  fget (tx_kv st) (nodeResolveKey n) = Some (VResolve (mkResolve o t)) ->
  fget (tx_kv st) (nodeInstanceKey o t n) = Some (VNode current) ->
  readMutationSource o n st = Ok (st, mkSource true t (Some (VNode current)) current).
Proof.
  intros Hr Hi. unfold readMutationSource, tr_get_bytes, mbind, tx_bind, tr_get, mret, tx_ret.
  rewrite Hr. simpl. rewrite decide_True by done. by rewrite Hi.
Qed.

Lemma writeRest_idempotency e plan source result schema changes st st' r u :
  mp_Idempotency plan = Some r -> writeRest e plan source result schema changes st = Ok (st', u) ->
  fget (tx_kv st') (idempotencyKey (mp_OrgID plan) (ir_Key r)) = Some (VIdempotency r).
Proof.
  intros Hr E. unfold writeRest in E.
  apply tx_bind_ok in E as (s1 & [] & _ & E). apply tx_bind_ok in E as (s2 & [] & _ & E).
  apply tx_bind_ok in E as (s3 & [] & _ & E). apply tx_bind_ok in E as (s4 & [] & Ei & E).
  rewrite (proj1 (touches_scheduleMutation _ _ _ _ _ _ _ _ _ E)) by (simpl; set_solver).
  unfold writeCreateIdempotencyRecord in Ei. rewrite Hr in Ei. apply modify_ok in Ei as ->.
  simpl. by rewrite fget_set, decide_True.
Qed.

Lemma replay_attempt e e' plan r st st' st2 receipt :
  StoreInv (tx_kv st) -> plan_ok (tx_kv st) plan ->
  mp_Idempotency plan = Some r -> ir_NodeID r = mp_NodeID plan ->
  readCreateIdempotency plan st = Ok (st, None) ->
  applyMutationAttempt e plan st = Ok (st', receipt) -> tx_kv st2 = tx_kv st' ->
  applyMutationAttempt e' plan st2 =
    Ok (st2, mkReceipt (mp_OrgID plan) (mp_NodeID plan) no_digest (mr_ResultDigest receipt)).
Proof.
  intros HI HP Hr Hn Hid [[Hx _]|(_ & source & schema & result & changes & P & _ & E)]%applyMutationAttempt_ok Hkv; [congruence|].
  pose proof (commitMutation_NodeInv _ _ _ _ _ _ _ _ _ (si_nodes _ HI) HP P E) as HI'.
  destruct (commitMutation_lookup _ _ _ _ _ _ _ _ _ (si_nodes _ HI) HP P E) as (enc & Hm & -> & Hl).
  specialize (Hl (mp_OrgID plan) (mp_NodeID plan)). rewrite decide_True in Hl by done.
  destruct (NodeInv_lookup _ _ _ _ HI' Hl) as (_ & _ & _ & Hres).
  assert (fget (tx_kv st') (nodeInstanceKey (mp_OrgID plan) (n_NodeType enc) (mp_NodeID plan)) = Some (VNode enc)) as Hi.
  { unfold lookup_node in Hl. rewrite Hres in Hl. cbn [nr_OrgID nr_NodeType] in Hl. rewrite decide_True in Hl by done.
    destruct (fget _ _) as [[]|]; congruence. }
  destruct (commitMutation_ok _ _ _ _ _ _ _ _ _ E) as (_ & s2 & _ & _ & _ & _ & _ & Ew & _).
  pose proof (writeRest_idempotency _ _ _ _ _ _ _ _ _ _ Hr Ew) as Hidem.
  rewrite <-Hkv in *. unfold applyMutationAttempt, readCreateIdempotency. rewrite Hr.
  unfold tr_get_bytes, mbind, tx_bind, tr_get, mret, tx_ret. rewrite Hidem. simpl.
  unfold ensure, lift, require. rewrite (bool_decide_eq_true_2 (_ = ir_Fingerprint r)) by done. rewrite !orb_true_r.
  rewrite Hn, (readMutationSource_run _ _ _ _ _ Hres Hi). done.
Qed.

(** A mutation is applied once per idempotency key.  After a successful
    attempt whose idempotency record names its node, every later attempt of
    the same plan on that store succeeds, writes nothing and returns the same
    node with the digest of the record the first attempt stored. *)
Theorem applyMutation_replay e e' plan r st st' st2 receipt :
  StoreInv (tx_kv st) -> plan_ok (tx_kv st) plan ->
  mp_Idempotency plan = Some r -> ir_NodeID r = mp_NodeID plan ->
  readCreateIdempotency plan st = Ok (st, None) ->
  applyMutationAttempt e plan st = Ok (st', receipt) -> tx_kv st2 = tx_kv st' ->
  applyMutationAttempt e' plan st2 =
    Ok (st2, mkReceipt (mp_OrgID plan) (mp_NodeID plan) no_digest (mr_ResultDigest receipt)).
Proof. exact (replay_attempt e e' plan r st st' st2 receipt). Qed.

(** ** Strict validation *)


(** ** The parent edge *)

Definition child_key (o n b : uuid) : key := relationshipKey o n RelChildOf b.

Lemma outgoing_targets o n st st' edges :
  RelInv (tx_kv st) -> readOutgoingSnapshots o n RelChildOf st = Ok (st', edges) ->
  Forall (fun e => rel_RelationType (rs_Relationship e) = RelChildOf) edges /\
  forall b, b ∈ (fun e => rel_TargetID (rs_Relationship e)) <$> edges <-> is_Some (fget (tx_kv st) (child_key o n b)).
Proof.
  intros HI (s1 & items & [-> ->]%tr_range_ok & [-> E]%lift_ok)%tx_bind_ok. apply res_mapM_ok in E.
  assert (forall it e, it ∈ frange (tx_kv st) (relationshipPrefixBySource o n RelChildOf) ->
    decodeRelationshipSnapshot it.2 = Ok e ->
    rel_RelationType (rs_Relationship e) = RelChildOf /\ it.1 = child_key o n (rel_TargetID (rs_Relationship e))) as Hdec.
  { intros [k v] e [Hp Hv]%frange_spec He. unfold relationshipPrefixBySource in Hp. simpl in Hp, He.
    assert (family k = "relationship") as Hk by (by destruct Hp as [l ->]).
    destruct (rel_forward _ HI _ _ Hk Hv) as (r & -> & -> & _). injection He as <-. simpl.
    change [TStr "relationship"; id_elem o; id_elem n; TStr RelChildOf] with (relationshipPrefixBySource o n RelChildOf) in Hp.
    unfold rel_key in Hp. apply relationshipPrefix_spec in Hp as (Ho & Hn & [?|Ht]); [done|].
    unfold rel_key, child_key. by rewrite <-Ho, <-Hn, <-Ht. }
  split.
  - apply Forall_forall. intros e (i & He)%list_elem_of_lookup.
    destruct (Forall2_lookup_r _ _ _ _ _ E He) as (it & Hit & Hok).
    eapply Hdec; [by eapply list_elem_of_lookup_2|exact Hok].
  - intros b. rewrite list_elem_of_fmap. split.
    + intros (e & -> & (i & He)%list_elem_of_lookup). destruct (Forall2_lookup_r _ _ _ _ _ E He) as (it & Hit & Hok).
      apply list_elem_of_lookup_2 in Hit. destruct (Hdec _ _ Hit Hok) as [_ Hk]. destruct it as [k v]. simpl in Hk. subst k.
      apply frange_spec in Hit as [_ ->]. eauto.
    + intros [v Hv]. assert ((child_key o n b, v) ∈ frange (tx_kv st) (relationshipPrefixBySource o n RelChildOf)) as Hin.
      { apply frange_spec. split; [|done]. apply relationshipPrefix_spec. auto. }
      pose proof Hin as Hin'. apply list_elem_of_lookup in Hin as (i & Hi). destruct (Forall2_lookup_l _ _ _ _ _ E Hi) as (e & He & Hok).
      exists e. split; [|by eapply list_elem_of_lookup_2]. destruct (Hdec _ _ Hin' Hok) as [_ Hk]. simpl in Hk.
      unfold child_key, relationshipKey in Hk. by key_inv.
Qed.

Lemma removedEdges_keys plan t edges removed b :
  Forall (fun e => rel_RelationType (rs_Relationship e) = RelChildOf) edges -> removedEdges plan t edges = Ok removed ->
  child_key (mp_OrgID plan) (mp_NodeID plan) b ∈ rel_key <$> removed <->
  b <> t /\ b ∈ (fun e => rel_TargetID (rs_Relationship e)) <$> edges.
Proof.
  intros Hall. revert removed. induction Hall as [|e edges He _ IH]; intros removed E; simpl in E.
  { injection E as <-. csimpl. rewrite !elem_of_nil. naive_solver. }
  csimpl. rewrite elem_of_cons. case_decide as Ht.
  - rewrite IH by done. naive_solver.
  - destruct (expectsRelationship _ _); simpl in E; [|done].
    destruct (removedEdges plan t edges) as [rest|] eqn:Er; simpl in E; [|done]. injection E as <-. csimpl.
    rewrite elem_of_cons, (IH rest) by done. unfold rel_key, child_key. simpl. rewrite He.
    split; [|naive_solver]. intros [Hk|?]; [|naive_solver]. unfold relationshipKey in Hk. key_inv. naive_solver.
Qed.

(** The parent edges after the parent change of a plan. *)
Lemma childOfChanges_edges plan source n st st' result changes t :
  RelInv (tx_kv st) -> mp_Parent plan = Some t ->
  (ms_Exists source = false -> forall b, fget (tx_kv st) (child_key (mp_OrgID plan) (mp_NodeID plan) b) = None) ->
  childOfChanges plan source n st = Ok (st', (result, changes)) ->
  forall b, (is_Some (fget (tx_kv st) (child_key (mp_OrgID plan) (mp_NodeID plan) b)) /\
             child_key (mp_OrgID plan) (mp_NodeID plan) b ∉ rel_key <$> rc_Remove changes) \/
            child_key (mp_OrgID plan) (mp_NodeID plan) b ∈ rel_key <$> rc_Add changes <-> b = t.
Proof.
  intros HI Hp Hno E b. unfold childOfChanges in E. rewrite Hp in E. cbv zeta in E.
  apply tx_bind_ok in E as (s1 & edges & Ee & E).
  apply tx_bind_ok in E as (s2 & removed & [-> Er]%lift_ok & [-> [= -> ->]]%tx_ret_ok). simpl.
  assert (Forall (fun e => rel_RelationType (rs_Relationship e) = RelChildOf) edges /\
    forall b, b ∈ (fun e => rel_TargetID (rs_Relationship e)) <$> edges <->
      is_Some (fget (tx_kv st) (child_key (mp_OrgID plan) (mp_NodeID plan) b))) as [Hty Hin].
  { destruct (ms_Exists source); [by eapply outgoing_targets|]. apply tx_ret_ok in Ee as [_ ->]. split; [constructor|].
    intros b'. csimpl. rewrite Hno by done. split; [by intros ?%elem_of_nil|by intros [? ?]]. }
  rewrite (removedEdges_keys _ _ _ _ b Hty Er), <-Hin.
  assert (existsb (fun e => bool_decide (rel_TargetID (rs_Relationship e) = t)) edges = true <->
    t ∈ (fun e => rel_TargetID (rs_Relationship e)) <$> edges) as Hkept.
  { rewrite existsb_exists, list_elem_of_fmap. setoid_rewrite <-list_elem_of_In. setoid_rewrite bool_decide_eq_true.
    naive_solver. }
  destruct (existsb _ edges) eqn:Ek; csimpl.
  - rewrite elem_of_nil. destruct (decide (b = t)) as [->|]; [|tauto]. tauto.
  - rewrite list_elem_of_singleton. unfold rel_key. simpl. split.
    + intros [[Hb Hnr]|Hk].
      * destruct (decide (b = t)) as [|Hne]; [done|]. tauto.
      * unfold child_key, relationshipKey in Hk. by key_inv.
    + intros ->. by right.
Qed.

Lemma applyRelationshipChanges_one e c st st' u k :
  applyRelationshipChanges e [c] st = Ok (st', u) -> RelInv (tx_kv st) -> family k = "relationship" ->
  RelInv (tx_kv st') /\
  (is_Some (fget (tx_kv st') k) <->
   (is_Some (fget (tx_kv st) k) /\ k ∉ rel_key <$> rc_Remove c) \/ k ∈ rel_key <$> rc_Add c).
Proof.
  unfold applyRelationshipChanges. cbn [forM].
  intros (s1 & [] & (s2 & [] & Er & Ea)%tx_bind_ok & [-> _]%tx_ret_ok)%tx_bind_ok HI Hk.
  destruct (removeRelationships_spec _ _ _ _ _ Er HI) as (HI1 & _ & H1).
  destruct (addRelationships_spec _ _ _ _ _ Ea HI1) as (HI2 & _ & H2).
  split; [done|]. rewrite H2, H1 by done. case_decide; split; [intros [[? ?]|?]|intros [[? ?]|?]|intros [?|?]|intros [[? ?]|?]]; auto; done.
Qed.

(** A change set without parent relations keeps the parent edges. *)
Lemma no_child_of_keys plan s e source result changes o n b :
  prepared s e plan source result changes ->
  child_key o n b ∉ rel_key <$> rc_Remove (planRelationshipChanges plan) /\
  child_key o n b ∉ rel_key <$> rc_Add (planRelationshipChanges plan).
Proof.
  intros P. pose proof (pr_nochildof _ _ _ _ _ _ P) as Hn. simpl. split.
  - intros (r & Hk & Hr)%list_elem_of_fmap. apply (Hn r); [apply elem_of_app; by right|].
    unfold child_key, rel_key, relationshipKey in Hk. by key_inv.
  - intros (r' & Hk & (r & -> & Hr)%list_elem_of_fmap)%list_elem_of_fmap. apply (Hn r); [apply elem_of_app; by left|].
    unfold child_key, rel_key, relationshipKey in Hk. simpl in Hk. by key_inv.
Qed.

(** A plan with a parent leaves exactly one parent edge.  After a
    successful attempt whose plan names a parent, the node's [child_of]
    edges lead to that parent and nowhere else, provided a node that did not
    exist had no such edges. *)
Theorem applyMutation_one_parent e plan t st st' receipt :
  StoreInv (tx_kv st) -> mp_Parent plan = Some t ->
  (lookup_node (tx_kv st) (mp_OrgID plan) (mp_NodeID plan) = None ->
   forall b, fget (tx_kv st) (child_key (mp_OrgID plan) (mp_NodeID plan) b) = None) ->
  readCreateIdempotency plan st = Ok (st, None) ->
  applyMutationAttempt e plan st = Ok (st', receipt) ->
  forall b, is_Some (fget (tx_kv st') (child_key (mp_OrgID plan) (mp_NodeID plan) b)) <-> b = t.
Proof.
  intros HI Hp Hno Hid [[Hx _]|(_ & source & schema & result & changes & P & _ & E)]%applyMutationAttempt_ok b; [congruence|].
  apply commitMutation_ok in E as (s1 & s2 & enc & F & _ & _ & Er & Ew & _).
  apply record_ok in Er as (Hkv & _ & _). simpl in Hkv. unfold writeRest in Ew.
  apply tx_bind_ok in Ew as (t1 & [] & E1 & Ew). apply tx_bind_ok in Ew as (t2 & [] & E2 & Ew).
  apply tx_bind_ok in Ew as (t3 & [] & E3 & Ew). apply tx_bind_ok in Ew as (t4 & [] & E4 & E5).
  assert (forall k, family k ∈ relationship_families -> fget (tx_kv t2) k = fget (tx_kv st) k) as Hpre.
  { intros k Hk. rewrite (proj1 (touches_writeReferences _ _ _ _ _ E2)), (proj1 (touches_reconcilePropertyIndexes _ _ _ _ _ _ E1));
      [|eapply families_disjoint; [|exact Hk]; done..].
    rewrite Hkv. unfold write_records. rewrite !fget_set, !decide_False by (intros <-; simpl in Hk; set_solver).
    apply F. eapply families_disjoint; [|exact Hk]; done. }
  rewrite (proj1 (touches_scheduleMutation _ _ _ _ _ _ _ _ _ E5)), (proj1 (touches_writeCreateIdempotencyRecord _ _ _ _ E4))
    by (simpl; set_solver).
  assert (RelInv (tx_kv t2)) as HR by (eapply RelInv_depends; [exact Hpre|apply HI]).
  set (k := child_key (mp_OrgID plan) (mp_NodeID plan) b).
  apply tx_bind_ok in E3 as (u1 & [] & Ea & Eb).
  destruct (applyRelationshipChanges_one e (planRelationshipChanges plan) t2 u1 tt k) as [HR1 Hk1]; [|done|done|].
  { unfold applyRelationshipChanges. cbn [forM]. apply tx_bind_ok. exists u1, tt. split; [exact Ea|done]. }
  destruct (applyRelationshipChanges_one e changes u1 t3 tt k) as [_ Hk2]; [exact Eb|done|done|].
  destruct (no_child_of_keys _ _ _ _ _ _ (mp_OrgID plan) (mp_NodeID plan) b P) as [Hr Ha]. fold k in Hr, Ha.
  rewrite Hk2, Hk1, Hpre by (simpl; set_solver).
  destruct (pr_changes _ _ _ _ _ _ P) as (st0 & Hst0 & Ec).
  assert (RelInv (tx_kv st0)) as HR0 by (rewrite Hst0; apply HI).
  pose proof (childOfChanges_edges plan source (mutationResult plan source (e_now e)) st0 st0 result changes t HR0 Hp) as Hedges. rewrite Hst0 in Hedges.
  rewrite <-(Hedges ltac:(intros Hx; apply Hno; by destruct (pr_source _ _ _ _ _ _ P) as [[_ ?]|(? & -> & _)]) Ec b).
  fold k. tauto.
Qed.

End spec.
