(* ===== verification/NodeDelete.v ===== *)
(** * Deleting nodes

    One-node deletion (node_delete.go, node_mutation_delete.go,
    node_mutation_delete_reference.go), the subtree delete job
    (node_delete_job.go, node_delete_step.go, node_delete_top.go,
    node_delete_move.go, node_delete_hierarchy.go, node_delete_edges.go) and
    the relationship store with its parent guard (relationship.go,
    relationship_parent_guard.go). *)

From S2P Require Import Prelude GoJson Sha256 Bytes Domain Concrete Schema Store Tx Keys Records Schedule Fence MutationRead Mutation MutationSpec.

Record DeletionPlan := mkDeletionPlan {
  dp_OrgID : uuid;
  dp_NodeID : uuid;
  dp_ActorID : uuid;
  dp_Source : SourceExpectation;
  dp_Graph : GraphExpectation;
  dp_Checkpoint : option CheckpointWrite;
}.

Record hierarchyNode := mkHierarchyNode {
  hn_ID : uuid;
  hn_TypeKey : string;
  hn_Kind : option NodeType;
  hn_Found : bool;
}.

Record SubtreeDeleteProgress := mkDeleteProgress {
  sp_Deleted : Z;
  sp_Moved : Z;
  sp_Done : bool;
}.

Definition parentGuardEdgeLimit : nat := 2.

Definition missing_node (id : uuid) : hierarchyNode := mkHierarchyNode id EmptyString None false.

Abbreviation type_cache := (gmap string (option NodeType)) (only parsing).

Section delete.
Context `{FDB : Fdb} `{GL : GoLib} `{HS : Encoder}.

(** ** Clearing one node *)

(** The relation type and other end in a relationship key; a key that does
    not decode is skipped. *)
Definition edge_of_key (k : key) : option (string * uuid) :=
  match k with
  | _ :: _ :: _ :: t :: e :: _ =>
      match elem_id e with Some id => Some (default EmptyString (elem_text t), id) | None => None end
  | _ => None
  end.

Definition clearSourceEdge (e : env) (orgID nodeID : uuid) (item : key * value) : tx unit :=
  match edge_of_key item.1 with
  | Some (relationType, targetID) =>
      _ ← tr_clear (relationshipReverseKey orgID targetID relationType nodeID);
      record e (relationshipTarget nodeID relationType targetID) (Some item.2) None
  | None => mret tt
  end.

Definition clearSourceRelationships (e : env) (orgID nodeID : uuid) : tx (list uuid) :=
  let prefix := relationshipPrefixBySource orgID nodeID EmptyString in
  items ← tr_range prefix;
  _ ← forM items (clearSourceEdge e orgID nodeID);
  _ ← tr_clear_range prefix;
  mret (omap (fun item => snd <$> edge_of_key item.1) items).

Definition incomingRelationship (orgID nodeID : uuid) (item : key * value) : option Relationship :=
  match edge_of_key item.1 with
  | Some (relationType, sourceID) => Some (mkRelationship orgID sourceID relationType nodeID uuid_nil 0 ∅)
  | None => None
  end.

Definition clearTargetRelationships (e : env) (orgID nodeID : uuid) : tx (list uuid) :=
  let prefix := relationshipReversePrefixByTarget orgID nodeID EmptyString in
  items ← tr_range prefix;
  let incoming := omap (incomingRelationship orgID nodeID) items in
  _ ← removeRelationships e incoming;
  _ ← tr_clear_range prefix;
  mret (rel_SourceID <$> incoming).

Definition clearPropertyIndexes (current : Node) : tx unit :=
  forM (map_to_list (n_Props current)) (fun nv =>
    tr_clear (nodeByPropertyKey (n_OrgID current) (n_NodeType current) nv.1 (encodePropertyValue nv.2) (n_ID current))).

(** The records of a node with its change, and its scheduled deletion. *)
Definition clearNodeRecords (e : env) (current : Node) : tx (option searchWorkRecord) :=
  let orgID := n_OrgID current in
  let nodeID := n_ID current in
  encoded ← tr_get (nodeInstanceKey orgID (n_NodeType current) nodeID);
  _ ← record e (nodeTarget current) encoded None;
  deletion ← (if e_searchWork e
              then w ← scheduleSearchChange (e_scheduled e) orgID nodeID searchChangeDeletion; mret (Some w)
              else mret None);
  _ ← tr_clear (nodeInstanceKey orgID (n_NodeType current) nodeID);
  _ ← tr_clear (nodeViewKey orgID (n_NodeType current) nodeID);
  _ ← tr_clear (nodeResolveKey nodeID);
  mret deletion.

Definition clearNode (e : env) (current : Node) : tx unit :=
  let orgID := n_OrgID current in
  let nodeID := n_ID current in
  deletion ← clearNodeRecords e current;
  sources ← clearSourceRelationships e orgID nodeID;
  targets ← clearTargetRelationships e orgID nodeID;
  _ ← match deletion with Some w => scheduleDeletedFanout w (sources ++ targets) | None => mret tt end;
  _ ← clearPropertyIndexes current;
  clearReferenceKeys orgID nodeID.

(** ** Hierarchy reads *)

Fixpoint readHierarchyNodes (orgID : uuid) (nodeIDs : list uuid) (kinds : type_cache) : tx (list hierarchyNode * type_cache) :=
  match nodeIDs with
  | [] => mret ([], kinds)
  | nodeID :: rest =>
      encoded ← tr_get_bytes (nodeResolveKey nodeID);
      '(n, kinds) ← match encoded with
                    | None => mret (missing_node nodeID, kinds)
                    | Some (VResolve resolved) =>
                        if decide (nr_OrgID resolved = orgID) then
                          '(kind, kinds') ← cachedNodeTypeByKey orgID (nr_NodeType resolved) kinds;
                          mret (mkHierarchyNode nodeID (nr_NodeType resolved) kind true, kinds')
                        else mret (missing_node nodeID, kinds)
                    | Some _ => fail ErrDecode
                    end;
      '(ns, kinds) ← readHierarchyNodes orgID rest kinds;
      mret (n :: ns, kinds)
  end.

(** The resolution of one node. *)
Definition readHierarchyNode (orgID nodeID : uuid) (kinds : type_cache) : tx (hierarchyNode * type_cache) :=
  '(nodes, kinds) ← readHierarchyNodes orgID [nodeID] kinds;
  mret (default (missing_node nodeID) (head nodes), kinds).

Definition hasHierarchyParent (orgID : uuid) (source : hierarchyNode) (parentID : uuid) : tx bool :=
  edges ← readDeleteEdges orgID (hn_ID source) RelChildOf false;
  found ← lift (HierarchyParent (hn_Kind source) (de_TargetID <$> edges));
  mret (bool_decide (found = parentID)).

(** ** Deletion of one node *)

Fixpoint refuseChildren (orgID nodeID : uuid) (sources : list hierarchyNode) : tx unit :=
  match sources with
  | [] => mret tt
  | source :: rest =>
      if hn_Found source then
        isChild ← hasHierarchyParent orgID source nodeID;
        _ ← ensure (negb isChild) ErrFailedPrecondition;
        refuseChildren orgID nodeID rest
      else refuseChildren orgID nodeID rest
  end.

Definition refuseHierarchyChild (plan : DeletionPlan) (incoming : list RelationshipSnapshot) : tx unit :=
  let sourceIDs := rel_SourceID <$> filter (fun r => rel_RelationType r = RelChildOf) (rs_Relationship <$> incoming) in
  '(sources, _) ← readHierarchyNodes (dp_OrgID plan) sourceIDs ∅;
  refuseChildren (dp_OrgID plan) (dp_NodeID plan) sources.

Definition referencing_definition (source : mutationSource) (d : PropertyDef) : bool :=
  bool_decide (pd_Type d = PropertyTypeUUID) && pd_Indexed d && bool_decide (pd_ReferenceTargetTypeKey d = ms_TypeKey source).

Definition refuseReferencedNode (orgID : uuid) (source : mutationSource) : tx unit :=
  definitions ← readDefinitions orgID;
  kinds ← readTypes orgID;
  let v := encodePropertyValue (quote_plain (uuid_string (n_ID (ms_Node source)))) in
  forM (filter (fun d => referencing_definition source d = true) definitions) (fun d =>
    forM (filter (fun kind => PropertyAppliesTo d kind = true) kinds) (fun kind =>
      entries ← tr_range (nodeByPropertyValuePrefix orgID (nt_TypeKey kind) (pd_Name d) v);
      ensure (bool_decide (length (take 1 entries) = 0)) ErrFailedPrecondition)).

Definition outgoingMatches (expected : list RelationshipExpectation) (stored : list RelationshipSnapshot) : bool :=
  bool_decide (length expected = length stored) && forallb (expectsRelationship expected) stored.

Definition incomingMatches (expected : list IncomingRelationshipExpectation) (stored : list RelationshipSnapshot) : bool :=
  bool_decide (length expected = length stored) &&
  forallb (fun edge => existsb (fun candidate =>
    bool_decide (ie_SourceID candidate = rel_SourceID (rs_Relationship edge)) &&
    bool_decide (ie_RelationType candidate = rel_RelationType (rs_Relationship edge)) &&
    bool_decide (ie_Digest candidate = rs_Digest edge)) expected) stored.

(** The checks of a deletion. *)
Definition prepareDeletion (plan : DeletionPlan) : tx mutationSource :=
  _ ← ensure (negb (se_Absent (dp_Source plan))) ErrInvalidArgument;
  source ← readMutationSource (dp_OrgID plan) (dp_NodeID plan);
  _ ← lift (checkSource (dp_Source plan) source);
  _ ← checkGraphRecords (dp_OrgID plan) (ge_Records (dp_Graph plan));
  outgoing ← readOutgoingSnapshots (dp_OrgID plan) (dp_NodeID plan) EmptyString;
  '(incoming, overflow) ← readIncomingSnapshots (dp_OrgID plan) (dp_NodeID plan);
  _ ← ensure (negb (overflow || bool_decide (MutationEdgeLimit < length outgoing))) ErrFailedPrecondition;
  _ ← refuseHierarchyChild plan incoming;
  _ ← refuseReferencedNode (dp_OrgID plan) source;
  _ ← ensure (outgoingMatches (ge_Relationships (dp_Graph plan)) outgoing &&
              incomingMatches (ge_Incoming (dp_Graph plan)) incoming) ErrConflict;
  mret source.

Definition deleteNodeAttempt (e : env) (plan : DeletionPlan) : tx MutationReceipt :=
  source ← prepareDeletion plan;
  _ ← fenceAttempt e (dp_OrgID plan) (dp_NodeID plan);
  _ ← advanceMutationCheckpoint (dp_Checkpoint plan) None;
  _ ← clearNode e (ms_Node source);
  mret (mkReceipt (dp_OrgID plan) (dp_NodeID plan) (PrimaryDigest (ms_Encoding source)) no_digest).

(** ** The subtree delete job *)

Definition Finished (job : SubtreeDeleteJob) : bool := negb (bool_decide (j_FinishedAt job = 0%Z)).

Definition with_stack (job : SubtreeDeleteJob) (stack : list uuid) : SubtreeDeleteJob :=
  mkJob (j_ID job) (j_OrgID job) (j_RootID job) (j_RootParentID job) (j_ActorID job) stack
    (j_Deleted job) (j_Moved job) (j_UpdatedAt job) (j_FinishedAt job).
Definition with_counts (job : SubtreeDeleteJob) (deleted moved : Z) : SubtreeDeleteJob :=
  mkJob (j_ID job) (j_OrgID job) (j_RootID job) (j_RootParentID job) (j_ActorID job) (j_Stack job)
    deleted moved (j_UpdatedAt job) (j_FinishedAt job).
Definition with_root_parent (job : SubtreeDeleteJob) (parentID : uuid) : SubtreeDeleteJob :=
  mkJob (j_ID job) (j_OrgID job) (j_RootID job) parentID (j_ActorID job) (j_Stack job)
    (j_Deleted job) (j_Moved job) (j_UpdatedAt job) (j_FinishedAt job).
Definition with_times (job : SubtreeDeleteJob) (updated finished : gotime) : SubtreeDeleteJob :=
  mkJob (j_ID job) (j_OrgID job) (j_RootID job) (j_RootParentID job) (j_ActorID job) (j_Stack job)
    (j_Deleted job) (j_Moved job) updated finished.

Definition readDeleteJob (jobID : uuid) : tx (option SubtreeDeleteJob) :=
  encoded ← tr_get_bytes (nodeDeleteJobKey jobID);
  lift (match encoded with None => Ok None | Some (VJob job) => Ok (Some job) | Some _ => Err ErrDecode end).

Definition writeDeleteJob (job : SubtreeDeleteJob) (now : gotime) : tx unit :=
  tr_set (nodeDeleteJobKey (j_ID job)) (VJob (with_times job now (j_FinishedAt job))).

Definition readRootParent (orgID rootID : uuid) : tx uuid :=
  edges ← readDeleteEdges orgID rootID RelChildOf false;
  if bool_decide (length edges = 0) || bool_decide (maxDeleteEdgePage < length edges) then mret uuid_nil
  else
    parentID ← lift (HierarchyParent None (de_TargetID <$> edges));
    '(parent, _) ← readHierarchyNode orgID parentID ∅;
    mret (if hn_Found parent then parentID else uuid_nil).

Definition StartSubtreeDelete (e : env) (job : SubtreeDeleteJob) : tx SubtreeDeleteJob :=
  let job := with_times (with_counts (with_stack job [j_RootID job]) 0 0) (j_UpdatedAt job) 0 in
  parentID ← readRootParent (j_OrgID job) (j_RootID job);
  let job := with_root_parent job parentID in
  _ ← writeDeleteJob job (e_scheduled e);
  mret (with_times job (e_scheduled e) 0).

Definition ClearSubtreeDelete (jobID : uuid) : tx unit :=
  job ← readDeleteJob jobID;
  match job with
  | Some job => if Finished job then tr_clear (nodeDeleteJobKey jobID) else mret tt
  | None => mret tt
  end.

Definition edge_relationship (orgID : uuid) (edge : deleteEdge) : Relationship :=
  mkRelationship orgID (de_SourceID edge) (de_RelationType edge) (de_TargetID edge) uuid_nil 0 ∅.

Definition clearDeleteEdges (e : env) (orgID : uuid) (edges : list deleteEdge) : tx unit :=
  let removed := edge_relationship orgID <$> edges in
  _ ← removeRelationships e removed;
  if negb (e_searchWork e) || bool_decide (length removed = 0) then mret tt
  else scheduleRelatedSearchWork (e_scheduled e) [mkRelChanges [] removed].

Definition readNodeAndView (orgID : uuid) (target : hierarchyNode) : tx (option (Node * option NodeView)) :=
  encodedNode ← tr_get_bytes (nodeInstanceKey orgID (hn_TypeKey target) (hn_ID target));
  encodedView ← tr_get_bytes (nodeViewKey orgID (hn_TypeKey target) (hn_ID target));
  match encodedNode with
  | None => mret None
  | Some (VNode current) =>
      match encodedView with
      | None => mret (Some (current, None))
      | Some (VView view) => mret (Some (current, Some view))
      | Some _ => fail ErrDecode
      end
  | Some _ => fail ErrDecode
  end.

Definition moveParentIndexEntry (current : Node) (oldValue : option raw) : tx unit :=
  match oldValue with
  | None | Some EmptyString => mret tt
  | Some oldValue =>
      let entry v := nodeByPropertyKey (n_OrgID current) (n_NodeType current) parentIDName (encodePropertyValue v) (n_ID current) in
      existing ← tr_get (entry oldValue);
      match existing with
      | None => mret tt
      | Some _ =>
          _ ← tr_clear (entry oldValue);
          tr_set (entry (default EmptyString (n_Props current !! parentIDName))) VEmpty
      end
  end.

Definition parentEdgeChanges (job : SubtreeDeleteJob) (childID : uuid) (edges : list deleteEdge) (now : gotime) : list RelationshipChanges :=
  [mkRelChanges
     [mkRelationship (j_OrgID job) childID RelChildOf (j_RootParentID job) (j_ActorID job) now ∅]
     (edge_relationship (j_OrgID job) <$> edges)].

Definition moved_node (job : SubtreeDeleteJob) (current : Node) (now : gotime) : Node :=
  mkNode (n_ID current) (n_OrgID current) (n_NodeType current) (n_Name current)
    (<[parentIDName := quote_plain (uuid_string (j_RootParentID job))]> (n_Props current))
    (n_CreatedBy current) (j_ActorID job) (n_CreatedAt current) now.

Definition moved_view (job : SubtreeDeleteJob) (view : NodeView) (now : gotime) : NodeView :=
  mkView (v_ID view) (v_OrgID view) (v_NodeType view) (v_Name view)
    (<[parentIDName := quote_plain (uuid_string (j_RootParentID job))]> (v_Props view))
    (v_CreatedBy view) (j_ActorID job) (v_CreatedAt view) now.

(** The writes of an accepted move. *)
Definition applyMove (e : env) (job : SubtreeDeleteJob) (child : hierarchyNode) (current : Node) (view : option NodeView)
    (edges : list deleteEdge) : tx unit :=
  strict ← fenceAttempt e (j_OrgID job) (hn_ID child);
  let now := e_now e in
  let moved := moved_node job current now in
  encoded ← writeNodeRecords moved ((fun v => moved_view job v now) <$> view);
  _ ← record e (nodeTarget moved) (Some (VNode current)) (Some (VNode encoded));
  _ ← moveParentIndexEntry moved (n_Props current !! parentIDName);
  let edgeChanges := parentEdgeChanges job (hn_ID child) edges now in
  _ ← applyRelationshipChanges e edgeChanges;
  _ ← checkStrictRecord strict moved;
  if e_searchWork e then
    _ ← scheduleSearchChange now (j_OrgID job) (hn_ID child) searchChangeContent;
    scheduleRelatedSearchWork now edgeChanges
  else mret tt.

Definition moveChild (e : env) (job : SubtreeDeleteJob) (child : hierarchyNode) (kinds : type_cache) : tx bool :=
  if decide (j_RootParentID job = uuid_nil) then mret false
  else
    '(parent, _) ← readHierarchyNode (j_OrgID job) (j_RootParentID job) kinds;
    if negb (hn_Found parent) || negb (LivesUnder (hn_Kind child) (hn_Kind parent)) then mret false
    else
      edges ← readDeleteEdges (j_OrgID job) (hn_ID child) RelChildOf false;
      if decide (maxDeleteEdgePage < length edges) then mret false
      else
        records ← readNodeAndView (j_OrgID job) child;
        match records with
        | None => mret false
        | Some (current, view) => _ ← applyMove e job child current view edges; mret true
        end.

Definition pop (stack : list uuid) : list uuid := take (length stack - 1) stack.

Definition deleteTop (e : env) (job : SubtreeDeleteJob) (top : hierarchyNode) : tx SubtreeDeleteJob :=
  encoded ← tr_get_bytes (nodeInstanceKey (j_OrgID job) (hn_TypeKey top) (hn_ID top));
  current ← lift (match encoded with
                  | None => Ok (mkNode (hn_ID top) (j_OrgID job) (hn_TypeKey top) EmptyString ∅ uuid_nil uuid_nil (j_UpdatedAt job) (j_UpdatedAt job))
                  | Some (VNode n) => Ok n
                  | Some _ => Err ErrDecode
                  end);
  _ ← fenceAttempt e (j_OrgID job) (hn_ID top);
  _ ← clearNode e current;
  mret (with_counts (with_stack job (pop (j_Stack job))) (j_Deleted job + 1) (j_Moved job)).

(** The walk over the examined edges and their resolved sources. *)
Fixpoint findChildLoop (orgID topID : uuid) (stack : list uuid) (edges : list deleteEdge) (sources : list hierarchyNode) (others : list deleteEdge) :
    tx (option hierarchyNode * list deleteEdge) :=
  match edges, sources with
  | edge :: edges', source :: sources' =>
      isChild ← (if bool_decide (de_RelationType edge = RelChildOf) && hn_Found source && negb (bool_decide (hn_ID source ∈ stack))
                 then hasHierarchyParent orgID source topID else mret false);
      if (isChild : bool) then mret (Some source, others)
      else findChildLoop orgID topID stack edges' sources' (others ++ [edge])
  | _, _ => mret (None, others)
  end.

Definition findHierarchyChild (job : SubtreeDeleteJob) (top : hierarchyNode) (edges : list deleteEdge) (kinds : type_cache) :
    tx (option hierarchyNode * list deleteEdge * type_cache) :=
  '(sources, kinds) ← readHierarchyNodes (j_OrgID job) (de_SourceID <$> edges) kinds;
  '(child, others) ← findChildLoop (j_OrgID job) (hn_ID top) (j_Stack job) edges sources [];
  mret (child, others, kinds).

Definition takeChild (e : env) (job : SubtreeDeleteJob) (child : hierarchyNode) (kinds : type_cache) : tx SubtreeDeleteJob :=
  moved ← (if decide (length (j_Stack job) = 1) then moveChild e job child kinds else mret false);
  mret (if (moved : bool) then with_counts job (j_Deleted job) (j_Moved job + 1)
        else with_stack job (j_Stack job ++ [hn_ID child])).

Definition advance (e : env) (job : SubtreeDeleteJob) (topID : uuid) : tx SubtreeDeleteJob :=
  '(top, kinds) ← readHierarchyNode (j_OrgID job) topID ∅;
  if negb (hn_Found top) then mret (with_stack job (pop (j_Stack job)))
  else
    incoming ← readDeleteEdges (j_OrgID job) topID EmptyString true;
    outgoing ← readDeleteEdges (j_OrgID job) topID EmptyString false;
    '(child, others, kinds) ← findHierarchyChild job top (take maxDeleteEdgePage incoming) kinds;
    match child with
    | Some child =>
        job' ← takeChild e job child kinds;
        _ ← clearDeleteEdges e (j_OrgID job) others;
        mret job'
    | None =>
        if bool_decide (maxDeleteEdgePage < length incoming) || bool_decide (maxDeleteEdgePage < length outgoing) then
          _ ← clearDeleteEdges e (j_OrgID job) (others ++ take maxDeleteEdgePage outgoing);
          mret job
        else deleteTop e job top
    end.

(** [jobOperation] is the operation ID of the audit operation stored in the
    job; it derives the base event ID of every step. *)
Definition step_env (e : env) (operationID jobID : uuid) : env :=
  mkEnv (e_searchWork e) (e_writeFence e) (e_now e) (e_scheduled e) (uuid_sha1 operationID ("job:" +:+ uuid_string jobID)).

Definition DeleteSubtreeStep (jobOperation : SubtreeDeleteJob -> res uuid) (e : env) (jobID : uuid) : tx SubtreeDeleteProgress :=
  stored ← readDeleteJob jobID;
  match stored with
  | None => mret (mkDeleteProgress 0 0 true)
  | Some job =>
      if Finished job then mret (mkDeleteProgress (j_Deleted job) (j_Moved job) true)
      else
        operationID ← lift (jobOperation job);
        job' ← match last (j_Stack job) with
               | Some topID => advance (step_env e operationID (j_ID job)) job topID
               | None => mret job
               end;
        let done := bool_decide (length (j_Stack job') = 0) in
        let finished := if done then with_times job' (j_UpdatedAt job') (e_scheduled e) else job' in
        _ ← writeDeleteJob finished (e_scheduled e);
        mret (mkDeleteProgress (j_Deleted job') (j_Moved job') done)
  end.

(** ** The relationship store *)

Definition parentIDValue (r : option raw) : res uuid :=
  match r with
  | None | Some EmptyString => Ok uuid_nil
  | Some r =>
      match unmarshal_string r with
      | None => Err ErrFailedPrecondition
      | Some text => match uuid_parse text with Some id => Ok id | None => Err ErrFailedPrecondition end
      end
  end.

Definition storedParentID (orgID : uuid) (source : hierarchyNode) : tx uuid :=
  if negb (hn_Found source) then mret uuid_nil
  else
    records ← readNodeAndView orgID source;
    match records with
    | None => mret uuid_nil
    | Some (current, _) => lift (parentIDValue (n_Props current !! parentIDName))
    end.

Definition otherParentTarget (orgID sourceID : uuid) (removedKey : key) : tx (option uuid) :=
  items ← tr_range (relationshipPrefixBySource orgID sourceID RelChildOf);
  match filter (fun item => item.1 <> removedKey) (take parentGuardEdgeLimit items) with
  | [] => mret None
  | item :: _ => targetID ← lift (edgeEnd item.1); mret (Some targetID)
  end.

Definition refuseOnlyParentRemoval (orgID sourceID : uuid) (relationType : string) (targetID : uuid) : tx unit :=
  if decide (relationType = RelChildOf) then
    let removedKey := relationshipKey orgID sourceID relationType targetID in
    existing ← tr_get_bytes removedKey;
    match existing with
    | None => mret tt
    | Some _ =>
        '(source, _) ← readHierarchyNode orgID sourceID ∅;
        canonicalID ← storedParentID orgID source;
        if decide (canonicalID <> uuid_nil /\ canonicalID <> targetID) then mret tt
        else if decide (canonicalID = uuid_nil) then
          other ← otherParentTarget orgID sourceID removedKey;
          ensure (is_ok (HierarchyParent (hn_Kind source) (option_list other))) ErrFailedPrecondition
        else fail ErrFailedPrecondition
    end
  else mret tt.

Definition addRelationshipAttempt (e : env) (rel : Relationship) (memberTarget : bool) : tx unit :=
  strict ← fenceAttempt e (rel_OrgID rel) (rel_SourceID rel);
  _ ← checkStrictRelationship strict rel memberTarget;
  _ ← addRelationships e [rel];
  if e_searchWork e then scheduleRelatedSearchWork (e_scheduled e) [mkRelChanges [rel] []] else mret tt.

Definition removeRelationshipAttempt (e : env) (orgID sourceID : uuid) (relationType : string) (targetID : uuid) : tx unit :=
  _ ← refuseOnlyParentRemoval orgID sourceID relationType targetID;
  _ ← fenceAttempt e orgID sourceID;
  let changed := mkRelationship orgID sourceID relationType targetID uuid_nil 0 ∅ in
  _ ← removeRelationships e [changed];
  if e_searchWork e then scheduleRelatedSearchWork (e_scheduled e) [mkRelChanges [] [changed]] else mret tt.

End delete.
