(* ===== verification/DeleteSpec.v ===== *)
(** * What a deletion guarantees

    [clearNode] removes a node, its relationships in both directions, its
    references and its pending search work, and nothing else; it keeps the
    invariants of the store and records every removed record. *)

From S2P Require Import Prelude GoJson Sha256 Bytes Domain Concrete Schema Store Tx Keys Records Schedule Fence MutationRead Mutation MutationSpec NodeDelete.

Section delete_spec.
Context `{FDB : Fdb} `{GL : GoLib} `{HS : Encoder}.

(** ** Node records *)

Definition clear_records (s : kv) (n : Node) : kv :=
  fclear (fclear (fclear s (nodeInstanceKey (n_OrgID n) (n_NodeType n) (n_ID n)))
            (nodeViewKey (n_OrgID n) (n_NodeType n) (n_ID n)))
    (nodeResolveKey (n_ID n)).

Lemma clear_records_resolve s n id :
  fget (clear_records s n) (nodeResolveKey id) = if decide (id = n_ID n) then None else fget s (nodeResolveKey id).
Proof.
  unfold clear_records. rewrite !fget_clear. case_decide as Hk.
  - unfold nodeResolveKey in Hk. key_inv. by rewrite decide_True.
  - rewrite (decide_False (P := nodeViewKey _ _ _ = _)), (decide_False (P := nodeInstanceKey _ _ _ = _)) by done.
    rewrite decide_False; [done|]. by intros ->.
Qed.

Lemma clear_records_other s n k :
  k <> nodeInstanceKey (n_OrgID n) (n_NodeType n) (n_ID n) -> k <> nodeViewKey (n_OrgID n) (n_NodeType n) (n_ID n) ->
  k <> nodeResolveKey (n_ID n) -> fget (clear_records s n) k = fget s k.
Proof. intros H1 H2 H3. unfold clear_records. by rewrite !fget_clear, !decide_False by congruence. Qed.

Lemma clear_records_instance s n o t id :
  NodeInv s -> lookup_node s (n_OrgID n) (n_ID n) = Some n ->
  fget (clear_records s n) (nodeInstanceKey o t id) = if decide (id = n_ID n) then None else fget s (nodeInstanceKey o t id).
Proof.
  intros HI Hl. destruct (NodeInv_lookup _ _ _ _ HI Hl) as (_ & _ & _ & Hr). case_decide as Hd.
  - subst id. unfold clear_records. rewrite !fget_clear, (decide_False (P := nodeResolveKey _ = _)), (decide_False (P := nodeViewKey _ _ _ = _)) by done.
    case_decide as Hk; [done|]. destruct (fget s (nodeInstanceKey o t (n_ID n))) as [v|] eqn:E; [|done].
    apply (ni_instance _ HI) in E. rewrite E in Hr. injection Hr as -> ->. done.
  - apply clear_records_other; [|done..]. intros E. unfold nodeInstanceKey in E. by key_inv.
Qed.

Lemma clear_records_view s n o t id :
  NodeInv s -> lookup_node s (n_OrgID n) (n_ID n) = Some n ->
  fget (clear_records s n) (nodeViewKey o t id) = if decide (id = n_ID n) then None else fget s (nodeViewKey o t id).
Proof.
  intros HI Hl. destruct (NodeInv_lookup _ _ _ _ HI Hl) as (_ & _ & _ & Hr). case_decide as Hd.
  - subst id. unfold clear_records. rewrite !fget_clear, (decide_False (P := nodeResolveKey _ = _)) by done.
    case_decide as Hk; [done|]. rewrite (decide_False (P := nodeInstanceKey _ _ _ = _)) by done.
    destruct (fget s (nodeViewKey o t (n_ID n))) as [v|] eqn:E; [|done].
    apply (ni_view _ HI) in E. rewrite E in Hr. injection Hr as -> ->. done.
  - apply clear_records_other; [done| |done]. intros E. unfold nodeViewKey in E. by key_inv.
Qed.

Lemma clear_records_NodeInv s n :
  NodeInv s -> lookup_node s (n_OrgID n) (n_ID n) = Some n -> NodeInv (clear_records s n).
Proof.
  intros HI Hl. split.
  - intros id v. rewrite clear_records_resolve. case_decide as Hd; [done|]. intros E.
    destruct (ni_resolve _ HI _ _ E) as (m & -> & Hid & Hp & H1 & H2). exists m.
    by rewrite clear_records_instance, clear_records_view, !decide_False.
  - intros o t id v. rewrite clear_records_instance, clear_records_resolve by done. case_decide; [done|]. apply (ni_instance _ HI).
  - intros o t id v. rewrite clear_records_view, clear_records_resolve by done. case_decide; [done|]. apply (ni_view _ HI).
Qed.

Lemma clear_records_lookup s n o id :
  NodeInv s -> lookup_node s (n_OrgID n) (n_ID n) = Some n ->
  lookup_node (clear_records s n) o id = if decide (id = n_ID n) then None else lookup_node s o id.
Proof.
  intros HI Hl. unfold lookup_node at 1. rewrite clear_records_resolve. case_decide as Hd; [done|].
  unfold lookup_node. destruct (fget s (nodeResolveKey id)) as [[]|]; try done. case_decide; [|done].
  by rewrite clear_records_instance, decide_False.
Qed.

(** ** Relationships *)

(** [s'] is [s] without the relationships that touch a node on one side. *)
Definition severed (side : uuid -> uuid -> bool) (orgID : uuid) (s s' : kv) : Prop :=
  forall o a t b, fget s' (relationshipKey o a t b) =
    if decide (o = orgID /\ side a b = true) then None else fget s (relationshipKey o a t b).

Definition from_node (n a b : uuid) : bool := bool_decide (a = n).
Definition to_node (n a b : uuid) : bool := bool_decide (b = n).
Definition touching (n a b : uuid) : bool := from_node n a b || to_node n a b.

Lemma severed_both n o s s1 s2 : severed (from_node n) o s s1 -> severed (to_node n) o s1 s2 -> severed (touching n) o s s2.
Proof.
  intros H1 H2 o' a t b. rewrite H2, H1. unfold touching. repeat case_decide; destruct_and?; try done;
    repeat match goal with H : ~ (_ /\ _) |- _ => apply not_and_l in H end;
    destruct (from_node n a b), (to_node n a b); naive_solver.
Qed.

Lemma outgoing_item s o n k v :
  RelInv s -> (k, v) ∈ frange s (relationshipPrefixBySource o n EmptyString) ->
  exists r, k = rel_key r /\ v = VRel r /\ rel_OrgID r = o /\ rel_SourceID r = n /\ fget s k = Some v.
Proof.
  intros HI [Hp Hv]%frange_spec. assert (family k = "relationship") as Hk by (by destruct Hp as [l ->]).
  destruct (rel_forward _ HI _ _ Hk Hv) as (r & -> & -> & _). exists r.
  apply relationshipPrefix_spec in Hp as (-> & -> & _). done.
Qed.

Lemma edge_of_rel_key r : edge_of_key (rel_key r) = Some (rel_RelationType r, rel_TargetID r).
Proof. simpl. by rewrite uuid_parse_string. Qed.

Lemma edge_of_reverse_key o b t a : edge_of_key (relationshipReverseKey o b t a) = Some (t, a).
Proof. simpl. by rewrite uuid_parse_string. Qed.

Definition rel_item (r : Relationship) : key * value := (rel_key r, VRel r).

Lemma outgoing_items s o n :
  RelInv s -> exists rs, frange s (relationshipPrefixBySource o n EmptyString) = rel_item <$> rs /\
    Forall (fun r => rel_OrgID r = o /\ rel_SourceID r = n) rs.
Proof.
  intros HI.
  assert (Forall (fun it => exists r, it = rel_item r /\ rel_OrgID r = o /\ rel_SourceID r = n)
    (frange s (relationshipPrefixBySource o n EmptyString))) as Hall.
  { apply Forall_forall. intros [k v] Hin. destruct (outgoing_item _ _ _ _ _ HI Hin) as (r & -> & -> & ? & ? & _). by exists r. }
  induction Hall as [|it items (r & -> & Hr) _ (rs & -> & Hrs)]; [by exists []|].
  exists (r :: rs). split; [done|]. by constructor.
Qed.

(** The loop clears the reverse keys and records the removed values. *)
Lemma clearSourceEdge_loop e o n rs st st' u :
  Forall (fun r => rel_OrgID r = o /\ rel_SourceID r = n) rs ->
  forM (rel_item <$> rs) (clearSourceEdge e o n) st = Ok (st', u) ->
  tx_changes st `prefix_of` tx_changes st' /\
  (forall r, r ∈ rs -> exists c, c ∈ tx_changes st' /\ names c (rel_key r)) /\
  (forall k, fget (tx_kv st') k = if decide (k ∈ rel_reverse_key <$> rs) then None else fget (tx_kv st) k).
Proof.
  intros Hall. revert st. induction Hall as [|r rs [Ho Hn] Hall IH]; intros st E; csimpl in E; cbn [forM] in E.
  { apply tx_ret_ok in E as [-> _]. split_and!; [done|by intros r ?%elem_of_nil|].
    intros k. rewrite decide_False; [done|]. csimpl. by intros ?%elem_of_nil. }
  apply tx_bind_ok in E as (s1 & [] & E1 & E2). unfold clearSourceEdge, rel_item in E1. cbn [fst snd] in E1.
  rewrite edge_of_rel_key in E1. apply tx_bind_ok in E1 as (s0 & [] & ->%modify_ok & E1).
  destruct (record_ok _ _ _ _ _ _ _ E1) as (Hkv & Hp & Hc). simpl in Hkv, Hp.
  destruct (IH _ E2) as (Hp2 & Hn2 & Hk2). split_and!; [by etrans| |].
  - intros r' [->|Hin]%elem_of_cons; [|auto].
    destruct Hc as [[? _]|[?|(c & Hin & Ht & _)]]; [done|done|].
    exists c. split; [destruct Hp2 as [l ->]; set_solver|]. rewrite <-Hn in Ht. by apply names_target.
  - intros k. rewrite Hk2, Hkv, fget_clear. csimpl.
    replace (relationshipReverseKey o (rel_TargetID r) (rel_RelationType r) n) with (rel_reverse_key r)
      by (unfold rel_reverse_key; by rewrite Ho, Hn).
    repeat case_decide; set_solver.
Qed.

Lemma reverse_of_forward rs k o a t b :
  Forall (fun r => rel_OrgID r = o /\ rel_SourceID r = a) rs ->
  k = relationshipReverseKey o b t a -> k ∈ rel_reverse_key <$> rs <-> relationshipKey o a t b ∈ rel_key <$> rs.
Proof.
  intros Hall ->. rewrite !list_elem_of_fmap. rewrite Forall_forall in Hall.
  split; intros (r & Hk & Hr); exists r; (split; [|done]); destruct (Hall r Hr) as [Ho Ha];
    unfold rel_key, rel_reverse_key, relationshipKey, relationshipReverseKey in *; key_inv; congruence.
Qed.

(** Clearing the relationships from a node. *)
Lemma clearSourceRelationships_spec e o n st st' ids :
  RelInv (tx_kv st) -> clearSourceRelationships e o n st = Ok (st', ids) ->
  RelInv (tx_kv st') /\ severed (from_node n) o (tx_kv st) (tx_kv st') /\
  tx_changes st `prefix_of` tx_changes st' /\ covered (tx_kv st) st'.
Proof.
  intros HI E. unfold clearSourceRelationships in E. cbv zeta in E.
  apply tx_bind_ok in E as (s1 & items & [-> ->]%tr_range_ok & E).
  destruct (outgoing_items (tx_kv st) o n HI) as (rs & Hrs & Hall). rewrite Hrs in E.
  apply tx_bind_ok in E as (s2 & [] & El & E).
  apply tx_bind_ok in E as (s3 & [] & ->%modify_ok & [-> _]%tx_ret_ok). simpl.
  destruct (clearSourceEdge_loop _ _ _ _ _ _ _ Hall El) as (Hp & Hn & Hk).
  assert (forall o' a t b, relationshipKey o' a t b ∈ rel_key <$> rs <->
    o' = o /\ a = n /\ is_Some (fget (tx_kv st) (relationshipKey o' a t b))) as Hin.
  { intros o' a t b. split.
    - intros (r & Hkey & Hr)%list_elem_of_fmap. rewrite Forall_forall in Hall. destruct (Hall r Hr) as [Ho Ha].
      assert (rel_item r ∈ frange (tx_kv st) (relationshipPrefixBySource o n EmptyString)) as [_ Hv]%frange_spec
        by (rewrite Hrs; by apply list_elem_of_fmap_2).
      rewrite Hkey, Hv. unfold rel_key, relationshipKey in Hkey. key_inv. eauto.
    - intros (-> & -> & [v Hv]). assert ((relationshipKey o n t b, v) ∈ frange (tx_kv st) (relationshipPrefixBySource o n EmptyString)) as Hf.
      { apply frange_spec. split; [|done]. apply relationshipPrefix_spec. auto. }
      rewrite Hrs in Hf. apply list_elem_of_fmap in Hf as (r & Hit & Hr).
      apply (f_equal fst) in Hit. simpl in Hit. rewrite Hit. by apply list_elem_of_fmap_2. }
  assert (severed (from_node n) o (tx_kv st) (fclear_range (tx_kv s2) (relationshipPrefixBySource o n EmptyString))) as Hsev.
  { intros o' a t b. rewrite fget_clear_range, Hk. rewrite (decide_False (P := _ ∈ rel_reverse_key <$> rs)) by
      (by intros (r & Hr & _)%list_elem_of_fmap).
    unfold from_node. case_decide as Hd.
    - apply relationshipPrefix_spec in Hd as (-> & -> & _). rewrite decide_True; [done|]. by rewrite bool_decide_true.
    - rewrite decide_False; [done|]. intros [-> ->%bool_decide_eq_true]. apply Hd, relationshipPrefix_spec. auto. }
  split_and!; [|done|done|].
  - split.
    + intros k v Hf Hv. rewrite fget_clear_range in Hv. case_decide as Hpre; [done|]. rewrite Hk in Hv. case_decide; [done|].
      destruct (rel_forward _ HI _ _ Hf Hv) as (r & -> & -> & Hs). exists r. split_and!; [done..|].
      rewrite fget_clear_range, decide_False, Hk; [|intros [l Hl]; unfold relationshipPrefixBySource in Hl; simpl in Hl; discriminate].
      rewrite decide_False; [done|]. intros (r' & Hr' & Hin')%list_elem_of_fmap. apply rel_key_reverse in Hr'.
      apply Hpre. rewrite Hr'. rewrite Forall_forall in Hall. destruct (Hall r' Hin') as [<- <-].
      unfold rel_key. apply relationshipPrefix_spec. auto.
    + intros k v Hf Hv. rewrite fget_clear_range in Hv. case_decide as Hpre; [done|]. rewrite Hk in Hv. case_decide as Hno; [done|].
      destruct (rel_reverse _ HI _ _ Hf Hv) as (o' & a & t & b & -> & Hs). exists o', a, t, b. split; [done|].
      rewrite Hsev, decide_False; [done|]. intros [-> ->%bool_decide_eq_true]. apply Hno.
      apply (reverse_of_forward rs _ o n t b Hall eq_refl). by apply Hin.
  - intros k Hf. simpl. rewrite fget_clear_range. case_decide as Hpre.
    + destruct (fget (tx_kv st) k) as [v|] eqn:Ev; [|by left]. right.
      assert ((k, v) ∈ rel_item <$> rs) as (r & Hit & Hr)%list_elem_of_fmap by (rewrite <-Hrs; by apply frange_spec).
      apply (f_equal fst) in Hit. simpl in Hit. subst k.
      destruct (Hn r Hr) as (c & Hc & Hnm). eauto.
    + left. rewrite Hk, decide_False; [done|]. intros (r & -> & _)%list_elem_of_fmap.
      revert Hf. simpl. unfold audited_families. set_solver.
Qed.

(** Clearing the relationships to a node. *)
Lemma incoming_keys s o n a t :
  RelInv s -> relationshipKey o a t n ∈ rel_key <$> omap (incomingRelationship o n) (frange s (relationshipReversePrefixByTarget o n EmptyString)) <->
  is_Some (fget s (relationshipKey o a t n)).
Proof.
  intros HI. rewrite list_elem_of_fmap. setoid_rewrite list_elem_of_omap. split.
  - intros (r & Hk & [k v] & Hin & Hr). apply frange_spec in Hin as [Hp Hv].
    assert (family k = "relationship_reverse") as Hf by (by destruct Hp as [l ->]).
    destruct (rel_reverse _ HI _ _ Hf Hv) as (o' & a' & t' & b' & -> & Hs).
    apply relationshipReversePrefix_spec in Hp as (-> & -> & _).
    unfold incomingRelationship in Hr. cbn [fst] in Hr. rewrite edge_of_reverse_key in Hr. injection Hr as <-.
    unfold rel_key in Hk. simpl in Hk. by rewrite Hk.
  - intros Hs. apply rel_symmetric in Hs as [v Hv]; [|done].
    exists (mkRelationship o a t n uuid_nil 0 ∅). split; [done|]. exists (relationshipReverseKey o n t a, v).
    split; [apply frange_spec; split; [apply relationshipReversePrefix_spec; auto|done]|].
    unfold incomingRelationship. cbn [fst]. by rewrite edge_of_reverse_key.
Qed.

Lemma incoming_only s o n r :
  r ∈ omap (incomingRelationship o n) (frange s (relationshipReversePrefixByTarget o n EmptyString)) ->
  rel_OrgID r = o /\ rel_TargetID r = n.
Proof.
  intros ([k v] & _ & Hr)%list_elem_of_omap. unfold incomingRelationship in Hr. destruct (edge_of_key _) as [[t a]|]; [|done].
  by injection Hr as <-.
Qed.

Lemma clearTargetRelationships_spec e o n st st' ids :
  RelInv (tx_kv st) -> clearTargetRelationships e o n st = Ok (st', ids) ->
  RelInv (tx_kv st') /\ severed (to_node n) o (tx_kv st) (tx_kv st') /\
  tx_changes st `prefix_of` tx_changes st' /\ covered (tx_kv st) st'.
Proof.
  intros HI E. unfold clearTargetRelationships in E. cbv zeta in E.
  apply tx_bind_ok in E as (s1 & items & [-> ->]%tr_range_ok & E).
  apply tx_bind_ok in E as (s2 & [] & Er & E).
  apply tx_bind_ok in E as (s3 & [] & ->%modify_ok & [-> _]%tx_ret_ok). simpl.
  destruct (removeRelationships_spec _ _ _ _ _ Er HI) as (HI2 & Hc & Hk).
  destruct (touches_removeRelationships _ _ _ _ _ Er) as [_ Hp].
  assert (severed (to_node n) o (tx_kv st) (tx_kv s2)) as Hsev.
  { intros o' a t b. rewrite Hk by done. unfold to_node. destruct (decide (o' = o /\ b = n)) as [[-> ->]|Hne].
    - rewrite (decide_True (P := o = o /\ _)) by (by rewrite bool_decide_true). case_decide as Hin; [done|].
      rewrite incoming_keys in Hin by done. by apply eq_None_not_Some.
    - rewrite (decide_False (P := o' = o /\ _)) by (intros [-> ->%bool_decide_eq_true]; by apply Hne).
      rewrite decide_False; [done|]. intros (r & Hkey & Hr)%list_elem_of_fmap. destruct (incoming_only _ _ _ _ Hr) as [Ho Hb].
      unfold rel_key, relationshipKey in Hkey. key_inv. by destruct Hne. }
  (* nothing is left under the prefix *)
  assert (keq (fclear_range (tx_kv s2) (relationshipReversePrefixByTarget o n EmptyString)) (tx_kv s2)) as Hq.
  { intros k. rewrite fget_clear_range. case_decide as Hpre; [|done]. symmetry. apply eq_None_not_Some. intros [v Hv].
    assert (family k = "relationship_reverse") as Hf by (by destruct Hpre as [l ->]).
    destruct (rel_reverse _ HI2 _ _ Hf Hv) as (o' & a & t & b & -> & [w Hw]).
    apply relationshipReversePrefix_spec in Hpre as (-> & -> & _). rewrite Hsev, decide_True in Hw; [done|].
    unfold to_node. by rewrite bool_decide_true. }
  split_and!; [eapply RelInv_depends; [|exact HI2]; intros k _; apply Hq| |done|].
  - intros o' a t b. rewrite Hq. apply Hsev.
  - intros k Hf. simpl. rewrite Hq. by apply Hc.
Qed.

(** ** Fan-out *)

Lemma scheduleDeletedFanout_WorkInv w ids st st' u :
  WorkInv (tx_kv st) -> pending (tx_kv st) CAccess (w_OrgID w) (w_NodeID w) = None ->
  scheduleDeletedFanout w ids st = Ok (st', u) -> WorkInv (tx_kv st').
Proof.
  intros HI Hp E. unfold scheduleDeletedFanout in E. cbv zeta in E.
  set (recorded := filter _ ids) in *. apply tx_bind_ok in E as (s1 & [] & E1 & E).
  eapply (framed_touches ["search_fanout"]) in E1; [|touch].
  destruct (framed_WorkInv _ _ _ E1 ltac:(set_solver) ltac:(set_solver) HI) as [HI1 Hp1].
  destruct recorded; [by apply tx_ret_ok in E as [-> _]|].
  apply tx_bind_ok in E as (s2 & [] & E2 & E).
  eapply (framed_touches ["search_permission_event"]) in E2; [|unfold addPermissionEvent; touch].
  destruct (framed_WorkInv _ _ _ E2 ltac:(set_solver) ltac:(set_solver) HI1) as [HI2 Hp2].
  apply tx_bind_ok in E as (s3 & [] & E3%writeSearchWork_new & E).
  apply replaced_put in E3 as [HI3 _]; [|done|by rewrite Hp2, Hp1].
  assert (framed ["search_rollout"; "search_cursor"] (tx_kv s3) (tx_kv st')) as F.
  { eapply framed_touches; [|exact E]. unfold recordRolloutAffected. touch. }
  by destruct (framed_WorkInv _ _ _ F ltac:(set_solver) ltac:(set_solver) HI3).
Qed.

(** ** Clearing a node *)

(** [s'] is [s] without the node. *)
Record removed_node (o n : uuid) (s s' : kv) : Prop := {
  rn_nodes o' id : lookup_node s' o' id = if decide (id = n) then None else lookup_node s o' id;
  rn_resolve : fget s' (nodeResolveKey n) = None;
  rn_relationships : severed (touching n) o s s';
  rn_references o' t e : owner s' o' t e = if decide (o' = o /\ owner s o' t e = Some n) then None else owner s o' t e;
}.

Lemma owner_ext s s' o t e : (forall k, family k ∈ reference_families -> fget s' k = fget s k) -> owner s' o t e = owner s o t e.
Proof. intros Hk. unfold owner. by rewrite Hk by (simpl; set_solver). Qed.

Lemma covered_same_kv s0 st st' : covered s0 st -> tx_kv st' = tx_kv st -> tx_changes st `prefix_of` tx_changes st' -> covered s0 st'.
Proof. intros Hc Hkv Hp. eapply covered_trans; [exact Hc| |done]. intros k _. left. by rewrite Hkv. Qed.

Lemma covered_framed fs s0 st st' :
  covered s0 st -> framed fs (tx_kv st) (tx_kv st') -> (forall g, g ∈ audited_families -> g ∉ fs) ->
  tx_changes st `prefix_of` tx_changes st' -> covered s0 st'.
Proof. intros Hc Hf Hg Hp. eapply covered_trans; [exact Hc| |done]. intros k Hk. left. by apply Hf, Hg. Qed.

(** The phases before the relationships. *)
Lemma clearNodeRecords_spec e n st st3 deletion :
  StoreInv (tx_kv st) -> lookup_node (tx_kv st) (n_OrgID n) (n_ID n) = Some n ->
  clearNodeRecords e n st = Ok (st3, deletion) ->
  covered (tx_kv st) st3 /\ tx_changes st `prefix_of` tx_changes st3 /\
  framed search_families (clear_records (tx_kv st) n) (tx_kv st3) /\ WorkInv (tx_kv st3) /\
  (forall w, deletion = Some w -> w_OrgID w = n_OrgID n /\ w_NodeID w = n_ID n /\
     pending (tx_kv st3) CAccess (n_OrgID n) (n_ID n) = None).
Proof.
  intros HI Hl E.
  assert (fget (tx_kv st) (nodeInstanceKey (n_OrgID n) (n_NodeType n) (n_ID n)) = Some (VNode n)) as Hi.
  { destruct (NodeInv_lookup _ _ _ _ (si_nodes _ HI) Hl) as (_ & _ & _ & Hr). unfold lookup_node in Hl. rewrite Hr in Hl.
    cbn [nr_OrgID nr_NodeType] in Hl. rewrite decide_True in Hl by done. destruct (fget _ _) as [[]|]; congruence. }
  unfold clearNodeRecords in E. cbv zeta in E.
  apply tx_bind_ok in E as (sa & v & [-> ->]%tr_get_ok & E). rewrite Hi in E.
  apply tx_bind_ok in E as (s1 & [] & Er & E). destruct (record_ok _ _ _ _ _ _ _ Er) as (Hkv1 & Hp1 & Hcase).
  apply tx_bind_ok in E as (s2 & d & Es & E).
  apply tx_bind_ok in E as (sb & [] & ->%modify_ok & E). apply tx_bind_ok in E as (sc & [] & ->%modify_ok & E).
  apply tx_bind_ok in E as (sd & [] & ->%modify_ok & [-> ->]%tx_ret_ok). simpl.
  assert (touches search_families (if e_searchWork e
    then w ← scheduleSearchChange (e_scheduled e) (n_OrgID n) (n_ID n) searchChangeDeletion; mret (Some w)
    else mret None)) as Ht by (touch; apply touches_scheduleSearchChange).
  destruct (Ht _ _ _ Es) as [F2 Hp2].
  assert (WorkInv (tx_kv s2) /\ forall w, d = Some w -> w_OrgID w = n_OrgID n /\ w_NodeID w = n_ID n /\
    pending (tx_kv s2) CAccess (n_OrgID n) (n_ID n) = None) as [HW Hd].
  { destruct (e_searchWork e).
    - apply tx_bind_ok in Es as (s2' & w & Es & [-> ->]%tx_ret_ok).
      assert (WorkInv (tx_kv s1)) as HW1 by (rewrite Hkv1; apply HI).
      destruct (scheduleSearchChange_pending _ _ _ _ _ _ _ HW1 Es) as [HW2 Hpend]. split; [done|].
      intros w' [= <-]. destruct (scheduleSearchChange_ok _ _ _ _ _ _ _ HW1 Es) as (z & rev & ? & ? & _ & _ & _ & -> & _).
      split_and!; [done..|]. rewrite Hpend, decide_True by done. done.
    - apply tx_ret_ok in Es as [-> ->]. rewrite Hkv1. split; [apply HI|done]. }
  assert (framed record_families (tx_kv s2) (clear_records (tx_kv s2) n)) as F3.
  { intros k Hk. apply clear_records_other; intros ->; apply Hk; unfold record_families; simpl; set_solver. }
  fold (clear_records (tx_kv s2) n).
  split_and!.
  - intros k Hk. simpl. destruct (decide (k = nodeInstanceKey (n_OrgID n) (n_NodeType n) (n_ID n))) as [->|Hne].
    + right. destruct Hcase as [[? _]|[?|(c & Hc & Htg & _)]]; [done|done|]. exists c. split; [destruct Hp2 as [l ->]; set_solver|].
      apply (names_node _ None). done.
    + left. fold (clear_records (tx_kv s2) n). rewrite clear_records_other, F2, Hkv1;
        [done|eapply families_disjoint; [|exact Hk]; done|done|intros ->; revert Hk; simpl; unfold audited_families; set_solver..].
  - by etrans.
  - intros k Hk. fold (clear_records (tx_kv s2) n). unfold clear_records. rewrite !fget_clear.
    repeat (case_decide; [done|]). by rewrite F2, Hkv1.
  - fold (clear_records (tx_kv s2) n). by destruct (framed_WorkInv _ _ _ F3 ltac:(unfold record_families; set_solver) ltac:(unfold record_families; set_solver) HW).
  - intros w Hw. destruct (Hd _ Hw) as (Ho & Hn & Hpd). split_and!; [done..|]. fold (clear_records (tx_kv s2) n).
    destruct (framed_WorkInv _ _ _ F3 ltac:(unfold record_families; set_solver) ltac:(unfold record_families; set_solver) HW) as [_ ->]. done.
Qed.

Lemma touches_clearSourceRelationships e o n : touches relationship_families (clearSourceRelationships e o n).
Proof.
  unfold clearSourceRelationships, relationshipPrefixBySource. rewrite decide_True by done. unfold clearSourceEdge. touch.
Qed.

Lemma touches_clearTargetRelationships e o n : touches relationship_families (clearTargetRelationships e o n).
Proof.
  unfold clearTargetRelationships, relationshipReversePrefixByTarget. rewrite decide_True by done.
  touch; apply touches_removeRelationships.
Qed.

Lemma touches_fanout (d : option searchWorkRecord) ids :
  touches search_families (match d with Some w => scheduleDeletedFanout w ids | None => mret tt end).
Proof. destruct d; [apply touches_scheduleDeletedFanout|touch]. Qed.

Lemma touches_clearPropertyIndexes n : touches ["node_by_property"] (clearPropertyIndexes n).
Proof. unfold clearPropertyIndexes. touch. Qed.

(** The whole of [clearNode]. *)
Lemma clearNode_spec e n st st' u :
  StoreInv (tx_kv st) -> lookup_node (tx_kv st) (n_OrgID n) (n_ID n) = Some n ->
  clearNode e n st = Ok (st', u) ->
  StoreInv (tx_kv st') /\ removed_node (n_OrgID n) (n_ID n) (tx_kv st) (tx_kv st') /\
  covered (tx_kv st) st' /\ tx_changes st `prefix_of` tx_changes st'.
Proof.
  intros HI Hl E. unfold clearNode in E. cbv zeta in E.
  apply tx_bind_ok in E as (s3 & d & E3 & E).
  destruct (clearNodeRecords_spec _ _ _ _ _ HI Hl E3) as (C3 & P3 & F3 & W3 & D3).
  assert (forall k, family k ∉ search_families -> family k ∉ record_families -> fget (tx_kv s3) k = fget (tx_kv st) k) as K3.
  { intros k Hs Hr. rewrite F3 by done. apply clear_records_other; intros ->; apply Hr; unfold record_families; simpl; set_solver. }
  assert (RelInv (tx_kv s3)) as R3.
  { eapply RelInv_depends; [|apply HI]. intros k Hk. apply K3; eapply families_disjoint; try exact Hk; done. }
  apply tx_bind_ok in E as (s4 & sources & E4 & E).
  destruct (clearSourceRelationships_spec _ _ _ _ _ _ R3 E4) as (R4 & S4 & P4 & C4).
  apply tx_bind_ok in E as (s5 & targets & E5 & E).
  destruct (clearTargetRelationships_spec _ _ _ _ _ _ R4 E5) as (R5 & S5 & P5 & C5).
  pose proof (framed_trans _ _ _ _ _ (proj1 (touches_clearSourceRelationships _ _ _ _ _ _ E4)) (proj1 (touches_clearTargetRelationships _ _ _ _ _ _ E5))) as F5.
  apply tx_bind_ok in E as (s6 & [] & E6 & E). destruct (touches_fanout _ _ _ _ _ E6) as [F6 P6].
  apply tx_bind_ok in E as (s7 & [] & E7 & E8). destruct (touches_clearPropertyIndexes _ _ _ _ E7) as [F7 P7].
  destruct (touches_clearReferenceKeys _ _ _ _ _ E8) as [F8 P8].
  destruct u.
  assert (RefInv (tx_kv s7) /\ forall o t x, owner (tx_kv s7) o t x = owner (tx_kv st) o t x) as [Q7 O7].
  { assert (forall k, family k ∈ reference_families -> fget (tx_kv s7) k = fget (tx_kv st) k) as Hk.
    { intros k Hk. rewrite F7, F6, F5, K3; [done|..]; eapply families_disjoint; try exact Hk; done. }
    split; [eapply RefInv_depends; [exact Hk|apply HI]|]. intros. by apply owner_ext. }
  destruct (clearReferenceKeys_owner _ _ _ _ Q7 E8) as [Q8 O8].
  assert (forall k, family k ∈ record_families -> fget (tx_kv st') k = fget (clear_records (tx_kv st) n) k) as K8.
  { intros k Hk. rewrite F8, F7, F6, F5, F3; [done|..]; eapply families_disjoint; try exact Hk; done. }
  assert (forall k, family k ∈ relationship_families -> fget (tx_kv st') k = fget (tx_kv s5) k) as L8.
  { intros k Hk. rewrite F8, F7, F6; [done|..]; eapply families_disjoint; try exact Hk; done. }
  pose proof (framed_trans _ _ _ _ _ F6 (framed_trans _ _ _ _ _ F7 F8)) as F68.
  split_and!.
  - split; [eapply NodeInv_depends; [exact K8|]; apply clear_records_NodeInv; [apply HI|done]|done|eapply RelInv_depends; [exact L8|done]|].
    assert (WorkInv (tx_kv s5) /\ forall c o x, pending (tx_kv s5) c o x = pending (tx_kv s3) c o x) as [W5 Pd5]
      by (apply (framed_WorkInv _ _ _ F5); [set_solver|set_solver|done]).
    assert (WorkInv (tx_kv s6)) as W6.
    { destruct d as [w|]; [|by apply tx_ret_ok in E6 as [-> _]]. destruct (D3 w eq_refl) as (Ho & Hn & Hp).
      eapply scheduleDeletedFanout_WorkInv; [exact W5| |exact E6]. by rewrite Ho, Hn, Pd5. }
    by destruct (framed_WorkInv _ _ _ (framed_trans _ _ _ _ _ F7 F8) ltac:(set_solver) ltac:(set_solver) W6).
  - split.
    + intros o id. rewrite (lookup_node_ext _ _ _ _ K8). apply clear_records_lookup; [apply HI|done].
    + rewrite K8, clear_records_resolve by (simpl; set_solver). by rewrite decide_True.
    + intros o a t b. rewrite L8 by (simpl; set_solver). rewrite (severed_both _ _ _ _ _ S4 S5). case_decide; [done|].
      apply K3; simpl; unfold search_families, record_families; set_solver.
    + intros o t x. rewrite O8, O7. done.
  - eapply covered_framed; [|exact F68|intros g; by apply families_disjoint|by do 2 (etrans; [done|])].
    eapply covered_trans; [eapply covered_trans; [exact C3|exact C4|done]|exact C5|done].
  - by do 5 (etrans; [done|]).
Qed.

(** ** Operations that keep the store consistent and audited

    [audits StoreInv m]: [m] keeps every invariant, forgets no change and
    records every node and relationship record it changes. *)

Lemma audits_reads {A} I (m : tx A) : reads m -> audits I m.
Proof. intros Hm st st' a ->%Hm HI. split_and!; [done..|]. intros k _. by left. Qed.

Definition store_families : list string :=
  record_families ++ reference_families ++ relationship_families ++ ["search_work"; "search_age"].

Lemma StoreInv_depends : depends store_families StoreInv.
Proof.
  intros s s' Heq HI. unfold store_families in Heq. split.
  - eapply NodeInv_depends; [|apply HI]. intros k Hk. apply Heq. set_solver.
  - eapply RefInv_depends; [|apply HI]. intros k Hk. apply Heq. set_solver.
  - eapply RelInv_depends; [|apply HI]. intros k Hk. apply Heq. set_solver.
  - eapply WorkInv_depends; [|apply HI]. intros k Hk. apply Heq. set_solver.
Qed.

Lemma audits_aside {A} fs (m : tx A) :
  touches fs m -> (forall g, g ∈ store_families ++ audited_families -> g ∉ fs) -> audits StoreInv m.
Proof. intros Hm Hg. eapply audits_touches; [exact Hm|apply StoreInv_depends|exact Hg]. Qed.

Lemma audits_relationships {A} (m : tx A) : touches relationship_families m -> audits RelInv m -> audits StoreInv m.
Proof.
  intros Ht Ha st st' a E HI. destruct (Ha _ _ _ E (si_relationships _ HI)) as (HR & Hp & Hc).
  destruct (Ht _ _ _ E) as [F _]. split_and!; [|done|done]. split; [| |done|].
  - eapply NodeInv_depends; [|apply HI]. intros k Hk. apply F. eapply families_disjoint; [|exact Hk]; done.
  - eapply RefInv_depends; [|apply HI]. intros k Hk. apply F. eapply families_disjoint; [|exact Hk]; done.
  - eapply WorkInv_depends; [|apply HI]. intros k Hk. apply F. eapply families_disjoint; [|exact Hk]; done.
Qed.

Lemma audits_search {A} (m : tx A) : touches search_families m -> preserves WorkInv m -> audits StoreInv m.
Proof.
  intros Ht Hw st st' a E HI. destruct (Ht _ _ _ E) as [F Hp]. split_and!; [|done|].
  - split.
    + eapply NodeInv_depends; [|apply HI]. intros k Hk. apply F. eapply families_disjoint; [|exact Hk]; done.
    + eapply RefInv_depends; [|apply HI]. intros k Hk. apply F. eapply families_disjoint; [|exact Hk]; done.
    + eapply RelInv_depends; [|apply HI]. intros k Hk. apply F. eapply families_disjoint; [|exact Hk]; done.
    + eapply Hw; [exact E|apply HI].
  - intros k Hk. left. apply F. eapply families_disjoint; [|exact Hk]; done.
Qed.

Lemma audits_ret {A} I (a : A) : audits I (mret a : tx A).
Proof. apply audits_reads, reads_ret. Qed.

Lemma audits_fenceAttempt e o n : audits StoreInv (fenceAttempt e o n).
Proof. eapply audits_aside; [apply touches_fenceAttempt|intros g; by apply families_disjoint]. Qed.

Lemma audits_scheduleRelated now l : audits StoreInv (scheduleRelatedSearchWork now l).
Proof. apply audits_search; [apply touches_scheduleRelatedSearchWork|apply preserves_scheduleRelatedSearchWork]. Qed.

Lemma audits_scheduleSearchChange now o n c : audits StoreInv (scheduleSearchChange now o n c).
Proof.
  apply audits_search; [apply touches_scheduleSearchChange|]. intros s s' w E HI. by eapply scheduleSearchChange_pending.
Qed.

Lemma audits_clearDeleteEdges e o edges : audits StoreInv (clearDeleteEdges e o edges).
Proof.
  unfold clearDeleteEdges. apply audits_bind; [|intros _].
  - apply audits_relationships; [apply touches_removeRelationships|apply audits_removeRelationships].
  - destruct (_ || _); [apply audits_ret|apply audits_scheduleRelated].
Qed.

(** ** Deletion of one node *)

Lemma reads_readDeleteEdges o n t i : reads (readDeleteEdges o n t i).
Proof. unfold readDeleteEdges. reads. Qed.

Lemma reads_readIncomingSnapshots o n : reads (readIncomingSnapshots o n).
Proof. unfold readIncomingSnapshots. reads; apply reads_readDeleteEdges. Qed.

Lemma reads_readHierarchyNodes o ids kinds : reads (readHierarchyNodes o ids kinds).
Proof.
  revert kinds. induction ids as [|id ids IH]; intros kinds; cbn [readHierarchyNodes]; [reads|].
  reads; eauto using reads_cachedNodeTypeByKey.
Qed.

Lemma reads_hasHierarchyParent o s p : reads (hasHierarchyParent o s p).
Proof. unfold hasHierarchyParent. reads; apply reads_readDeleteEdges. Qed.

Lemma reads_refuseChildren o n l : reads (refuseChildren o n l).
Proof. induction l as [|s l IH]; cbn [refuseChildren]; [reads|]. reads; apply reads_hasHierarchyParent. Qed.

Lemma reads_prepareDeletion plan : reads (prepareDeletion plan).
Proof.
  unfold prepareDeletion, checkGraphRecords, refuseHierarchyChild, refuseReferencedNode, readDefinitions, readTypes.
  reads; eauto using reads_readMutationSource, reads_checkGraphLoop, reads_readOutgoingSnapshots,
    reads_readIncomingSnapshots, reads_readHierarchyNodes, reads_refuseChildren.
Qed.

(** The source a deletion found, and that it is the expected one. *)
Lemma prepareDeletion_source plan st st' source :
  NodeInv (tx_kv st) -> prepareDeletion plan st = Ok (st', source) ->
  exists n, source = mkSource true (n_NodeType n) (Some (VNode n)) n /\ n_OrgID n = dp_OrgID plan /\ n_ID n = dp_NodeID plan /\
    lookup_node (tx_kv st) (dp_OrgID plan) (dp_NodeID plan) = Some n /\
    digest (VNode n) = se_PrimaryDigest (dp_Source plan).
Proof.
  intros HI E. unfold prepareDeletion in E.
  apply tx_bind_ok in E as (s1 & [] & [-> Ha]%ensure_ok & E).
  apply tx_bind_ok in E as (s2 & src & E2 & E). pose proof (reads_readMutationSource _ _ _ _ _ E2) as ->.
  apply tx_bind_ok in E as (s3 & [] & [-> Hs]%lift_ok & E).
  assert (source = src) as ->.
  { apply tx_bind_ok in E as (? & ? & _ & E). apply tx_bind_ok in E as (? & ? & _ & E).
    apply tx_bind_ok in E as (? & [? ?] & _ & E). apply tx_bind_ok in E as (? & ? & _ & E).
    apply tx_bind_ok in E as (? & ? & _ & E). apply tx_bind_ok in E as (? & ? & _ & E).
    apply tx_bind_ok in E as (? & ? & _ & [_ ->]%tx_ret_ok). done. }
  unfold checkSource, require in Hs. destruct (se_Absent (dp_Source plan)); [done|].
  apply readMutationSource_ok in E2 as (_ & [[-> _]|(t & n & -> & Hl & Hr & Hi)]); [done|]. simpl in Hs.
  destruct (NodeInv_lookup _ _ _ _ HI Hl) as (Ho & Hid & _ & Hr'). rewrite Hr in Hr'. injection Hr' as ->.
  exists n. split_and!; [done..|]. by case_bool_decide.
Qed.

(** C23: A deletion removes one node and nothing else.  A successful
    [deleteNodeAttempt] found the node with the expected digest; afterwards
    the node, its relationships in both directions and its references are
    gone, every other node, relationship and reference is untouched, the
    store is consistent and every removed record is in the audit trail. *)
Theorem deleteNode_removes e plan st st' receipt :
  StoreInv (tx_kv st) -> deleteNodeAttempt e plan st = Ok (st', receipt) ->
  StoreInv (tx_kv st') /\ removed_node (dp_OrgID plan) (dp_NodeID plan) (tx_kv st) (tx_kv st') /\ covered (tx_kv st) st' /\
  exists n, lookup_node (tx_kv st) (dp_OrgID plan) (dp_NodeID plan) = Some n /\
    digest (VNode n) = se_PrimaryDigest (dp_Source plan) /\
    receipt = mkReceipt (dp_OrgID plan) (dp_NodeID plan) (digest (VNode n)) no_digest.
Proof.
  intros HI E. unfold deleteNodeAttempt in E.
  apply tx_bind_ok in E as (s1 & source & E1 & E). pose proof (reads_prepareDeletion _ _ _ _ E1) as ->.
  destruct (prepareDeletion_source _ _ _ _ (si_nodes _ HI) E1) as (n & -> & Ho & Hid & Hl & Hdig).
  apply tx_bind_ok in E as (s2 & strict & E2 & E). apply tx_bind_ok in E as (s3 & [] & E3 & E).
  apply tx_bind_ok in E as (s4 & [] & E4 & [-> ->]%tx_ret_ok). simpl in E4.
  destruct (audits_fenceAttempt _ _ _ _ _ _ E2 HI) as (HI2 & P2 & C2).
  destruct (audits_aside _ _ (touches_advanceMutationCheckpoint (dp_Checkpoint plan) None) ltac:(intros g; by apply families_disjoint) _ _ _ E3 HI2)
    as (HI3 & P3 & C3).
  pose proof (framed_trans _ _ _ _ _ (proj1 (touches_fenceAttempt _ _ _ _ _ _ E2)) (proj1 (touches_advanceMutationCheckpoint _ _ _ _ _ E3))) as F.
  assert (forall o id, lookup_node (tx_kv s3) o id = lookup_node (tx_kv st) o id) as L.
  { intros. apply lookup_node_ext. intros k Hk. apply F. eapply families_disjoint; [|exact Hk]; done. }
  assert (forall k, family k ∈ relationship_families ++ reference_families -> fget (tx_kv s3) k = fget (tx_kv st) k) as K.
  { intros k Hk. apply F. eapply families_disjoint; [|exact Hk]; done. }
  destruct (clearNode_spec _ _ _ _ _ HI3 ltac:(rewrite L, Ho, Hid; exact Hl) E4) as (HI4 & [N4 V4 R4 O4] & C4 & P4).
  rewrite Ho, Hid in *. split_and!; [done| | |by exists n].
  - split; [intros; by rewrite N4, L|done| |].
    + intros o a t b. rewrite R4, (K (relationshipKey _ _ _ _)) by (simpl; set_solver). done.
    + intros o t x. rewrite O4. by rewrite (owner_ext (tx_kv st) (tx_kv s3)) by (intros k Hk; apply K; set_solver).
  - eapply covered_trans; [eapply covered_trans; [exact C2|exact C3|done]|exact C4|done].
Qed.

(** ** No orphans *)

Lemma readHierarchyNodes_found o ids kinds st st' ns kinds' id t :
  readHierarchyNodes o ids kinds st = Ok (st', (ns, kinds')) -> id ∈ ids ->
  fget (tx_kv st) (nodeResolveKey id) = Some (VResolve (mkResolve o t)) ->
  exists n, n ∈ ns /\ hn_ID n = id /\ hn_Found n = true.
Proof.
  revert kinds ns kinds'. induction ids as [|i ids IH]; intros kinds ns kinds' E Hin Hr; [by apply elem_of_nil in Hin|].
  cbn [readHierarchyNodes] in E. apply tx_bind_ok in E as (s1 & v & Ev & E).
  pose proof (reads_get_bytes _ _ _ _ Ev) as ->. apply tx_bind_ok in E as (s2 & [n k2] & En & E).
  apply tx_bind_ok in E as (s3 & [ns' k3] & Es & [-> [= -> ->]]%tx_ret_ok).
  assert (s2 = st) as ->.
  { destruct v as [[]|]; try discriminate En; [|by apply tx_ret_ok in En as [-> _]].
    case_decide; [|by apply tx_ret_ok in En as [-> _]].
    apply tx_bind_ok in En as (s4 & [k k'] & Ec%reads_cachedNodeTypeByKey & [-> _]%tx_ret_ok). done. }
  apply elem_of_cons in Hin as [->|Hin].
  - exists n. split; [left|]. unfold tr_get_bytes in Ev. tx_inv1 Ev. rewrite Hr in En. simpl in En. rewrite decide_True in En by done.
    by apply tx_bind_ok in En as (s4 & [k k'] & Ec & [_ [= -> _]]%tx_ret_ok).
  - destruct (IH _ _ _ Es Hin Hr) as (n' & ? & ? & ?). exists n'. split; [by right|done].
Qed.

Lemma refuseChildren_ok o id ns st st' u n :
  refuseChildren o id ns st = Ok (st', u) -> n ∈ ns -> hn_Found n = true -> hasHierarchyParent o n id st = Ok (st, false).
Proof.
  intros E Hin Hf. induction ns as [|m ns IH]; [by apply elem_of_nil in Hin|]. cbn [refuseChildren] in E.
  apply elem_of_cons in Hin as [<-|Hin].
  - rewrite Hf in E. apply tx_bind_ok in E as (s1 & b & E1 & E). apply tx_bind_ok in E as (s2 & [] & [-> Hb]%ensure_ok & _).
    destruct b; [done|]. pose proof (reads_hasHierarchyParent _ _ _ _ _ _ E1) as ->. done.
  - destruct (hn_Found m); [|auto]. apply tx_bind_ok in E as (s1 & b & E1%reads_hasHierarchyParent & E).
    apply tx_bind_ok in E as (s2 & [] & [-> Hb]%ensure_ok & E). subst s1. auto.
Qed.

Lemma hierarchy_scan_all p q l : Forall (eq p) l -> hierarchy_scan q l = Ok p \/ l = [] \/ (q <> uuid_nil /\ q <> p).
Proof.
  intros Hall. revert q. induction Hall as [|x l <- _ IH]; intros q; [auto|]. cbn [hierarchy_scan].
  case_decide as Hd; [right; right; naive_solver|]. destruct (IH p) as [?|[->|[_ ?]]]; [by left|by left|done].
Qed.

Lemma HierarchyParent_all kind p l : Forall (eq p) l -> l <> [] -> forall q, HierarchyParent kind l = Ok q -> q = p.
Proof.
  intros Hall Hne q. unfold HierarchyParent. destruct (hierarchy_scan_all p uuid_nil l Hall) as [->|[?|[? _]]]; [|done|done].
  simpl. destruct (_ && _); [done|]. by intros [= ->].
Qed.

(** A node whose only parent edge leads to [id] is never judged to have
    another hierarchy parent. *)
Lemma only_parent_child o n id st :
  RelInv (tx_kv st) ->
  (forall b, is_Some (fget (tx_kv st) (child_key o (hn_ID n) b)) <-> b = id) -> hasHierarchyParent o n id st <> Ok (st, false).
Proof.
  intros HI Honly E. unfold hasHierarchyParent in E.
  apply tx_bind_ok in E as (s1 & edges & Ee & E). apply tx_bind_ok in E as (s2 & q & [-> Hq]%lift_ok & [Hst Hb]%tx_ret_ok). subst s1.
  symmetry in Hb. apply bool_decide_eq_false in Hb. apply Hb. eapply HierarchyParent_all; [| |exact Hq]; clear Hq Hb.
  - unfold readDeleteEdges in Ee. cbv zeta in Ee. apply tx_bind_ok in Ee as (s3 & items & [-> ->]%tr_range_ok & [_ Ee]%lift_ok). apply res_mapM_ok in Ee.
    apply Forall_fmap, Forall_forall. intros e (i & He)%list_elem_of_lookup.
    destruct (Forall2_lookup_r _ _ _ _ _ Ee He) as ([k v] & Hit & Hok).
    apply list_elem_of_lookup_2 in Hit. apply elem_of_take in Hit as (j & Hj & _). apply list_elem_of_lookup_2 in Hj.
    apply frange_spec in Hj as [Hp Hv]. assert (family k = "relationship") as Hk by (by destruct Hp as [l ->]).
    destruct (rel_forward _ HI _ _ Hk Hv) as (r & -> & -> & _). unfold rel_key in Hp. apply relationshipPrefix_spec in Hp as (Ho & Hs & [?|Ht]); [done|].
    unfold deleteEdgeOf in Hok. cbn [fst] in Hok. unfold decodeDeleteEdge in Hok. simpl in Hok. rewrite uuid_parse_string in Hok.
    simpl in Hok. injection Hok as <-. simpl. symmetry. apply Honly. unfold child_key. rewrite Ho, Hs, Ht. unfold rel_key in Hv. by rewrite Hv.
  - unfold readDeleteEdges in Ee. cbv zeta in Ee. apply tx_bind_ok in Ee as (s3 & items & [-> ->]%tr_range_ok & [_ Ee]%lift_ok). apply res_mapM_ok in Ee.
    intros Hnil. apply fmap_nil_inv in Hnil as ->. apply Forall2_nil_inv_r in Ee.
    destruct (proj2 (Honly id) eq_refl) as [v Hv].
    assert ((child_key o (hn_ID n) id, v) ∈ frange (tx_kv st) (relationshipPrefixBySource o (hn_ID n) RelChildOf)) as Hin.
    { apply frange_spec. split; [|done]. apply relationshipPrefix_spec. auto. }
    cbv zeta in Ee. simpl in Ee. destruct (frange _ _); [by apply elem_of_nil in Hin|done].
Qed.

(** Every child edge to the node is among the incoming snapshots. *)
Lemma readIncomingSnapshots_all o n st st' snapshots a :
  RelInv (tx_kv st) -> readIncomingSnapshots o n st = Ok (st', (snapshots, false)) ->
  is_Some (fget (tx_kv st) (child_key o a n)) ->
  a ∈ rel_SourceID <$> filter (fun r => rel_RelationType r = RelChildOf) (rs_Relationship <$> snapshots).
Proof.
  intros HI E Ha. unfold readIncomingSnapshots in E.
  apply tx_bind_ok in E as (s1 & edges & Ee & E). pose proof (reads_readDeleteEdges _ _ _ _ _ _ _ Ee) as ->.
  case_decide as Hlen; [by apply tx_ret_ok in E as [_ [=]]|].
  apply tx_bind_ok in E as (s2 & snaps & Em & [-> [= ->]]%tx_ret_ok).
  unfold readDeleteEdges in Ee. cbv zeta in Ee. apply tx_bind_ok in Ee as (s3 & items & [-> ->]%tr_range_ok & [_ Ee]%lift_ok). apply res_mapM_ok in Ee.
  set (items := frange (tx_kv st) (relationshipReversePrefixByTarget o n EmptyString)) in *.
  assert (take (maxDeleteEdgePage + 1) items = items) as Htake.
  { apply take_ge. apply Forall2_length in Ee. rewrite length_take in Ee.
    unfold MutationEdgeLimit, maxDeleteEdgePage in *. lia. }
  rewrite Htake in Ee. pose proof Ha as [w Hw]%rel_symmetric; [|done].
  assert ((relationshipReverseKey o n RelChildOf a, w) ∈ items) as (i & Hi)%list_elem_of_lookup.
  { apply frange_spec. split; [|done]. apply relationshipReversePrefix_spec. auto. }
  destruct (Forall2_lookup_l _ _ _ _ _ Ee Hi) as (edge & Hedge & Hok).
  unfold deleteEdgeOf in Hok. cbn [fst] in Hok. unfold decodeDeleteEdge in Hok. simpl in Hok. rewrite uuid_parse_string in Hok.
  simpl in Hok. injection Hok as <-. clear -HI Em Hedge Ha. revert i Hedge snaps Em.
  induction edges as [|e edges IH]; intros i Hedge snaps' Em; [done|]. cbn [mapM_tx] in Em.
  apply tx_bind_ok in Em as (s1 & sn & Esn & Em). apply tx_bind_ok in Em as (s4 & rest & Er & [-> ->]%tx_ret_ok).
  apply tx_bind_ok in Esn as (s5 & v & [-> ->]%tr_get_ok & [-> Hd]%lift_ok). csimpl.
  destruct i as [|i]; simpl in Hedge.
  - injection Hedge as ->. simpl in Hd. destruct Ha as [v Hv]. unfold child_key in Hv. rewrite Hv in Hd.
    destruct (rel_forward _ HI (relationshipKey o a RelChildOf n) _ eq_refl Hv) as (r & Hk & -> & _). injection Hd as <-.
    unfold rel_key, relationshipKey in Hk. key_inv. simpl. rewrite filter_cons_True by done. csimpl. left.
  - rewrite filter_cons. specialize (IH i Hedge _ Er). case_decide; [csimpl; by right|done].
Qed.

(** C24: Deleting a node never orphans a child.  A deletion does not succeed
    while some node of the organization has the node as its only parent. *)
Theorem deleteNode_no_orphans e plan st st' receipt a t :
  StoreInv (tx_kv st) -> deleteNodeAttempt e plan st = Ok (st', receipt) ->
  fget (tx_kv st) (nodeResolveKey a) = Some (VResolve (mkResolve (dp_OrgID plan) t)) ->
  ~ (forall b, is_Some (fget (tx_kv st) (child_key (dp_OrgID plan) a b)) <-> b = dp_NodeID plan).
Proof.
  intros HI E Hr Honly. unfold deleteNodeAttempt in E. apply tx_bind_ok in E as (s1 & source & E & _).
  unfold prepareDeletion in E.
  apply tx_bind_ok in E as (? & [] & [-> _]%ensure_ok & E). apply tx_bind_ok in E as (? & src & E1%reads_readMutationSource & E). subst.
  apply tx_bind_ok in E as (? & [] & [-> _]%lift_ok & E). apply tx_bind_ok in E as (? & ? & E2%reads_checkGraphLoop & E). subst.
  apply tx_bind_ok in E as (? & out & E3%reads_readOutgoingSnapshots & E). subst.
  apply tx_bind_ok in E as (s2 & [incoming overflow] & E4 & E). pose proof (reads_readIncomingSnapshots _ _ _ _ _ E4) as ->.
  apply tx_bind_ok in E as (? & [] & [-> Hov]%ensure_ok & E). destruct overflow; [done|].
  apply tx_bind_ok in E as (? & [] & E5 & _). unfold refuseHierarchyChild in E5.
  apply tx_bind_ok in E5 as (s3 & [ns kinds] & E5 & E6). pose proof (reads_readHierarchyNodes _ _ _ _ _ _ E5) as ->.
  assert (a ∈ rel_SourceID <$> filter (fun r => rel_RelationType r = RelChildOf) (rs_Relationship <$> incoming)) as Hin.
  { eapply readIncomingSnapshots_all; [apply HI|exact E4|]. by apply Honly. }
  destruct (readHierarchyNodes_found _ _ _ _ _ _ _ _ _ E5 Hin Hr) as (n & Hn & <- & Hf).
  eapply only_parent_child; [apply HI|exact Honly|]. by eapply refuseChildren_ok.
Qed.

End delete_spec.
