(* ===== verification/SubtreeSpec.v ===== *)
(** * The subtree delete job and the parent guard

    A job is a sequence of transactions, each of which advances a durable
    stack.  Every step keeps the store consistent and audited, and keeps the
    stack a path without repetition. *)

From S2P Require Import Prelude GoJson Sha256 Bytes Domain Concrete Schema Store Tx Keys Records Schedule Fence MutationRead Mutation MutationSpec NodeDelete DeleteSpec.

Section subtree.
Context `{FDB : Fdb} `{GL : GoLib} `{HS : Encoder}.

Lemma reads_readHierarchyNode o n kinds : reads (readHierarchyNode o n kinds).
Proof. unfold readHierarchyNode. reads. apply reads_readHierarchyNodes. Qed.

Lemma reads_readNodeAndView o t : reads (readNodeAndView o t).
Proof. unfold readNodeAndView. reads. Qed.

Lemma reads_findChildLoop o top stack edges sources others : reads (findChildLoop o top stack edges sources others).
Proof.
  revert sources others. induction edges as [|e edges IH]; intros [|s sources] others; cbn [findChildLoop]; [reads..|].
  reads; eauto using reads_hasHierarchyParent.
Qed.

Lemma reads_findHierarchyChild job top edges kinds : reads (findHierarchyChild job top edges kinds).
Proof. unfold findHierarchyChild. reads; eauto using reads_readHierarchyNodes, reads_findChildLoop. Qed.

(** A found hierarchy node resolves in the organization. *)
Definition resolves (s : kv) (o : uuid) (n : hierarchyNode) : Prop :=
  hn_Found n = true -> fget s (nodeResolveKey (hn_ID n)) = Some (VResolve (mkResolve o (hn_TypeKey n))).

Lemma readHierarchyNodes_resolves o ids kinds st st' ns kinds' :
  readHierarchyNodes o ids kinds st = Ok (st', (ns, kinds')) -> Forall2 (fun id n => hn_ID n = id /\ resolves (tx_kv st) o n) ids ns.
Proof.
  revert kinds ns kinds'. induction ids as [|i ids IH]; intros kinds ns kinds' E; cbn [readHierarchyNodes] in E.
  { apply tx_ret_ok in E as [_ [= -> _]]. constructor. }
  apply tx_bind_ok in E as (s1 & v & Ev & E).
  pose proof (reads_get_bytes _ _ _ _ Ev) as ->. apply tx_bind_ok in E as (s2 & [n k2] & En & E).
  apply tx_bind_ok in E as (s3 & [ns' k3] & Es & [-> [= -> ->]]%tx_ret_ok).
  assert (s2 = st /\ hn_ID n = i /\ resolves (tx_kv st) o n) as (-> & Hn).
  { unfold tr_get_bytes in Ev. tx_inv1 Ev. unfold resolves.
    destruct (fget (tx_kv st) (nodeResolveKey i)) as [w|] eqn:Er; [|by apply tx_ret_ok in En as [-> [= -> _]]].
    destruct (no_bytes w); [by apply tx_ret_ok in En as [-> [= -> _]]|].
    destruct w; try discriminate En. case_decide as Ho; [|by apply tx_ret_ok in En as [-> [= -> _]]].
    apply tx_bind_ok in En as (s4 & [k k'] & Ec%reads_cachedNodeTypeByKey & [-> [= -> _]]%tx_ret_ok). subst.
    split_and!; [done..|]. simpl. intros _. rewrite Er. by destruct r. }
  constructor; [done|]. by eapply IH.
Qed.

Lemma readHierarchyNode_resolves o id kinds st st' n kinds' :
  readHierarchyNode o id kinds st = Ok (st', (n, kinds')) -> hn_ID n = id /\ resolves (tx_kv st) o n.
Proof.
  intros (s1 & [ns k] & E%readHierarchyNodes_resolves & [_ [= -> _]]%tx_ret_ok)%tx_bind_ok.
  by apply Forall2_cons_inv_l in E as (n & l & ? & _ & ->).
Qed.

(** The primary record behind a resolved node. *)
Lemma resolves_lookup s o n :
  NodeInv s -> resolves s o n -> hn_Found n = true ->
  exists c, lookup_node s o (hn_ID n) = Some c /\ n_NodeType c = hn_TypeKey n /\ n_OrgID c = o /\ n_ID c = hn_ID n /\
    fget s (nodeInstanceKey o (hn_TypeKey n) (hn_ID n)) = Some (VNode c) /\
    fget s (nodeViewKey o (hn_TypeKey n) (hn_ID n)) = Some (VView (mutationView c)).
Proof.
  intros HI Hr Hf. specialize (Hr Hf). destruct (ni_resolve _ HI _ _ Hr) as (c & [= Ho Ht] & Hid & _ & H1 & H2). exists c.
  rewrite <-Ho, <-Ht in *. split_and!; [|done..]. unfold lookup_node. rewrite Hr. cbn [nr_OrgID nr_NodeType]. by rewrite decide_True, H1.
Qed.

(** ** Moving a child *)

Lemma moved_parent_ok job n now enc :
  marshal_node (moved_node job n now) = Ok enc ->
  n_Props enc !! parentIDName = Some (quote_plain (uuid_string (j_RootParentID job))).
Proof.
  intros (_ & _ & _ & _ & Hp)%marshal_node_fields. rewrite (marshal_props_lookup _ _ _ Hp). simpl.
  rewrite lookup_insert_eq. apply compact_quote.
Qed.

Lemma touches_moveParentIndexEntry n old : touches ["node_by_property"] (moveParentIndexEntry n old).
Proof. unfold moveParentIndexEntry. touch. Qed.

(** Rewriting the records of a stored node keeps the store consistent and
    is covered by the recorded change. *)
Lemma rewrite_node_audited e n enc st st' u :
  StoreInv (tx_kv st) -> lookup_node (tx_kv st) (n_OrgID enc) (n_ID enc) = Some n -> n_NodeType n = n_NodeType enc -> parent_ok enc ->
  record e (nodeTarget enc) (Some (VNode n)) (Some (VNode enc)) (mkTx (write_records (tx_kv st) enc) (tx_changes st)) = Ok (st', u) ->
  StoreInv (tx_kv st') /\ tx_changes st `prefix_of` tx_changes st' /\ covered (tx_kv st) st' /\
  forall o id, lookup_node (tx_kv st') o id = if decide (o = n_OrgID enc /\ id = n_ID enc) then Some enc else lookup_node (tx_kv st) o id.
Proof.
  intros HI Hl Ht Hp E. destruct (record_ok _ _ _ _ _ _ _ E) as (Hkv & Hpre & Hcase). simpl in Hkv, Hpre. rewrite Hkv.
  destruct (NodeInv_lookup _ _ _ _ (si_nodes _ HI) Hl) as (_ & _ & _ & Hr). rewrite Ht in Hr.
  assert (available (tx_kv st) (n_OrgID enc) (n_NodeType enc) (n_ID enc)) as Hav by (intros v Hv; congruence).
  assert (forall k, family k ∉ record_families -> fget (write_records (tx_kv st) enc) k = fget (tx_kv st) k) as F.
  { intros k Hk. unfold write_records. rewrite !fget_set, !decide_False; [done|..]; intros <-; apply Hk; unfold record_families; simpl; set_solver. }
  split_and!; [|done| |intros; by apply write_records_lookup].
  - split; [apply write_records_NodeInv; [apply HI|done|done]| | |].
    + eapply RefInv_depends; [|apply HI]. intros k Hk. apply F. eapply families_disjoint; [|exact Hk]; done.
    + eapply RelInv_depends; [|apply HI]. intros k Hk. apply F. eapply families_disjoint; [|exact Hk]; done.
    + eapply WorkInv_depends; [|apply HI]. intros k Hk. apply F. eapply families_disjoint; [|exact Hk]; done.
  - intros k Hk. rewrite Hkv. destruct (decide (k = nodeInstanceKey (n_OrgID enc) (n_NodeType enc) (n_ID enc))) as [->|Hne].
    + destruct Hcase as [[? _]|[Hsame|(c & Hc & Htg & _)]]; [done| |].
      * left. rewrite write_records_instance, decide_True by done. rewrite <-Hsame.
        unfold lookup_node in Hl. rewrite Hr in Hl. cbn [nr_OrgID nr_NodeType] in Hl. rewrite decide_True in Hl by done.
        destruct (fget _ _) as [[]|]; congruence.
      * right. exists c. split; [done|]. by apply (names_node _ None).
    + left. unfold write_records. rewrite !fget_set, !decide_False; [done|congruence|..];
        intros <-; revert Hk; simpl; unfold audited_families; set_solver.
Qed.

Lemma applyMove_spec e job child c edges st st' u :
  StoreInv (tx_kv st) -> lookup_node (tx_kv st) (n_OrgID c) (n_ID c) = Some c ->
  applyMove e job child c (Some (mutationView c)) edges st = Ok (st', u) ->
  StoreInv (tx_kv st') /\ tx_changes st `prefix_of` tx_changes st' /\ covered (tx_kv st) st'.
Proof.
  intros HI Hl E. unfold applyMove in E. cbv zeta in E.
  apply tx_bind_ok in E as (s1 & strict & E1 & E). destruct (audits_fenceAttempt _ _ _ _ _ _ E1 HI) as (HI1 & P1 & C1).
  destruct (touches_fenceAttempt _ _ _ _ _ _ E1) as [F1 _].
  apply tx_bind_ok in E as (s2 & enc & E2 & E).
  change ((fun v => moved_view job v (e_now e)) <$> Some (mutationView c)) with (Some (mutationView (moved_node job c (e_now e)))) in E2.
  apply writeNodeRecords_ok in E2 as [Hm ->]. apply tx_bind_ok in E as (s3 & [] & E3 & E).
  destruct (marshal_node_fields _ _ Hm) as (Hid & Ho & Ht & Hn & _). simpl in Hid, Ho, Ht, Hn.
  replace (nodeTarget (moved_node job c (e_now e))) with (nodeTarget enc) in E3 by (unfold nodeTarget; by rewrite Hid, Ht, Hn).
  apply rewrite_node_audited in E3 as (HI3 & P3 & C3 & _); [|done| |by rewrite Ht|].
  2: { rewrite Ho, Hid. rewrite (lookup_node_ext (tx_kv st) (tx_kv s1)); [done|].
       intros k Hk. apply F1. eapply families_disjoint; [|exact Hk]; done. }
  2: { intros r Hr. rewrite (moved_parent_ok _ _ _ _ Hm) in Hr. injection Hr as <-. eauto. }
  assert (audits StoreInv (_ ← moveParentIndexEntry (moved_node job c (e_now e)) (n_Props c !! parentIDName);
    _ ← applyRelationshipChanges e (parentEdgeChanges job (hn_ID child) edges (e_now e));
    _ ← checkStrictRecord strict (moved_node job c (e_now e));
    if e_searchWork e then
      _ ← scheduleSearchChange (e_now e) (j_OrgID job) (hn_ID child) searchChangeContent;
      scheduleRelatedSearchWork (e_now e) (parentEdgeChanges job (hn_ID child) edges (e_now e))
    else mret tt)) as Hrest.
  { apply audits_bind; [eapply audits_aside; [apply touches_moveParentIndexEntry|intros g; by apply families_disjoint]|intros _].
    apply audits_bind; [apply audits_relationships; [apply touches_applyRelationshipChanges|apply audits_applyRelationshipChanges]|intros _].
    apply audits_bind; [apply audits_reads, reads_checkStrictMutation|intros _].
    destruct (e_searchWork e); [|apply audits_ret].
    apply audits_bind; [apply audits_scheduleSearchChange|intros _; apply audits_scheduleRelated]. }
  destruct (Hrest _ _ _ E HI3) as (HI4 & P4 & C4). split_and!; [done|by do 2 (etrans; [done|])|].
  eapply covered_trans; [eapply covered_trans; [exact C1|exact C3|done]|exact C4|done].
Qed.

Lemma moveChild_audits e job child kinds st st' b :
  resolves (tx_kv st) (j_OrgID job) child -> hn_Found child = true ->
  moveChild e job child kinds st = Ok (st', b) -> StoreInv (tx_kv st) ->
  StoreInv (tx_kv st') /\ tx_changes st `prefix_of` tx_changes st' /\ covered (tx_kv st) st'.
Proof.
  intros Hr Hf E HI.
  assert (forall st0 st1 b0, (mret false : tx bool) st0 = Ok (st1, b0) -> StoreInv (tx_kv st0) ->
    StoreInv (tx_kv st1) /\ tx_changes st0 `prefix_of` tx_changes st1 /\ covered (tx_kv st0) st1) as Hret
    by (intros ???; apply audits_ret).
  unfold moveChild in E. case_decide; [eauto|].
  apply tx_bind_ok in E as (s1 & [parent k1] & E1%reads_readHierarchyNode & E). subst s1.
  destruct (_ || _); [eauto|]. apply tx_bind_ok in E as (s1 & edges & E1%reads_readDeleteEdges & E). subst s1.
  case_decide; [eauto|]. apply tx_bind_ok in E as (s1 & records & E1 & E).
  pose proof (reads_readNodeAndView _ _ _ _ _ E1) as ->.
  destruct (resolves_lookup _ _ _ (si_nodes _ HI) Hr Hf) as (c & Hl & _ & Ho & Hid & Hi & Hv).
  unfold readNodeAndView, tr_get_bytes in E1. tx_inv1 E1. rewrite Hi, Hv in *. simpl in *.
  match goal with H : (mret _) _ = Ok _ |- _ => apply tx_ret_ok in H as [_ ->] end.
  apply tx_bind_ok in E as (s1 & [] & E1 & [-> _]%tx_ret_ok).
  eapply applyMove_spec; [done| |exact E1]. by rewrite Ho, Hid.
Qed.

(** ** Deleting the top of the stack *)

Lemma deleteTop_audits e job top st st' job' :
  resolves (tx_kv st) (j_OrgID job) top -> hn_Found top = true ->
  deleteTop e job top st = Ok (st', job') -> StoreInv (tx_kv st) ->
  (StoreInv (tx_kv st') /\ tx_changes st `prefix_of` tx_changes st' /\ covered (tx_kv st) st') /\
  lookup_node (tx_kv st') (j_OrgID job) (hn_ID top) = None /\
  job' = with_counts (with_stack job (pop (j_Stack job))) (j_Deleted job + 1) (j_Moved job).
Proof.
  intros Hr Hf E HI. unfold deleteTop in E.
  destruct (resolves_lookup _ _ _ (si_nodes _ HI) Hr Hf) as (c & Hl & _ & Ho & Hid & Hi & _).
  apply tx_bind_ok in E as (s1 & v & E1 & E). unfold tr_get_bytes in E1. tx_inv1 E1. rewrite Hi in E. simpl in E.
  apply tx_bind_ok in E as (s2 & c' & [-> [= <-]]%lift_ok & E).
  apply tx_bind_ok in E as (s3 & strict & E3 & E). destruct (audits_fenceAttempt _ _ _ _ _ _ E3 HI) as (HI3 & P3 & C3).
  apply tx_bind_ok in E as (s4 & [] & E4 & [-> ->]%tx_ret_ok).
  assert (lookup_node (tx_kv s3) (n_OrgID c) (n_ID c) = Some c) as Hl3.
  { rewrite Ho, Hid, (lookup_node_ext (tx_kv st) (tx_kv s3)); [done|].
    intros k Hk. apply (touches_fenceAttempt _ _ _ _ _ _ E3). eapply families_disjoint; [|exact Hk]; done. }
  destruct (clearNode_spec _ _ _ _ _ HI3 Hl3 E4) as (HI4 & [N4 _ _ _] & C4 & P4).
  split_and!; [done|by etrans|by eapply covered_trans| |done]. by rewrite N4, Hid, decide_True.
Qed.

(** ** Finding a child *)

Lemma findChildLoop_found o top stack edges sources others st st' c rest :
  findChildLoop o top stack edges sources others st = Ok (st', (Some c, rest)) ->
  c ∈ sources /\ hn_Found c = true /\ hn_ID c ∉ stack.
Proof.
  revert sources others st. induction edges as [|e edges IH]; intros [|s sources] others st E; cbn [findChildLoop] in E;
    try by apply tx_ret_ok in E as [_ [=]].
  apply tx_bind_ok in E as (s1 & b & E1 & E). destruct b.
  - apply tx_ret_ok in E as [_ [= <- _]]. split; [left|].
    destruct (bool_decide (de_RelationType e = RelChildOf)), (hn_Found c) eqn:Hf; simpl in E1; try by apply tx_ret_ok in E1 as [_ ?].
    destruct (bool_decide (hn_ID c ∈ stack)) eqn:Hs; simpl in E1; [by apply tx_ret_ok in E1 as [_ ?]|].
    by apply bool_decide_eq_false in Hs.
  - destruct (IH _ _ _ E) as (? & ?). split; [by right|done].
Qed.

Lemma findHierarchyChild_found job top edges kinds st st' c others kinds' :
  findHierarchyChild job top edges kinds st = Ok (st', (Some c, others, kinds')) ->
  hn_Found c = true /\ hn_ID c ∉ j_Stack job /\ resolves (tx_kv st) (j_OrgID job) c.
Proof.
  intros (s1 & [sources k] & E1 & (s2 & [child rest] & E2 & [_ [= <- _ _]]%tx_ret_ok)%tx_bind_ok)%tx_bind_ok.
  destruct (findChildLoop_found _ _ _ _ _ _ _ _ _ _ E2) as (Hin & Hf & Hs). split_and!; [done..|].
  apply readHierarchyNodes_resolves in E1. apply list_elem_of_lookup in Hin as (i & Hi).
  by destruct (Forall2_lookup_r _ _ _ _ _ E1 Hi) as (id & _ & _ & ?).
Qed.

(** ** One step *)

(** What one step does to the job. *)
Inductive job_step (job : SubtreeDeleteJob) : SubtreeDeleteJob -> Prop :=
  | step_missing : job_step job (with_stack job (pop (j_Stack job)))
  | step_deleted : job_step job (with_counts (with_stack job (pop (j_Stack job))) (j_Deleted job + 1) (j_Moved job))
  | step_pushed c : c ∉ j_Stack job -> job_step job (with_stack job (j_Stack job ++ [c]))
  | step_moved : length (j_Stack job) = 1 -> job_step job (with_counts job (j_Deleted job) (j_Moved job + 1))
  | step_edges : job_step job job.

Lemma advance_spec e job topID st st' job' :
  advance e job topID st = Ok (st', job') -> StoreInv (tx_kv st) ->
  (StoreInv (tx_kv st') /\ tx_changes st `prefix_of` tx_changes st' /\ covered (tx_kv st) st') /\ job_step job job'.
Proof.
  intros E HI. unfold advance in E.
  apply tx_bind_ok in E as (s1 & [top kinds] & E1 & E). pose proof (reads_readHierarchyNode _ _ _ _ _ _ E1) as ->.
  apply readHierarchyNode_resolves in E1 as [_ Htop].
  destruct (hn_Found top) eqn:Hf; simpl in E.
  2: { apply tx_ret_ok in E as [-> ->]. split; [|constructor]. split_and!; [done..|intros k _; by left]. }
  apply tx_bind_ok in E as (s1 & incoming & E1%reads_readDeleteEdges & E). subst s1.
  apply tx_bind_ok in E as (s1 & outgoing & E1%reads_readDeleteEdges & E). subst s1.
  apply tx_bind_ok in E as (s1 & [[child others] kinds'] & E1 & E). pose proof (reads_findHierarchyChild _ _ _ _ _ _ _ E1) as ->.
  destruct child as [c|].
  - destruct (findHierarchyChild_found _ _ _ _ _ _ _ _ _ E1) as (Hcf & Hcs & Hcr).
    apply tx_bind_ok in E as (s2 & job2 & E2 & E). apply tx_bind_ok in E as (s3 & [] & E3 & [-> ->]%tx_ret_ok).
    unfold takeChild in E2. apply tx_bind_ok in E2 as (s4 & moved & E4 & [-> ->]%tx_ret_ok).
    assert (StoreInv (tx_kv s4) /\ tx_changes st `prefix_of` tx_changes s4 /\ covered (tx_kv st) s4) as (HI4 & P4 & C4).
    { case_decide; [by eapply moveChild_audits|]. apply tx_ret_ok in E4 as [-> _]. split_and!; [done..|intros k _; by left]. }
    destruct (audits_clearDeleteEdges _ _ _ _ _ _ E3 HI4) as (HI3 & P3 & C3).
    split; [split_and!; [done|by etrans|by eapply covered_trans]|].
    destruct moved; [|by apply step_pushed]. apply step_moved. case_decide; [done|by apply tx_ret_ok in E4 as [_ ?]].
  - destruct (_ || _).
    + apply tx_bind_ok in E as (s2 & [] & E2 & [-> ->]%tx_ret_ok). split; [by eapply audits_clearDeleteEdges|constructor].
    + destruct (deleteTop_audits _ _ _ _ _ _ Htop Hf E HI) as (? & _ & ->). split; [done|constructor].
Qed.

Lemma pop_NoDup stack : NoDup stack -> NoDup (pop stack).
Proof. intros H. unfold pop. eapply sublist_NoDup; [exact H|]. apply sublist_take. Qed.

Lemma job_step_NoDup job job' : job_step job job' -> NoDup (j_Stack job) -> NoDup (j_Stack job').
Proof.
  intros [] Hnd; simpl; auto using pop_NoDup. apply NoDup_app. split_and!; [done| |apply NoDup_singleton].
  intros x Hx ->%list_elem_of_singleton. done.
Qed.

(** The stored job. *)
Definition stored_job (s : kv) (jobID : uuid) : option SubtreeDeleteJob :=
  match fget s (nodeDeleteJobKey jobID) with Some (VJob job) => Some job | _ => None end.

(** C25: One step of a subtree delete is safe and accounted for.  On a running
    job it keeps the store consistent and audited; the stored job makes one
    of the steps of [job_step], so its stack stays free of repetitions and
    its counters count exactly the nodes deleted and moved; the reported
    progress is the stored one, and the job is finished exactly when the
    stack is empty. *)
Theorem DeleteSubtreeStep_safe jobOperation e jobID job st st' progress :
  StoreInv (tx_kv st) -> stored_job (tx_kv st) jobID = Some job -> j_ID job = jobID -> Finished job = false ->
  NoDup (j_Stack job) -> e_scheduled e <> 0%Z ->
  DeleteSubtreeStep jobOperation e jobID st = Ok (st', progress) ->
  StoreInv (tx_kv st') /\ covered (tx_kv st) st' /\
  exists job' finished, job_step job job' /\ NoDup (j_Stack job') /\
    stored_job (tx_kv st') jobID = Some (with_times job' (e_scheduled e) finished) /\
    Finished (with_times job' (e_scheduled e) finished) = sp_Done progress /\
    sp_Deleted progress = j_Deleted job' /\ sp_Moved progress = j_Moved job' /\
    (sp_Done progress = true <-> j_Stack job' = []).
Proof.
  intros HI Hj Hid Hrun Hnd Hnow E. unfold DeleteSubtreeStep in E.
  apply tx_bind_ok in E as (s1 & stored & E1 & E).
  assert (s1 = st /\ stored = Some job) as [-> ->].
  { unfold readDeleteJob, tr_get_bytes in E1. tx_inv1 E1. unfold stored_job in Hj.
    destruct (fget _ _) as [[]|]; simpl in *; try done. split; [done|]. congruence. }
  rewrite Hrun in E. apply tx_bind_ok in E as (s2 & op & [-> _]%lift_ok & E).
  apply tx_bind_ok in E as (s3 & job' & E3 & E). cbv zeta in E.
  apply tx_bind_ok in E as (s4 & [] & ->%modify_ok & [-> ->]%tx_ret_ok).
  assert ((StoreInv (tx_kv s3) /\ tx_changes st `prefix_of` tx_changes s3 /\ covered (tx_kv st) s3) /\ job_step job job') as ((HI3 & _ & C3) & Hstep).
  { destruct (last (j_Stack job)); [by eapply advance_spec|]. apply tx_ret_ok in E3 as [-> ->].
    split; [|constructor]. split_and!; [done..|intros k _; by left]. }
  assert (j_ID job' = jobID) as Hid' by (by destruct Hstep).
  assert (j_FinishedAt job' = 0%Z) as Hfin.
  { unfold Finished in Hrun. apply negb_false_iff, bool_decide_eq_true in Hrun. by destruct Hstep. }
  set (done := bool_decide (length (j_Stack job') = 0)) in *. simpl.
  set (final := if done then with_times job' (j_UpdatedAt job') (e_scheduled e) else job').
  assert (j_ID final = jobID) as Hfid by (unfold final; by destruct done).
  split_and!.
  - eapply StoreInv_depends; [|exact HI3]. intros k Hk. simpl. rewrite fget_set, decide_False; [done|].
    intros <-. revert Hk. simpl. unfold store_families, record_families, reference_families, relationship_families. set_solver.
  - intros k Hk. simpl. rewrite fget_set, decide_False; [by apply C3|]. intros <-. revert Hk. simpl. unfold audited_families. set_solver.
  - exists job', (if done then e_scheduled e else 0%Z). split_and!; [done|by eapply job_step_NoDup| | |done|done|].
    + unfold stored_job. simpl. rewrite Hfid, fget_set, decide_True by done. f_equal. unfold final. destruct done; [done|].
      by rewrite Hfin.
    + unfold Finished. simpl. destruct done; [by rewrite bool_decide_false|done].
    + unfold done. rewrite bool_decide_eq_true. split; [apply nil_length_inv|by intros ->].
Qed.

(** ** The relationship store *)

Lemma reads_refuseOnlyParentRemoval o a t b : reads (refuseOnlyParentRemoval o a t b).
Proof.
  unfold refuseOnlyParentRemoval, storedParentID, otherParentTarget.
  reads; eauto using reads_readHierarchyNode, reads_readNodeAndView.
Qed.

Lemma audits_schedule_if (b : bool) now l : audits StoreInv (if b then scheduleRelatedSearchWork now l else mret tt).
Proof. destruct b; [apply audits_scheduleRelated|apply audits_ret]. Qed.

Lemma stored_parent_quoted s o id n :
  NodeInv s -> lookup_node s o id = Some n -> stored_parent n <> uuid_nil ->
  exists p, n_Props n !! parentIDName = Some (quote_plain (uuid_string p)) /\ stored_parent n = p.
Proof.
  intros HI Hl Hnil. destruct (NodeInv_lookup _ _ _ _ HI Hl) as (_ & _ & Hp & _). unfold stored_parent in *.
  destruct (n_Props n !! parentIDName) as [raw|] eqn:Er; [|done]. destruct (Hp _ Er) as [p ->]. exists p.
  split; [done|]. apply storedUUID_quote.
Qed.

(** The guard refuses to remove the edge to the stored parent. *)
Lemma refuseOnlyParentRemoval_canonical o a b n st r :
  StoreInv (tx_kv st) -> lookup_node (tx_kv st) o a = Some n ->
  n_Props n !! parentIDName = Some (quote_plain (uuid_string b)) -> b <> uuid_nil ->
  is_Some (fget (tx_kv st) (child_key o a b)) -> refuseOnlyParentRemoval o a RelChildOf b st <> Ok r.
Proof.
  intros HI Hl Hb Hnil [v Hv] E. unfold refuseOnlyParentRemoval in E. rewrite decide_True in E by done. cbv zeta in E.
  destruct r as [st' u]. apply tx_bind_ok in E as (s1 & w & E1 & E). pose proof (reads_get_bytes _ _ _ _ E1) as ->.
  destruct (rel_forward _ (si_relationships _ HI) (child_key o a b) _ eq_refl Hv) as (r & _ & -> & _).
  unfold tr_get_bytes in E1. tx_inv1 E1. unfold child_key in Hv. rewrite Hv in E. simpl in E.
  apply tx_bind_ok in E as (s1 & [source k] & E1 & E). pose proof (reads_readHierarchyNode _ _ _ _ _ _ E1) as ->.
  destruct (NodeInv_lookup _ _ _ _ (si_nodes _ HI) Hl) as (_ & _ & Hp & Hr).
  assert (hn_Found source = true /\ hn_ID source = a) as [Hf Hid].
  { apply tx_bind_ok in E1 as (s2 & [ns k'] & E1 & [_ [= -> _]]%tx_ret_ok). pose proof (readHierarchyNodes_resolves _ _ _ _ _ _ _ E1) as Hns.
    destruct (readHierarchyNodes_found _ _ _ _ _ _ _ a _ E1 ltac:(left) Hr) as (m & Hm & Hmid & Hmf).
    apply Forall2_cons_inv_l in Hns as (m' & l & _ & ->%Forall2_nil_inv_l & ->). by apply list_elem_of_singleton in Hm as ->. }
  apply readHierarchyNode_resolves in E1 as [_ Hres].
  destruct (resolves_lookup _ _ _ (si_nodes _ HI) Hres Hf) as (c & Hc & _ & _ & _ & Hi & Hvw). rewrite Hid in *. rewrite Hl in Hc. injection Hc as <-.
  apply tx_bind_ok in E as (s1 & canonical & E1 & E). unfold storedParentID in E1. rewrite Hf in E1. simpl in E1.
  apply tx_bind_ok in E1 as (s2 & recs & E1 & E2). unfold readNodeAndView, tr_get_bytes in E1. rewrite Hid in E1. tx_inv1 E1.
  rewrite Hi, Hvw in *. simpl in *. match goal with H : (mret _) _ = Ok _ |- _ => apply tx_ret_ok in H as [_ ->] end.
  apply lift_ok in E2 as [_ E2]. rewrite Hb in E2. unfold parentIDValue in E2.
  destruct (quote_plain (uuid_string b)) eqn:Eq; [by apply quote_plain_nonempty in Eq|]. rewrite <-Eq in E2.
  rewrite unmarshal_quote, uuid_parse_string in E2 by apply uuid_string_plain. injection E2 as <-.
  rewrite decide_False in E by tauto. by rewrite decide_False in E.
Qed.

(** Removing a relationship never cuts a node off from its stored
    parent.  A successful removal keeps the store consistent and audited,
    removes at most the named edge, and leaves in place the edge from any
    node to the parent its record names. *)
Theorem removeRelationship_keeps_parent e o a t b st st' u :
  StoreInv (tx_kv st) -> removeRelationshipAttempt e o a t b st = Ok (st', u) ->
  StoreInv (tx_kv st') /\ covered (tx_kv st) st' /\
  (forall k, family k = "relationship" -> k <> relationshipKey o a t b -> fget (tx_kv st') k = fget (tx_kv st) k) /\
  (forall o' id n, lookup_node (tx_kv st) o' id = Some n -> stored_parent n <> uuid_nil ->
     is_Some (fget (tx_kv st) (child_key o' id (stored_parent n))) ->
     is_Some (fget (tx_kv st') (child_key o' id (stored_parent n)))).
Proof.
  intros HI E. unfold removeRelationshipAttempt in E. cbv zeta in E.
  apply tx_bind_ok in E as (s1 & [] & E1 & E). pose proof (reads_refuseOnlyParentRemoval _ _ _ _ _ _ _ E1) as ->.
  apply tx_bind_ok in E as (s2 & strict & E2 & E). apply tx_bind_ok in E as (s3 & [] & E3 & E4).
  destruct (audits_fenceAttempt _ _ _ _ _ _ E2 HI) as (HI2 & P2 & C2).
  set (r := mkRelationship o a t b uuid_nil 0 ∅) in *.
  destruct (removeRelationships_spec _ _ _ _ _ E3 (si_relationships _ HI2)) as (_ & _ & Hk3).
  destruct (audits_relationships _ (touches_removeRelationships e [r]) (audits_removeRelationships e [r]) _ _ _ E3 HI2) as (HI3 & P3 & C3).
  destruct (audits_schedule_if _ _ _ _ _ _ E4 HI3) as (HI4 & P4 & C4).
  assert (touches search_families (if e_searchWork e then scheduleRelatedSearchWork (e_scheduled e) [mkRelChanges [] [r]] else mret tt)) as T4
    by (destruct (e_searchWork e); [apply touches_scheduleRelatedSearchWork|apply touches_ret]).
  assert (forall k, family k = "relationship" -> k <> relationshipKey o a t b -> fget (tx_kv st') k = fget (tx_kv st) k) as Hother.
  { intros k Hf Hne. rewrite (proj1 (T4 _ _ _ E4)) by (rewrite Hf; unfold search_families; set_solver).
    rewrite Hk3 by done. csimpl. rewrite decide_False by (by rewrite list_elem_of_singleton).
    apply (touches_fenceAttempt _ _ _ _ _ _ E2). rewrite Hf. set_solver. }
  split_and!; [done|eapply covered_trans; [eapply covered_trans; [exact C2|exact C3|done]|exact C4|done]|done|].
  intros o' id n Hl Hnil Hedge. rewrite Hother; [done|done|]. intros Hk. unfold child_key, relationshipKey in Hk. key_inv.
  destruct (stored_parent_quoted _ _ _ _ (si_nodes _ HI) Hl Hnil) as (p & Hp & Hpar).
  rewrite Hpar in *. exact (refuseOnlyParentRemoval_canonical o a p n st _ HI Hl Hp Hnil Hedge E1).
Qed.

End subtree.
