(* ===== verification/Sequence.v ===== *)
(** * Sequence counters and the outbox writer

    node_sequence.go, node_sequence_audit.go and ops_outbox_writer.go.  A
    counter is eight little-endian bytes; every change of it is one
    transaction that also records the old and new value.  FoundationDB
    commits transactions in one serial order, so a history of counter
    operations is the list of the committed ones. *)

From S2P Require Import Prelude GoJson Sha256 Bytes Domain Concrete Store Tx Keys Records Schedule.

(** ** Counters *)

Fixpoint le_bytes (n : nat) (s : string) : Z :=
  match n, s with
  | S n', String c s' => (Z.of_N (code c) + 256 * le_bytes n' s')%Z
  | _, _ => 0%Z
  end.

(** A text of at least eight bytes is read as its first eight. *)
Definition encoded_value (v : option value) : res Z :=
  match v with
  | None => Ok 0%Z
  | Some (VInt64 z) => Ok z
  | Some (VText s) | Some (VBytes s) => Ok (if String.length s <? 8 then 0%Z else le_bytes 8 s)
  | Some VEmpty => Ok 0%Z
  | Some _ => Err ErrDecode
  end.

Definition readEncodedSequence (v : option value) : res Z :=
  z ← encoded_value v;
  if (MaxInt64 <? z)%Z then Err ErrOther else Ok z.

Abbreviation sequenceChange := (Z -> res (Z * bool)) (only parsing).

Definition incrementSequence : sequenceChange := fun current =>
  if (current =? MaxInt64)%Z then Err ErrOther else Ok ((current + 1)%Z, true).

Definition raiseSequence (v : Z) : sequenceChange := fun current =>
  if (v <=? current)%Z then Ok (current, false) else Ok (v, true).

Definition NameSpaceURL : uuid := 143098242483405524118141958906375844040%N.
Definition sequenceTargetPrefix : string := "tack:sequence/".

Section sequence.
Context `{FDB : Fdb} `{GL : GoLib}.

Definition writeSequence (k : key) (v : Z) : tx unit :=
  _ ← ensure (0 <=? v)%Z ErrOther;
  tr_set k (VInt64 v).

Definition sequenceTarget (uri name : string) : Target :=
  mkAuditTarget TargetKindResource "sequence" EmptyString name uri EmptyString (uuid_sha1 NameSpaceURL uri) uuid_nil uuid_nil uuid_nil.

Definition scopeSequenceTarget (orgID scopeNodeID : uuid) (nodeType : string) : Target :=
  sequenceTarget (sequenceTargetPrefix +:+ uuid_string orgID +:+ "/" +:+ uuid_string scopeNodeID +:+ "/" +:+ nodeType) nodeType.

Definition keySequenceTarget (orgID : uuid) (counterKey : string) : Target :=
  sequenceTarget (sequenceTargetPrefix +:+ uuid_string orgID +:+ "/" +:+ counterKey) counterKey.

Definition writeAuditedSequence (e : env) (k : key) (target : Target) (change : sequenceChange) : tx (Z * bool) :=
  _ ← startAttempt;
  stored ← tr_get k;
  current ← lift (readEncodedSequence stored);
  '(next, changed) ← lift (change current);
  if negb changed then mret (current, false)
  else
    _ ← writeSequence k next;
    _ ← record e target (match stored with Some _ => Some (VInt64 current) | None => None end) (Some (VInt64 next));
    mret (next, true).

Definition AllocateSequence (e : env) (orgID scopeNodeID : uuid) (nodeType : string) : tx Z :=
  '(seq, _) ← writeAuditedSequence e (sequenceKey orgID scopeNodeID nodeType) (scopeSequenceTarget orgID scopeNodeID nodeType) incrementSequence;
  mret seq.

Definition AllocateSequenceByKey (e : env) (orgID : uuid) (counterKey : string) : tx Z :=
  '(seq, _) ← writeAuditedSequence e (sequenceByKeyKey orgID counterKey) (keySequenceTarget orgID counterKey) incrementSequence;
  mret seq.

Definition SeedSequenceByKey (e : env) (orgID : uuid) (counterKey : string) (v : Z) : tx unit :=
  _ ← writeAuditedSequence e (sequenceByKeyKey orgID counterKey) (keySequenceTarget orgID counterKey) (raiseSequence v);
  mret tt.

Definition RaiseSequenceByKey (e : env) (orgID : uuid) (counterKey : string) (v : Z) : tx bool :=
  '(_, raised) ← writeAuditedSequence e (sequenceByKeyKey orgID counterKey) (keySequenceTarget orgID counterKey) (raiseSequence v);
  mret raised.

Definition PeekSequenceByKey (orgID : uuid) (counterKey : string) : tx Z :=
  v ← tr_get (sequenceByKeyKey orgID counterKey);
  lift (readEncodedSequence v).

(** ** Histories *)

(** A committed counter operation. *)
Inductive counter_op :=
  | OpAllocate (orgID : uuid) (counterKey : string)
  | OpSeed (orgID : uuid) (counterKey : string) (v : Z).

(** The number an operation hands out, if any. *)
Definition run_op (e : env) (op : counter_op) : tx (option (uuid * string * Z)) :=
  match op with
  | OpAllocate o k => z ← AllocateSequenceByKey e o k; mret (Some (o, k, z))
  | OpSeed o k v => _ ← SeedSequenceByKey e o k v; mret None
  end.

Fixpoint run_ops (e : env) (ops : list counter_op) : tx (list (uuid * string * Z)) :=
  match ops with
  | [] => mret []
  | op :: ops' => out ← run_op e op; rest ← run_ops e ops'; mret (option_list out ++ rest)
  end.

(** The numbers handed out for one counter, in commit order. *)
Definition numbers (o : uuid) (k : string) (outs : list (uuid * string * Z)) : list Z :=
  (filter (fun out => out.1 = (o, k)) outs).*2.

(** The stored counter; [0] when absent. *)
Definition counter_at (s : kv) (o : uuid) (k : string) : res Z := readEncodedSequence (fget s (sequenceByKeyKey o k)).

Lemma sequenceByKeyKey_inj o k o' k' : sequenceByKeyKey o k = sequenceByKeyKey o' k' -> o = o' /\ k = k'.
Proof. unfold sequenceByKeyKey. intros E. by key_inv. Qed.

(** One operation moves its own counter up and touches no other. *)
Lemma writeAuditedSequence_ok e k target change st st' z b :
  writeAuditedSequence e k target change st = Ok (st', (z, b)) ->
  exists current, readEncodedSequence (fget (tx_kv st) k) = Ok current /\
    (if b then change current = Ok (z, true) /\ (0 <= z)%Z /\ fget (tx_kv st') k = Some (VInt64 z)
     else z = current /\ fget (tx_kv st') k = fget (tx_kv st) k) /\
    forall k', k' <> k -> fget (tx_kv st') k' = fget (tx_kv st) k'.
Proof.
  unfold writeAuditedSequence. intros E.
  apply tx_bind_ok in E as (s1 & [] & E1 & E). injection E1 as <-.
  apply tx_bind_ok in E as (s2 & v & [-> ->]%tr_get_ok & E). simpl in E.
  apply tx_bind_ok in E as (s3 & current & [-> Hc]%lift_ok & E). exists current. split; [done|].
  apply tx_bind_ok in E as (s4 & [next changed] & [-> Hn]%lift_ok & E). destruct changed; simpl in E.
  - apply tx_bind_ok in E as (s5 & [] & E5 & E). unfold writeSequence in E5.
    apply tx_bind_ok in E5 as (s6 & [] & [-> Hpos]%ensure_ok & ->%modify_ok).
    apply tx_bind_ok in E as (s7 & [] & (Hkv & _ & _)%record_ok & [-> [= -> ->]]%tx_ret_ok). simpl in *. rewrite Hkv.
    split; [split_and!; [done|by apply Z.leb_le|by rewrite fget_set, decide_True]|].
    intros k' Hk'. by rewrite fget_set, decide_False by congruence.
  - apply tx_ret_ok in E as [-> [= -> ->]]. done.
Qed.

Lemma readEncodedSequence_max v z : readEncodedSequence v = Ok z -> (z <= MaxInt64)%Z.
Proof.
  unfold readEncodedSequence. destruct (encoded_value v) as [y|]; simpl; [|done].
  destruct (Z.ltb_spec MaxInt64 y); [done|]. by intros [= ->].
Qed.

(** Allocation hands out the successor of the counter and stores it. *)
Lemma AllocateSequenceByKey_ok e o k st st' z :
  AllocateSequenceByKey e o k st = Ok (st', z) ->
  exists current, counter_at (tx_kv st) o k = Ok current /\ z = (current + 1)%Z /\ counter_at (tx_kv st') o k = Ok z /\
    forall o' k', (o', k') <> (o, k) -> counter_at (tx_kv st') o' k' = counter_at (tx_kv st) o' k'.
Proof.
  unfold AllocateSequenceByKey. intros (s1 & [y b] & E & [-> ->]%tx_ret_ok)%tx_bind_ok.
  destruct (writeAuditedSequence_ok _ _ _ _ _ _ _ _ E) as (current & Hc & Hb & Ho). exists current. split; [done|].
  pose proof (readEncodedSequence_max _ _ Hc) as Hmax.
  assert (b = true) as ->.
  { destruct b; [done|]. exfalso. unfold writeAuditedSequence in E.
    apply tx_bind_ok in E as (? & [] & E1 & E). injection E1 as <-. apply tx_bind_ok in E as (? & v & [-> ->]%tr_get_ok & E).
    apply tx_bind_ok in E as (? & c & [-> Hc']%lift_ok & E). apply tx_bind_ok in E as (? & [n ch] & [-> Hn]%lift_ok & E).
    unfold incrementSequence in Hn. destruct (c =? MaxInt64)%Z; [done|]. injection Hn as <- <-. simpl in E.
    apply tx_bind_ok in E as (? & [] & _ & E). by apply tx_bind_ok in E as (? & [] & _ & [_ ?]%tx_ret_ok). }
  destruct Hb as (Hch & Hpos & Hset). unfold incrementSequence in Hch. destruct (Z.eqb_spec current MaxInt64); [done|].
  injection Hch as <-. split_and!; [done| |].
  - unfold counter_at. rewrite Hset. unfold readEncodedSequence. simpl. destruct (Z.ltb_spec MaxInt64 (current + 1)); [lia|done].
  - intros o' k' Hne. unfold counter_at. rewrite Ho; [done|]. intros []%sequenceByKeyKey_inj. congruence.
Qed.

Lemma SeedSequenceByKey_ok e o k v st st' u :
  SeedSequenceByKey e o k v st = Ok (st', u) -> (v <= MaxInt64)%Z ->
  exists current, counter_at (tx_kv st) o k = Ok current /\ counter_at (tx_kv st') o k = Ok (current `max` v)%Z /\
    forall o' k', (o', k') <> (o, k) -> counter_at (tx_kv st') o' k' = counter_at (tx_kv st) o' k'.
Proof.
  unfold SeedSequenceByKey. intros (s1 & [y b] & E & [-> _]%tx_ret_ok)%tx_bind_ok Hv.
  destruct (writeAuditedSequence_ok _ _ _ _ _ _ _ _ E) as (current & Hc & Hb & Ho). exists current. split; [done|]. split.
  - unfold counter_at. destruct b.
    + destruct Hb as (Hch & Hpos & Hset). unfold raiseSequence in Hch. destruct (Z.leb_spec v current); [done|]. injection Hch as <-.
      rewrite Hset. unfold readEncodedSequence. simpl. destruct (Z.ltb_spec MaxInt64 v); [lia|]. f_equal. lia.
    + destruct Hb as [-> ->]. rewrite Hc. f_equal.
      unfold writeAuditedSequence in E. apply tx_bind_ok in E as (? & [] & E1 & E). injection E1 as <-.
      apply tx_bind_ok in E as (? & w & [-> ->]%tr_get_ok & E). simpl in E.
      apply tx_bind_ok in E as (? & c & [-> Hc']%lift_ok & E). rewrite Hc in Hc'. injection Hc' as <-.
      apply tx_bind_ok in E as (? & [n ch] & [-> Hn]%lift_ok & E). unfold raiseSequence in Hn.
      destruct (Z.leb_spec v current); [lia|]. injection Hn as <- <-. simpl in E.
      apply tx_bind_ok in E as (? & [] & _ & E). by apply tx_bind_ok in E as (? & [] & _ & [_ ?]%tx_ret_ok).
  - intros o' k' Hne. unfold counter_at. rewrite Ho; [done|]. intros []%sequenceByKeyKey_inj. congruence.
Qed.

Definition op_ok (op : counter_op) : Prop := match op with OpSeed _ _ v => (v <= MaxInt64)%Z | _ => True end.

(** The counter and the numbers handed out by a history. *)
Lemma run_ops_numbers e ops o k st st' outs z :
  run_ops e ops st = Ok (st', outs) -> Forall op_ok ops -> counter_at (tx_kv st) o k = Ok z ->
  exists z', counter_at (tx_kv st') o k = Ok z' /\ (z <= z')%Z /\
    StronglySorted Z.lt (numbers o k outs) /\ Forall (fun n => z < n <= z')%Z (numbers o k outs).
Proof.
  intros E Hok. revert st z outs E. induction Hok as [|op ops Hop _ IH]; intros st z outs E Hz; cbn [run_ops] in E.
  { apply tx_ret_ok in E as [-> ->]. exists z. split_and!; [done|lia|constructor|constructor]. }
  apply tx_bind_ok in E as (s1 & out & E1 & E). apply tx_bind_ok in E as (s2 & rest & E2 & [-> ->]%tx_ret_ok).
  destruct op as [o1 k1|o1 k1 v]; cbn [run_op] in E1.
  - apply tx_bind_ok in E1 as (s3 & n & (c & Hc & -> & Hc' & Ho)%AllocateSequenceByKey_ok & [-> ->]%tx_ret_ok).
    destruct (decide ((o, k) = (o1, k1))) as [[= -> ->]|Hne].
    + rewrite Hc in Hz. injection Hz as ->. destruct (IH _ _ _ E2 Hc') as (z' & Hz' & Hle & Hs & Hall).
      exists z'. split_and!; [done|lia|..]; unfold numbers; simpl; rewrite filter_cons_True by done; csimpl.
      * constructor; [done|]. eapply Forall_impl; [exact Hall|]. simpl. lia.
      * constructor; [lia|]. eapply Forall_impl; [exact Hall|]. simpl. lia.
    + rewrite <-(Ho _ _ Hne) in Hz. destruct (IH _ _ _ E2 Hz) as (z' & ? & ? & ? & ?). exists z'.
      unfold numbers. simpl. rewrite filter_cons_False by (simpl; congruence). done.
  - apply tx_bind_ok in E1 as (s3 & [] & Es & [-> ->]%tx_ret_ok). destruct (SeedSequenceByKey_ok _ _ _ _ _ _ _ Es Hop) as (c & Hc & Hc' & Ho).
    destruct (decide ((o, k) = (o1, k1))) as [[= -> ->]|Hne].
    + rewrite Hc in Hz. injection Hz as ->. destruct (IH _ _ _ E2 Hc') as (z' & ? & ? & ? & Hall). exists z'.
      split_and!; [done|lia|done|]. eapply Forall_impl; [exact Hall|]. simpl. lia.
    + rewrite <-(Ho _ _ Hne) in Hz. by destruct (IH _ _ _ E2 Hz) as (z' & ? & ? & ? & ?); eauto.
Qed.

(** C34: Sequence numbers are unique and increasing.  In any serial history of
    committed allocations and seeds over any counters, the numbers handed out
    for one counter are strictly increasing, all above its initial value and
    at most its final value, so none is handed out twice; seeding never
    lowers a counter. *)
Theorem sequence_unique e ops o k st st' outs z :
  run_ops e ops st = Ok (st', outs) -> Forall op_ok ops -> counter_at (tx_kv st) o k = Ok z ->
  exists z', counter_at (tx_kv st') o k = Ok z' /\ (z <= z' <= MaxInt64)%Z /\
    StronglySorted Z.lt (numbers o k outs) /\ NoDup (numbers o k outs) /\
    Forall (fun n => z < n <= z')%Z (numbers o k outs).
Proof.
  intros E Hok Hz. destruct (run_ops_numbers _ _ _ _ _ _ _ _ E Hok Hz) as (z' & Hz' & Hle & Hs & Hall).
  exists z'. pose proof (readEncodedSequence_max _ _ Hz'). split_and!; [done|done|done|done| |done].
  clear -Hs. induction Hs as [|n l Hs IH Hn]; constructor; [|done]. intros Hin.
  rewrite Forall_forall in Hn. specialize (Hn n Hin). lia.
Qed.

(** The top of the counter range is an error, not a wrap-around.  When
    the counter holds the largest int64, an allocation fails and hands out
    nothing. *)
Theorem sequence_overflow e o k st :
  counter_at (tx_kv st) o k = Ok MaxInt64 -> AllocateSequenceByKey e o k st = Err ErrOther.
Proof.
  intros Hz. unfold AllocateSequenceByKey, writeAuditedSequence, counter_at, mbind, tx_bind, startAttempt, tr_get, lift in *.
  simpl. rewrite Hz. unfold incrementSequence. by rewrite Z.eqb_refl.
Qed.

End sequence.

(** ** The outbox writer *)

Definition outboxEntriesPerTransaction : Z := 65536.

(** [next] is a uint16. *)
Record OutboxWriter := mkOutboxWriter {
  ow_next : Z;
  ow_written : Z;
  ow_entries : list (Z * string);
}.

Definition NewOutboxWriter : OutboxWriter := mkOutboxWriter 0 0 [].

Definition write_entry (w : OutboxWriter) (v : string) : OutboxWriter :=
  mkOutboxWriter ((ow_next w + 1) mod 2 ^ 16) (ow_written w + 1) (ow_entries w ++ [(ow_next w, v)]).

Definition outbox_write (w : OutboxWriter) (values : list string) : res OutboxWriter :=
  if (outboxEntriesPerTransaction <? ow_written w + Z.of_nat (length values))%Z then Err ErrOther
  else Ok (foldl write_entry w values).

(** Each call writes one event: a plain one or the records of a multipart
    one. *)
Definition outbox_writes (w : OutboxWriter) (events : list (list string)) : res OutboxWriter :=
  res_foldl outbox_write w events.

(** The writer after [n] entries. *)
Definition writer_inv (w : OutboxWriter) : Prop :=
  ow_written w = Z.of_nat (length (ow_entries w)) /\ (ow_written w <= outboxEntriesPerTransaction)%Z /\
  ow_next w = (ow_written w mod 2 ^ 16)%Z /\ (ow_entries w).*1 = Z.of_nat <$> seq 0 (length (ow_entries w)).

Lemma write_entry_inv w v :
  writer_inv w -> (ow_written w < outboxEntriesPerTransaction)%Z -> writer_inv (write_entry w v).
Proof.
  unfold writer_inv, outboxEntriesPerTransaction. intros (Hl & Hle & Hn & He) Hlt. simpl.
  rewrite length_app. simpl. split_and!; [lia|lia| |].
  - rewrite Hn, Zplus_mod_idemp_l. done.
  - rewrite fmap_app, He, Nat.add_1_r, seq_S, fmap_app. simpl. rewrite Hn, Hl, Z.mod_small by lia. done.
Qed.

Lemma write_entries_inv values w :
  writer_inv w -> (ow_written w + Z.of_nat (length values) <= outboxEntriesPerTransaction)%Z ->
  writer_inv (foldl write_entry w values) /\ (ow_entries (foldl write_entry w values)).*2 = (ow_entries w).*2 ++ values.
Proof.
  revert w. induction values as [|v values IH]; intros w Hw Hle; cbn [foldl length] in *.
  { split; [done|]. by rewrite app_nil_r. }
  destruct (IH (write_entry w v)) as [H1 H2]; [apply write_entry_inv; [done|lia]|simpl; lia|].
  split; [done|]. rewrite H2. simpl. rewrite fmap_app, <-app_assoc. done.
Qed.

Lemma outbox_writes_inv events w w' :
  outbox_writes w events = Ok w' -> writer_inv w ->
  writer_inv w' /\ (ow_entries w').*2 = (ow_entries w).*2 ++ concat events.
Proof.
  unfold outbox_writes. revert w. induction events as [|ev events IH]; intros w E Hw; cbn [res_foldl] in E.
  { injection E as <-. split; [done|]. by rewrite app_nil_r. }
  unfold outbox_write in E at 1. destruct (Z.ltb_spec outboxEntriesPerTransaction (ow_written w + Z.of_nat (length ev))); [done|].
  destruct (write_entries_inv ev w Hw) as [Hw1 He1]; [lia|]. destruct (IH _ E Hw1) as [Hw2 He2]. split; [done|].
  rewrite He2, He1, <-app_assoc. done.
Qed.

(** C35: No audit event of a transaction is lost to a reused user version.
    A writer that accepts a list of events has stored each of their records,
    in order, under the user versions 0, 1, 2, ...: they are distinct, in
    write order and never wrap around the 16-bit field. *)
Theorem outbox_versions events w :
  outbox_writes NewOutboxWriter events = Ok w ->
  (ow_entries w).*2 = concat events /\ (ow_entries w).*1 = Z.of_nat <$> seq 0 (length (concat events)) /\
  NoDup (ow_entries w).*1 /\ Forall (fun v => 0 <= v < 2 ^ 16)%Z (ow_entries w).*1.
Proof.
  intros E. apply outbox_writes_inv in E as [(Hl & Hle & _ & Hv) Hs]; [|unfold writer_inv, outboxEntriesPerTransaction; simpl; split_and!; (lia || done)].
  simpl in Hs. assert (length (ow_entries w) = length (concat events)) as Hlen by (by rewrite <-Hs, length_fmap).
  rewrite Hv, Hlen. split_and!; [done|done|apply NoDup_fmap_2; [apply _|apply NoDup_seq]|].
  apply Forall_fmap, Forall_forall. intros n Hn%elem_of_seq. simpl. unfold outboxEntriesPerTransaction in Hle. lia.
Qed.
