(* ===== verification/AuditEvent.v ===== *)
(** * Audit events and their contract: internal/audit

    The event record of recorder.go and event_contract.go with the checks of
    event_validate.go, event_validate_fields.go, event_validate_legacy.go and
    protected_values.go, and the change events of change_event.go.  The open
    string types (actor kind, operation class, phase, outcome) are strings
    with the source's constants. *)

From S2P Require Import Prelude GoJson Domain Canonical GoTime Store Tx.

(** ** Data *)

Definition ActorUser : string := "user".
Definition ActorService : string := "service".
Definition ActorSystem : string := "system".
Definition ActorToken : string := "api_token".
Definition ActorOperator : string := "operator".
Definition ActorUnauthenticated : string := "unauthenticated".

Definition OperationRead : string := "read".
Definition OperationDatabaseChange : string := "database_change".
Definition OperationExternal : string := "external".

Definition PhaseIntent : string := "intent".
Definition PhaseResult : string := "result".
Definition PhaseChange : string := "change".
Definition PhaseRead : string := "read".

Definition OutcomeOK : string := "ok".
Definition OutcomeError : string := "error".
Definition OutcomePending : string := "pending".
Definition OutcomeUnrecorded : string := "unrecorded".
Definition OutcomeCompleted : string := "completed".
Definition OutcomeRefused : string := "refused".
Definition OutcomeFailed : string := "failed".
Definition OutcomePartiallyCompleted : string := "partially_completed".
Definition OutcomeIncomplete : string := "incomplete".

Definition AuditFormatLegacy : N := 0.
Definition AuditFormatComplete : N := 2.

Record Actor := mkActor {
  ac_Type : string;
  ac_ID : uuid;
  ac_Email : string;
  ac_Name : string;
  ac_SessionID : string;
  ac_IP : string;
  ac_UserAgent : string;
  ac_RequestID : string;
  ac_APITokenLabel : string;
}.

Record Entity := mkEntity {
  en_Type : string;
  en_NodeType : string;
  en_ID : uuid;
  en_Identifier : string;
  en_Name : string;
}.

Record ReadEvidence := mkReadEvidence {
  rd_Count : N;
  rd_PayloadSHA256 : string;
  rd_PayloadFormat : string;
  rd_ManifestSHA256 : string;
  rd_ManifestParts : N;
}.

Record ReadSelection := mkReadSelection {
  sel_Reference : string;
  sel_Criteria : gmap string raw;
}.

Record EventContext := mkEventContext {
  ec_OrgID : uuid;
  ec_WorkspaceID : uuid;
  ec_ScopeID : uuid;
  ec_ParentID : uuid;
  ec_RequestID : string;
  ec_TraceID : string;
  ec_Source : string;
  ec_Tool : string;
  ec_RPC : string;
  ec_Reason : string;
  ec_APITokenID : uuid;
  ec_CommitVersion : string;
  ec_AuditFormatVersion : N;
  ec_OperationClass : string;
  ec_Phase : string;
  ec_OperationID : uuid;
  ec_ParentOperationID : uuid;
  ec_StartedAt : instant;
  ec_CompletedAt : instant;
  ec_Target : option Target;
  ec_Read : option ReadEvidence;
  ec_CommittedSteps : list string;
  ec_Selection : option ReadSelection;
  ec_HTTPMethod : string;
  ec_RequestPath : string;
}.

(** An empty raw message is the absent one. *)
Record Delta := mkDelta {
  dl_Before : raw;
  dl_After : raw;
  dl_Changed : list string;
}.

Record EventError := mkEventError { ee_Code : string; ee_Message : string }.

Record ProtectedValue := mkProtectedValue {
  pv_Ref : uuid;
  pv_SubjectID : uuid;
  pv_Value : raw;
}.

Record Event := mkEvent {
  ev_Verb : string;
  ev_EventID : uuid;
  ev_Actor : Actor;
  ev_Entity : Entity;
  ev_Context : EventContext;
  ev_Delta : option Delta;
  ev_Outcome : string;
  ev_Error : option EventError;
  ev_IdempotencyKey : string;
  ev_OccurredAt : instant;
  ev_Extra : raw;
  ev_Protected : list ProtectedValue;
}.

(** ** Outcomes, actors, phases *)

Definition eqs (a b : string) : bool := bool_decide (a = b).

Definition isTerminalOutcome (outcome : string) : bool :=
  eqs outcome OutcomeCompleted || eqs outcome OutcomeRefused || eqs outcome OutcomeFailed ||
  eqs outcome OutcomePartiallyCompleted || eqs outcome OutcomeIncomplete.

(** Zero for a kind the ledger has no code for. *)
Definition actorKindCode (t : string) : Z :=
  if eqs t ActorUser then 1 else if eqs t ActorService then 2 else if eqs t ActorSystem then 3
  else if eqs t ActorToken then 4 else if eqs t ActorOperator then 5 else if eqs t ActorUnauthenticated then 6 else 0.

Definition actorTypeFromCode (c : Z) : string :=
  if (c =? 1)%Z then ActorUser else if (c =? 2)%Z then ActorService else if (c =? 3)%Z then ActorSystem
  else if (c =? 4)%Z then ActorToken else if (c =? 5)%Z then ActorOperator else if (c =? 6)%Z then ActorUnauthenticated
  else EmptyString.

Definition allowedPhases (class : string) : option (list string) :=
  if eqs class OperationRead then Some [PhaseRead]
  else if eqs class OperationDatabaseChange then Some [PhaseChange; PhaseResult]
  else if eqs class OperationExternal then Some [PhaseIntent; PhaseResult]
  else None.

(** 00000000-0000-0000-0000-0000000005ee. *)
Definition systemOrgID : uuid := 1518.

(** ** Checks of format 2 *)

Definition validateActor (event : Event) : res unit :=
  if eqs (ac_Type (ev_Actor event)) ActorUnauthenticated then
    require (nil (ac_ID (ev_Actor event)) && bool_decide (ec_OrgID (ev_Context event) = systemOrgID)) ErrOther
  else require (negb ((actorKindCode (ac_Type (ev_Actor event)) =? 0)%Z || nil (ac_ID (ev_Actor event)))) ErrOther.

Definition validatePhase (class phase outcome : string) : res unit :=
  match allowedPhases class with
  | None => Err ErrOther
  | Some phases =>
      _ ← require (bool_decide (phase ∈ phases)) ErrOther;
      if eqs phase PhaseIntent then require (eqs outcome OutcomePending) ErrOther
      else
        _ ← require (isTerminalOutcome outcome) ErrOther;
        require (negb (eqs phase PhaseChange && negb (eqs outcome OutcomeCompleted))) ErrOther
  end.

Definition validateCommittedSteps (outcome : string) (steps : list string) : res unit :=
  if eqs outcome OutcomePartiallyCompleted then require (negb (bool_decide (steps = []))) ErrOther
  else if eqs outcome OutcomeCompleted || eqs outcome OutcomeRefused || eqs outcome OutcomeFailed
  then require (bool_decide (steps = [])) ErrOther
  else if eqs outcome OutcomeIncomplete || eqs outcome OutcomePending || eqs outcome OutcomeOK ||
          eqs outcome OutcomeError || eqs outcome OutcomeUnrecorded
  then Ok tt
  else Err ErrOther.

Definition validateOutcomeFields (event : Event) : res unit :=
  let eventContext := ev_Context event in
  let terminal := isTerminalOutcome (ev_Outcome event) in
  let unsuccessful := terminal && negb (eqs (ev_Outcome event) OutcomeCompleted) in
  _ ← require (negb (Bool.eqb terminal (is_zero (ec_CompletedAt eventContext)))) ErrOther;
  _ ← require (negb (terminal && (ec_CompletedAt eventContext <? ec_StartedAt eventContext)%Z)) ErrOther;
  _ ← require (Bool.eqb unsuccessful (match ev_Error event with Some _ => true | None => false end)) ErrOther;
  _ ← require (negb (unsuccessful && match ev_Error event with Some e => blank (ee_Code e) | None => false end)) ErrOther;
  validateCommittedSteps (ev_Outcome event) (ec_CommittedSteps eventContext).

Definition lower_hex (c : Ascii.ascii) : bool := is_digit c || in_range 97 102 c.

Fixpoint all_hex (s : string) : bool :=
  match s with String c s' => lower_hex c && all_hex s' | EmptyString => true end.

Definition sha256HexLength : nat := 64.

(** The digest decodes, and encodes back to the same lower-case text. *)
Definition isSHA256Hex (value : string) : bool := bool_decide (String.length value = sha256HexLength) && all_hex value.

Definition validateReadEvidence (read : ReadEvidence) : res unit :=
  _ ← require (isSHA256Hex (rd_PayloadSHA256 read) && negb (blank (rd_PayloadFormat read))) ErrOther;
  let needsManifest := (0 <? rd_Count read)%N || (0 <? rd_ManifestParts read)%N || negb (blank (rd_ManifestSHA256 read)) in
  require (negb (needsManifest && negb (isSHA256Hex (rd_ManifestSHA256 read)))) ErrOther.

Definition validateClassEvidence (event : Event) : res unit :=
  let eventContext := ev_Context event in
  if negb (eqs (ec_OperationClass eventContext) OperationRead) then
    _ ← require (match ec_Read eventContext with Some _ => false | None => true end) ErrOther;
    let hasValue := match ev_Delta event with Some d => negb (blank (dl_Before d)) || negb (blank (dl_After d)) | None => false end in
    require (negb (eqs (ec_Phase eventContext) PhaseChange && negb hasValue)) ErrOther
  else
    _ ← require (match ev_Delta event with Some _ => false | None => true end) ErrOther;
    match ec_Read eventContext with
    | None => require (negb (eqs (ev_Outcome event) OutcomeCompleted || eqs (ev_Outcome event) OutcomePartiallyCompleted)) ErrOther
    | Some read => validateReadEvidence read
    end.

Definition validateCompleteEvent (event : Event) : res unit :=
  let eventContext := ev_Context event in
  _ ← require (negb (nil (ev_EventID event) || blank (ev_Verb event) || is_zero (ev_OccurredAt event))) ErrOther;
  _ ← require (negb (nil (ec_OrgID eventContext) || nil (ec_OperationID eventContext) || is_zero (ec_StartedAt eventContext))) ErrOther;
  match ec_Target eventContext with
  | None => Err ErrOther
  | Some target =>
      _ ← require (negb (blank (ev_Outcome event))) ErrOther;
      _ ← validateActor event;
      _ ← validateTarget target;
      _ ← require (eqs (en_Type (ev_Entity event)) (kind_text (at_Kind target)) &&
                   bool_decide (en_ID (ev_Entity event) = at_ID target)) ErrOther;
      _ ← validatePhase (ec_OperationClass eventContext) (ec_Phase eventContext) (ev_Outcome event);
      _ ← validateOutcomeFields event;
      validateClassEvidence event
  end.

(** ** Checks of format 0 *)

Definition hasCompleteContextField (c : EventContext) : bool :=
  let operationFields := negb (blank (ec_OperationClass c)) || negb (blank (ec_Phase c)) ||
                         negb (nil (ec_OperationID c)) || negb (nil (ec_ParentOperationID c)) in
  let timeFields := negb (is_zero (ec_StartedAt c)) || negb (is_zero (ec_CompletedAt c)) in
  let evidenceFields := (match ec_Target c with Some _ => true | None => false end) ||
                        (match ec_Read c with Some _ => true | None => false end) ||
                        negb (bool_decide (ec_CommittedSteps c = [])) ||
                        (match ec_Selection c with Some _ => true | None => false end) in
  let requestFields := negb (blank (ec_HTTPMethod c)) || negb (blank (ec_RequestPath c)) in
  operationFields || timeFields || evidenceFields || requestFields.

Definition validateLegacyEvent (event : Event) : res unit :=
  _ ← require (negb (hasCompleteContextField (ev_Context event))) ErrOther;
  _ ← require (negb (isTerminalOutcome (ev_Outcome event))) ErrOther;
  _ ← require (negb (eqs (ac_Type (ev_Actor event)) ActorUnauthenticated)) ErrOther;
  require (bool_decide (ev_Protected event = [])) ErrOther.

(** ** Protected values *)

Section protected.
Context `{GL : GoLib}.

(** The members of a JSON object; duplicates keep the last value. *)
Definition object_members (fs : list (string * json)) : list (string * json) :=
  foldl (fun m kv => map_set kv.1 kv.2 m) [] fs.

(** json.Unmarshal into [map[string]json.RawMessage]. *)
Definition unmarshal_members (v : json) : option (list (string * json)) :=
  match v with
  | JObj fs => Some (object_members fs)
  | JNull => Some []
  | _ => None
  end.

(** json.Unmarshal of one occurrence of a UUID member. *)
Definition unmarshal_uuid (current : option uuid) (v : json) : option uuid :=
  match current, v with
  | Some id, JNull => Some id
  | Some _, JStr s => uuid_parse s
  | _, _ => None
  end.

Definition protectedReferenceKey : string := "pii_ref".

(** The reference of a one-key [pii_ref] object; nil for an invalid UUID. *)
Definition protectedReference (member : json) : option uuid :=
  match member with
  | JObj fs =>
      match object_members fs with
      | [(k, _)] =>
          if decide (k = protectedReferenceKey)
          then Some (default uuid_nil (foldl unmarshal_uuid (Some uuid_nil) fs.*2))
          else None
      | _ => None
      end
  | _ => None
  end.

Definition record_references (record : raw) : list uuid :=
  if blank record then []
  else match json_parse record ≫= unmarshal_members with
       | Some members => omap protectedReference members.*2
       | None => []
       end.

(** One member of the loop: nil and repeated references are refused. *)
Definition add_reference (refs : gset uuid) (ref : uuid) : res (gset uuid) :=
  _ ← require (negb (nil ref)) ErrOther;
  _ ← require (negb (bool_decide (ref ∈ refs))) ErrOther;
  Ok ({[ref]} ∪ refs).

Definition deltaReferences (delta : Delta) : res (gset uuid) :=
  res_foldl add_reference ∅ (record_references (dl_Before delta) ++ record_references (dl_After delta)).

Definition protectedSubject (target : Target) : uuid :=
  if nil (at_OwnerID target) then at_ID target else at_OwnerID target.

(** One protected value of the loop; its reference is consumed. *)
Definition take_value (target : Target) (refs : gset uuid) (value : ProtectedValue) : res (gset uuid) :=
  _ ← require (bool_decide (pv_SubjectID value = protectedSubject target)) ErrOther;
  _ ← require (bool_decide (pv_Ref value ∈ refs)) ErrOther;
  _ ← require (json_valid (pv_Value value)) ErrOther;
  Ok (refs ∖ {[pv_Ref value]}).

Definition validateProtected (event : Event) : res unit :=
  references ← match ev_Delta event with Some d => deltaReferences d | None => Ok ∅ end;
  if bool_decide (references = ∅) && bool_decide (ev_Protected event = []) then Ok tt
  else
    match ec_Target (ev_Context event) with
    | None => Err ErrOther
    | Some target =>
        _ ← require (bool_decide (size references = length (ev_Protected event))) ErrOther;
        _ ← res_foldl (take_value target) references (ev_Protected event);
        Ok tt
    end.

(** ** The contract *)

Definition validateEventContract (event : Event) (pairProtected : bool) : res unit :=
  if (ec_AuditFormatVersion (ev_Context event) =? AuditFormatLegacy)%N then validateLegacyEvent event
  else if (ec_AuditFormatVersion (ev_Context event) =? AuditFormatComplete)%N then
    _ ← validateCompleteEvent event;
    if pairProtected then validateProtected event else Ok tt
  else Err ErrOther.

Definition ValidateEvent (event : Event) : res unit := validateEventContract event true.
Definition validateStoredEvent (event : Event) : res unit := validateEventContract event false.

End protected.

(** ** Change events *)

Record AuditChange := mkAuditChange {
  acg_EventID : uuid;
  acg_Target : Target;
  acg_Before : raw;
  acg_After : raw;
  acg_Changed : list string;
  acg_Protected : list ProtectedValue;
}.

(** [ValidateChange] on the JSON encodings. *)
Definition validate_raw_change (change : AuditChange) : res unit :=
  _ ← require (negb (nil (acg_EventID change))) ErrOther;
  _ ← validateTarget (acg_Target change);
  _ ← require (negb (blank (acg_Before change) && blank (acg_After change))) ErrOther;
  require (forallb (fun value => blank value || json_valid value) [acg_Before change; acg_After change]) ErrOther.

Definition pickVerb (created deleted : bool) (create update remove : string) : string :=
  if created then create else if deleted then remove else update.

Definition TargetNodeTypeDefinition : string := "node_type".
Definition TargetNodeTypePropertyDefinition : string := "property_def".
Definition TargetSequenceCounter : string := "sequence".
Definition TargetSearchSession : string := "search_session".
Definition TargetSearchSessionReplay : string := "search_session_replay".
Definition TargetSearchSessionVisited : string := "search_session_visited".

Definition changeVerb (change : AuditChange) : string :=
  let created := blank (acg_Before change) in
  let deleted := blank (acg_After change) in
  let target := acg_Target change in
  if decide (at_Kind target = TargetKindRelationship)
  then pickVerb created deleted "relationship.add" "relationship.update" "relationship.remove"
  else if decide (at_Kind target = TargetKindResource /\ at_NodeType target = TargetSequenceCounter)
  then pickVerb created deleted "sequence.create" "sequence.update" "sequence.update"
  else if eqs (at_NodeType target) TargetNodeTypeDefinition
  then pickVerb created deleted "node_type.create" "node_type.update" "node_type.delete"
  else if eqs (at_NodeType target) TargetNodeTypePropertyDefinition
  then pickVerb created deleted "property_def.create" "property_def.update" "property_def.delete"
  else if eqs (at_NodeType target) TargetSearchSession || eqs (at_NodeType target) TargetSearchSessionReplay ||
          eqs (at_NodeType target) TargetSearchSessionVisited
  then pickVerb created deleted "search.session_create" "search.session_update" "search.session_delete"
  else pickVerb created deleted "node.create" "node.update" "node.delete".

Definition target_entity (target : Target) : Entity :=
  mkEntity (kind_text (at_Kind target)) (at_NodeType target) (at_ID target) (at_Reference target) (at_Name target).

(** The context of an operation with the fields of one event replaced. *)
Definition operation_context (c : EventContext) (orgID : uuid) (class phase : string) (completedAt : instant)
    (target : Target) (steps : list string) : EventContext :=
  mkEventContext orgID (ec_WorkspaceID c) (ec_ScopeID c) (ec_ParentID c) (ec_RequestID c) (ec_TraceID c)
    (ec_Source c) (ec_Tool c) (ec_RPC c) (ec_Reason c) (ec_APITokenID c) EmptyString AuditFormatComplete class phase
    (ec_OperationID c) (ec_ParentOperationID c) (ec_StartedAt c) completedAt (Some target) None steps
    (ec_Selection c) (ec_HTTPMethod c) (ec_RequestPath c).

Section change_event.
Context `{GL : GoLib}.

Definition ChangeEvent (operation : Event) (change : AuditChange) (completedAt : instant) : res Event :=
  _ ← validate_raw_change change;
  let target := acg_Target change in
  let c := ev_Context operation in
  let event := mkEvent (changeVerb change) (acg_EventID change) (ev_Actor operation) (target_entity target)
    (operation_context c (ec_OrgID c) OperationDatabaseChange PhaseChange completedAt target (ec_CommittedSteps c))
    (Some (mkDelta (acg_Before change) (acg_After change) (acg_Changed change)))
    OutcomeCompleted None EmptyString completedAt (ev_Extra operation) (acg_Protected change) in
  _ ← ValidateEvent event;
  Ok event.

Record OutcomeDetails := mkOutcomeDetails {
  od_Outcome : string;
  od_FailureCode : string;
  od_FailureMessage : string;
  od_CommittedSteps : list string;
}.

(** [now] and [eventID] are the clock reading and the fresh identifier. *)
Definition ChangeFailureEvent (now : instant) (eventID : uuid) (operation : Event) (target : Target) (verb : string)
    (details : OutcomeDetails) : res Event :=
  let c := ev_Context operation in
  let completedAt := if (now <? ec_StartedAt c)%Z then ec_StartedAt c else now in
  let event := mkEvent verb eventID (ev_Actor operation) (target_entity target)
    (operation_context c (if nil (ec_OrgID c) then systemOrgID else ec_OrgID c)
       OperationDatabaseChange PhaseResult completedAt target (od_CommittedSteps details))
    None (od_Outcome details)
    (if eqs (od_Outcome details) OutcomeCompleted then None
     else Some (mkEventError (od_FailureCode details) (od_FailureMessage details)))
    (ev_IdempotencyKey operation) completedAt (ev_Extra operation) (ev_Protected operation) in
  _ ← ValidateEvent event;
  Ok event.

End change_event.

(** ** Reading the checks *)

Lemma require_Ok b e u : require b e = Ok u <-> b = true.
Proof. destruct b, u; unfold require; split; congruence. Qed.

Lemma unit_bind {A} (m : res unit) (k : res A) (r : A) :
  (m ≫= fun _ => k) = Ok r <-> m = Ok tt /\ k = Ok r.
Proof. destruct m as [[]|]; cbn; split; intros; try tauto; try done. by destruct H. Qed.

Lemma eqs_true a b : eqs a b = true <-> a = b.
Proof. unfold eqs. by rewrite bool_decide_eq_true. Qed.

Lemma eqs_refl a : eqs a a = true.
Proof. by apply eqs_true. Qed.

Lemma terminal_cases o :
  isTerminalOutcome o = true <->
  o = OutcomeCompleted \/ o = OutcomeRefused \/ o = OutcomeFailed \/ o = OutcomePartiallyCompleted \/ o = OutcomeIncomplete.
Proof. unfold isTerminalOutcome. rewrite !orb_true_iff, !eqs_true. tauto. Qed.

Lemma actorKind_roundtrip t : actorKindCode t <> 0%Z -> actorTypeFromCode (actorKindCode t) = t.
Proof.
  unfold actorKindCode. repeat (destruct (eqs t _) eqn:E; [apply eqs_true in E as ->; done|clear E]). done.
Qed.

(** ** Protected values pair with references *)

Section protected_spec.
Context `{GL : GoLib}.

Definition event_references (event : Event) : list uuid :=
  match ev_Delta event with
  | Some d => record_references (dl_Before d) ++ record_references (dl_After d)
  | None => []
  end.

Lemma collect_references refs acc R :
  res_foldl add_reference acc refs = Ok R <->
  (uuid_nil ∉ refs) /\ NoDup refs /\ (forall r, r ∈ refs -> r ∉ acc) /\ R = acc ∪ list_to_set refs.
Proof.
  revert acc. induction refs as [|r refs IH]; intros acc; cbn [res_foldl].
  { split; [intros [= <-]; split_and!; [set_solver|constructor|set_solver|set_solver]|].
    intros (_ & _ & _ & ->). f_equal. set_solver. }
  unfold add_reference at 1, nil. destruct (bool_decide_reflect (r = uuid_nil)) as [->|Hr]; cbn; [split; [done|]; intros (H & _); set_solver|].
  destruct (bool_decide_reflect (r ∈ acc)) as [Hin|Hin]; cbn; [split; [done|]; intros (_ & _ & H & _); set_solver|].
  rewrite IH, NoDup_cons. split.
  - intros (H1 & H2 & H3 & ->). split_and!; [set_solver|set_solver|done|set_solver|set_solver].
  - intros (H1 & [H2 H2'] & H3 & ->). split_and!; [set_solver|done|set_solver|set_solver].
Qed.

Lemma consume_values target values R :
  (exists R', res_foldl (take_value target) R values = Ok R') <->
  NoDup (pv_Ref <$> values) /\ (forall r, r ∈ pv_Ref <$> values -> r ∈ R) /\
  Forall (fun v => pv_SubjectID v = protectedSubject target /\ json_valid (pv_Value v) = true) values.
Proof.
  revert R. induction values as [|v values IH]; intros R; cbn [res_foldl].
  { split; [intros _; split_and!; [constructor|set_solver|constructor]|by eexists]. }
  cbn [fmap list_fmap]. rewrite NoDup_cons, Forall_cons. unfold take_value at 1.
  destruct (bool_decide_reflect (pv_SubjectID v = protectedSubject target)); cbn; [|split; [by intros []|tauto]].
  destruct (bool_decide_reflect (pv_Ref v ∈ R)); cbn; [|split; [by intros []|intros (_ & H & _); set_solver]].
  destruct (json_valid (pv_Value v)); cbn; [|split; [by intros []|intros (_ & _ & (_ & H) & _); done]].
  rewrite IH. split.
  - intros (H1 & H2 & H3). split_and!; [set_solver|done|set_solver|done|done|done].
  - intros ((H1 & H1') & H2 & _ & H3). split_and!; [done|set_solver|done].
Qed.

(** A format 2 event's protected values are accepted exactly when they
    match its delta references one to one: no reference is nil or repeated,
    each is supplied by exactly one value, and every value is valid JSON that
    belongs to the owner of the target. *)
Theorem validateProtected_bijective event :
  validateProtected event = Ok tt <->
  (uuid_nil ∉ event_references event) /\ NoDup (event_references event) /\
  (pv_Ref <$> ev_Protected event) ≡ₚ event_references event /\
  Forall (fun v => exists target, ec_Target (ev_Context event) = Some target /\
            pv_SubjectID v = protectedSubject target /\ json_valid (pv_Value v) = true) (ev_Protected event).
Proof.
  unfold validateProtected.
  assert (forall R, (match ev_Delta event with Some d => deltaReferences d | None => Ok ∅ end) = Ok R <->
            (uuid_nil ∉ event_references event) /\ NoDup (event_references event) /\ R = list_to_set (event_references event)) as HR.
  { intros R. unfold event_references. destruct (ev_Delta event) as [d|].
    - unfold deltaReferences. rewrite collect_references. split; [intros (? & ? & _ & ->)|intros (? & ? & ->)]; split_and!; set_solver.
    - split; [intros [= <-]; split_and!; [set_solver|constructor|done]|by intros (_ & _ & ->)]. }
  destruct (match ev_Delta event with Some d => _ | None => Ok ∅ end) as [R|e]; cbn.
  2:{ split; [done|]. intros (H1 & H2 & _). discriminate (proj2 (HR _) (conj H1 (conj H2 eq_refl))). }
  destruct (proj1 (HR R) eq_refl) as (Hnil & Hnd & ->). clear HR.
  set (refs := event_references event) in *. set (values := ev_Protected event).
  destruct (bool_decide (list_to_set refs = ∅) && bool_decide (values = [])) eqn:Hempty; cbn.
  { apply andb_true_iff in Hempty as [H1%bool_decide_eq_true H2%bool_decide_eq_true].
    assert (refs = []) as -> by (destruct refs; [done|set_solver]). rewrite H2. split; [|done]. intros _. by repeat constructor. }
  assert (values ≡ₚ [] -> pv_Ref <$> values ≡ₚ refs -> False) as Hne.
  { intros ->%Permutation_nil_r Hp. symmetry in Hp. apply Permutation_nil_r in Hp. rewrite Hp in Hempty. done. }
  destruct (ec_Target (ev_Context event)) as [target|] eqn:Et.
  2:{ split; [done|]. intros (_ & _ & Hp & HF). exfalso. destruct values as [|v values]; [by apply Hne|].
      inversion HF as [|? ? (? & ? & _)]. congruence. }
  pose proof (consume_values target values (list_to_set refs)) as Hcv.
  rewrite size_list_to_set by done.
  destruct (bool_decide_reflect (length refs = length values)) as [Hlen|Hlen]; cbn.
  2:{ split; [done|]. intros (_ & _ & Hp%Permutation_length & _). rewrite length_fmap in Hp. congruence. }
  trans (exists R', res_foldl (take_value target) (list_to_set refs) values = Ok R').
  { destruct (res_foldl _ _ _); cbn; split; eauto; try done. by intros []. }
  rewrite Hcv. split.
  - intros (H1 & H2 & H3). split_and!; [done|done| |].
    + apply submseteq_length_Permutation; [|rewrite length_fmap; lia]. apply NoDup_submseteq; [done|]. intros r Hr%H2. set_solver.
    + eapply Forall_impl; [done|]. intros v [? ?]. eauto.
  - intros (_ & _ & Hp & HF). split_and!; [by rewrite Hp|intros r; rewrite Hp; set_solver|].
    eapply Forall_impl; [done|]. intros v (t & [= <-] & ? & ?). done.
Qed.

End protected_spec.

(** ** The checks of a format 2 event, one by one *)

Lemma validateCompleteEvent_iff e :
  validateCompleteEvent e = Ok tt <->
  exists target, ec_Target (ev_Context e) = Some target /\
    (ev_EventID e <> uuid_nil /\ ev_Verb e <> EmptyString /\ ev_OccurredAt e <> 0%Z) /\
    (ec_OrgID (ev_Context e) <> uuid_nil /\ ec_OperationID (ev_Context e) <> uuid_nil /\ ec_StartedAt (ev_Context e) <> 0%Z) /\
    ev_Outcome e <> EmptyString /\ validateActor e = Ok tt /\ validateTarget target = Ok tt /\
    (en_Type (ev_Entity e) = kind_text (at_Kind target) /\ en_ID (ev_Entity e) = at_ID target) /\
    validatePhase (ec_OperationClass (ev_Context e)) (ec_Phase (ev_Context e)) (ev_Outcome e) = Ok tt /\
    validateOutcomeFields e = Ok tt /\ validateClassEvidence e = Ok tt.
Proof.
  unfold validateCompleteEvent, nil, blank, is_zero. cbv zeta. rewrite !unit_bind.
  destruct (ec_Target (ev_Context e)) as [target|]; [|split; [by intros (_ & _ & ?)|by intros (? & ? & _)]].
  rewrite !unit_bind, !require_Ok.
  rewrite !negb_true_iff, !orb_false_iff, !andb_true_iff, !bool_decide_eq_false, !Z.eqb_neq, eqs_true, bool_decide_eq_true.
  split.
  - intros H. exists target. tauto.
  - intros (t & [= <-] & H). tauto.
Qed.
