(* ===== verification/External.v ===== *)
(** * External operations: internal/audit/external*.go and service_run.go

    An operation on another system writes an intent event before it runs, an
    intent and a result for each step, and one result event.  The outbox, the
    clock and the fresh identifiers are the [world]; what the run function
    does is the list of recorder calls it makes with the outcome and the
    error it returns. *)

From S2P Require Import Prelude GoJson Domain Canonical GoTime Store Tx AuditEvent.
From Stdlib Require Import Ascii.

(** ** The world *)

(** What the caller passes and what the calls observe: whether the outbox is
    nil and whether it implements IdempotentOutboxWriter, and for the n-th
    observation the clock, the fresh identifier and whether the write fails. *)
Record externalEnv := mkExternalEnv {
  x_nil : bool;
  x_idempotent : bool;
  x_clock : nat -> instant;
  x_fresh : nat -> uuid;
  x_fails : nat -> bool;
}.

Record world := mkWorld { w_outbox : list Event; w_tick : nat }.

Definition io (A : Type) : Type := world -> world * A.

#[export] Instance io_ret : MRet io := fun A a w => (w, a).
#[export] Instance io_bind : MBind io := fun A B f m w => let '(w', a) := m w in f a w'.

Definition observe {A} (f : nat -> A) : io A := fun w => (mkWorld (w_outbox w) (S (w_tick w)), f (w_tick w)).

(** [WriteOutbox]. *)
Definition write_outbox (x : externalEnv) (events : list Event) : io (res unit) := fun w =>
  if x_fails x (w_tick w) then (mkWorld (w_outbox w) (S (w_tick w)), Err ErrOther)
  else (mkWorld (w_outbox w ++ events) (S (w_tick w)), Ok tt).

(** [WriteOutboxIfAbsent] when the outbox has it. *)
Definition writeOnce (x : externalEnv) (event : Event) : io (res unit) := fun w =>
  if x_idempotent x && existsb (fun e => bool_decide (ev_EventID e = ev_EventID event)) (w_outbox w)
  then if x_fails x (w_tick w) then (mkWorld (w_outbox w) (S (w_tick w)), Err ErrOther)
       else (mkWorld (w_outbox w) (S (w_tick w)), Ok tt)
  else write_outbox x [event] w.

(** ** Step identities *)

Fixpoint join (sep : string) (l : list string) : string :=
  match l with [] => EmptyString | [s] => s | s :: l' => s +:+ sep +:+ join sep l' end.

Section external.
Context `{GL : GoLib}.

Definition nul : string := String "000" EmptyString.

Definition externalTargetKey (target : Target) : string :=
  join nul [kind_text (at_Kind target); at_NodeType target; at_Reference target; at_URI target; at_RelationType target;
            uuid_string (at_ID target); uuid_string (at_SourceID target); uuid_string (at_TargetID target)].

Definition targetLabel (target : Target) : string :=
  if negb (blank (at_Reference target)) then at_Reference target
  else if negb (blank (at_URI target)) then at_URI target
  else if negb (blank (at_Name target)) then at_Name target
  else uuid_string (at_ID target).

Definition StepOperationID (parentOperationID : uuid) (target : Target) : uuid :=
  uuid_sha1 parentOperationID ("step" +:+ nul +:+ externalTargetKey target).

Definition StepIntentEventID (parentOperationID : uuid) (target : Target) : uuid :=
  uuid_sha1 (StepOperationID parentOperationID target) "intent".

(** ** Steps *)

Record stepRecorder := mkStepRecorder {
  sr_order : list string;
  sr_labels : gmap string string;
  sr_started : gmap string instant;
  sr_finished : gmap string string;
}.

Definition newStepRecorder : stepRecorder := mkStepRecorder [] ∅ ∅ ∅.

(** The parent's context with the fields of one step. *)
Definition step_context (c : EventContext) (phase : string) (operationID : uuid) (startedAt completedAt : instant)
    (target : Target) (steps : list string) : EventContext :=
  mkEventContext (ec_OrgID c) (ec_WorkspaceID c) (ec_ScopeID c) (ec_ParentID c) (ec_RequestID c) (ec_TraceID c)
    (ec_Source c) (ec_Tool c) (ec_RPC c) (ec_Reason c) (ec_APITokenID c) (ec_CommitVersion c) (ec_AuditFormatVersion c)
    (ec_OperationClass c) phase operationID (ec_OperationID c) startedAt completedAt (Some target) (ec_Read c) steps
    (ec_Selection c) (ec_HTTPMethod c) (ec_RequestPath c).

(** [stepEvent] with the phase and the event ID its callers set. *)
Definition stepEvent (parent step : Event) (target : Target) (phase : string) (eventID : uuid)
    (startedAt completedAt : instant) : Event :=
  let c := ev_Context parent in
  mkEvent (ev_Verb parent) eventID (ev_Actor parent) (target_entity target)
    (step_context c phase (StepOperationID (ec_OperationID c) target) startedAt completedAt target
       (ec_CommittedSteps (ev_Context step)))
    (ev_Delta step) (ev_Outcome step) (ev_Error step) EmptyString completedAt (ev_Extra step) (ev_Protected parent).

Definition intentEvent (parent step : Event) (target : Target) (now : instant) : Event :=
  let e := stepEvent parent step target PhaseIntent (StepIntentEventID (ec_OperationID (ev_Context parent)) target) now now in
  let c := ev_Context parent in
  mkEvent (ev_Verb e) (ev_EventID e) (ev_Actor e) (ev_Entity e)
    (step_context c PhaseIntent (StepOperationID (ec_OperationID c) target) now 0 target [])
    (ev_Delta e) OutcomePending None EmptyString now (ev_Extra e) (ev_Protected e).

Definition noteBegun (r : stepRecorder) (target : Target) (startedAt : instant) : stepRecorder :=
  let key := externalTargetKey target in
  match sr_started r !! key with
  | Some _ => r
  | None => mkStepRecorder (sr_order r ++ [key]) (<[key := targetLabel target]> (sr_labels r))
              (<[key := startedAt]> (sr_started r)) (sr_finished r)
  end.

(** The recorder's result is the error of the call and its new state. *)
Definition BeginStep (x : externalEnv) (parent : Event) (r : stepRecorder) (step : Event) : io (stepRecorder * res unit) :=
  match ec_Target (ev_Context step) with
  | None => mret (r, Err ErrEventNotRecorded)
  | Some target =>
      now ← observe (x_clock x);
      let event := intentEvent parent step target now in
      match ValidateEvent event with
      | Err _ => mret (r, Err ErrEventNotRecorded)
      | Ok _ =>
          written ← writeOnce x event;
          match written with
          | Err _ => mret (r, Err ErrEventNotRecorded)
          | Ok _ => mret (noteBegun r target now, Ok tt)
          end
      end
  end.

Definition FinishStep (x : externalEnv) (parent : Event) (r : stepRecorder) (step : Event) : io (stepRecorder * res unit) :=
  match ec_Target (ev_Context step) with
  | None => mret (r, Err ErrEventNotRecorded)
  | Some target =>
      let key := externalTargetKey target in
      match sr_started r !! key with
      | None => mret (r, Err ErrEventNotRecorded)
      | Some startedAt =>
          now ← observe (x_clock x);
          eventID ← observe (x_fresh x);
          let event := stepEvent parent step target PhaseResult eventID startedAt now in
          match ValidateEvent event with
          | Err _ => mret (r, Err ErrEventNotRecorded)
          | Ok _ =>
              written ← write_outbox x [event];
              match written with
              | Err _ => mret (r, Err ErrEventNotRecorded)
              | Ok _ => mret (mkStepRecorder (sr_order r) (sr_labels r) (sr_started r) (<[key := ev_Outcome event]> (sr_finished r)), Ok tt)
              end
          end
      end
  end.

Record stepSummary := mkStepSummary { ss_committed : list string; ss_unfinished : list string }.

(** The labels of the committed and of the unfinished steps, in begin order. *)
Definition summary (r : stepRecorder) : stepSummary :=
  mkStepSummary
    (omap (fun key => match sr_finished r !! key with
                      | Some outcome => if eqs outcome OutcomeCompleted || eqs outcome OutcomePartiallyCompleted
                                        then Some (default EmptyString (sr_labels r !! key)) else None
                      | None => None
                      end) (sr_order r))
    (omap (fun key => match sr_finished r !! key with
                      | Some _ => None
                      | None => Some (default EmptyString (sr_labels r !! key))
                      end) (sr_order r)).

(** ** Outcome of an attempt *)

Definition externalStepUnfinishedCode : string := "step_unfinished".
Definition externalOutcomeUnknownCode : string := "outcome_unknown".

Definition with_outcome (d : OutcomeDetails) (outcome : string) : OutcomeDetails :=
  mkOutcomeDetails outcome (od_FailureCode d) (od_FailureMessage d) (od_CommittedSteps d).

(** A run error fails an attempt that reports no other outcome, and an
    attempt without an outcome completed. *)
Definition reported_outcome (details : OutcomeDetails) (runErr : option string) : string :=
  let o := od_Outcome details in
  let o := match runErr with Some _ => if blank o || eqs o OutcomeCompleted then OutcomeFailed else o | None => o end in
  if blank o then OutcomeCompleted else o.

Definition resolve_incomplete (details resolved : OutcomeDetails) (steps : stepSummary) : OutcomeDetails :=
  let resolved :=
    if isTerminalOutcome (od_Outcome resolved) then resolved
    else mkOutcomeDetails OutcomeIncomplete externalOutcomeUnknownCode
           ("the operation returned outcome " +:+ od_Outcome details +:+ ", which is not a terminal outcome")
           (od_CommittedSteps resolved) in
  if negb (bool_decide (ss_unfinished steps = [])) && negb (eqs (od_Outcome resolved) OutcomeIncomplete)
  then mkOutcomeDetails OutcomeIncomplete externalStepUnfinishedCode
         ("these steps began without a saved result: " +:+ join ", " (ss_unfinished steps)) (od_CommittedSteps resolved)
  else resolved.

(** The reported committed steps with the recorded ones that are missing. *)
Definition all_committed (details : OutcomeDetails) (steps : stepSummary) : list string :=
  foldl (fun committed step => if decide (step ∈ committed) then committed else committed ++ [step])
    (od_CommittedSteps details) (ss_committed steps).

Definition committed_outcome (outcome : string) (committed : list string) : string :=
  if eqs outcome OutcomeFailed || eqs outcome OutcomeRefused
  then if negb (bool_decide (committed = [])) then OutcomePartiallyCompleted else outcome
  else if eqs outcome OutcomePartiallyCompleted
  then if bool_decide (committed = []) then OutcomeFailed else outcome
  else outcome.

Definition resolveExternalOutcome (details : OutcomeDetails) (runErr : option string) (steps : stepSummary) : OutcomeDetails :=
  let resolved := with_outcome details (reported_outcome details runErr) in
  let resolved := resolve_incomplete details resolved steps in
  let committed := all_committed details steps in
  let outcome := committed_outcome (od_Outcome resolved) committed in
  let listed := if eqs outcome OutcomePartiallyCompleted || eqs outcome OutcomeIncomplete then committed else [] in
  if eqs outcome OutcomeCompleted then mkOutcomeDetails outcome EmptyString EmptyString listed
  else
    let code := if blank (od_FailureCode resolved) then "external_" +:+ outcome else od_FailureCode resolved in
    let message := if blank (od_FailureMessage resolved) then default EmptyString runErr else od_FailureMessage resolved in
    let message := if blank message then "the operation ended with outcome " +:+ outcome else message in
    mkOutcomeDetails outcome code message listed.

(** ** The operation *)

Definition result_context (c : EventContext) (completedAt : instant) (steps : list string) : EventContext :=
  mkEventContext (ec_OrgID c) (ec_WorkspaceID c) (ec_ScopeID c) (ec_ParentID c) (ec_RequestID c) (ec_TraceID c)
    (ec_Source c) (ec_Tool c) (ec_RPC c) (ec_Reason c) (ec_APITokenID c) (ec_CommitVersion c) (ec_AuditFormatVersion c)
    (ec_OperationClass c) PhaseResult (ec_OperationID c) (ec_ParentOperationID c) (ec_StartedAt c) completedAt
    (ec_Target c) (ec_Read c) steps (ec_Selection c) (ec_HTTPMethod c) (ec_RequestPath c).

Definition externalResult (now : instant) (eventID : uuid) (intent : Event) (steps : stepSummary)
    (details : OutcomeDetails) (runErr : option string) : Event :=
  let c := ev_Context intent in
  let completedAt := if (now <? ec_StartedAt c)%Z then ec_StartedAt c else now in
  let resolved := resolveExternalOutcome details runErr steps in
  mkEvent (ev_Verb intent) eventID (ev_Actor intent) (ev_Entity intent)
    (result_context c completedAt (od_CommittedSteps resolved))
    (ev_Delta intent) (od_Outcome resolved)
    (if eqs (od_Outcome resolved) OutcomeCompleted then None
     else Some (mkEventError (od_FailureCode resolved) (od_FailureMessage resolved)))
    (ev_IdempotencyKey intent) now (ev_Extra intent) (ev_Protected intent).

Definition validateExternalIntent (intent : Event) : res unit :=
  let c := ev_Context intent in
  _ ← require ((ec_AuditFormatVersion c =? AuditFormatComplete)%N && eqs (ec_OperationClass c) OperationExternal &&
               eqs (ec_Phase c) PhaseIntent) ErrOther;
  ValidateEvent intent.

(** A run function: its calls on the StepRecorder, each continued with the
    error the call returned, and the outcome and the error it returns. *)
Inductive runFunc :=
  | RunReturn (details : OutcomeDetails) (runErr : option string)
  | RunBegin (step : Event) (next : res unit -> runFunc)
  | RunFinish (step : Event) (next : res unit -> runFunc).

Fixpoint run_func (x : externalEnv) (parent : Event) (r : stepRecorder) (run : runFunc) : io (stepRecorder * (OutcomeDetails * option string)) :=
  match run with
  | RunReturn details runErr => mret (r, (details, runErr))
  | RunBegin step next => '(r', e) ← BeginStep x parent r step; run_func x parent r' (next e)
  | RunFinish step next => '(r', e) ← FinishStep x parent r step; run_func x parent r' (next e)
  end.

Definition recordExternalResult (x : externalEnv) (result : Event) : io (res unit) :=
  match ValidateEvent result with
  | Err _ => mret (Err ErrEventNotRecorded)
  | Ok _ =>
      written ← write_outbox x [result];
      mret (match written with Ok _ => Ok tt | Err _ => Err ErrEventNotRecorded end)
  end.

Definition finishExternal (x : externalEnv) (intent : Event) (r : stepRecorder) (run : runFunc) : io (res unit) :=
  '(r', (details, runErr)) ← run_func x intent r run;
  now ← observe (x_clock x);
  eventID ← observe (x_fresh x);
  let result := externalResult now eventID intent (summary r') details runErr in
  recorded ← recordExternalResult x result;
  mret (match recorded with
        | Err e => Err e
        | Ok _ => match runErr with Some _ => Err ErrOther | None => Ok tt end
        end).

Definition RunExternal (x : externalEnv) (intent : Event) (run : runFunc) : io (res unit) :=
  if x_nil x then mret (Err ErrExternalIntentNotSaved)
  else
    match validateExternalIntent intent with
    | Err _ => mret (Err ErrExternalIntentNotSaved)
    | Ok _ =>
        written ← writeOnce x intent;
        match written with
        | Err _ => mret (Err ErrExternalIntentNotSaved)
        | Ok _ => finishExternal x intent newStepRecorder run
        end
    end.

(** One step whose intent is committed together with the operation's. *)
Definition RunExternalStep (x : externalEnv) (intent step : Event) (run : runFunc) : io (res unit) :=
  if x_nil x then mret (Err ErrExternalIntentNotSaved)
  else
    match validateExternalIntent intent, ec_Target (ev_Context step) with
    | Ok _, Some target =>
        now ← observe (x_clock x);
        let stepIntent := intentEvent intent step target now in
        match ValidateEvent stepIntent with
        | Err _ => mret (Err ErrExternalIntentNotSaved)
        | Ok _ =>
            written ← write_outbox x [intent; stepIntent];
            match written with
            | Err _ => mret (Err ErrExternalIntentNotSaved)
            | Ok _ => finishExternal x intent (noteBegun newStepRecorder target now) run
            end
        end
    | _, _ => mret (Err ErrExternalIntentNotSaved)
    end.

(** ** Service jobs *)

Definition empty_context : EventContext :=
  mkEventContext uuid_nil uuid_nil uuid_nil uuid_nil EmptyString EmptyString EmptyString EmptyString EmptyString EmptyString
    uuid_nil EmptyString 0 EmptyString EmptyString uuid_nil uuid_nil 0 0 None None [] None EmptyString EmptyString.

Definition step_target (target : Target) : EventContext :=
  mkEventContext uuid_nil uuid_nil uuid_nil uuid_nil EmptyString EmptyString EmptyString EmptyString EmptyString EmptyString
    uuid_nil EmptyString 0 EmptyString EmptyString uuid_nil uuid_nil 0 0 (Some target) None [] None EmptyString EmptyString.

Definition empty_actor : Actor := mkActor EmptyString uuid_nil EmptyString EmptyString EmptyString EmptyString EmptyString EmptyString EmptyString.

Definition ExternalStep (target : Target) (evidence : raw) : Event :=
  mkEvent EmptyString uuid_nil empty_actor (mkEntity EmptyString EmptyString uuid_nil EmptyString EmptyString)
    (step_target target) None EmptyString None EmptyString 0 evidence [].

Definition FinishedStep (step : Event) (details : OutcomeDetails) (evidence : raw) : Event :=
  let c := ev_Context step in
  let outcome := if blank (od_Outcome details) then OutcomeCompleted else od_Outcome details in
  mkEvent (ev_Verb step) (ev_EventID step) (ev_Actor step) (ev_Entity step)
    (mkEventContext (ec_OrgID c) (ec_WorkspaceID c) (ec_ScopeID c) (ec_ParentID c) (ec_RequestID c) (ec_TraceID c)
       (ec_Source c) (ec_Tool c) (ec_RPC c) (ec_Reason c) (ec_APITokenID c) (ec_CommitVersion c) (ec_AuditFormatVersion c)
       (ec_OperationClass c) (ec_Phase c) (ec_OperationID c) (ec_ParentOperationID c) (ec_StartedAt c) (ec_CompletedAt c)
       (ec_Target c) (ec_Read c) (od_CommittedSteps details) (ec_Selection c) (ec_HTTPMethod c) (ec_RequestPath c))
    (ev_Delta step) outcome
    (if eqs outcome OutcomeCompleted then None else Some (mkEventError (od_FailureCode details) (od_FailureMessage details)))
    (ev_IdempotencyKey step) (ev_OccurredAt step) (if blank evidence then ev_Extra step else evidence) (ev_Protected step).

Definition ServiceActor (id : uuid) (name : string) : Actor :=
  mkActor ActorService id EmptyString name EmptyString EmptyString EmptyString EmptyString EmptyString.

Definition service_intent (actor : Actor) (verb : string) (target : Target) (now : instant) (eventID operationID : uuid) : Event :=
  mkEvent verb eventID actor (target_entity target)
    (mkEventContext systemOrgID uuid_nil uuid_nil uuid_nil EmptyString EmptyString "system" EmptyString EmptyString EmptyString
       uuid_nil EmptyString AuditFormatComplete OperationExternal PhaseIntent operationID uuid_nil now 0
       (Some target) None [] None EmptyString EmptyString)
    None OutcomePending None EmptyString now EmptyString [].

Definition RunServiceExternal (x : externalEnv) (actor : Actor) (verb : string) (target : Target) (run : runFunc) : io (res unit) :=
  now ← observe (x_clock x);
  eventID ← observe (x_fresh x);
  operationID ← observe (x_fresh x);
  RunExternal x (service_intent actor verb target now eventID operationID) run.

Definition serviceStepCode : string := "step_failed".

Definition failedServiceStep (cause : string) : OutcomeDetails := mkOutcomeDetails OutcomeFailed serviceStepCode cause [].

(** The text of an error the recorder returned, after the run error if any. *)
Variable error_text : option string -> sentinel -> string.

(** [RunServiceStep]'s run function: [effect] is the error of the effect and
    [observed] the evidence and the error of the observation after it. *)
Definition service_step_run (target : Target) (planned : raw) (effect : option string) (observed : raw * option string) : runFunc :=
  let step := ExternalStep target planned in
  RunBegin step (fun begun =>
    match begun with
    | Err e => RunReturn (failedServiceStep (error_text None e)) (Some (error_text None e))
    | Ok _ =>
        let '(evidence, runErr) := match effect with Some e => (EmptyString, Some e) | None => observed end in
        let details := match runErr with
                       | Some cause => failedServiceStep cause
                       | None => mkOutcomeDetails OutcomeCompleted EmptyString EmptyString []
                       end in
        RunFinish (FinishedStep step details evidence) (fun finished =>
          match finished with
          | Err e => RunReturn details (Some (error_text runErr e))
          | Ok _ => RunReturn details runErr
          end)
    end).

Definition RunServiceStep (x : externalEnv) (actor : Actor) (verb : string) (target : Target) (planned : raw)
    (effect : option string) (observed : raw * option string) : io (res unit) :=
  RunServiceExternal x actor verb target (service_step_run target planned effect observed).

End external.

(** ** The resolved outcome *)

Section outcome.
Implicit Types (details : OutcomeDetails) (steps : stepSummary).

Lemma all_committed_spec details steps s :
  s ∈ all_committed details steps <-> s ∈ od_CommittedSteps details \/ s ∈ ss_committed steps.
Proof.
  unfold all_committed. generalize (od_CommittedSteps details). induction (ss_committed steps) as [|c l IH]; intros acc; cbn [foldl].
  - set_solver.
  - rewrite IH. case_decide; set_solver.
Qed.

(** What the attempt reports before its committed steps are counted. *)
Definition attempt_outcome details (runErr : option string) steps : string :=
  od_Outcome (resolve_incomplete details (with_outcome details (reported_outcome details runErr)) steps).

Lemma attempt_outcome_unfold details runErr steps :
  attempt_outcome details runErr steps =
    if isTerminalOutcome (reported_outcome details runErr) && bool_decide (ss_unfinished steps = [])
    then reported_outcome details runErr else OutcomeIncomplete.
Proof.
  unfold attempt_outcome, resolve_incomplete, with_outcome. cbn [od_Outcome].
  destruct (isTerminalOutcome _), (bool_decide _); cbn; try done.
  destruct (eqs _ _) eqn:E; [|done]. by apply eqs_true in E.
Qed.

Lemma attempt_terminal details runErr steps : isTerminalOutcome (attempt_outcome details runErr steps) = true.
Proof. rewrite attempt_outcome_unfold. destruct (isTerminalOutcome (reported_outcome _ _)) eqn:E, (bool_decide _); done. Qed.

Lemma reported_completed details runErr :
  reported_outcome details runErr = OutcomeCompleted <->
  runErr = None /\ (od_Outcome details = EmptyString \/ od_Outcome details = OutcomeCompleted).
Proof.
  unfold reported_outcome, blank. destruct runErr as [e|].
  - split; [|by intros []]. destruct (bool_decide_reflect (od_Outcome details = EmptyString)); cbn; [done|].
    destruct (eqs (od_Outcome details) OutcomeCompleted) eqn:E; cbn; [done|].
    case_bool_decide; [done|]. intros E'. rewrite E' in E. done.
  - case_bool_decide; split; [intros _|done|intros ?|intros (_ & [?|?])]; split_and?; eauto; done.
Qed.

Lemma committed_outcome_cases outcome committed :
  isTerminalOutcome outcome = true ->
  isTerminalOutcome (committed_outcome outcome committed) = true /\
  (committed_outcome outcome committed = OutcomeCompleted <-> outcome = OutcomeCompleted) /\
  (committed_outcome outcome committed = OutcomeIncomplete <-> outcome = OutcomeIncomplete) /\
  (committed_outcome outcome committed = OutcomeFailed \/ committed_outcome outcome committed = OutcomeRefused -> committed = []) /\
  (committed_outcome outcome committed = OutcomePartiallyCompleted -> committed <> []).
Proof.
  intros [->|[->|[->|[->| ->]]]]%terminal_cases; unfold committed_outcome; cbn;
    destruct (bool_decide_reflect (committed = [])); cbn; split_and!; try done; try tauto; try (by intros [?|?]).
Qed.

Lemma blank_false s : blank s = false <-> s <> EmptyString.
Proof. unfold blank. by rewrite bool_decide_eq_false. Qed.

Lemma resolve_fields details runErr steps :
  let r := resolveExternalOutcome details runErr steps in
  let committed := all_committed details steps in
  od_Outcome r = committed_outcome (attempt_outcome details runErr steps) committed /\
  od_CommittedSteps r = (if eqs (od_Outcome r) OutcomePartiallyCompleted || eqs (od_Outcome r) OutcomeIncomplete then committed else []) /\
  (od_Outcome r <> OutcomeCompleted -> od_FailureCode r <> EmptyString /\ od_FailureMessage r <> EmptyString).
Proof.
  cbv zeta. unfold resolveExternalOutcome, attempt_outcome.
  set (o := committed_outcome _ _). destruct (eqs o OutcomeCompleted) eqn:E; cbn.
  - apply eqs_true in E. rewrite E. by split_and!.
  - split_and!; [done..|]. intros _. split.
    + case_match; [done|]. by apply blank_false.
    + case_match; [done|]. by apply blank_false.
Qed.

(** What the contract asks of the resolved outcome. *)
Lemma resolved_contract details runErr steps (r := resolveExternalOutcome details runErr steps) :
  isTerminalOutcome (od_Outcome r) = true /\
  (od_Outcome r = OutcomePartiallyCompleted -> od_CommittedSteps r <> []) /\
  (od_Outcome r = OutcomeCompleted \/ od_Outcome r = OutcomeFailed \/ od_Outcome r = OutcomeRefused -> od_CommittedSteps r = []) /\
  (od_Outcome r <> OutcomeCompleted -> od_FailureCode r <> EmptyString /\ od_FailureMessage r <> EmptyString).
Proof.
  subst r. destruct (resolve_fields details runErr steps) as (Ho & Hs & Hf).
  destruct (committed_outcome_cases _ (all_committed details steps) (attempt_terminal details runErr steps)) as (H1 & _ & _ & _ & H5).
  rewrite <- Ho in H1, H5. split_and!; [done|..|done].
  - intros Hp. rewrite Hs, Hp. by apply H5.
  - intros [Hp|[Hp|Hp]]; rewrite Hs, Hp; done.
Qed.

(** The outcome saved for an external operation is honest about the run
    and its recorded steps: it is always terminal; it is completed only for
    a run without an error, without an unfinished step and with no other
    reported outcome; an unfinished step makes it incomplete; failed and
    refused mean that no step committed; and the committed steps are listed,
    the recorded ones included, exactly for partial and incomplete runs. *)
Theorem resolveExternalOutcome_honest details runErr steps :
  let r := resolveExternalOutcome details runErr steps in
  isTerminalOutcome (od_Outcome r) = true /\
  (od_Outcome r = OutcomeCompleted <->
     runErr = None /\ ss_unfinished steps = [] /\ (od_Outcome details = EmptyString \/ od_Outcome details = OutcomeCompleted)) /\
  (ss_unfinished steps <> [] -> od_Outcome r = OutcomeIncomplete) /\
  (od_Outcome r = OutcomeFailed \/ od_Outcome r = OutcomeRefused -> od_CommittedSteps details = [] /\ ss_committed steps = []) /\
  (od_Outcome r = OutcomePartiallyCompleted \/ od_Outcome r = OutcomeIncomplete ->
     forall s, s ∈ od_CommittedSteps r <-> s ∈ od_CommittedSteps details \/ s ∈ ss_committed steps) /\
  (od_Outcome r = OutcomePartiallyCompleted -> od_CommittedSteps r <> []) /\
  (od_Outcome r = OutcomeCompleted \/ od_Outcome r = OutcomeFailed \/ od_Outcome r = OutcomeRefused -> od_CommittedSteps r = []) /\
  (od_Outcome r <> OutcomeCompleted -> od_FailureCode r <> EmptyString /\ od_FailureMessage r <> EmptyString).
Proof.
  cbv zeta. destruct (resolve_fields details runErr steps) as (Ho & Hs & _).
  destruct (committed_outcome_cases _ (all_committed details steps) (attempt_terminal details runErr steps)) as (_ & H2 & H3 & H4 & _).
  destruct (resolved_contract details runErr steps) as (Hterm & Hpart & Hnone & Hcode).
  rewrite <- Ho in H2, H3, H4. split_and!; [done|..|done|done|done].
  - rewrite H2, attempt_outcome_unfold. pose proof (reported_completed details runErr) as Hrc.
    destruct (bool_decide_reflect (ss_unfinished steps = [])) as [Hu|Hu]; [rewrite andb_true_r|rewrite andb_false_r; split; [done|tauto]].
    split; [|intros (? & _ & ?); by rewrite (proj2 Hrc)].
    destruct (isTerminalOutcome (reported_outcome _ _)); [|done]. intros [? ?]%Hrc. done.
  - intros Hu. apply H3. rewrite attempt_outcome_unfold, (bool_decide_eq_false_2 _ Hu), andb_false_r. done.
  - intros Hc%H4. assert (forall s, s ∉ all_committed details steps) as Hn by (rewrite Hc; set_solver).
    split; apply elem_of_nil_inv; intros s Hin; apply (Hn s), all_committed_spec; tauto.
  - intros Hpi s. rewrite Hs, <- all_committed_spec.
    destruct Hpi as [-> | ->]; done.
Qed.

End outcome.

(** ** Every saved event meets the contract *)

Section saved.
Context `{GL : GoLib}.

Lemma validateExternalIntent_iff intent :
  validateExternalIntent intent = Ok tt <->
  ec_AuditFormatVersion (ev_Context intent) = AuditFormatComplete /\ ec_OperationClass (ev_Context intent) = OperationExternal /\
  ec_Phase (ev_Context intent) = PhaseIntent /\ validateCompleteEvent intent = Ok tt /\ validateProtected intent = Ok tt.
Proof.
  unfold validateExternalIntent, ValidateEvent, validateEventContract. cbv zeta.
  rewrite unit_bind, require_Ok, !andb_true_iff, !eqs_true, N.eqb_eq. split.
  - intros [[[E1 E2] E3] H]. rewrite E1 in H. cbn in H. rewrite unit_bind in H. tauto.
  - intros (E1 & E2 & E3 & H). split; [tauto|]. rewrite E1. cbn. by rewrite unit_bind.
Qed.

Lemma outcome_fields_result now started o committed code message (completed := if (now <? started)%Z then started else now) :
  now <> 0%Z -> started <> 0%Z -> isTerminalOutcome o = true -> (o <> OutcomeCompleted -> code <> EmptyString) ->
  (o = OutcomePartiallyCompleted -> committed <> []) ->
  (o = OutcomeCompleted \/ o = OutcomeFailed \/ o = OutcomeRefused -> committed = []) ->
  forall e, ev_Outcome e = o -> ec_CompletedAt (ev_Context e) = completed -> ec_StartedAt (ev_Context e) = started ->
    ec_CommittedSteps (ev_Context e) = committed ->
    ev_Error e = (if eqs o OutcomeCompleted then None else Some (mkEventError code message)) ->
    validateOutcomeFields e = Ok tt.
Proof.
  intros Hnow Hst Ht Hcode Hp Hc e Eo Ec Es Ecs Ee. unfold validateOutcomeFields. cbv zeta. rewrite Eo, Ec, Es, Ecs, Ee, Ht.
  assert (is_zero completed = false /\ (completed <? started)%Z = false) as [-> ->].
  { unfold is_zero, completed. destruct (Z.ltb_spec now started); split; first [by apply Z.eqb_neq | apply Z.ltb_ge; lia]. }
  rewrite !unit_bind, !require_Ok. cbn [andb negb Bool.eqb].
  apply terminal_cases in Ht. unfold validateCommittedSteps.
  destruct (eqs o OutcomeCompleted) eqn:E; cbn [negb andb Bool.eqb].
  - apply eqs_true in E. rewrite E, Hc by auto. done.
  - assert (o <> OutcomeCompleted) as Hne by (intros ->; done). cbn [ee_Code].
    rewrite (proj2 (blank_false code)) by auto. split_and!; try done.
    destruct Ht as [->|[->|[->|[->| ->]]]]; cbn; try done.
    + rewrite Hc by auto. done.
    + rewrite Hc by auto. done.
    + by rewrite bool_decide_eq_false_2 by auto.
Qed.

(** Whatever the run function does and reports, the result event of an
    external operation meets the audit contract when its intent did: it is
    never rejected, so the attempt's result is saved unless the outbox
    itself fails. *)
Lemma externalResult_valid now eventID intent steps details runErr :
  validateExternalIntent intent = Ok tt -> now <> 0%Z -> eventID <> uuid_nil ->
  ValidateEvent (externalResult now eventID intent steps details runErr) = Ok tt.
Proof.
  intros (Ef & Ecl & Eph & Hc & Hp)%validateExternalIntent_iff Hnow Hid.
  apply validateCompleteEvent_iff in Hc as (target & Et & (_ & Hverb & _) & (Horg & Hop & Hst) & _ & Hactor & Htarget & Hentity & _ & _ & Hcls).
  destruct (resolved_contract details runErr steps) as (Hterm & Hpart & Hnone & Hcode).
  unfold ValidateEvent, validateEventContract. cbn [externalResult ev_Context result_context ec_AuditFormatVersion].
  rewrite Ef. cbn [N.eqb AuditFormatComplete AuditFormatLegacy Pos.eqb]. rewrite unit_bind. split; [|done].
  destruct Hentity as [Hety Heid]. apply validateCompleteEvent_iff. exists target. cbn.
  split_and!; try done.
  - destruct (proj1 (terminal_cases _) Hterm) as [->|[->|[->|[->| ->]]]]; done.
  - unfold validatePhase. rewrite Ecl. cbn. by rewrite Hterm.
  - eapply (outcome_fields_result now (ec_StartedAt (ev_Context intent))); [done|done|exact Hterm|..|reflexivity|reflexivity|reflexivity|reflexivity|reflexivity]; tauto.
  - unfold validateClassEvidence in *. rewrite Ecl, Eph in Hcls. cbn in Hcls |- *. rewrite Ecl. cbn.
    destruct (ec_Read (ev_Context intent)); done.
Qed.

(** ** The outbox of an operation *)

(** Events saved below an operation: valid, and part of the operation. *)
Definition saved_step (parent : Event) (e : Event) : Prop :=
  ValidateEvent e = Ok tt /\ ec_ParentOperationID (ev_Context e) = ec_OperationID (ev_Context parent).

Definition extends (P : Event -> Prop) (w w' : world) : Prop :=
  exists new, w_outbox w' = w_outbox w ++ new /\ Forall P new.

#[local] Instance extends_refl P : Reflexive (extends P).
Proof. intros w. exists []. by rewrite app_nil_r. Qed.
#[local] Instance extends_trans P : Transitive (extends P).
Proof.
  intros w1 w2 w3 (n1 & E1 & F1) (n2 & E2 & F2). exists (n1 ++ n2). rewrite E2, E1. split; [by rewrite app_assoc|by apply Forall_app].
Qed.

Lemma write_outbox_extends (P : Event -> Prop) x es w w' r : Forall P es -> write_outbox x es w = (w', r) -> extends P w w'.
Proof. unfold write_outbox. intros HP. case_match; intros [= <- <-]; [exists []; by rewrite app_nil_r|by exists es]. Qed.

Lemma writeOnce_extends (P : Event -> Prop) x e w w' r : P e -> writeOnce x e w = (w', r) -> extends P w w'.
Proof.
  unfold writeOnce. intros HP. case_match; [case_match; intros [= <- <-]; exists []; by rewrite app_nil_r|].
  apply write_outbox_extends. by constructor.
Qed.

Lemma BeginStep_extends x parent r step w w' o :
  BeginStep x parent r step w = (w', o) -> extends (saved_step parent) w w'.
Proof.
  unfold BeginStep, mbind, io_bind, mret, io_ret, observe. destruct (ec_Target (ev_Context step)) as [target|]; [|by intros [= <- _]].
  cbv beta iota. set (w1 := mkWorld _ _). change (extends (saved_step parent) w w') with (extends (saved_step parent) w1 w').
  destruct (ValidateEvent _) as [[]|] eqn:Ev; [|by intros [= <- _]].
  destruct (writeOnce _ _ _) as [w2 [[]|]] eqn:Ew; intros [= <- _]; (eapply writeOnce_extends; [|exact Ew]); split; done.
Qed.

Lemma FinishStep_extends x parent r step w w' o :
  FinishStep x parent r step w = (w', o) -> extends (saved_step parent) w w'.
Proof.
  unfold FinishStep, mbind, io_bind, mret, io_ret, observe. destruct (ec_Target (ev_Context step)) as [target|]; [|by intros [= <- _]].
  destruct (sr_started r !! _) as [startedAt|]; [|by intros [= <- _]].
  cbv beta iota. set (w1 := mkWorld (w_outbox (mkWorld _ _)) _).
  change (extends (saved_step parent) w w') with (extends (saved_step parent) w1 w').
  destruct (ValidateEvent _) as [[]|] eqn:Ev; [|by intros [= <- _]].
  destruct (write_outbox _ _ _) as [w2 [[]|]] eqn:Ew; intros [= <- _]; (eapply write_outbox_extends; [|exact Ew]); constructor; [|constructor| |constructor]; split; done.
Qed.

Lemma run_func_extends x parent r run w w' o :
  run_func x parent r run w = (w', o) -> extends (saved_step parent) w w'.
Proof.
  revert r w. induction run as [details runErr|step next IH|step next IH]; intros r w; cbn [run_func]; unfold mbind, io_bind.
  - by intros [= <- _].
  - destruct (BeginStep x parent r step w) as [w1 [r1 e]] eqn:E. intros H. apply BeginStep_extends in E. etrans; [exact E|]. by eapply IH.
  - destruct (FinishStep x parent r step w) as [w1 [r1 e]] eqn:E. intros H. apply FinishStep_extends in E. etrans; [exact E|]. by eapply IH.
Qed.

(** The result event of an attempt on an intent. *)
Definition saved_result (intent result : Event) : Prop :=
  ValidateEvent result = Ok tt /\ ec_OperationID (ev_Context result) = ec_OperationID (ev_Context intent) /\
  ec_Phase (ev_Context result) = PhaseResult /\ isTerminalOutcome (ev_Outcome result) = true.

Definition live_clock (x : externalEnv) : Prop := (forall n, x_clock x n <> 0%Z) /\ (forall n, x_fresh x n <> uuid_nil).

Lemma finishExternal_spec x intent r run w w' o :
  live_clock x -> validateExternalIntent intent = Ok tt -> finishExternal x intent r run w = (w', o) ->
  exists steps, Forall (saved_step intent) steps /\
    ((o = Err ErrEventNotRecorded /\ w_outbox w' = w_outbox w ++ steps /\ exists n, x_fails x n = true) \/
     ((o = Ok tt \/ o = Err ErrOther) /\ exists result, w_outbox w' = w_outbox w ++ steps ++ [result] /\ saved_result intent result)).
Proof.
  intros [Hclock Hfresh] Hi. unfold finishExternal, mbind, io_bind.
  destruct (run_func x intent r run w) as [w1 [r1 [details runErr]]] eqn:E. apply run_func_extends in E as (steps & Ew & Hs).
  unfold observe. cbv beta iota. cbn [w_outbox w_tick]. set (result := externalResult _ _ _ _ _ _).
  assert (ValidateEvent result = Ok tt) as Hv by (apply externalResult_valid; auto).
  unfold recordExternalResult. rewrite Hv. unfold mbind, io_bind, mret, io_ret, write_outbox. cbn [w_outbox w_tick].
  destruct (x_fails x _) eqn:Ef; intros [= <- <-]; exists steps; (split; [done|]).
  - left. rewrite Ew. eauto.
  - right. split; [destruct runErr; auto|]. exists result. rewrite Ew, <- app_assoc. cbn. split; [done|]. split_and!; [done..|].
    apply resolved_contract.
Qed.

(** C20: Running an external operation.  When the intent cannot be saved the
    run function is not called and the outbox is unchanged.  Otherwise the
    outbox holds the intent before anything else of the operation, every
    event added after it is a valid event of the operation, and the last one
    is its valid terminal result, unless a write to the outbox failed. *)
Theorem RunExternal_recorded x intent run w w' o :
  live_clock x -> RunExternal x intent run w = (w', o) ->
  (o = Err ErrExternalIntentNotSaved /\ w_outbox w' = w_outbox w) \/
  (exists first steps, Forall (saved_step intent) steps /\
     (first = [intent] \/ (first = [] /\ exists e, e ∈ w_outbox w /\ ev_EventID e = ev_EventID intent)) /\
     validateExternalIntent intent = Ok tt /\
     ((o = Err ErrEventNotRecorded /\ w_outbox w' = w_outbox w ++ first ++ steps /\ exists n, x_fails x n = true) \/
      ((o = Ok tt \/ o = Err ErrOther) /\
         exists result, w_outbox w' = w_outbox w ++ first ++ steps ++ [result] /\ saved_result intent result))).
Proof.
  intros Hlive. unfold RunExternal. destruct (x_nil x); [intros [= <- <-]; by left|].
  destruct (validateExternalIntent intent) as [[]|] eqn:Hi; [|intros [= <- <-]; by left].
  unfold mbind, io_bind, mret, io_ret, writeOnce.
  assert (forall w1 first, w_outbox w1 = w_outbox w ++ first ->
    (first = [intent] \/ (first = [] /\ exists e, e ∈ w_outbox w /\ ev_EventID e = ev_EventID intent)) ->
    finishExternal x intent newStepRecorder run w1 = (w', o) ->
    exists first steps, Forall (saved_step intent) steps /\
     (first = [intent] \/ (first = [] /\ exists e, e ∈ w_outbox w /\ ev_EventID e = ev_EventID intent)) /\
     Ok tt = Ok tt /\
     ((o = Err ErrEventNotRecorded /\ w_outbox w' = w_outbox w ++ first ++ steps /\ exists n, x_fails x n = true) \/
      ((o = Ok tt \/ o = Err ErrOther) /\
         exists result, w_outbox w' = w_outbox w ++ first ++ steps ++ [result] /\ saved_result intent result))) as Hfin.
  { intros w1 first Ew Hf (steps & Hs & Hcase)%finishExternal_spec; [|done..]. exists first, steps. rewrite Ew in Hcase.
    split_and!; [done..|]. rewrite <- !app_assoc in Hcase. destruct Hcase as [?|(? & result & E & ?)]; [by left|right].
    split; [done|]. exists result. by rewrite <- app_assoc in E. }
  destruct (x_idempotent x && existsb _ _) eqn:Eid; unfold write_outbox; (destruct (x_fails x (w_tick w)); [intros [= <- <-]; by left|]); intros H; right.
  - eapply (Hfin _ []); [|right; split; [done|]|exact H]; [cbn; by rewrite app_nil_r|].
    apply andb_true_iff in Eid as [_ (e & He & Heq%bool_decide_eq_true)%existsb_exists]. exists e. split; [by apply list_elem_of_In|done].
  - eapply (Hfin _ [intent]); [|by left|exact H]. done.
Qed.

End saved.
