(* ===== verification/RowHash.v ===== *)
(** * The row hash: internal/audit/canonical.go, consumer.go, export_rowhash.go

    The JSON the audit hash covers, built from an event as json.Marshal
    builds it, and the hash of a row over the hash of its predecessor.  A
    hash is the string of its 32 bytes; a JSON column is its parsed value. *)

From S2P Require Import Prelude GoJson Sha256 Bytes Float64 Quote Canonical GoTime Domain Store Tx AuditEvent.
From Stdlib Require Import Ascii.

(** ** Shards *)

Fixpoint crc_bits (n : nat) (c : N) : N :=
  match n with
  | O => c
  | S n' => crc_bits n' (if N.odd c then N.lxor (N.shiftr c 1) 3988292384 else N.shiftr c 1)
  end.

(** [crc32.ChecksumIEEE]. *)
Definition crc32 (bytes : list N) : N :=
  N.lxor (foldl (fun c b => crc_bits 8 (N.lxor c b)) 4294967295%N bytes) 4294967295%N.

Example crc32_check : crc32 (string_bytes "123456789") = 3421780262%N.
Proof. vm_compute. reflexivity. Qed.

Definition ShardCount : N := 256.
Definition shardMask : N := ShardCount - 1.

Definition shardOf (actor eventID : uuid) : Z :=
  Z.of_N (N.land (crc32 (be_bytes 16 actor ++ be_bytes 16 eventID)) shardMask).

(** ** json.Marshal of an event's parts *)

Definition jstr (s : string) : json := JStr (to_valid s).
Definition jint (z : Z) : json := JNum (decimalZ z).

(** A member that [omitempty] or [omitzero] leaves out. *)
Definition member_unless (omit : bool) (k : string) (v : json) : list (string * json) := if omit then [] else [(k, v)].

Section marshal.
Context `{GL : GoLib}.

Definition juuid (u : uuid) : json := JStr (uuid_string u).

(** json.RawMessage: null when it is nil. *)
Definition raw_json (r : raw) : option json := if blank r then Some JNull else json_parse r.

Definition delta_json (d : option Delta) : option json :=
  match d with
  | None => Some JNull
  | Some d =>
      before ← raw_json (dl_Before d);
      after ← raw_json (dl_After d);
      Some (JObj (member_unless (blank (dl_Before d)) "before" before ++
                  member_unless (blank (dl_After d)) "after" after ++
                  member_unless (bool_decide (dl_Changed d = [])) "changed" (JArr (jstr <$> dl_Changed d))))
  end.

Definition target_json (t : Target) : json :=
  JObj (member_unless (blank (kind_text (at_Kind t))) "kind" (jstr (kind_text (at_Kind t))) ++
        member_unless (blank (at_NodeType t)) "node_type" (jstr (at_NodeType t)) ++
        member_unless (blank (at_Reference t)) "reference" (jstr (at_Reference t)) ++
        member_unless (blank (at_Name t)) "name" (jstr (at_Name t)) ++
        member_unless (blank (at_URI t)) "uri" (jstr (at_URI t)) ++
        member_unless (blank (at_RelationType t)) "relation_type" (jstr (at_RelationType t)) ++
        member_unless (nil (at_ID t)) "id" (juuid (at_ID t)) ++
        member_unless (nil (at_SourceID t)) "source_id" (juuid (at_SourceID t)) ++
        member_unless (nil (at_TargetID t)) "target_id" (juuid (at_TargetID t)) ++
        member_unless (nil (at_OwnerID t)) "owner_id" (juuid (at_OwnerID t))).

Definition read_json (r : ReadEvidence) : json :=
  JObj (member_unless (rd_Count r =? 0)%N "count" (jint (Z.of_N (rd_Count r))) ++
        member_unless (blank (rd_PayloadSHA256 r)) "payload_sha256" (jstr (rd_PayloadSHA256 r)) ++
        member_unless (blank (rd_PayloadFormat r)) "payload_format" (jstr (rd_PayloadFormat r)) ++
        member_unless (blank (rd_ManifestSHA256 r)) "manifest_sha256" (jstr (rd_ManifestSHA256 r)) ++
        member_unless (rd_ManifestParts r =? 0)%N "manifest_parts" (jint (Z.of_N (rd_ManifestParts r)))).

Definition selection_json (s : ReadSelection) : option json :=
  criteria ← mapM (fun kv => pair (to_valid kv.1) <$> raw_json kv.2) (map_to_list (sel_Criteria s));
  Some (JObj (member_unless (blank (sel_Reference s)) "reference" (jstr (sel_Reference s)) ++
              member_unless (bool_decide (criteria = [])) "criteria" (JObj criteria))).

Definition option_json {A} (f : A -> option json) (o : option A) : option json :=
  match o with Some a => f a | None => Some JNull end.

(** [tokenKept] writes the api_token_id member even for the zero id. *)
Definition context_members (tokenKept : bool) (c : EventContext) (startedAt completedAt selection : json) : list (string * json) :=
  [("org_id", juuid (ec_OrgID c)); ("workspace_id", juuid (ec_WorkspaceID c));
   ("scope_id", juuid (ec_ScopeID c)); ("parent_id", juuid (ec_ParentID c))] ++
  member_unless (blank (ec_RequestID c)) "request_id" (jstr (ec_RequestID c)) ++
  member_unless (blank (ec_TraceID c)) "trace_id" (jstr (ec_TraceID c)) ++
  [("source", jstr (ec_Source c))] ++
  member_unless (blank (ec_Tool c)) "tool" (jstr (ec_Tool c)) ++
  member_unless (blank (ec_RPC c)) "rpc" (jstr (ec_RPC c)) ++
  member_unless (blank (ec_Reason c)) "reason" (jstr (ec_Reason c)) ++
  member_unless (nil (ec_APITokenID c) && negb tokenKept) "api_token_id" (juuid (ec_APITokenID c)) ++
  member_unless (blank (ec_CommitVersion c)) "commit_version" (jstr (ec_CommitVersion c)) ++
  member_unless (ec_AuditFormatVersion c =? 0)%N "audit_format_version" (jint (Z.of_N (ec_AuditFormatVersion c))) ++
  member_unless (blank (ec_OperationClass c)) "operation_class" (jstr (ec_OperationClass c)) ++
  member_unless (blank (ec_Phase c)) "phase" (jstr (ec_Phase c)) ++
  member_unless (nil (ec_OperationID c)) "operation_id" (juuid (ec_OperationID c)) ++
  member_unless (nil (ec_ParentOperationID c)) "parent_operation_id" (juuid (ec_ParentOperationID c)) ++
  member_unless (is_zero (ec_StartedAt c)) "started_at" startedAt ++
  member_unless (is_zero (ec_CompletedAt c)) "completed_at" completedAt ++
  match ec_Target c with Some t => [("target", target_json t)] | None => [] end ++
  match ec_Read c with Some r => [("read", read_json r)] | None => [] end ++
  member_unless (bool_decide (ec_CommittedSteps c = [])) "committed_steps" (JArr (jstr <$> ec_CommittedSteps c)) ++
  match ec_Selection c with Some _ => [("selection", selection)] | None => [] end ++
  member_unless (blank (ec_HTTPMethod c)) "http_method" (jstr (ec_HTTPMethod c)) ++
  member_unless (blank (ec_RequestPath c)) "request_path" (jstr (ec_RequestPath c)).

Definition context_json_with (tokenKept : bool) (c : EventContext) : option json :=
  startedAt ← (if is_zero (ec_StartedAt c) then Some JNull else time_json (ec_StartedAt c));
  completedAt ← (if is_zero (ec_CompletedAt c) then Some JNull else time_json (ec_CompletedAt c));
  selection ← option_json selection_json (ec_Selection c);
  Some (JObj (context_members tokenKept c startedAt completedAt selection)).

Definition context_json : EventContext -> option json := context_json_with false.

(** [contextWithZeroTokenID]: the outer field keeps the key. *)
Definition contextWithZeroTokenID : EventContext -> option json := context_json_with true.

Definition error_json (e : option EventError) : json :=
  match e with
  | Some e => JObj [("code", jstr (ee_Code e)); ("message", jstr (ee_Message e))]
  | None => JNull
  end.

(** ** Hashing *)

Definition row_message (prevHash canonical : string) : string :=
  prevHash +:+ bytes_text (be_bytes 8 (N.of_nat (String.length canonical))) +:+ canonical.

Context `{FF : FloatFormat}.

Definition hashRow (prevHash : string) (payload : json) : res string :=
  match canonicalJSON payload with
  | Some canonical => Ok (sha256_sum (row_message prevHash canonical))
  | None => Err ErrOther
  end.

Record rowHashInput := mkRowHashInput {
  rh_Event : Event;
  rh_EventID : uuid;
  rh_Shard : Z;
  rh_Seq : Z;
  rh_PIIRef : uuid;
  rh_ContextJSON : json;
  rh_DeltaJSON : json;
  rh_LastHash : string;
  rh_Version : Z;
}.

Definition auditHashVersion1 : Z := 1.
Definition auditHashVersion2 : Z := 2.
Definition auditHashVersion3 : Z := 3.
Definition auditHashVersionCurrent : Z := auditHashVersion3.

Definition payload_v1 (input : rowHashInput) (eventTime : string) : list (string * json) :=
  let e := rh_Event input in
  [("org_id", juuid (ec_OrgID (ev_Context e))); ("shard", jint (rh_Shard input)); ("seq", jint (rh_Seq input));
   ("event_id", juuid (rh_EventID input)); ("event_time", jstr eventTime); ("actor_id", juuid (ac_ID (ev_Actor e)));
   ("actor_kind", jstr (ac_Type (ev_Actor e))); ("action", jstr (ev_Verb e)); ("entity_kind", jstr (en_Type (ev_Entity e)));
   ("entity_id", juuid (en_ID (ev_Entity e))); ("pii_ref", juuid (rh_PIIRef input)); ("context", rh_ContextJSON input);
   ("delta", rh_DeltaJSON input); ("idempotency", jstr (ev_IdempotencyKey e))].

Definition payload_v2 (input : rowHashInput) (eventTime : string) (extra : json) : list (string * json) :=
  let e := rh_Event input in
  payload_v1 input eventTime ++ [("outcome", jstr (ev_Outcome e)); ("error", error_json (ev_Error e)); ("extra", extra)].

Definition payload_v3 (input : rowHashInput) (eventTime : string) (extra : json) : list (string * json) :=
  payload_v2 input eventTime extra ++ [("hash_version", jint (rh_Version input))].

(** The payload of a hash version; versions 2 and 3 marshal the extra data. *)
Definition row_payload (input : rowHashInput) : res json :=
  let occurred := ev_OccurredAt (rh_Event input) in
  if (rh_Version input =? auditHashVersion1)%Z then Ok (JObj (payload_v1 input (rfc3339nano occurred)))
  else
    match raw_json (ev_Extra (rh_Event input)) with
    | None => Err ErrOther
    | Some extra =>
        if (rh_Version input =? auditHashVersion2)%Z then Ok (JObj (payload_v2 input (rfc3339nano occurred) extra))
        else if (rh_Version input =? auditHashVersion3)%Z
        then Ok (JObj (payload_v3 input (rfc3339nano (truncate_micro occurred)) extra))
        else Err ErrOther
    end.

Definition hashRowForEvent (input : rowHashInput) : res string :=
  payload ← row_payload input;
  hashRow (rh_LastHash input) payload.

End marshal.
