(* ===== verification/Ledger.v ===== *)
(** * The audit ledger: internal/audit/chain_append.go, chain_head.go, legacy_row.go

    The tables a writer touches inside one transaction, the append of a row
    to the hash chain of its organization and shard, and the consumer's
    record path that ends in it.  An error rolls the transaction back. *)

From S2P Require Import Prelude GoJson Sha256 Bytes Float64 Canonical GoTime Domain Store Tx AuditEvent RowHash.

(** ** Tables *)

(** A row of audit.events; the JSON columns hold the values they encode. *)
Record Row := mkRow {
  row_OrgID : uuid;
  row_EventTime : instant;
  row_EventID : uuid;
  row_Seq : Z;
  row_Shard : Z;
  row_ActorID : uuid;
  row_ActorKind : Z;
  row_Action : string;
  row_Outcome : string;
  row_EntityKind : string;
  row_EntityID : uuid;
  row_Context : EventContext;
  row_Delta : option Delta;
  row_Error : option EventError;
  row_Extra : raw;
  row_PIIRef : option uuid;
  row_PrevHash : string;
  row_RowHash : string;
  row_HashVersion : Z;
  row_IdempotencyKey : string;
}.

(** A row of audit.pii that belongs to a subject. *)
Record piiRow := mkPii { pii_payload : raw; pii_subject : uuid; pii_org : uuid }.

(** audit.events in insertion order, audit.chain_heads, audit.projected_events
    and audit.pii. *)
Record ledger := mkLedger {
  l_events : list Row;
  l_heads : gmap (uuid * Z) (Z * string);
  l_projected : gset uuid;
  l_pii : gmap uuid piiRow;
}.

Definition ltx (A : Type) : Type := ledger -> res (ledger * A).

#[export] Instance ltx_ret : MRet ltx := fun A a s => Ok (s, a).
#[export] Instance ltx_bind : MBind ltx := fun A B f m s =>
  match m s with Ok (s', a) => f a s' | Err e => Err e end.

Definition l_lift {A} (r : res A) : ltx A := fun s => match r with Ok a => Ok (s, a) | Err e => Err e end.
Definition l_fail {A} (e : sentinel) : ltx A := fun _ => Err e.

(** ** The chain *)

(** Reports whether the identity was this caller's to claim. *)
Definition claimEventIdentity (eventID : uuid) : ltx bool := fun s =>
  if decide (eventID ∈ l_projected s) then Ok (s, false)
  else Ok (mkLedger (l_events s) (l_heads s) ({[eventID]} ∪ l_projected s) (l_pii s), true).

Record chainHeadState := mkHead { h_LastSeq : Z; h_LastHash : string; h_Exists : bool }.

#[export] Instance chainHeadState_eq_dec : EqDecision chainHeadState.
Proof. solve_decision. Defined.

Definition readChainHead (orgID : uuid) (shard : Z) : ltx chainHeadState := fun s =>
  Ok (s, match l_heads s !! (orgID, shard) with
         | Some (lastSeq, lastHash) => mkHead lastSeq lastHash true
         | None => mkHead 0 EmptyString false
         end).

(** The compare-and-swap against the head the caller read: an update where
    last_seq is unchanged, or an insert that does nothing on conflict. *)
Definition writeChainHead (orgID : uuid) (shard : Z) (head : chainHeadState) (seq : Z) (rowHash : string) : ltx unit := fun s =>
  let advanced := mkLedger (l_events s) (<[(orgID, shard) := (seq, rowHash)]> (l_heads s)) (l_projected s) (l_pii s) in
  match l_heads s !! (orgID, shard) with
  | Some (lastSeq, _) =>
      if h_Exists head then if decide (lastSeq = h_LastSeq head) then Ok (advanced, tt) else Err ErrChainConflict
      else Err ErrChainConflict
  | None => if h_Exists head then Err ErrChainConflict else Ok (advanced, tt)
  end.

(** INSERT ... ON CONFLICT (event_id, event_time) DO NOTHING. *)
Definition insert_event (row : Row) : ltx bool := fun s =>
  if existsb (fun r => bool_decide (row_EventID r = row_EventID row) && (row_EventTime r =? row_EventTime row)%Z) (l_events s)
  then Ok (s, false)
  else Ok (mkLedger (l_events s ++ [row]) (l_heads s) (l_projected s) (l_pii s), true).

(** ** Appending *)

(** Both callers pass the JSON of the event's own context and delta. *)
Record chainAppendInput := mkAppendInput {
  ai_Event : Event;
  ai_EventID : uuid;
  ai_Shard : Z;
  ai_PIIRef : uuid;
}.

Record chainAppendResult := mkAppendResult { ar_Seq : Z; ar_PrevHash : string; ar_RowHash : string }.

Definition default_outcome (e : Event) : Event :=
  if blank (ev_Outcome e) && (ec_AuditFormatVersion (ev_Context e) =? AuditFormatLegacy)%N
  then mkEvent (ev_Verb e) (ev_EventID e) (ev_Actor e) (ev_Entity e) (ev_Context e) (ev_Delta e) OutcomeOK (ev_Error e)
         (ev_IdempotencyKey e) (ev_OccurredAt e) (ev_Extra e) (ev_Protected e)
  else e.

Definition piiRefArg (ref : uuid) : option uuid := if nil ref then None else Some ref.

(** The row the insert binds. *)
Definition event_row (e : Event) (eventID : uuid) (shard seq : Z) (piiRef : uuid) (prevHash rowHash : string) : Row :=
  mkRow (ec_OrgID (ev_Context e)) (truncate_micro (ev_OccurredAt e)) eventID seq shard (ac_ID (ev_Actor e))
    (actorKindCode (ac_Type (ev_Actor e))) (ev_Verb e) (ev_Outcome e) (en_Type (ev_Entity e)) (en_ID (ev_Entity e))
    (ev_Context e) (ev_Delta e) (ev_Error e) (ev_Extra e) (piiRefArg piiRef) prevHash rowHash auditHashVersionCurrent
    (ev_IdempotencyKey e).

Section append.
Context `{GL : GoLib} `{FF : FloatFormat}.

(** The hash input of an event at a chain position. *)
Definition append_hash_input (e : Event) (eventID : uuid) (shard seq : Z) (piiRef : uuid) (lastHash : string) (version : Z) : res rowHashInput :=
  match context_json (ev_Context e), delta_json (ev_Delta e) with
  | Some contextJSON, Some deltaJSON => Ok (mkRowHashInput e eventID shard seq piiRef contextJSON deltaJSON lastHash version)
  | _, _ => Err ErrOther
  end.

(** [appendChainRow] from the hash on, on top of the head it read. *)
Definition append_row (input : chainAppendInput) (e : Event) (head : chainHeadState) : ltx chainAppendResult :=
  let lastHash := h_LastHash head in
  let seq := (h_LastSeq head + 1)%Z in
  hashInput ← l_lift (append_hash_input e (ai_EventID input) (ai_Shard input) seq (ai_PIIRef input) lastHash auditHashVersionCurrent);
  rowHash ← l_lift (hashRowForEvent hashInput);
  inserted ← insert_event (event_row e (ai_EventID input) (ai_Shard input) seq (ai_PIIRef input) lastHash rowHash);
  if negb inserted then l_fail ErrAlreadyProjected
  else
    _ ← writeChainHead (ec_OrgID (ev_Context e)) (ai_Shard input) head seq rowHash;
    mret (mkAppendResult seq lastHash rowHash).

Definition appendChainRow (input : chainAppendInput) : ltx chainAppendResult :=
  _ ← l_lift (match ValidateEvent (ai_Event input) with Ok _ => Ok tt | Err _ => Err ErrMalformedPayload end);
  let e := default_outcome (ai_Event input) in
  claimed ← claimEventIdentity (ai_EventID input);
  if negb claimed then l_fail ErrAlreadyProjected
  else
    head ← readChainHead (ec_OrgID (ev_Context e)) (ai_Shard input);
    append_row input e head.

(** ** The legacy row *)

Record LegacyRowInput := mkLegacyRowInput {
  lr_OrgID : uuid;
  lr_ActorID : uuid;
  lr_EntityID : uuid;
  lr_EventID : uuid;
  lr_Action : string;
  lr_Tool : string;
}.

Definition legacy_context (orgID : uuid) (tool : string) : EventContext :=
  mkEventContext orgID uuid_nil uuid_nil uuid_nil EmptyString EmptyString "mcp" tool EmptyString EmptyString
    uuid_nil EmptyString 0 EmptyString EmptyString uuid_nil uuid_nil 0 0 None None [] None EmptyString EmptyString.

Definition legacyEvent (input : LegacyRowInput) (eventID : uuid) (eventTime : instant) : Event :=
  mkEvent (if blank (lr_Action input) then "mcp.tool_invoked" else lr_Action input) eventID
    (mkActor ActorUser (lr_ActorID input) EmptyString EmptyString EmptyString EmptyString EmptyString EmptyString EmptyString)
    (mkEntity (if blank (lr_Tool input) then "node" else "mcp_tool") EmptyString (lr_EntityID input) EmptyString EmptyString)
    (legacy_context (lr_OrgID input) (lr_Tool input)) None EmptyString None EmptyString eventTime EmptyString [].

(** The row bound with SQL NULL for the outcome, which reads as unrecorded. *)
Definition legacy_row (e : Event) (eventID : uuid) (shard seq : Z) (eventTime : instant) (prevHash rowHash : string) : Row :=
  mkRow (ec_OrgID (ev_Context e)) eventTime eventID seq shard (ac_ID (ev_Actor e)) (actorKindCode ActorUser) (ev_Verb e)
    OutcomeUnrecorded (en_Type (ev_Entity e)) (en_ID (ev_Entity e)) (ev_Context e) None None EmptyString None
    prevHash rowHash auditHashVersion1 (ev_IdempotencyKey e).

(** [appendLegacyChainRow] from the hash on; its INSERT has no conflict
    clause, so a second row with the same id and time fails the statement. *)
Definition append_legacy_row (input : LegacyRowInput) (eventID : uuid) (shard : Z) (eventTime : instant) (head : chainHeadState) : ltx Z :=
  let seq := (h_LastSeq head + 1)%Z in
  let e := legacyEvent input eventID eventTime in
  hashInput ← l_lift (append_hash_input e eventID shard seq uuid_nil (h_LastHash head) auditHashVersion1);
  rowHash ← l_lift (hashRowForEvent hashInput);
  inserted ← insert_event (legacy_row e eventID shard seq eventTime (h_LastHash head) rowHash);
  if negb inserted then l_fail ErrOther
  else
    _ ← writeChainHead (lr_OrgID input) shard head seq rowHash;
    mret seq.

Definition appendLegacyChainRow (input : LegacyRowInput) (eventID : uuid) (shard : Z) (eventTime : instant) : ltx Z :=
  claimed ← claimEventIdentity eventID;
  if negb claimed then l_fail ErrOther
  else
    head ← readChainHead (lr_OrgID input) shard;
    append_legacy_row input eventID shard eventTime head.

(** [now] and [fresh] are the clock reading and the fresh identifier. *)
Definition WriteLegacyRow (now : instant) (fresh : uuid) (input : LegacyRowInput) : ltx (uuid * Z * Z * instant) :=
  if nil (lr_OrgID input) then l_fail ErrOther
  else
    let eventID := if nil (lr_EventID input) then fresh else lr_EventID input in
    let shard := shardOf (lr_ActorID input) eventID in
    let eventTime := truncate_micro now in
    seq ← appendLegacyChainRow input eventID shard eventTime;
    mret (eventID, shard, seq, eventTime).

(** ** Personal data *)

Definition hasPII (a : Actor) : bool :=
  negb (blank (ac_Email a)) || negb (blank (ac_Name a)) || negb (blank (ac_IP a)) || negb (blank (ac_UserAgent a)) || negb (blank (ac_APITokenLabel a)).

(** INSERT ... ON CONFLICT DO NOTHING. *)
Definition insert_pii (ref : uuid) (row : piiRow) : ltx unit := fun s =>
  match l_pii s !! ref with
  | Some _ => Ok (s, tt)
  | None => Ok (mkLedger (l_events s) (l_heads s) (l_projected s) (<[ref := row]> (l_pii s)), tt)
  end.

(** json.Marshal of the map of the actor's fields. *)
Definition actor_pii (a : Actor) : raw :=
  print (JObj [("api_token_label", jstr (ac_APITokenLabel a)); ("email", jstr (ac_Email a)); ("ip", jstr (ac_IP a));
               ("name", jstr (ac_Name a)); ("ua", jstr (ac_UserAgent a))]).

(** The actor's fields under a fresh reference. *)
Definition writePIIRow (fresh : uuid) (actor : Actor) : ltx uuid :=
  if negb (hasPII actor) then mret uuid_nil
  else
    _ ← insert_pii fresh (mkPii (actor_pii actor) uuid_nil uuid_nil);
    mret fresh.

Fixpoint l_forM {A} (l : list A) (f : A -> ltx unit) : ltx unit :=
  match l with [] => mret tt | a :: l' => _ ← f a; l_forM l' f end.

Definition writeProtectedValues (event : Event) : ltx unit :=
  _ ← l_lift (match validateProtected event with Ok _ => Ok tt | Err _ => Err ErrMalformedPayload end);
  l_forM (ev_Protected event) (fun value =>
    insert_pii (pv_Ref value) (mkPii (pv_Value value) (pv_SubjectID value) (ec_OrgID (ev_Context event)))).

Definition writeEventPII (fresh : uuid) (event : Event) : ltx uuid :=
  piiRef ← writePIIRow fresh (ev_Actor event);
  _ ← writeProtectedValues event;
  mret piiRef.

(** ** From a recorded event to a row *)

Definition canonicalizeCorrelation (ev : Event) : Event :=
  let c := ev_Context ev in
  if blank (ec_RequestID c) then
    mkEvent (ev_Verb ev) (ev_EventID ev) (ev_Actor ev) (ev_Entity ev)
      (mkEventContext (ec_OrgID c) (ec_WorkspaceID c) (ec_ScopeID c) (ec_ParentID c) (ac_RequestID (ev_Actor ev)) (ec_TraceID c)
         (ec_Source c) (ec_Tool c) (ec_RPC c) (ec_Reason c) (ec_APITokenID c) (ec_CommitVersion c) (ec_AuditFormatVersion c)
         (ec_OperationClass c) (ec_Phase c) (ec_OperationID c) (ec_ParentOperationID c) (ec_StartedAt c) (ec_CompletedAt c)
         (ec_Target c) (ec_Read c) (ec_CommittedSteps c) (ec_Selection c) (ec_HTTPMethod c) (ec_RequestPath c))
      (ev_Delta ev) (ev_Outcome ev) (ev_Error ev) (ev_IdempotencyKey ev) (ev_OccurredAt ev) (ev_Extra ev) (ev_Protected ev)
  else ev.

(** Checks the decoded event and normalizes it; its shard follows from the
    actor and the event. *)
Definition prepareEvent (ev : Event) : res Event :=
  if is_zero (ev_OccurredAt ev) then Err ErrMalformedPayload
  else
    let ev := canonicalizeCorrelation ev in
    if nil (ev_EventID ev) then Err ErrMalformedPayload
    else match context_json (ev_Context ev), delta_json (ev_Delta ev) with
         | Some _, Some _ => Ok ev
         | _, _ => Err ErrOther
         end.

Definition advanceChain (ev : Event) (piiRef : uuid) : ltx chainAppendResult :=
  appendChainRow (mkAppendInput ev (ev_EventID ev) (shardOf (ac_ID (ev_Actor ev)) (ev_EventID ev)) piiRef).

(** [recordOnce]: the synchronous recorder's transaction. *)
Definition recordOnce (fresh : uuid) (ev : Event) : ltx chainAppendResult :=
  piiRef ← writeEventPII fresh ev;
  advanceChain ev piiRef.

End append.
