(* ===== verification/LedgerSpec.v ===== *)
(** * The hash chains of the ledger and their writers

    [ledger_ok] says what the tables hold between transactions: per
    organization and shard one linked chain from sequence 1 whose last row is
    the head, and one row per claimed event identity.  Writers interleave: a
    transaction reads a head and commits later, against whatever the other
    writers committed in between. *)

From S2P Require Import Prelude GoJson Float64 Canonical GoTime Domain Store Tx AuditEvent RowHash Ledger.

(** ** The invariant *)

Definition row_key (r : Row) : uuid * Z := (row_OrgID r, row_Shard r).

Definition chain_rows (k : uuid * Z) (rows : list Row) : list Row := filter (fun r => row_key r = k) rows.

(** Rows at consecutive sequences, each naming the hash of the one before. *)
Fixpoint linked (seq : Z) (prev : string) (rows : list Row) : Prop :=
  match rows with
  | [] => True
  | r :: rest => row_Seq r = seq /\ row_PrevHash r = prev /\ linked (seq + 1) (row_RowHash r) rest
  end.

(** The head that [readChainHead] reports for a chain. *)
Definition head_of (rows : list Row) : chainHeadState :=
  match last rows with
  | Some r => mkHead (row_Seq r) (row_RowHash r) true
  | None => mkHead 0 EmptyString false
  end.

Definition stored_head (head : chainHeadState) : option (Z * string) :=
  if h_Exists head then Some (h_LastSeq head, h_LastHash head) else None.

Record ledger_ok (s : ledger) : Prop := {
  ok_linked k : linked 1 EmptyString (chain_rows k (l_events s));
  ok_heads k : l_heads s !! k = stored_head (head_of (chain_rows k (l_events s)));
  ok_once : NoDup (row_EventID <$> l_events s);
  ok_claimed : list_to_set (row_EventID <$> l_events s) = l_projected s;
}.

Definition empty_ledger : ledger := mkLedger [] ∅ ∅ ∅.

Lemma empty_ledger_ok : ledger_ok empty_ledger.
Proof. split; try done. constructor. Qed.

(** ** Chains *)

Lemma chain_rows_app k rows rows' : chain_rows k (rows ++ rows') = chain_rows k rows ++ chain_rows k rows'.
Proof. apply filter_app. Qed.

Lemma chain_rows_one k r : chain_rows k [r] = if decide (row_key r = k) then [r] else [].
Proof. unfold chain_rows. rewrite filter_cons, filter_nil. done. Qed.

Lemma head_of_snoc rows r : head_of (rows ++ [r]) = mkHead (row_Seq r) (row_RowHash r) true.
Proof. unfold head_of. by rewrite last_snoc. Qed.

Lemma linked_app seq prev rows rows' :
  linked seq prev (rows ++ rows') <->
  linked seq prev rows /\
  linked (seq + Z.of_nat (length rows)) (match last rows with Some r => row_RowHash r | None => prev end) rows'.
Proof.
  revert seq prev. induction rows as [|r rows IH]; intros seq prev; simpl.
  - rewrite Z.add_0_r. naive_solver.
  - rewrite IH. replace (seq + 1 + Z.of_nat (length rows))%Z with (seq + Z.of_nat (S (length rows)))%Z by lia.
    assert (match last rows with Some r0 => row_RowHash r0 | None => row_RowHash r end =
            match last (r :: rows) with Some r0 => row_RowHash r0 | None => prev end) as ->.
    { rewrite last_cons. by destruct (last rows). }
    tauto.
Qed.

(** The head of a linked chain counts its rows. *)
Lemma linked_head rows : linked 1 EmptyString rows ->
  h_LastSeq (head_of rows) = Z.of_nat (length rows) /\ h_Exists (head_of rows) = bool_decide (rows <> []).
Proof.
  destruct rows as [|r rows _] using rev_ind; intros H; [done|].
  rewrite head_of_snoc, length_app. apply linked_app in H as [_ [H _]]. simpl in *. split; [lia|].
  symmetry. apply bool_decide_eq_true. by destruct rows.
Qed.

Lemma linked_snoc rows r : linked 1 EmptyString rows ->
  row_Seq r = (h_LastSeq (head_of rows) + 1)%Z -> row_PrevHash r = h_LastHash (head_of rows) ->
  linked 1 EmptyString (rows ++ [r]).
Proof.
  intros H Hseq Hprev. destruct (linked_head _ H) as [Hl _]. apply linked_app. split; [done|].
  simpl. rewrite Hseq, Hprev, Hl. split_and!; [lia| |done].
  unfold head_of. by destruct (last rows).
Qed.

Lemma linked_prefix seq prev rows rows' : rows `prefix_of` rows' -> linked seq prev rows' -> linked seq prev rows.
Proof. intros [rest ->] H. by apply linked_app in H as [? _]. Qed.

(** A stale head with the sequence of the current one is the current one. *)
Lemma prefix_head rows rows' : rows `prefix_of` rows' -> linked 1 EmptyString rows' ->
  h_LastSeq (head_of rows) = h_LastSeq (head_of rows') -> rows = rows'.
Proof.
  intros Hp H Hseq. destruct (linked_head _ H) as [H' _].
  destruct (linked_head _ (linked_prefix _ _ _ _ Hp H)) as [H'' _].
  destruct Hp as [rest ->]. rewrite length_app in H'. destruct rest; [by rewrite app_nil_r|]. simpl in H'. lia.
Qed.

(** ** Appending a row *)

(** The compare of the compare-and-swap. *)
Definition cas_passes (s : ledger) (k : uuid * Z) (head : chainHeadState) : Prop :=
  match l_heads s !! k with
  | Some (lastSeq, _) => h_Exists head = true /\ lastSeq = h_LastSeq head
  | None => h_Exists head = false
  end.

Lemma writeChainHead_spec org shard head seq hash s :
  (cas_passes s (org, shard) head /\
   writeChainHead org shard head seq hash s =
     Ok (mkLedger (l_events s) (<[(org, shard) := (seq, hash)]> (l_heads s)) (l_projected s) (l_pii s), tt)) \/
  (~ cas_passes s (org, shard) head /\ writeChainHead org shard head seq hash s = Err ErrChainConflict).
Proof.
  unfold writeChainHead, cas_passes. destruct (l_heads s !! (org, shard)) as [[n h]|]; destruct (h_Exists head); try case_decide; naive_solver.
Qed.

(** The tables after a row at [k] was claimed, inserted and made the head. *)
Definition appended (s : ledger) (row : Row) : ledger :=
  mkLedger (l_events s ++ [row]) (<[row_key row := (row_Seq row, row_RowHash row)]> (l_heads s))
    ({[row_EventID row]} ∪ l_projected s) (l_pii s).

Lemma appended_ok s row :
  ledger_ok s -> row_EventID row ∉ l_projected s ->
  row_Seq row = (h_LastSeq (head_of (chain_rows (row_key row) (l_events s))) + 1)%Z ->
  row_PrevHash row = h_LastHash (head_of (chain_rows (row_key row) (l_events s))) ->
  ledger_ok (appended s row).
Proof.
  intros [Hl Hh Ho Hc] Hnew Hseq Hprev. split; simpl.
  - intros k. rewrite chain_rows_app, chain_rows_one. case_decide; [subst; by apply linked_snoc|by rewrite app_nil_r].
  - intros k. rewrite chain_rows_app, chain_rows_one. case_decide.
    + subst. by rewrite lookup_insert_eq, head_of_snoc.
    + by rewrite lookup_insert_ne, app_nil_r.
  - rewrite fmap_app. simpl. apply NoDup_app. split_and!; [done| |apply NoDup_singleton].
    intros x Hx ->%list_elem_of_singleton. apply Hnew. rewrite <- Hc. by apply elem_of_list_to_set.
  - rewrite fmap_app, list_to_set_app_L, Hc. simpl. set_solver.
Qed.

(** A head read earlier on the same chain. *)
Definition past_head (s : ledger) (k : uuid * Z) (head : chainHeadState) : Prop :=
  exists rows, rows `prefix_of` chain_rows k (l_events s) /\ head = head_of rows.

(** The swap passes only on the head of the whole chain. *)
Lemma past_head_cas s k head : ledger_ok s -> past_head s k head ->
  cas_passes s k head <-> head = head_of (chain_rows k (l_events s)).
Proof.
  intros Hok (rows & Hp & ->). unfold cas_passes. rewrite (ok_heads _ Hok).
  pose proof (ok_linked _ Hok k) as Hlink. destruct (linked_head _ Hlink) as [Hn He].
  destruct (linked_head _ (linked_prefix _ _ _ _ Hp Hlink)) as [Hn' He'].
  unfold stored_head. destruct (h_Exists (head_of (chain_rows k (l_events s)))) eqn:E.
  - split; [|by intros ->]. intros [_ Heq]. f_equal. by apply prefix_head.
  - split; [|by intros ->]. symmetry in He. apply bool_decide_eq_false in He.
    intros _. f_equal. destruct (chain_rows k (l_events s)); [|by destruct He]. by apply prefix_nil_inv.
Qed.

Lemma readChainHead_ok s org shard : ledger_ok s ->
  readChainHead org shard s = Ok (s, head_of (chain_rows (org, shard) (l_events s))).
Proof.
  intros Hok. unfold readChainHead. rewrite (ok_heads _ Hok). do 2 f_equal.
  unfold stored_head, head_of. by destruct (last _).
Qed.

(** ** Interleaved writers *)

(** The two transactions that append: the consumer's and the legacy row's. *)
Inductive writer :=
  | AppendWriter (input : chainAppendInput)
  | LegacyWriter (input : LegacyRowInput) (eventID : uuid) (shard : Z) (eventTime : instant).

Definition w_eventID (w : writer) : uuid :=
  match w with AppendWriter input => ai_EventID input | LegacyWriter _ id _ _ => id end.

Definition w_key (w : writer) : uuid * Z :=
  match w with
  | AppendWriter input => (ec_OrgID (ev_Context (ai_Event input)), ai_Shard input)
  | LegacyWriter input _ shard _ => (lr_OrgID input, shard)
  end.

Definition w_event (w : writer) : Event :=
  match w with AppendWriter input => default_outcome (ai_Event input) | LegacyWriter input id _ time => legacyEvent input id time end.

Definition w_ref (w : writer) : uuid := match w with AppendWriter input => ai_PIIRef input | LegacyWriter _ _ _ _ => uuid_nil end.

Definition w_version (w : writer) : Z :=
  match w with AppendWriter _ => auditHashVersionCurrent | LegacyWriter _ _ _ _ => auditHashVersion1 end.

(** What a writer reports for an identity that has a row. *)
Definition w_refusal (w : writer) : sentinel :=
  match w with AppendWriter _ => ErrAlreadyProjected | LegacyWriter _ _ _ _ => ErrOther end.

Definition w_row (w : writer) (head : chainHeadState) (hash : string) : Row :=
  match w with
  | AppendWriter input =>
      event_row (default_outcome (ai_Event input)) (ai_EventID input) (ai_Shard input) (h_LastSeq head + 1) (ai_PIIRef input)
        (h_LastHash head) hash
  | LegacyWriter input id shard time =>
      legacy_row (legacyEvent input id time) id shard (h_LastSeq head + 1) time (h_LastHash head) hash
  end.

Section writers.
Context `{GL : GoLib} `{FF : FloatFormat}.

(** The hash input of the row on top of [head]. *)
Definition w_input (w : writer) (head : chainHeadState) : res rowHashInput :=
  append_hash_input (w_event w) (w_eventID w) (w_key w).2 (h_LastSeq head + 1) (w_ref w) (h_LastHash head) (w_version w).

Definition w_hash (w : writer) (head : chainHeadState) : res string := w_input w head ≫= hashRowForEvent.

(** The writes of a transaction that read [head] before, against the tables
    at its commit. *)
Definition w_commit (w : writer) (head : chainHeadState) : ltx unit :=
  claimed ← claimEventIdentity (w_eventID w);
  if negb claimed then l_fail (w_refusal w)
  else match w with
       | AppendWriter input => _ ← append_row input (default_outcome (ai_Event input)) head; mret tt
       | LegacyWriter input id shard time => _ ← append_legacy_row input id shard time head; mret tt
       end.

(** A writer gets to the append only with an event its checks accept, under
    the identity and the shard of the event. *)
Definition w_starts (w : writer) : Prop :=
  match w with
  | AppendWriter input =>
      let e := ai_Event input in
      ValidateEvent e = Ok tt /\ ai_EventID input = ev_EventID e /\ ev_EventID e <> uuid_nil /\ ev_OccurredAt e <> 0%Z /\
      ai_Shard input = shardOf (ac_ID (ev_Actor e)) (ev_EventID e)
  | LegacyWriter input id shard time => lr_OrgID input <> uuid_nil /\ shard = shardOf (lr_ActorID input) id /\ truncate_micro time = time
  end.

(** Which transactions the processes start, beyond the checks of the code. *)
Variable admitted : writer -> Prop.

(** The tables with the transactions under way and the heads they read. *)
Definition system : Type := ledger * list (writer * chainHeadState).

Inductive ledger_step : system -> system -> Prop :=
  | step_read s ps w head :
      w_starts w -> admitted w -> readChainHead (w_key w).1 (w_key w).2 s = Ok (s, head) ->
      ledger_step (s, ps) (s, (w, head) :: ps)
  | step_commit s s' ps1 w head ps2 :
      w_commit w head s = Ok (s', tt) ->
      ledger_step (s, ps1 ++ (w, head) :: ps2) (s', ps1 ++ ps2)
  | step_rollback s ps1 p ps2 :
      ledger_step (s, ps1 ++ p :: ps2) (s, ps1 ++ ps2).

Definition reachable (sys : system) : Prop := rtc ledger_step (empty_ledger, []) sys.

(** ** One commit *)

#[local] Arguments append_hash_input : simpl never.
#[local] Arguments w_hash : simpl never.

Lemma default_outcome_context e : ev_Context (default_outcome e) = ev_Context e.
Proof. unfold default_outcome. by case_match. Qed.

Lemma w_row_key w head hash : row_key (w_row w head hash) = w_key w.
Proof. destruct w; simpl; [unfold row_key; simpl; by rewrite default_outcome_context|done]. Qed.

Lemma w_row_facts w head hash :
  row_EventID (w_row w head hash) = w_eventID w /\ row_Seq (w_row w head hash) = (h_LastSeq head + 1)%Z /\
  row_PrevHash (w_row w head hash) = h_LastHash head /\ row_RowHash (w_row w head hash) = hash.
Proof. by destruct w. Qed.

Lemma insert_event_fresh s row :
  list_to_set (row_EventID <$> l_events s) = l_projected s -> row_EventID row ∉ l_projected s ->
  forall s', l_events s' = l_events s ->
  insert_event row s' = Ok (mkLedger (l_events s ++ [row]) (l_heads s') (l_projected s') (l_pii s'), true).
Proof.
  intros Hc Hnew s' He. unfold insert_event. rewrite He.
  destruct (existsb _ _) eqn:E; [|done]. exfalso. apply Hnew. rewrite <- Hc, elem_of_list_to_set.
  apply existsb_exists in E as (r & Hr & [Hid _]%andb_prop). apply bool_decide_eq_true in Hid.
  rewrite <- Hid. apply list_elem_of_fmap_2. by apply list_elem_of_In.
Qed.

(** The head write that ends both appends. *)
Lemma append_tail s w head hash :
  w_eventID w ∉ l_projected s ->
  let s1 := mkLedger (l_events s ++ [w_row w head hash]) (l_heads s) ({[w_eventID w]} ∪ l_projected s) (l_pii s) in
  (cas_passes s (w_key w) head /\
   writeChainHead (w_key w).1 (w_key w).2 head (h_LastSeq head + 1) hash s1 = Ok (appended s (w_row w head hash), tt)) \/
  (~ cas_passes s (w_key w) head /\
   writeChainHead (w_key w).1 (w_key w).2 head (h_LastSeq head + 1) hash s1 = Err ErrChainConflict).
Proof.
  intros _ s1. destruct (w_row_facts w head hash) as (Hid & Hseq & _ & Hh).
  destruct (writeChainHead_spec (w_key w).1 (w_key w).2 head (h_LastSeq head + 1) hash s1) as [[Hc E]|[Hc E]].
  - left. split; [by destruct (w_key w)|]. rewrite E. unfold appended. rewrite w_row_key, Hid, Hseq, Hh.
    by destruct (w_key w).
  - right. split; [by destruct (w_key w)|done].
Qed.

Lemma claim_fresh s id : id ∉ l_projected s ->
  claimEventIdentity id s = Ok (mkLedger (l_events s) (l_heads s) ({[id]} ∪ l_projected s) (l_pii s), true).
Proof. intros H. unfold claimEventIdentity. by rewrite decide_False. Qed.

(** A commit of an unclaimed identity: the hash is computed and the swap
    decides. *)
Lemma w_commit_fresh s w head :
  ledger_ok s -> w_eventID w ∉ l_projected s ->
  match w_hash w head with
  | Ok hash =>
      (cas_passes s (w_key w) head /\ w_commit w head s = Ok (appended s (w_row w head hash), tt)) \/
      (~ cas_passes s (w_key w) head /\ w_commit w head s = Err ErrChainConflict)
  | Err e => w_commit w head s = Err e
  end.
Proof.
  intros Hok Hnew. unfold w_commit, mbind, ltx_bind. rewrite claim_fresh by done. simpl.
  pose proof (ok_claimed _ Hok) as Hc.
  destruct w as [input|input id shard time]; simpl in *;
    [unfold append_row, w_hash, w_input|unfold append_legacy_row, w_hash, w_input];
    cbn [w_event w_eventID w_key w_ref w_version snd]; cbv zeta; unfold mbind, ltx_bind, l_lift, res_bind; destruct (append_hash_input _ _ _ _ _ _ _) as [hi|]; try done;
    (destruct (hashRowForEvent hi) as [hash|]; [|done]).
  - pose proof (append_tail s (AppendWriter input) head hash Hnew) as Ht.
    erewrite (insert_event_fresh s); [|done|done|done]. simpl in *. rewrite default_outcome_context.
    destruct Ht as [[Hcas ->]|[Hcas ->]]; [left|right]; done.
  - pose proof (append_tail s (LegacyWriter input id shard time) head hash Hnew) as Ht.
    erewrite (insert_event_fresh s); [|done|done|done]. simpl in *.
    destruct Ht as [[Hcas ->]|[Hcas ->]]; [left|right]; done.
Qed.

Lemma w_commit_claimed s w head : w_eventID w ∈ l_projected s -> w_commit w head s = Err (w_refusal w).
Proof. intros H. unfold w_commit, mbind, ltx_bind, claimEventIdentity. by rewrite decide_True. Qed.

Lemma w_commit_inv s s' w head :
  ledger_ok s -> w_commit w head s = Ok (s', tt) ->
  (w_eventID w ∉ l_projected s) /\ cas_passes s (w_key w) head /\
  exists hash, w_hash w head = Ok hash /\ s' = appended s (w_row w head hash).
Proof.
  intros Hok E. destruct (decide (w_eventID w ∈ l_projected s)) as [Hin|Hnew].
  { by rewrite w_commit_claimed in E. }
  pose proof (w_commit_fresh s w head Hok Hnew) as H. destruct (w_hash w head) as [hash|]; [|congruence].
  destruct H as [[Hc Hs]|[_ Hs]]; [|congruence]. split_and!; [done..|]. exists hash. split; [done|congruence].
Qed.

(** ** Every interleaving *)

Lemma past_head_appended s row k head : past_head s k head -> past_head (appended s row) k head.
Proof.
  intros (rows & Hp & ->). exists rows. split; [|done]. simpl. rewrite chain_rows_app. by apply prefix_app_r.
Qed.

(** The row of a writer at a head, under the hash it computes there. *)
Definition written (r : Row) : Prop :=
  exists w head hash, (w_starts w /\ admitted w) /\ w_hash w head = Ok hash /\ r = w_row w head hash.

Record system_ok (sys : system) : Prop := {
  sys_ledger : ledger_ok sys.1;
  sys_pending : Forall (fun p => (w_starts p.1 /\ admitted p.1) /\ past_head sys.1 (w_key p.1) p.2) sys.2;
  sys_written : Forall written (l_events sys.1);
}.

Lemma w_commit_ok s s' w head :
  ledger_ok s -> past_head s (w_key w) head -> w_commit w head s = Ok (s', tt) -> ledger_ok s'.
Proof.
  intros Hok Hpast (Hnew & Hcas & hash & Hh & ->)%w_commit_inv; [|done].
  apply past_head_cas in Hcas; [|done..]. destruct (w_row_facts w head hash) as (Hid & Hseq & Hprev & _).
  apply appended_ok; [done| | |].
  - by rewrite Hid.
  - by rewrite Hseq, w_row_key, <- Hcas.
  - by rewrite Hprev, w_row_key, <- Hcas.
Qed.

Lemma step_ok sys sys' : ledger_step sys sys' -> system_ok sys -> system_ok sys'.
Proof.
  destruct 1 as [s ps w head Hw Ha Hr|s s' ps1 w head ps2 Hc|s ps1 p ps2]; intros [Hok Hps Hrows]; simpl in *.
  - split; [done| |done]. rewrite readChainHead_ok in Hr by done. injection Hr as <-. constructor; [|done].
    split; [done|]. simpl. eexists; split; [done|]. by destruct (w_key w).
  - apply Forall_app in Hps as [H1 [[Hw Hp] H2]%Forall_cons]. split; simpl; [by eapply w_commit_ok|..].
    + apply w_commit_inv in Hc as (_ & _ & hash & _ & ->); [|done]. apply Forall_app.
      split; (eapply Forall_impl; [done|]); intros p [? ?]; split; auto using past_head_appended.
    + apply w_commit_inv in Hc as (_ & _ & hash & Hh & ->); [|done]. simpl. apply Forall_app. split; [done|].
      constructor; [|constructor]. by exists w, head, hash.
  - apply Forall_app in Hps as [H1 [_ H2]%Forall_cons]. split; [done|by apply Forall_app|done].
Qed.

Lemma reachable_ok sys : reachable sys -> system_ok sys.
Proof.
  assert (forall sys0, rtc ledger_step sys0 sys -> system_ok sys0 -> system_ok sys) as Hsteps.
  { induction 1 as [|a b c Hab _ IH]; [done|]. intros Ha. apply IH. by eapply step_ok. }
  intros H. apply (Hsteps _ H). split; [apply empty_ledger_ok|constructor|constructor].
Qed.

(** C5: Whatever the interleaving of consumers and legacy writers, from an
    empty ledger, every organization and shard has one linked chain numbered
    from 1 whose last row is its head, no event has two rows, and the claimed
    identities are those of the rows. *)
Theorem reachable_ledger_ok (s : ledger) (ps : list (writer * chainHeadState)) :
  reachable (s, ps) -> ledger_ok s.
Proof. by intros [H _ _]%reachable_ok. Qed.

(** C31: What a pending transaction meets at its commit: an identity that has
    a row is refused, a head that another writer moved is a chain conflict,
    and on an unmoved head the row is appended, so a retry that reads the
    head again is not refused by the chain. *)
Theorem pending_commit_outcome (s : ledger) (ps : list (writer * chainHeadState)) (w : writer) (head : chainHeadState) (hash : string) :
  reachable (s, ps) -> (w, head) ∈ ps -> w_hash w head = Ok hash ->
  w_commit w head s =
    if decide (w_eventID w ∈ row_EventID <$> l_events s) then Err (w_refusal w)
    else if decide (head = head_of (chain_rows (w_key w) (l_events s)))
    then Ok (appended s (w_row w head hash), tt)
    else Err ErrChainConflict.
Proof.
  intros [Hok Hps _]%reachable_ok Hin Hh. simpl in *.
  pose proof (proj1 (Forall_forall _ _) Hps _ Hin) as [_ Hpast]. simpl in Hpast.
  assert (w_eventID w ∈ row_EventID <$> l_events s <-> w_eventID w ∈ l_projected s) as Hids.
  { by rewrite <- (ok_claimed _ Hok), elem_of_list_to_set. }
  case_decide as Hid; [apply w_commit_claimed; by apply Hids|].
  pose proof (w_commit_fresh s w head Hok ltac:(by rewrite <- Hids)) as Hc. rewrite Hh in Hc.
  rewrite (past_head_cas _ _ _ Hok Hpast) in Hc. case_decide; naive_solver.
Qed.

(** A transaction that meets no other writer is a read and a commit. *)
Lemma appendChainRow_alone s input :
  ledger_ok s -> ValidateEvent (ai_Event input) = Ok tt ->
  (_ ← appendChainRow input; mret tt) s =
    w_commit (AppendWriter input) (head_of (chain_rows (w_key (AppendWriter input)) (l_events s))) s.
Proof.
  intros Hok Hv. unfold w_commit, appendChainRow, mbind, ltx_bind, l_lift. rewrite Hv. simpl.
  unfold claimEventIdentity. case_decide; [done|]. simpl. rewrite default_outcome_context.
  pose proof (readChainHead_ok s (ec_OrgID (ev_Context (ai_Event input))) (ai_Shard input) Hok) as Hr.
  unfold readChainHead in Hr. by injection Hr as ->.
Qed.

End writers.
