(* ===== verification/ReadManifest.v ===== *)
(** * Read manifests: internal/audit/read_manifest.go, export_manifest_parts.go,
    event_parts.go

    The identities a read returned are grouped into JSON arrays of bounded
    size; their digest is the evidence of the event.  The verifier decodes the
    arrays and recomputes the evidence. *)

From S2P Require Import Prelude GoJson Sha256 Bytes Quote Canonical Domain Store Tx AuditEvent RowHash.
From Stdlib Require Import Ascii.

(** ** Sizes *)

Definition EventPartMaxBytes : N := 65536.
Definition ReadManifestMaxEntries : nat := 256.

Definition byte_count (s : string) : N := N.of_nat (String.length s).

Definition sha256Hex (payload : string) : string := digest_hex (sha256 payload).

Fixpoint concat_text (l : list string) : string :=
  match l with [] => EmptyString | s :: l' => s +:+ concat_text l' end.

Section builder.
Context `{GL : GoLib}.

(** ** The builder *)

(** [json.Marshal] of a target and of a list of them. *)
Definition target_text (t : Target) : string := print (target_json t).
Definition targets_text (ts : list Target) : string := print (JArr (target_json <$> ts)).

(** [mb_emitted] is what [emit] received, in order. *)
Record manifestBuilder := mkBuilder {
  mb_current : list Target;
  mb_currentBytes : N;
  mb_emitted : list string;
}.

Definition newManifestBuilder : manifestBuilder := mkBuilder [] 2 [].

Definition flush (b : manifestBuilder) : manifestBuilder :=
  mkBuilder [] 2 (mb_emitted b ++ [targets_text (mb_current b)]).

Definition builder_add (b : manifestBuilder) (target : Target) : res manifestBuilder :=
  let encoded := byte_count (target_text target) in
  let targetBytes := (encoded + 1)%N in
  if (EventPartMaxBytes <? encoded + 2)%N then Err ErrOther
  else
    let b := if bool_decide (length (mb_current b) = ReadManifestMaxEntries) || (EventPartMaxBytes <? mb_currentBytes b + targetBytes)%N
             then flush b else b in
    Ok (mkBuilder (mb_current b ++ [target]) (mb_currentBytes b + targetBytes) (mb_emitted b)).

Definition builder_finish (b : manifestBuilder) : manifestBuilder :=
  match mb_current b with [] => b | _ :: _ => flush b end.

Definition readManifestParts (targets : list Target) : res (list string) :=
  b ← res_foldl builder_add newManifestBuilder targets;
  Ok (mb_emitted (builder_finish b)).

Definition ReadManifestDigest (targets : list Target) : res (string * N) :=
  parts ← readManifestParts targets;
  Ok (sha256Hex (concat_text parts), N.of_nat (length parts)).

Definition checkReadManifest (event : Event) (targets : list Target) : res unit :=
  match ec_Read (ev_Context event) with
  | None => require (bool_decide (targets = [])) ErrOther
  | Some read =>
      if bool_decide (targets = []) && blank (rd_ManifestSHA256 read) && (rd_ManifestParts read =? 0)%N then Ok tt
      else
        '(digest, partCount) ← ReadManifestDigest targets;
        require (eqs digest (rd_ManifestSHA256 read) && (partCount =? rd_ManifestParts read)%N) ErrOther
  end.

(** ** Decoding a target *)

(** The name encoding/json folds a member name to: ASCII letters in upper
    case, and the two other runes that fold to one. *)
Fixpoint fold_name (s : string) : string :=
  match s with
  | EmptyString => EmptyString
  | String c s' =>
      if in_range 97 122 c then String (chr (code c - 32)) (fold_name s')
      else match s' with
           | String c2 s2 =>
               if (code c =? 197)%N && (code c2 =? 191)%N then String "S" (fold_name s2)
               else match s2 with
                    | String c3 s3 =>
                        if (code c =? 226)%N && (code c2 =? 132)%N && (code c3 =? 170)%N then String "K" (fold_name s3)
                        else String c (fold_name s')
                    | EmptyString => String c (fold_name s')
                    end
           | EmptyString => String c (fold_name s')
           end
  end.

Inductive target_field := FKind | FNodeType | FReference | FName | FURI | FRelationType | FID | FSourceID | FTargetID | FOwnerID.

Definition target_fields : list (string * target_field) :=
  [("kind", FKind); ("node_type", FNodeType); ("reference", FReference); ("name", FName); ("uri", FURI);
   ("relation_type", FRelationType); ("id", FID); ("source_id", FSourceID); ("target_id", FTargetID); ("owner_id", FOwnerID)].

(** The exact name, else the folded one. *)
Definition target_field_of (key : string) : option target_field :=
  match assoc key target_fields with
  | Some f => Some f
  | None => assoc (fold_name key) ((fun kv => (fold_name kv.1, kv.2)) <$> target_fields)
  end.

Definition kind_of_text (s : string) : TargetKind :=
  if eqs s "node" then TargetKindNode else if eqs s "relationship" then TargetKindRelationship
  else if eqs s "resource" then TargetKindResource else if eqs s "external" then TargetKindExternal else TargetKindOther s.

Definition zero_target : Target :=
  mkAuditTarget (TargetKindOther EmptyString) EmptyString EmptyString EmptyString EmptyString EmptyString uuid_nil uuid_nil uuid_nil uuid_nil.

Definition set_text (t : Target) (f : target_field) (s : string) : Target :=
  let 'mkAuditTarget k n r m u y i a b o := t in
  match f with
  | FKind => mkAuditTarget (kind_of_text s) n r m u y i a b o
  | FNodeType => mkAuditTarget k s r m u y i a b o
  | FReference => mkAuditTarget k n s m u y i a b o
  | FName => mkAuditTarget k n r s u y i a b o
  | FURI => mkAuditTarget k n r m s y i a b o
  | FRelationType => mkAuditTarget k n r m u s i a b o
  | _ => t
  end.

Definition set_id (t : Target) (f : target_field) (id : uuid) : Target :=
  let 'mkAuditTarget k n r m u y i a b o := t in
  match f with
  | FID => mkAuditTarget k n r m u y id a b o
  | FSourceID => mkAuditTarget k n r m u y i id b o
  | FTargetID => mkAuditTarget k n r m u y i a id o
  | FOwnerID => mkAuditTarget k n r m u y i a b id
  | _ => t
  end.

Definition is_text_field (f : target_field) : bool :=
  match f with FKind | FNodeType | FReference | FName | FURI | FRelationType => true | _ => false end.

(** One member into the struct; null leaves the field as it is. *)
Definition decode_target_member (t : Target) (kv : string * json) : option Target :=
  f ← target_field_of kv.1;
  match kv.2 with
  | JNull => Some t
  | JStr s => if is_text_field f then Some (set_text t f s) else set_id t f <$> uuid_parse s
  | _ => None
  end.

Fixpoint opt_foldl {A B} (f : A -> B -> option A) (a : A) (l : list B) : option A :=
  match l with [] => Some a | b :: l' => match f a b with Some a' => opt_foldl f a' l' | None => None end end.

Definition decode_target (v : json) : option Target :=
  match v with
  | JNull => Some zero_target
  | JObj fs => opt_foldl decode_target_member zero_target fs
  | _ => None
  end.

(** The strict decode of [[]Target] from a whole payload. *)
Definition decode_targets (payload : string) : option (list Target) :=
  match json_parse payload with
  | Some (JArr xs) => mapM decode_target xs
  | Some JNull => Some []
  | _ => None
  end.

(** ** The validator *)

Record ManifestPart := mkManifestPart { mp_Index : N; mp_Digest : string; mp_Payload : string }.

Definition manifestPayloadCount (payload : string) (validateIdentities : bool) : N :=
  match decode_targets payload with
  | None => 0
  | Some targets =>
      if bool_decide (targets = []) || (ReadManifestMaxEntries <? length targets)%nat then 0
      else if validateIdentities && negb (forallb (fun t => is_ok (validateTarget t)) targets) then 0
      else N.of_nat (length targets)
  end.

(** [mv_root] is what was written to the hash. *)
Record manifestValidator := mkValidator { mv_root : string; mv_parts : N; mv_identities : N }.

Definition newManifestValidator : manifestValidator := mkValidator EmptyString 0 0.

Definition validator_add (v : manifestValidator) (part : ManifestPart) (validateIdentities : bool) : option manifestValidator :=
  if negb (mp_Index part =? mv_parts v)%N then None
  else if (EventPartMaxBytes <? byte_count (mp_Payload part))%N || negb (eqs (sha256Hex (mp_Payload part)) (mp_Digest part)) then None
  else
    let count := manifestPayloadCount (mp_Payload part) validateIdentities in
    if (count =? 0)%N then None
    else Some (mkValidator (mv_root v +:+ mp_Payload part) (mv_parts v + 1) (mv_identities v + count)).

Definition validator_finish (v : manifestValidator) (read : ReadEvidence) (checkCount : bool) : bool :=
  (mv_parts v =? rd_ManifestParts read)%N && eqs (sha256Hex (mv_root v)) (rd_ManifestSHA256 read) &&
  negb (checkCount && negb (mv_identities v =? rd_Count read)%N).

(** The verdict on the parts of a row: [false] is a violation. *)
Definition parts_match (read : ReadEvidence) (parts : list ManifestPart) (checkCount : bool) : bool :=
  match opt_foldl (fun v part => validator_add v part checkCount) newManifestValidator parts with
  | Some v => validator_finish v read checkCount
  | None => false
  end.

Definition manifestViolation (read : option ReadEvidence) (parts : list ManifestPart) : bool :=
  match read with
  | Some read =>
      if (rd_ManifestParts read =? 0)%N && blank (rd_ManifestSHA256 read) then negb (bool_decide (parts = []))
      else negb (parts_match read parts false)
  | None => negb (bool_decide (parts = []))
  end.

(** The rows of audit.event_parts the consumer writes for the payloads. *)
Fixpoint stored_parts (i : N) (payloads : list string) : list ManifestPart :=
  match payloads with [] => [] | p :: ps => mkManifestPart i (sha256Hex p) p :: stored_parts (i + 1) ps end.

End builder.
