(* ===== verification/Verify.v ===== *)
(** * Offline verification: internal/audit/export_rowhash.go,
    export_rowhash_token.go, export_verify.go, export_verify_chain.go

    A bundle's rows are recomputed one by one, then their links are walked in
    chain order.  The report is judged by [VerifyReport.Err]. *)

From S2P Require Import Prelude GoJson Sha256 Bytes Float64 Canonical GoTime Domain Store Tx AuditEvent RowHash Ledger ReadManifest.

(** ** The hash of a stored row *)

Definition with_org (c : EventContext) (orgID : uuid) : EventContext :=
  mkEventContext orgID (ec_WorkspaceID c) (ec_ScopeID c) (ec_ParentID c) (ec_RequestID c) (ec_TraceID c)
    (ec_Source c) (ec_Tool c) (ec_RPC c) (ec_Reason c) (ec_APITokenID c) (ec_CommitVersion c) (ec_AuditFormatVersion c)
    (ec_OperationClass c) (ec_Phase c) (ec_OperationID c) (ec_ParentOperationID c) (ec_StartedAt c) (ec_CompletedAt c)
    (ec_Target c) (ec_Read c) (ec_CommittedSteps c) (ec_Selection c) (ec_HTTPMethod c) (ec_RequestPath c).

Definition export_actor (kind : string) (id : uuid) : Actor :=
  mkActor kind id EmptyString EmptyString EmptyString EmptyString EmptyString EmptyString EmptyString.

Definition exportEvent (row : Row) : Event :=
  mkEvent (row_Action row) (row_EventID row) (export_actor (actorTypeFromCode (row_ActorKind row)) (row_ActorID row))
    (mkEntity (row_EntityKind row) EmptyString (row_EntityID row) EmptyString EmptyString)
    (with_org (row_Context row) (row_OrgID row)) (row_Delta row) (row_Outcome row) (row_Error row)
    (row_IdempotencyKey row) (row_EventTime row) (row_Extra row) [].

(** The event of a hash input at another instant. *)
Definition at_instant (e : Event) (t : instant) : Event :=
  mkEvent (ev_Verb e) (ev_EventID e) (ev_Actor e) (ev_Entity e) (ev_Context e) (ev_Delta e) (ev_Outcome e) (ev_Error e)
    (ev_IdempotencyKey e) t (ev_Extra e) (ev_Protected e).

Definition input_at (input : rowHashInput) (t : instant) : rowHashInput :=
  mkRowHashInput (at_instant (rh_Event input) t) (rh_EventID input) (rh_Shard input) (rh_Seq input) (rh_PIIRef input)
    (rh_ContextJSON input) (rh_DeltaJSON input) (rh_LastHash input) (rh_Version input).

Definition with_context_json (input : rowHashInput) (contextJSON : json) : rowHashInput :=
  mkRowHashInput (rh_Event input) (rh_EventID input) (rh_Shard input) (rh_Seq input) (rh_PIIRef input)
    contextJSON (rh_DeltaJSON input) (rh_LastHash input) (rh_Version input).

Definition legacyNanosecondCandidates : nat := 1000.

Section check.
Context `{GL : GoLib} `{FF : FloatFormat}.

Definition rowHashInputFor (row : Row) : res rowHashInput :=
  match context_json (row_Context row), delta_json (row_Delta row) with
  | Some contextJSON, Some deltaJSON =>
      Ok (mkRowHashInput (exportEvent row) (row_EventID row) (row_Shard row) (row_Seq row)
            (default uuid_nil (row_PIIRef row)) contextJSON deltaJSON (row_PrevHash row) (row_HashVersion row))
  | _, _ => Err ErrOther
  end.

Definition ComputeRowHash (row : Row) : res string :=
  input ← rowHashInputFor row;
  hashRowForEvent input.

(** The loop over the remainders from [i] on, [n] of them left. *)
Fixpoint try_remainders (input : rowHashInput) (base : instant) (rowHash : string) (n : nat) (i : Z) : res bool :=
  match n with
  | O => Ok false
  | S n' =>
      expected ← hashRowForEvent (input_at input (base + i));
      if decide (expected = rowHash) then Ok true else try_remainders input base rowHash n' (i + 1)
  end.

Definition checkLegacyRowHash (row : Row) : res bool :=
  input ← rowHashInputFor row;
  try_remainders input (row_EventTime row) (row_RowHash row) legacyNanosecondCandidates 0.

Definition checkZeroTokenIDRowHash (row : Row) : res bool :=
  if negb (nil (ec_APITokenID (row_Context row))) then Ok false
  else
    input ← rowHashInputFor row;
    match contextWithZeroTokenID (row_Context row) with
    | None => Err ErrOther
    | Some contextJSON =>
        expected ← hashRowForEvent (with_context_json input contextJSON);
        Ok (bool_decide (expected = row_RowHash row))
    end.

(** Rows of format 0 predate the contract. *)
Definition contractViolation (row : Row) : bool :=
  negb (ec_AuditFormatVersion (row_Context row) =? AuditFormatLegacy)%N && negb (is_ok (validateStoredEvent (exportEvent row))).

Definition checkRowHash (row : Row) : res bool :=
  if (row_HashVersion row <? auditHashVersion1)%Z || (auditHashVersionCurrent <? row_HashVersion row)%Z then Ok false
  else if (row_HashVersion row <? auditHashVersion3)%Z &&
          negb (nanosecond (row_EventTime row) mod Z.of_nat legacyNanosecondCandidates =? 0)%Z then Ok false
  else if contractViolation row then Ok false
  else if (row_HashVersion row <? auditHashVersion3)%Z then checkLegacyRowHash row
  else
    expected ← ComputeRowHash row;
    if decide (expected = row_RowHash row) then Ok true else checkZeroTokenIDRowHash row.

End check.

(** ** Chain links *)

Record chainLink := mkLink { cl_Shard : Z; cl_Seq : Z; cl_EventID : uuid; cl_PrevHash : string; cl_RowHash : string }.

(** [copy] into a [32]byte: cut, or filled with zero bytes. *)
Fixpoint copy_hash (n : nat) (s : string) : string :=
  match n with
  | O => EmptyString
  | S n' => match s with
            | String c s' => String c (copy_hash n' s')
            | EmptyString => String (chr 0) (copy_hash n' EmptyString)
            end
  end.

Definition newChainLink (row : Row) : chainLink :=
  mkLink (row_Shard row) (row_Seq row) (row_EventID row) (copy_hash 32 (row_PrevHash row)) (copy_hash 32 (row_RowHash row)).

(** The order of the sort. *)
Definition link_le (a b : chainLink) : Prop :=
  (cl_Shard a < cl_Shard b \/ (cl_Shard a = cl_Shard b /\ cl_Seq a <= cl_Seq b))%Z.

#[export] Instance link_le_dec : RelDecision link_le.
Proof. intros a b. unfold link_le. apply _. Defined.

#[export] Instance link_le_trans : Transitive link_le.
Proof. intros a b c. unfold link_le. lia. Qed.

#[export] Instance link_le_total : Total link_le.
Proof. intros a b. unfold link_le. lia. Qed.

(** What the report lists as a break; the text of an entry is its cause. *)
Inductive chain_break :=
  | ForeignOrg (eventID : uuid)
  | RowRejected (eventID : uuid)
  | RepeatedSequence (eventID : uuid)
  | LinkMismatch (eventID : uuid).

(** The counters of the report and the state of the walk. *)
Abbreviation last_links := (gmap Z (Z * string)) (only parsing).

Definition walk_link (st : last_links * (list chain_break * N)) (link : chainLink) : last_links * (list chain_break * N) :=
  let '(seen, (breaks, gaps)) := st in
  let '(breaks, gaps) :=
    match seen !! cl_Shard link with
    | None => (breaks, gaps)
    | Some (lastSeq, lastHash) =>
        let breaks := if (cl_Seq link <=? lastSeq)%Z then breaks ++ [RepeatedSequence (cl_EventID link)] else breaks in
        let gaps := if (lastSeq + 1 <? cl_Seq link)%Z then (gaps + 1)%N else gaps in
        let breaks := if (cl_Seq link =? lastSeq + 1)%Z && negb (bool_decide (cl_PrevHash link = lastHash))
                      then breaks ++ [LinkMismatch (cl_EventID link)] else breaks in
        (breaks, gaps)
    end in
  (<[cl_Shard link := (cl_Seq link, cl_RowHash link)]> seen, (breaks, gaps)).

(** [verifyChainLinks] on the breaks so far; merge sort is a stable sort. *)
Definition verifyChainLinks (links : list chainLink) (breaks : list chain_break) : list chain_break * N :=
  (foldl walk_link (∅, (breaks, 0%N)) (merge_sort link_le links)).2.

(** ** The report *)

Record VerifyReport := mkReport {
  vr_RowsScanned : N;
  vr_HashMatches : N;
  vr_ChainGapCount : N;
  vr_ChainBreaks : list chain_break;
  vr_FileSHA256OK : bool;
  vr_SignatureOK : bool;
  vr_ManifestRowCount : N;
  vr_ManifestSigner : string;
  vr_VerifiedSigner : string;
  vr_SignerSetConfigured : bool;
  vr_SignerAllowed : bool;
}.

(** [Err] returns nil. *)
Definition report_passes (r : VerifyReport) : bool :=
  vr_FileSHA256OK r && vr_SignatureOK r &&
  negb (vr_SignerSetConfigured r && negb (vr_SignerAllowed r)) &&
  negb (vr_SignerSetConfigured r && negb (eqs (vr_ManifestSigner r) (vr_VerifiedSigner r))) &&
  bool_decide (vr_ChainBreaks r = []) &&
  (vr_HashMatches r =? vr_RowsScanned r)%N && (vr_ManifestRowCount r =? vr_RowsScanned r)%N.

(** ** The scan *)

Section scan.
Context `{GL : GoLib} `{FF : FloatFormat}.

(** Rows scanned, hash matches and breaks so far. *)
Record scanState := mkScan { sc_RowsScanned : N; sc_HashMatches : N; sc_ChainBreaks : list chain_break }.

(** One decoded row of the events file with the read manifest parts it
    carries. *)
Definition scan_row (orgID : uuid) (st : scanState) (row : Row * list ManifestPart) : res scanState :=
  let '(row, parts) := row in
  let breaks := if decide (row_OrgID row = orgID) then sc_ChainBreaks st else sc_ChainBreaks st ++ [ForeignOrg (row_EventID row)] in
  matched ← checkRowHash row;
  let matched := matched && negb (manifestViolation (ec_Read (row_Context row)) parts) in
  Ok (mkScan (sc_RowsScanned st + 1) (if matched then sc_HashMatches st + 1 else sc_HashMatches st)%N
        (if matched then breaks else breaks ++ [RowRejected (row_EventID row)])).

(** What the manifest and the keys contribute to the report: the manifest's
    organization, row count and signer, and the verdicts on the file digest,
    the signature and the signer set. *)
Record manifestFacts := mkManifestFacts {
  mf_OrgID : uuid;
  mf_RowCount : N;
  mf_SignatureBy : string;
  mf_FileSHA256OK : bool;
  mf_SignatureOK : bool;
  mf_VerifiedSigner : string;
  mf_SignerSetConfigured : bool;
  mf_SignerAllowed : bool;
}.

(** [VerifyBundleWithSigners] once the manifest is read and the events file
    is decoded into its rows. *)
Definition verify_rows (mf : manifestFacts) (rows : list (Row * list ManifestPart)) : res VerifyReport :=
  st ← res_foldl (scan_row (mf_OrgID mf)) (mkScan 0 0 []) rows;
  let '(breaks, gaps) := verifyChainLinks (newChainLink <$> rows.*1) (sc_ChainBreaks st) in
  Ok (mkReport (sc_RowsScanned st) (sc_HashMatches st) gaps breaks (mf_FileSHA256OK mf) (mf_SignatureOK mf)
        (mf_RowCount mf) (mf_SignatureBy mf) (mf_VerifiedSigner mf) (mf_SignerSetConfigured mf) (mf_SignerAllowed mf)).

End scan.
