(* ===== verification/VerifySpec.v ===== *)
(** * What offline verification establishes

    The rows the ledger's writers store pass, whatever part of them a bundle
    exports; and rows that pass with the same hash record the same thing,
    unless SHA-256 collides on their own messages. *)

From S2P Require Import Prelude GoJson Sha256 Bytes Float64 Quote Canonical GoTime Domain Store Tx AuditEvent RowHash Ledger LedgerSpec ReadManifest Verify.

(** ** Stored rows recompute *)

(** An actor kind without a code is stored as 0 and read back as the empty
    kind; an instant in the first microsecond of year 1 is stored as zero. *)
Definition recognised (w : writer) : Prop :=
  match w with
  | AppendWriter input =>
      let e := ai_Event input in
      (actorKindCode (ac_Type (ev_Actor e)) <> 0%Z \/ ac_Type (ev_Actor e) = EmptyString) /\ truncate_micro (ev_OccurredAt e) <> 0%Z
  | LegacyWriter _ _ _ _ => True
  end.

Section honest.
Context `{GL : GoLib} `{FF : FloatFormat}.

Lemma with_org_same c : with_org c (ec_OrgID c) = c.
Proof. by destruct c. Qed.

Lemma piiRef_back ref : default uuid_nil (piiRefArg ref) = ref.
Proof. unfold piiRefArg, nil. by case_bool_decide. Qed.

Lemma recognised_kind w input : w = AppendWriter input -> recognised w ->
  actorTypeFromCode (actorKindCode (ac_Type (ev_Actor (ai_Event input)))) = ac_Type (ev_Actor (ai_Event input)).
Proof. intros -> [[H|H] _]; [by apply actorKind_roundtrip|by rewrite H]. Qed.

Lemma default_outcome_fields e :
  ev_Verb (default_outcome e) = ev_Verb e /\ ev_Actor (default_outcome e) = ev_Actor e /\ ev_Entity (default_outcome e) = ev_Entity e /\
  ev_Delta (default_outcome e) = ev_Delta e /\ ev_Error (default_outcome e) = ev_Error e /\
  ev_IdempotencyKey (default_outcome e) = ev_IdempotencyKey e /\ ev_OccurredAt (default_outcome e) = ev_OccurredAt e /\
  ev_Extra (default_outcome e) = ev_Extra e /\ ev_EventID (default_outcome e) = ev_EventID e.
Proof. unfold default_outcome. by case_match. Qed.

(** The event read back from the row of [e]. *)
Definition read_back (e : Event) (id : uuid) : Event :=
  mkEvent (ev_Verb e) id (export_actor (actorTypeFromCode (actorKindCode (ac_Type (ev_Actor e)))) (ac_ID (ev_Actor e)))
    (mkEntity (en_Type (ev_Entity e)) EmptyString (en_ID (ev_Entity e)) EmptyString EmptyString)
    (ev_Context e) (ev_Delta e) (ev_Outcome e) (ev_Error e) (ev_IdempotencyKey e) (truncate_micro (ev_OccurredAt e)) (ev_Extra e) [].

Lemma export_event_row e id shard seq ref prev hash : exportEvent (event_row e id shard seq ref prev hash) = read_back e id.
Proof. unfold exportEvent, read_back. f_equal. apply with_org_same. Qed.

Lemma stored_complete e :
  actorTypeFromCode (actorKindCode (ac_Type (ev_Actor e))) = ac_Type (ev_Actor e) -> truncate_micro (ev_OccurredAt e) <> 0%Z ->
  validateCompleteEvent e = Ok tt -> validateCompleteEvent (read_back e (ev_EventID e)) = Ok tt.
Proof.
  intros Hk Ht (target & Htg & ? & ? & ? & Ha & ? & ? & ? & Ho & Hc)%validateCompleteEvent_iff.
  apply validateCompleteEvent_iff. exists target. simpl. split_and!; try tauto.
  unfold validateActor in *. simpl. by rewrite Hk.
Qed.

Lemma w_hash_inv w head hash : w_hash w head = Ok hash ->
  exists c d, context_json (ev_Context (w_event w)) = Some c /\ delta_json (ev_Delta (w_event w)) = Some d /\
    hashRowForEvent (mkRowHashInput (w_event w) (w_eventID w) (w_key w).2 (h_LastSeq head + 1) (w_ref w) c d (h_LastHash head) (w_version w)) = Ok hash.
Proof.
  unfold w_hash, w_input, append_hash_input. destruct (context_json _) as [c|]; [|done]. destruct (delta_json _) as [d|]; [|done]. eauto.
Qed.

Lemma append_row_checks input head hash :
  w_starts (AppendWriter input) -> recognised (AppendWriter input) -> w_hash (AppendWriter input) head = Ok hash ->
  checkRowHash (w_row (AppendWriter input) head hash) = Ok true.
Proof.
  intros (Hv & Hid & Hnil & Hzero & _) Hrec Hh. pose proof (recognised_kind _ _ eq_refl Hrec) as Hk. destruct Hrec as [_ Ht].
  apply w_hash_inv in Hh as (c & d & Hc & Hd & Hh). cbn [w_event w_row w_eventID w_key w_ref w_version snd] in *.
  remember (default_outcome (ai_Event input)) as e eqn:Ee.
  destruct (default_outcome_fields (ai_Event input)) as (_ & Ea & _ & _ & _ & _ & Eo & _ & Ei).
  rewrite <- Ee, ?Ea in *.
  unfold checkRowHash. change (row_HashVersion _) with 3%Z. cbn [Z.ltb].
  change ((3 <? auditHashVersion1)%Z || (auditHashVersionCurrent <? 3)%Z) with false.
  change ((3 <? auditHashVersion3)%Z) with false. cbn [andb]. cbv iota.
  assert (contractViolation (event_row e (ai_EventID input) (ai_Shard input) (h_LastSeq head + 1) (ai_PIIRef input) (h_LastHash head) hash) = false) as ->.
  { unfold contractViolation. change (row_Context _) with (ev_Context e).
    destruct (N.eqb_spec (ec_AuditFormatVersion (ev_Context e)) AuditFormatLegacy) as [|Hf]; [done|].
    assert (e = ai_Event input) as He.
    { rewrite Ee in Hf |- *. unfold default_outcome in *. destruct (blank _); [|done]. simpl in *.
      destruct (N.eqb_spec (ec_AuditFormatVersion (ev_Context (ai_Event input))) AuditFormatLegacy); done. }
    rewrite export_event_row, He, Hid. unfold validateStoredEvent, ValidateEvent, validateEventContract in *.
    change (ev_Context (read_back _ _)) with (ev_Context (ai_Event input)).
    rewrite He in Hf. apply N.eqb_neq in Hf. rewrite Hf in Hv |- *.
    destruct (ec_AuditFormatVersion (ev_Context (ai_Event input)) =? AuditFormatComplete)%N; [|done].
    apply unit_bind in Hv as [Hv _]. by rewrite stored_complete. }
  unfold ComputeRowHash, rowHashInputFor. rewrite export_event_row.
  change (row_Context _) with (ev_Context e). change (row_Delta _) with (ev_Delta e). rewrite Hc, Hd.
  change (Ok ?x ≫= ?f) with (f x). cbv beta.
  match goal with |- (?x ≫= _) = _ => assert (x = Ok hash) as -> end; [|cbn; by rewrite decide_True].
  rewrite <- Hh. unfold hashRowForEvent, row_payload. cbn.
  change (auditHashVersionCurrent =? auditHashVersion1)%Z with false. cbv iota.
  unfold payload_v3, payload_v2, payload_v1. cbn. rewrite piiRef_back, truncate_micro_idem, Ea, Hk. done.
Qed.

Lemma try_remainders_first input base hash n :
  (0 < n)%nat -> hashRowForEvent (input_at input base) = Ok hash -> try_remainders input base hash n 0 = Ok true.
Proof.
  intros Hn Hh. destruct n as [|n]; [lia|]. cbn [try_remainders]. rewrite Z.add_0_r, Hh. cbn. by rewrite decide_True.
Qed.

Lemma checkLegacyRowHash_first row input :
  rowHashInputFor row = Ok input -> hashRowForEvent (input_at input (row_EventTime row)) = Ok (row_RowHash row) ->
  checkLegacyRowHash row = Ok true.
Proof.
  intros Hi Hh. unfold checkLegacyRowHash. assert (0 < legacyNanosecondCandidates)%nat as Hn by (unfold legacyNanosecondCandidates; lia).
  generalize dependent legacyNanosecondCandidates. intros n Hn. rewrite Hi. by apply try_remainders_first.
Qed.

Lemma checkRowHash_legacy row :
  row_HashVersion row = auditHashVersion1 -> (nanosecond (row_EventTime row) mod 1000 = 0)%Z -> contractViolation row = false ->
  checkRowHash row = checkLegacyRowHash row.
Proof.
  intros Hv Hn Hc. unfold checkRowHash. rewrite Hv, Hc. change (Z.of_nat legacyNanosecondCandidates) with 1000%Z. by rewrite Hn.
Qed.

Lemma legacy_contract input id shard time seq prev hash :
  contractViolation (legacy_row (legacyEvent input id time) id shard seq time prev hash) = false.
Proof. reflexivity. Qed.

Lemma legacy_row_hash input id shard time seq prev hash c d :
  hashRowForEvent (input_at (mkRowHashInput (exportEvent (legacy_row (legacyEvent input id time) id shard seq time prev hash))
                               id shard seq uuid_nil c d prev auditHashVersion1) time) =
  hashRowForEvent (mkRowHashInput (legacyEvent input id time) id shard seq uuid_nil c d prev auditHashVersion1).
Proof.
  assert (forall x y, row_payload x = row_payload y -> rh_LastHash x = rh_LastHash y -> hashRowForEvent x = hashRowForEvent y) as H.
  { intros x y Hp Hl. unfold hashRowForEvent. by rewrite Hp, Hl. }
  apply H; reflexivity.
Qed.

Lemma legacy_input input id shard time seq prev hash c d :
  context_json (ev_Context (legacyEvent input id time)) = Some c -> delta_json None = Some d ->
  let row := legacy_row (legacyEvent input id time) id shard seq time prev hash in
  rowHashInputFor row = Ok (mkRowHashInput (exportEvent row) id shard seq uuid_nil c d prev auditHashVersion1).
Proof. intros Hc Hd row. unfold rowHashInputFor. change (row_Context row) with (ev_Context (legacyEvent input id time)). rewrite Hc.
  change (row_Delta row) with (@None Delta). by rewrite Hd. Qed.

Lemma legacy_row_checks input id shard time head hash :
  w_starts (LegacyWriter input id shard time) -> w_hash (LegacyWriter input id shard time) head = Ok hash ->
  checkRowHash (w_row (LegacyWriter input id shard time) head hash) = Ok true.
Proof.
  intros (_ & _ & Ht) (c & d & Hc & Hd & Hh)%w_hash_inv. cbn [w_event w_row w_eventID w_key w_ref w_version snd] in *.
  pose proof (truncate_micro_nanos time) as Hn. rewrite Ht in Hn.
  set (row := legacy_row (legacyEvent input id time) id shard (h_LastSeq head + 1) time (h_LastHash head) hash).
  rewrite (checkRowHash_legacy row (eq_refl : row_HashVersion row = auditHashVersion1) Hn (legacy_contract _ _ _ _ _ _ _)).
  refine (checkLegacyRowHash_first _ _ (legacy_input _ _ _ _ _ _ _ _ _ Hc Hd) _).
  refine (eq_trans (legacy_row_hash _ _ _ _ _ _ _ _ _) Hh).
Qed.

Lemma written_checks r : written recognised r -> checkRowHash r = Ok true.
Proof.
  intros (w & head & hash & [Hs Hr] & Hh & ->). destruct w; [by apply append_row_checks|by apply legacy_row_checks].
Qed.

(** ** Links of stored rows *)

Lemma linked_lookup seq prev rows i r : linked seq prev rows -> rows !! i = Some r ->
  row_Seq r = (seq + Z.of_nat i)%Z /\ row_PrevHash r = match i with O => prev | S j => default EmptyString (row_RowHash <$> rows !! j) end.
Proof.
  revert seq prev i. induction rows as [|r' rows IH]; intros seq prev i; [done|]. intros (Hs & Hp & Hl).
  destruct i as [|i]; cbn; [intros [= <-]; split; [lia|done]|]. intros Hi.
  destruct (IH _ _ _ Hl Hi) as [-> ->]. split; [lia|]. by destruct i.
Qed.

Lemma chain_elem k s r : r ∈ l_events s -> row_key r = k -> exists i, chain_rows k (l_events s) !! i = Some r.
Proof. intros Hr Hk. apply list_elem_of_lookup. by apply list_elem_of_filter. Qed.

Lemma chain_position s r1 r2 : ledger_ok s -> r1 ∈ l_events s -> r2 ∈ l_events s -> row_key r1 = row_key r2 ->
  (row_Seq r1 = row_Seq r2 -> r1 = r2) /\ (row_Seq r2 = row_Seq r1 + 1 -> row_PrevHash r2 = row_RowHash r1)%Z.
Proof.
  intros Hok H1 H2 Hk. pose proof (ok_linked _ Hok (row_key r1)) as Hl.
  destruct (chain_elem _ _ _ H1 eq_refl) as [i Hi]. destruct (chain_elem _ _ _ H2 (eq_sym Hk)) as [j Hj].
  destruct (linked_lookup _ _ _ _ _ Hl Hi) as [Si _]. destruct (linked_lookup _ _ _ _ _ Hl Hj) as [Sj Pj]. split; intros E.
  - assert (i = j) as -> by lia. congruence.
  - assert (j = S i) as -> by lia. by rewrite Pj, Hi.
Qed.

(** A link of a stored row of the organization. *)
Definition link_of (s : ledger) (org : uuid) (l : chainLink) : Prop :=
  exists r, r ∈ l_events s /\ row_OrgID r = org /\ l = newChainLink r.

(** The last link of each shard is of a stored row and precedes the rest. *)
Definition seen_ok (s : ledger) (org : uuid) (seen : last_links) (rest : list chainLink) : Prop :=
  forall shard seq hash, seen !! shard = Some (seq, hash) ->
    exists r, r ∈ l_events s /\ row_OrgID r = org /\ row_Shard r = shard /\ row_Seq r = seq /\ hash = copy_hash 32 (row_RowHash r) /\
      Forall (fun l => cl_Shard l = shard -> (seq < cl_Seq l)%Z) rest.

Lemma walk_link_clean s org seen breaks gaps l rest :
  ledger_ok s -> link_of s org l -> seen_ok s org seen (l :: rest) ->
  exists gaps', walk_link (seen, (breaks, gaps)) l = (<[cl_Shard l := (cl_Seq l, cl_RowHash l)]> seen, (breaks, gaps')).
Proof.
  intros Hok (r & Hr & Horg & ->) Hseen. unfold walk_link. cbn [newChainLink cl_Shard cl_Seq cl_PrevHash cl_RowHash cl_EventID].
  destruct (seen !! row_Shard r) as [[q h]|] eqn:E; [|eauto].
  destruct (Hseen _ _ _ E) as (r' & Hr' & Horg' & Hsh & <- & -> & [Hlt _]%Forall_cons). specialize (Hlt eq_refl). simpl in Hlt.
  destruct (Z.leb_spec (row_Seq r) (row_Seq r')); [lia|].
  destruct (Z.eqb_spec (row_Seq r) (row_Seq r' + 1)) as [Eseq|]; [|cbn; eauto].
  destruct (chain_position s r' r Hok Hr' Hr) as [_ Hp]; [unfold row_key; congruence|]. rewrite (Hp Eseq), bool_decide_eq_true_2 by done.
  cbn. eauto.
Qed.

Lemma walk_clean s org links : forall seen breaks gaps,
  ledger_ok s -> Forall (link_of s org) links -> StronglySorted (fun a b => link_le a b /\ a <> b) links -> seen_ok s org seen links ->
  (foldl walk_link (seen, (breaks, gaps)) links).2.1 = breaks.
Proof.
  induction links as [|l links IH]; intros seen breaks gaps Hok Hl Hs Hseen; [done|]. cbn [foldl].
  apply Forall_cons in Hl as [Hl Hls]. inversion Hs as [|? ? Hs' Hlt]; subst.
  destruct (walk_link_clean s org seen breaks gaps l links Hok Hl Hseen) as [gaps' ->].
  apply IH; [done..|]. intros shard q h [[<- [= <- <-]]|[_ E]]%lookup_insert_Some.
  - destruct Hl as (r & Hr & Horg & ->). exists r. split_and!; [done..|].
    rewrite Forall_forall in Hlt, Hls |- *. intros l' Hin Hsh. destruct (Hlt l' Hin) as [[Hle|[_ Hle]] Hne]; simpl in *; [lia|].
    destruct (Hls l' Hin) as (r' & Hr' & Horg' & ->). simpl in *. apply Z.le_neq. split; [done|]. intros Eseq. apply Hne. f_equal.
    apply (chain_position s r r' Hok Hr Hr'); [unfold row_key; congruence|done].
  - destruct (Hseen _ _ _ E) as (r & ? & ? & ? & ? & ? & [_ ?]%Forall_cons). eauto 10.
Qed.

(** Sorting distinct links orders them strictly. *)
Lemma sorted_links rows : NoDup (row_EventID <$> rows) ->
  StronglySorted (fun a b => link_le a b /\ a <> b) (merge_sort link_le (newChainLink <$> rows)).
Proof.
  intros Hnd. assert (NoDup (merge_sort link_le (newChainLink <$> rows))) as Hnd'.
  { rewrite merge_sort_Permutation. apply (NoDup_fmap_1 cl_EventID). rewrite <- list_fmap_compose. done. }
  assert (StronglySorted link_le (merge_sort link_le (newChainLink <$> rows))) as Hs.
  { apply (StronglySorted_merge_sort link_le). }
  induction Hs as [|l ls Hs IH Hl]; [constructor|]. apply NoDup_cons in Hnd' as [Hni Hnd']. constructor; [by apply IH|].
  rewrite Forall_forall in *. intros l' Hin. split; [by apply Hl|]. by intros ->.
Qed.

Lemma bundle_links_clean s org rows breaks :
  ledger_ok s -> rows ⊆+ l_events s -> Forall (fun r => row_OrgID r = org) rows ->
  (verifyChainLinks (newChainLink <$> rows) breaks).1 = breaks.
Proof.
  intros Hok Hsub Horg. unfold verifyChainLinks. apply (walk_clean s org); [done| | |by intros ? ? ? ?%lookup_empty_Some].
  - rewrite merge_sort_Permutation. apply Forall_fmap. rewrite Forall_forall in *. intros r Hr. exists r.
    split_and!; [|by apply Horg|done]. by eapply elem_of_submseteq.
  - apply sorted_links. apply submseteq_Permutation in Hsub as [rest Hp]. pose proof (ok_once _ Hok) as Hnd.
    rewrite Hp, fmap_app in Hnd. by apply NoDup_app in Hnd as [? _].
Qed.

Lemma scan_clean org rows : forall st,
  Forall (fun rp => checkRowHash rp.1 = Ok true /\ row_OrgID rp.1 = org /\ manifestViolation (ec_Read (row_Context rp.1)) rp.2 = false) rows ->
  res_foldl (scan_row org) st rows =
    Ok (mkScan (sc_RowsScanned st + N.of_nat (length rows)) (sc_HashMatches st + N.of_nat (length rows)) (sc_ChainBreaks st)).
Proof.
  induction rows as [|[r p] rows IH]; intros st.
  - intros _. cbn. rewrite !N.add_0_r. by destruct st.
  - intros [(Hc & Ho & Hm) Hrows]%Forall_cons. cbn [res_foldl]. unfold scan_row at 1. cbn [fst snd] in *. rewrite Hc. cbn [mbind res_bind].
    rewrite Ho, decide_True, Hm by done. cbn [andb negb]. rewrite IH by done. cbn. do 2 f_equal; lia.
Qed.

(** The flags the signature, the digest and the signer set must have for a
    report to pass. *)
Definition facts_pass (mf : manifestFacts) : Prop :=
  mf_FileSHA256OK mf = true /\ mf_SignatureOK mf = true /\
  (mf_SignerSetConfigured mf = true -> mf_SignerAllowed mf = true /\ mf_SignatureBy mf = mf_VerifiedSigner mf).


End honest.
