(* ===== verification/Tamper.v ===== *)
(** * What a row hash binds

    Two rows that pass the check with the same hash record the same thing,
    two chains that end in the same hash are the same row by row, unless two
    different messages among their own have one SHA-256 digest.  The messages
    are listed, so the proviso is a statement about finitely many strings. *)

From S2P Require Import Prelude GoJson Sha256 Bytes Float64 Quote Canonical GoTime Domain Store Tx AuditEvent RowHash Ledger LedgerSpec ReadManifest Verify.

(** ** Members of an object under canonical text *)

Section canon.
Context `{FF : FloatFormat}.

(** The value the canonical text determines. *)
Definition canon (v : json) : option json := canonical <$> decode_any v.

Lemma map_set_fresh {A} k (v : A) m : k ∉ m.*1 -> map_set k v m = m ++ [(k, v)].
Proof.
  induction m as [|[k' v'] m IH]; [done|]. csimpl. intros [Hne Hni]%not_elem_of_cons. by rewrite decide_False, IH.
Qed.

Lemma foldl_map_set {A} (es : list (string * A)) m :
  NoDup (m.*1 ++ es.*1) -> foldl (fun m kv => map_set kv.1 kv.2 m) m es = m ++ es.
Proof.
  revert m. induction es as [|[k v] es IH]; intros m Hnd; csimpl in *; [by rewrite app_nil_r|].
  rewrite map_set_fresh.
  - rewrite IH; [by rewrite <- app_assoc|]. rewrite fmap_app, <- app_assoc. done.
  - intros Hin. apply NoDup_app in Hnd as (_ & Hd & _). apply (Hd k Hin). apply list_elem_of_here.
Qed.

Lemma decode_object fs a : decode_any (JObj fs) = Some a -> NoDup fs.*1 ->
  exists entries, a = AMap entries /\ forall k, assoc k entries = assoc k fs ≫= decode_any.
Proof.
  cbn [decode_any]. intros (es & Hes & [= <-])%bind_Some Hnd. apply mapM_Some in Hes.
  assert (es.*1 = fs.*1) as Hk.
  { clear Hnd. induction Hes as [|x y xs ys Hxy _ IH]; [done|]. apply fmap_Some in Hxy as (b & _ & ->). csimpl. by rewrite IH. }
  exists es. split; [f_equal; apply (foldl_map_set _ []); csimpl; by rewrite Hk|].
  intros k. clear Hnd Hk. induction Hes as [|[k' v] y xs ys Hxy _ IH]; [done|].
  apply fmap_Some in Hxy as (b & Hb & ->). cbn. case_decide; [by rewrite <- Hb|done].
Qed.

(** Objects with the same canonical value agree member by member. *)
Lemma canon_members fs1 fs2 k c :
  NoDup fs1.*1 -> NoDup fs2.*1 -> canon (JObj fs1) = Some c -> canon (JObj fs2) = Some c ->
  assoc k fs1 ≫= canon = assoc k fs2 ≫= canon.
Proof.
  unfold canon. intros Hn1 Hn2 (a1 & D1 & ->)%fmap_Some (a2 & D2 & Hc)%fmap_Some.
  destruct (decode_object _ _ D1 Hn1) as (m1 & -> & A1). destruct (decode_object _ _ D2 Hn2) as (m2 & -> & A2).
  pose proof (canonical_member m1 m2 k Hc) as H. rewrite A1, A2 in H.
  destruct (assoc k fs1), (assoc k fs2); exact H.
Qed.

Lemma canon_member_some fs c k v : canon (JObj fs) = Some c -> assoc k fs = Some v -> canon v <> None.
Proof.
  unfold canon. intros (a & D & _)%fmap_Some Ha. cbn [decode_any] in D. apply bind_Some in D as (es & Hes & _). apply mapM_Some in Hes.
  apply assoc_Some_elem, list_elem_of_lookup in Ha as [i Hi].
  destruct (Forall2_lookup_l _ _ _ _ _ Hes Hi) as (y & _ & Hy). apply fmap_Some in Hy as (b & Hb & _). cbn in Hb. by rewrite Hb.
Qed.

Lemma canonicalJSON_canon v1 v2 t : texts_ok v1 -> texts_ok v2 ->
  canonicalJSON v1 = Some t -> canonicalJSON v2 = Some t -> exists c, canon v1 = Some c /\ canon v2 = Some c.
Proof.
  intros H1 H2 E1 E2. destruct (canonicalJSON_inj _ _ t H1 H2 E1 E2) as (a1 & a2 & D1 & D2 & Hc).
  exists (canonical a1). unfold canon. rewrite D1, D2. split; [done|]. cbn. by rewrite Hc.
Qed.

Lemma canon_str s : canon (JStr s) = Some (JStr s).
Proof. done. Qed.

Lemma canon_int_inj a b : (Z.abs a < 2 ^ 53)%Z -> (Z.abs b < 2 ^ 53)%Z -> canon (jint a) = canon (jint b) -> a = b.
Proof.
  intros Ha Hb. unfold canon, jint. cbn [decode_any].
  destruct (parse_float64 (decimalZ a)) as [fa|] eqn:Ea; [|by rewrite parse_decimalZ in Ea].
  destruct (parse_float64 (decimalZ b)) as [fb|] eqn:Eb; [|by rewrite parse_decimalZ in Eb].
  cbn. intros [= E]. apply decimalZ_inj; [done..|]. rewrite Ea, Eb.
  rewrite <- (parse_format fa), <- (parse_format fb) by (by eapply parse_float64_finite). by rewrite E.
Qed.

(** ** Well-formed texts *)

Lemma texts_str s : texts_ok (jstr s).
Proof. exists 0%nat. apply to_valid_idem. Qed.

Lemma texts_int z : texts_ok (jint z).
Proof. by exists 0%nat. Qed.

Lemma texts_null : texts_ok JNull.
Proof. by exists 0%nat. Qed.

Lemma plain_to_valid s : plain s = true -> to_valid s = s.
Proof.
  induction s as [|c s IH]; [done|]. cbn [plain]. intros [Hc Hs]%andb_prop.
  assert (code c < 128)%N as Hlt.
  { unfold plain_char, in_range in Hc. rewrite !andb_true_iff, !N.leb_le in Hc. lia. }
  pose proof (valid_ascii c Hlt s) as E. rewrite append_cons, append_nil_l in E. by rewrite E, IH.
Qed.

Lemma texts_uuid `{GL : GoLib} u : texts_ok (juuid u).
Proof. exists 0%nat. apply plain_to_valid, uuid_string_plain. Qed.

Lemma texts_obj fs : Forall (fun kv => to_valid kv.1 = kv.1 /\ texts_ok kv.2) fs -> texts_ok (JObj fs).
Proof.
  intros HF. assert (exists d, Forall (fun kv : string * json => to_valid kv.1 = kv.1 /\ json_ok d kv.2) fs) as [d Hd].
  { induction HF as [|[k v] fs [Hk [d Hd]] _ [d' IH]]; [by exists 0%nat|]. exists (d `max` d')%nat. constructor.
    - split; [done|]. eapply json_ok_mono; [|done]. lia.
    - eapply Forall_impl; [done|]. intros kv [? ?]. split; [done|]. eapply json_ok_mono; [|done]. lia. }
  by exists (S d).
Qed.

Lemma texts_arr xs : Forall texts_ok xs -> texts_ok (JArr xs).
Proof.
  intros HF. assert (exists d, Forall (json_ok d) xs) as [d Hd].
  { induction HF as [|v xs [d Hd] _ [d' IH]]; [by exists 0%nat|]. exists (d `max` d')%nat. constructor.
    - eapply json_ok_mono; [|done]. lia.
    - eapply Forall_impl; [done|]. intros x ?. eapply json_ok_mono; [|done]. lia. }
  by exists (S d).
Qed.

Definition member_ok (kv : string * json) : Prop := to_valid kv.1 = kv.1 /\ texts_ok kv.2.

Lemma member_unless_ok omit k v : to_valid k = k -> texts_ok v -> Forall member_ok (member_unless omit k v).
Proof. intros. unfold member_unless. destruct omit; repeat constructor; done. Qed.

Lemma texts_raw r v : raw_json r = Some v -> texts_ok v.
Proof. unfold raw_json. destruct (blank r); [intros [= <-]; apply texts_null|apply json_parse_texts]. Qed.

End canon.

(** ** The marshalled parts are well formed *)

Lemma plain_app a b : plain a = true -> plain b = true -> plain (a +:+ b) = true.
Proof. induction a as [|c a IH]; [done|]. rewrite append_cons. cbn [plain]. intros [-> ?]%andb_prop ?. by apply IH. Qed.

Lemma digits_plain s : all_digits s = true -> plain s = true.
Proof.
  induction s as [|c s IH]; [done|]. cbn [all_digits plain]. intros [Hc Hs]%andb_prop. rewrite IH, andb_true_r by done.
  pose proof (all_ascii (fun c => implb (is_digit c) (plain_char c)) eq_refl c) as H. cbv beta in H. by rewrite Hc in H.
Qed.

Lemma padded_plain w n : plain (padded w n) = true.
Proof. apply digits_plain, padded_digits. Qed.

Lemma trim_zeros_plain w n : plain (trim_zeros w n) = true.
Proof. revert n. induction w as [|w IH]; intros n; [done|]. cbn [trim_zeros]. case_match; [done|apply padded_plain]. Qed.

Lemma rfc3339nano_plain t : plain (rfc3339nano t) = true.
Proof.
  assert (forall y, plain (year_text y) = true) as Hy by (intros y; unfold year_text; case_match; apply padded_plain).
  assert (forall n, plain (fraction n) = true) as Hf by (intros n; unfold fraction; case_match; [done|apply trim_zeros_plain]).
  unfold rfc3339nano. destruct (civil _) as [[y m] d].
  repeat first [done | apply Hy | apply Hf | apply padded_plain | apply plain_app].
Qed.

Lemma texts_time t v : time_json t = Some v -> texts_ok v.
Proof.
  unfold time_json. destruct (civil _) as [[y m] d]. case_match; [|done]. intros [= <-]. exists 0%nat.
  apply plain_to_valid, rfc3339nano_plain.
Qed.

Create HintDb texts.
#[export] Hint Resolve texts_str texts_int texts_null texts_uuid member_unless_ok Forall_app_2 Forall_nil_2 : texts.

(** Builds the members of a marshalled object. *)
Ltac members_ok :=
  repeat first [ apply Forall_app_2 | apply member_unless_ok; [done|] | apply Forall_cons_2; [split; [done|]; cbn [snd]|] | apply Forall_nil_2 ];
  auto with texts.

Section marshalled.
Context `{GL : GoLib}.

Lemma texts_strs l : texts_ok (JArr (jstr <$> l)).
Proof. apply texts_arr, Forall_fmap, Forall_true. intros; apply texts_str. Qed.

Lemma texts_delta d v : delta_json d = Some v -> texts_ok v.
Proof.
  destruct d as [d|]; cbn [delta_json]; [|intros [= <-]; apply texts_null].
  intros (b & Hb%texts_raw & (a & Ha%texts_raw & [= <-])%bind_Some)%bind_Some.
  apply texts_obj. members_ok. apply texts_strs.
Qed.

Lemma texts_target t : texts_ok (target_json t).
Proof. apply texts_obj. members_ok. Qed.

Lemma texts_read r : texts_ok (read_json r).
Proof. apply texts_obj. members_ok. Qed.

Lemma texts_selection s v : selection_json s = Some v -> texts_ok v.
Proof.
  unfold selection_json. intros (cs & Hcs & [= <-])%bind_Some. apply texts_obj. members_ok. apply texts_obj.
  apply mapM_Some in Hcs. clear -Hcs. induction Hcs as [|[k r] y xs ys Hxy _ IH]; [constructor|]. constructor; [|done].
  apply fmap_Some in Hxy as (v & Hv%texts_raw & ->). split; [apply to_valid_idem|done].
Qed.

Lemma texts_context kept c v : context_json_with kept c = Some v -> texts_ok v.
Proof.
  unfold context_json_with. intros (st & Hst & (ct & Hct & (sel & Hsel & [= <-])%bind_Some)%bind_Some)%bind_Some.
  assert (forall t v, (if is_zero t then Some JNull else time_json t) = Some v -> texts_ok v) as Htime.
  { intros t v'. destruct (is_zero t); [intros E; injection E as <-; apply texts_null|apply texts_time]. }
  apply Htime in Hst, Hct. apply texts_obj. unfold context_members. members_ok.
  - case_match; members_ok. apply texts_target.
  - case_match; members_ok. apply texts_read.
  - apply texts_strs.
  - destruct (ec_Selection c) as [s|]; members_ok. cbn in Hsel. by eapply texts_selection.
Qed.

Lemma texts_error e : texts_ok (error_json e).
Proof. destruct e; [|apply texts_null]. apply texts_obj. members_ok. Qed.

End marshalled.

(** ** The messages of a row *)

Section binding.
Context `{GL : GoLib} `{FF : FloatFormat}.

(** The hash inputs the check of a row tries. *)
Definition attempts (r : Row) : list rowHashInput :=
  match rowHashInputFor r with
  | Err _ => []
  | Ok input =>
      if (row_HashVersion r <? auditHashVersion3)%Z
      then (fun i => input_at input (row_EventTime r + Z.of_nat i)) <$> seq 0 legacyNanosecondCandidates
      else input :: (if nil (ec_APITokenID (row_Context r))
                     then match contextWithZeroTokenID (row_Context r) with Some c => [with_context_json input c] | None => [] end
                     else [])
  end.

(** What is hashed for an input. *)
Definition input_message (input : rowHashInput) : option string :=
  match row_payload input with
  | Ok payload => row_message (rh_LastHash input) <$> canonicalJSON payload
  | Err _ => None
  end.

Definition row_messages (r : Row) : list string := omap input_message (attempts r).

Lemma hash_message input hash : hashRowForEvent input = Ok hash <-> exists m, input_message input = Some m /\ hash = sha256_sum m.
Proof.
  unfold hashRowForEvent, input_message, mbind, res_bind. destruct (row_payload input) as [p|]; [|naive_solver].
  unfold hashRow. destruct (canonicalJSON p) as [c|]; cbn; naive_solver.
Qed.

Lemma try_remainders_found input base hash n i : try_remainders input base hash n i = Ok true ->
  exists j, (j < n)%nat /\ hashRowForEvent (input_at input (base + (i + Z.of_nat j))) = Ok hash.
Proof.
  revert i. induction n as [|n IH]; intros i; [done|]. cbn [try_remainders].
  destruct (hashRowForEvent (input_at input (base + i))) as [h|] eqn:E; [|done]. cbn. case_decide as Hh.
  - intros _. exists 0%nat. split; [lia|]. by rewrite Z.add_0_r, E, Hh.
  - intros (j & Hj & Hr)%IH. exists (S j). split; [lia|].
    by replace (base + (i + Z.of_nat (S j)))%Z with (base + (i + 1 + Z.of_nat j))%Z by lia.
Qed.

(** A row that passes has the hash of one of its attempts. *)
Lemma check_attempt r : checkRowHash r = Ok true ->
  exists input m, input ∈ attempts r /\ input_message input = Some m /\ row_RowHash r = sha256_sum m.
Proof.
  unfold checkRowHash, attempts. case_match; [done|]. case_match; [done|]. case_match; [done|].
  assert (forall l : list rowHashInput, (exists input, input ∈ l /\ hashRowForEvent input = Ok (row_RowHash r)) ->
    exists input m, input ∈ l /\ input_message input = Some m /\ row_RowHash r = sha256_sum m) as Hm.
  { intros l (input & Hin & (m & Hm & Hh)%hash_message). eauto. }
  destruct (row_HashVersion r <? auditHashVersion3)%Z.
  - unfold checkLegacyRowHash. destruct (rowHashInputFor r) as [input|]; [|done]. cbn [mbind res_bind].
    generalize legacyNanosecondCandidates. intros n (j & Hj & Hh)%try_remainders_found. apply Hm.
    eexists. split; [|exact Hh]. apply list_elem_of_fmap. exists j. split; [f_equal; lia|]. apply elem_of_seq. lia.
  - unfold ComputeRowHash, checkZeroTokenIDRowHash. destruct (rowHashInputFor r) as [input|]; [|done]. cbn [mbind res_bind].
    destruct (hashRowForEvent input) as [h|] eqn:E; [|done]. cbn [mbind res_bind]. case_decide as Hh.
    + intros _. apply Hm. exists input. split; [apply list_elem_of_here|by rewrite E, Hh].
    + destruct (nil _); cbn [negb]; [|done]. destruct (contextWithZeroTokenID _) as [c|]; [|done].
      destruct (hashRowForEvent (with_context_json input c)) as [h'|] eqn:E'; [|done]. cbn. intros [= Hh'%bool_decide_eq_true].
      apply Hm. exists (with_context_json input c). split; [by right; left|by rewrite E', Hh'].
Qed.

(** The shape of an attempt: the row's columns, its context marshalled with
    or without the zero token id, at an instant of the stored microsecond. *)
Definition attempt_of (r : Row) (c d : json) (t : instant) : rowHashInput :=
  mkRowHashInput (at_instant (exportEvent r) t) (row_EventID r) (row_Shard r) (row_Seq r) (default uuid_nil (row_PIIRef r))
    c d (row_PrevHash r) (row_HashVersion r).

Definition attempt_time (r : Row) (t : instant) : Prop :=
  if (row_HashVersion r <? auditHashVersion3)%Z then exists i, (0 <= i < 1000)%Z /\ t = (row_EventTime r + i)%Z else t = row_EventTime r.

Lemma attempts_elim r input : input ∈ attempts r ->
  exists kept c d t, context_json_with kept (row_Context r) = Some c /\ delta_json (row_Delta r) = Some d /\ attempt_time r t /\
    (kept = true -> ec_APITokenID (row_Context r) = uuid_nil) /\ input = attempt_of r c d t.
Proof.
  unfold attempts, attempt_time, rowHashInputFor. destruct (context_json _) as [c|] eqn:Ec; [|by intros ?%not_elem_of_nil].
  destruct (delta_json _) as [d|] eqn:Ed; [|by intros ?%not_elem_of_nil].
  destruct (row_HashVersion r <? auditHashVersion3)%Z.
  - intros (i & -> & Hi)%list_elem_of_fmap. exists false, c, d, (row_EventTime r + Z.of_nat i)%Z. split_and!; [done..| |done|done].
    exists (Z.of_nat i). split; [|done]. apply elem_of_seq in Hi. unfold legacyNanosecondCandidates in Hi. lia.
  - intros [->|Hin]%elem_of_cons; [by exists false, c, d, (row_EventTime r)|].
    unfold nil in Hin. case_bool_decide; [|by apply not_elem_of_nil in Hin].
    destruct (contextWithZeroTokenID _) as [c'|] eqn:Ec'; [|by apply not_elem_of_nil in Hin].
    apply list_elem_of_singleton in Hin as ->. by exists true, c', d, (row_EventTime r).
Qed.

(** ** Payloads *)

(** The text of the instant a version hashes. *)
Definition hashed_time (version : Z) (t : instant) : string :=
  if (version =? auditHashVersion3)%Z then rfc3339nano (truncate_micro t) else rfc3339nano t.

Record payload_of (input : rowHashInput) (fs : list (string * json)) : Prop := {
  po_keys : NoDup fs.*1;
  po_v1 k v : assoc k (payload_v1 input (hashed_time (rh_Version input) (ev_OccurredAt (rh_Event input)))) = Some v -> assoc k fs = Some v;
  po_outcome : assoc "outcome" fs = if (rh_Version input =? 1)%Z then None else Some (jstr (ev_Outcome (rh_Event input)));
  po_error : assoc "error" fs = if (rh_Version input =? 1)%Z then None else Some (error_json (ev_Error (rh_Event input)));
  po_extra : rh_Version input <> 1%Z -> exists x, raw_json (ev_Extra (rh_Event input)) = Some x /\ assoc "extra" fs = Some x;
  po_version : assoc "hash_version" fs = if (rh_Version input =? 3)%Z then Some (jint 3) else None;
}.

Lemma assoc_app {A} k (l1 l2 : list (string * A)) : assoc k (l1 ++ l2) = match assoc k l1 with Some v => Some v | None => assoc k l2 end.
Proof. induction l1 as [|[k' v'] l1 IH]; [done|]. cbn. case_decide; [done|exact IH]. Qed.

Lemma assoc_app_l {A} k (l1 l2 : list (string * A)) v : assoc k l1 = Some v -> assoc k (l1 ++ l2) = Some v.
Proof. intros H. by rewrite assoc_app, H. Qed.

Definition payload_keys : list string :=
  ["org_id"; "shard"; "seq"; "event_id"; "event_time"; "actor_id"; "actor_kind"; "action"; "entity_kind"; "entity_id"; "pii_ref";
   "context"; "delta"; "idempotency"; "outcome"; "error"; "extra"; "hash_version"].

Lemma payload_keys_NoDup : NoDup payload_keys.
Proof. refine (bool_decide_unpack _ _). vm_compute. exact I. Qed.

Lemma payload_shape input p : row_payload input = Ok p -> exists fs, p = JObj fs /\ payload_of input fs.
Proof.
  assert (forall n, NoDup (take n payload_keys)) as Hnd.
  { intros n. apply (sublist_NoDup _ payload_keys); [apply payload_keys_NoDup|apply sublist_take]. }
  unfold row_payload. destruct (Z.eqb_spec (rh_Version input) auditHashVersion1) as [Hv|Hv1].
  - intros [= <-]. eexists. split; [done|]. split; unfold hashed_time; rewrite ?Hv; try done. exact (Hnd 14%nat).
  - destruct (raw_json _) as [x|] eqn:Ex; [|done]. destruct (Z.eqb_spec (rh_Version input) auditHashVersion2) as [Hv|Hv2].
    + intros [= <-]. eexists. split; [done|]. split; unfold hashed_time; rewrite ?Hv; try done.
      * exact (Hnd 17%nat).
      * intros k v. apply assoc_app_l.
      * eauto.
    + destruct (Z.eqb_spec (rh_Version input) auditHashVersion3) as [Hv|]; [|done].
      intros [= <-]. eexists. split; [done|]. split; unfold hashed_time; rewrite ?Hv; try done.
      * exact (Hnd 18%nat).
      * intros k v H. by apply assoc_app_l, assoc_app_l.
      * eauto.
      * unfold payload_v3. rewrite Hv. reflexivity.
Qed.

Lemma payload_texts input p : row_payload input = Ok p -> texts_ok (rh_ContextJSON input) -> texts_ok (rh_DeltaJSON input) -> texts_ok p.
Proof.
  intros Hp Hc Hd.
  assert (forall t, Forall member_ok (payload_v1 input t)) as H1 by (intros t; unfold payload_v1; members_ok).
  assert (forall t x, texts_ok x -> Forall member_ok (payload_v2 input t x)) as H2.
  { intros t x Hx. unfold payload_v2. apply Forall_app_2; [apply H1|]. members_ok. apply texts_error. }
  unfold row_payload in Hp. case_match; [injection Hp as <-; apply texts_obj, H1|].
  destruct (raw_json _) as [x|] eqn:Ex; [|done]. apply texts_raw in Ex.
  case_match; [injection Hp as <-; by apply texts_obj, H2|]. case_match; [|done]. injection Hp as <-.
  apply texts_obj. unfold payload_v3. apply Forall_app_2; [by apply H2|]. members_ok.
Qed.

(** ** Splitting a message *)

Lemma row_message_inj p1 p2 c1 c2 :
  String.length p1 = String.length p2 -> row_message p1 c1 = row_message p2 c2 -> p1 = p2 /\ c1 = c2.
Proof.
  intros Hl [-> E]%string_app_split; [|done]. apply string_app_split in E as [_ ->]; [done|].
  by rewrite !bytes_text_length, !be_bytes_length.
Qed.

(** ** The context with and without the token id *)

Definition context_keys : list string :=
  ["org_id"; "workspace_id"; "scope_id"; "parent_id"; "request_id"; "trace_id"; "source"; "tool"; "rpc"; "reason"; "api_token_id";
   "commit_version"; "audit_format_version"; "operation_class"; "phase"; "operation_id"; "parent_operation_id"; "started_at";
   "completed_at"; "target"; "read"; "committed_steps"; "selection"; "http_method"; "request_path"].

Lemma context_keys_NoDup : NoDup context_keys.
Proof. refine (bool_decide_unpack _ _). vm_compute. exact I. Qed.

(** One optional member in front of the rest. *)
Lemma member_sublist k v ks fs b : fs.*1 `sublist_of` ks -> (member_unless b k v ++ fs).*1 `sublist_of` (k :: ks).
Proof. intros H. destruct b; csimpl; by constructor. Qed.

Lemma context_members_keys kept c st ct sel : (context_members kept c st ct sel).*1 `sublist_of` context_keys.
Proof.
  unfold context_members, context_keys. rewrite <- (app_nil_r (member_unless (blank (ec_RequestPath c)) _ _)).
  destruct (ec_Target c), (ec_Read c), (ec_Selection c); csimpl;
    repeat first [apply member_sublist | apply sublist_skip | apply sublist_nil_l | apply sublist_cons].
Qed.

Lemma assoc_member k k' b v : assoc k (member_unless b k' v) = if decide (k = k') then if b then None else Some v else None.
Proof. unfold member_unless. destruct b; cbn; by case_decide. Qed.

Lemma context_token kept c st ct sel :
  assoc "api_token_id" (context_members kept c st ct sel) =
    if nil (ec_APITokenID c) && negb kept then None else Some (juuid (ec_APITokenID c)).
Proof.
  unfold context_members. rewrite !assoc_app, !assoc_member. cbn.
  destruct (ec_Target c), (ec_Read c), (ec_Selection c); cbn; by destruct (nil _ && _).
Qed.

Lemma juuid_inj a b : juuid a = juuid b -> a = b.
Proof. intros [= Hs]. pose proof (uuid_parse_string a) as Ha. rewrite Hs, uuid_parse_string in Ha. by injection Ha. Qed.

Lemma canon_uuid_inj a b : canon (juuid a) = canon (juuid b) -> a = b.
Proof. intros H. apply juuid_inj. unfold juuid in *. by injection H as ->. Qed.

Lemma canon_text_inj a b : canon (jstr a) = canon (jstr b) -> to_valid a = to_valid b.
Proof. intros H. by injection H. Qed.

(** Two contexts with one canonical value were marshalled the same way. *)
Lemma same_kept kept1 kept2 c1 c2 v1 v2 w :
  context_json_with kept1 c1 = Some v1 -> context_json_with kept2 c2 = Some v2 -> canon v1 = Some w -> canon v2 = Some w ->
  (kept1 = true -> ec_APITokenID c1 = uuid_nil) -> (kept2 = true -> ec_APITokenID c2 = uuid_nil) -> kept1 = kept2.
Proof.
  unfold context_json_with. intros (st1 & _ & (ct1 & _ & (sel1 & _ & [= <-])%bind_Some)%bind_Some)%bind_Some
    (st2 & _ & (ct2 & _ & (sel2 & _ & [= <-])%bind_Some)%bind_Some)%bind_Some E1 E2 H1 H2.
  assert (forall kept c st ct sel, NoDup (context_members kept c st ct sel).*1) as Hnd.
  { intros. eapply sublist_NoDup; [apply context_keys_NoDup|apply context_members_keys]. }
  pose proof (canon_members _ _ "api_token_id" w (Hnd _ _ _ _ _) (Hnd _ _ _ _ _) E1 E2) as E. rewrite !context_token in E.
  unfold nil in E.
  destruct kept1, kept2; try done; [rewrite (H1 eq_refl) in E|rewrite (H2 eq_refl) in E];
    rewrite (bool_decide_eq_true_2 (uuid_nil = uuid_nil)) in E by done; cbn in E; case_bool_decide as Hn; cbn in E; try done.
  - injection E as E. by destruct Hn, (juuid_inj _ _ (f_equal JStr E)).
  - injection E as E. by destruct Hn, (juuid_inj _ _ (f_equal JStr E)).
Qed.

(** ** What agrees *)

(** The columns of two rows agree, texts as UTF-8, JSON by value. *)
Record same_record (r1 r2 : Row) : Prop := {
  sr_org : row_OrgID r1 = row_OrgID r2;
  sr_shard : row_Shard r1 = row_Shard r2;
  sr_seq : row_Seq r1 = row_Seq r2;
  sr_event : row_EventID r1 = row_EventID r2;
  sr_version : row_HashVersion r1 = row_HashVersion r2;
  sr_time : truncate_micro (row_EventTime r1) = truncate_micro (row_EventTime r2);
  sr_actor : row_ActorID r1 = row_ActorID r2;
  sr_kind : actorTypeFromCode (row_ActorKind r1) = actorTypeFromCode (row_ActorKind r2);
  sr_action : to_valid (row_Action r1) = to_valid (row_Action r2);
  sr_entity_kind : to_valid (row_EntityKind r1) = to_valid (row_EntityKind r2);
  sr_entity : row_EntityID r1 = row_EntityID r2;
  sr_pii : default uuid_nil (row_PIIRef r1) = default uuid_nil (row_PIIRef r2);
  sr_context : exists kept, (context_json_with kept (row_Context r1) ≫= canon) = (context_json_with kept (row_Context r2) ≫= canon);
  sr_delta : (delta_json (row_Delta r1) ≫= canon) = (delta_json (row_Delta r2) ≫= canon);
  sr_key : to_valid (row_IdempotencyKey r1) = to_valid (row_IdempotencyKey r2);
  sr_result : row_HashVersion r1 <> auditHashVersion1 ->
    to_valid (row_Outcome r1) = to_valid (row_Outcome r2) /\ canon (error_json (row_Error r1)) = canon (error_json (row_Error r2)) /\
    (raw_json (row_Extra r1) ≫= canon) = (raw_json (row_Extra r2) ≫= canon);
}.

(** Numbers a float64 keeps, and an instant from year 1 on. *)
Definition in_range (r : Row) : Prop :=
  (Z.abs (row_Seq r) < 2 ^ 53 /\ Z.abs (row_Shard r) < 2 ^ 53 /\ 0 <= row_EventTime r)%Z.

Lemma check_version r : checkRowHash r = Ok true ->
  row_HashVersion r = 1%Z \/ row_HashVersion r = 2%Z \/ row_HashVersion r = 3%Z.
Proof.
  unfold checkRowHash, auditHashVersion1, auditHashVersionCurrent, auditHashVersion3.
  destruct (Z.ltb_spec (row_HashVersion r) 1); [done|]. destruct (Z.ltb_spec 3 (row_HashVersion r)); [done|]. lia.
Qed.

Lemma check_micro r : checkRowHash r = Ok true -> row_HashVersion r <> 3%Z -> truncate_micro (row_EventTime r) = row_EventTime r.
Proof.
  intros Hc Hv. destruct (check_version r Hc) as [Hr|[Hr|Hr]]; [..|done]; unfold checkRowHash in Hc; rewrite Hr in Hc;
    cbn -[nanosecond legacyNanosecondCandidates contractViolation checkLegacyRowHash] in Hc;
    (destruct (Z.eqb_spec (nanosecond (row_EventTime r) mod Z.of_nat legacyNanosecondCandidates) 0) as [E|]; [|done]);
    change (Z.of_nat legacyNanosecondCandidates) with 1000%Z in E; unfold nanosecond in E;
    rewrite Z.mod_mod_divide in E by (by exists 1000000%Z); unfold truncate_micro; lia.
Qed.

Lemma payloads_agree input1 input2 p1 p2 t :
  row_payload input1 = Ok p1 -> row_payload input2 = Ok p2 ->
  texts_ok (rh_ContextJSON input1) -> texts_ok (rh_DeltaJSON input1) -> texts_ok (rh_ContextJSON input2) -> texts_ok (rh_DeltaJSON input2) ->
  canonicalJSON p1 = Some t -> canonicalJSON p2 = Some t ->
  exists fs1 fs2, payload_of input1 fs1 /\ payload_of input2 fs2 /\
    (forall k, assoc k fs1 ≫= canon = assoc k fs2 ≫= canon) /\ forall k v, assoc k fs1 = Some v -> canon v <> None.
Proof.
  intros H1 H2 ???? E1 E2. destruct (canonicalJSON_canon p1 p2 t) as (c & C1 & C2); [by eapply payload_texts..|done|done|].
  apply payload_shape in H1 as (fs1 & -> & P1), H2 as (fs2 & -> & P2). exists fs1, fs2. split; [done|]. split; [done|]. split.
  - intros k. exact (canon_members fs1 fs2 k c (po_keys _ _ P1) (po_keys _ _ P2) C1 C2).
  - intros k v. exact (canon_member_some fs1 c k v C1).
Qed.

(** A member of the common columns that both payloads have. *)
Lemma member_agrees input1 input2 fs1 fs2 k v1 v2 :
  payload_of input1 fs1 -> payload_of input2 fs2 -> (forall k, assoc k fs1 ≫= canon = assoc k fs2 ≫= canon) ->
  assoc k (payload_v1 input1 (hashed_time (rh_Version input1) (ev_OccurredAt (rh_Event input1)))) = Some v1 ->
  assoc k (payload_v1 input2 (hashed_time (rh_Version input2) (ev_OccurredAt (rh_Event input2)))) = Some v2 -> canon v1 = canon v2.
Proof.
  intros P1 P2 Hk H1 H2. specialize (Hk k). rewrite (po_v1 _ _ P1 _ _ H1), (po_v1 _ _ P2 _ _ H2) in Hk. exact Hk.
Qed.

Lemma actor_type_valid c : to_valid (actorTypeFromCode c) = actorTypeFromCode c.
Proof. unfold actorTypeFromCode. repeat case_match; reflexivity. Qed.

Lemma hashed_time_valid v t : to_valid (hashed_time v t) = hashed_time v t.
Proof. unfold hashed_time. case_match; apply plain_to_valid, rfc3339nano_plain. Qed.

(** The hashed instants of two attempts determine the stored microsecond. *)
Lemma hashed_time_agrees r1 r2 t1 t2 :
  checkRowHash r1 = Ok true -> checkRowHash r2 = Ok true -> row_HashVersion r1 = row_HashVersion r2 ->
  (0 <= row_EventTime r1)%Z -> (0 <= row_EventTime r2)%Z -> attempt_time r1 t1 -> attempt_time r2 t2 ->
  hashed_time (row_HashVersion r1) t1 = hashed_time (row_HashVersion r2) t2 ->
  truncate_micro (row_EventTime r1) = truncate_micro (row_EventTime r2).
Proof.
  intros C1 C2 Hv Hr1 Hr2. unfold attempt_time, hashed_time. rewrite <- Hv.
  destruct (Z.eqb_spec (row_HashVersion r1) auditHashVersion3) as [E|E].
  - rewrite E. change (auditHashVersion3 <? auditHashVersion3)%Z with false. cbv iota. intros -> -> H.
    assert (forall t, 0 <= t -> 0 <= truncate_micro t)%Z as Hpos.
    { intros t Ht. unfold truncate_micro. pose proof (Z.mod_le t 1000 Ht ltac:(lia)). lia. }
    apply rfc3339nano_inj in H; auto.
  - assert ((row_HashVersion r1 <? auditHashVersion3)%Z = true) as ->.
    { apply Z.ltb_lt. destruct (check_version r1 C1) as [->|[->|]]; [done..|]. by destruct E. }
    intros (i & Hi & ->) (j & Hj & ->) H. apply rfc3339nano_inj in H; [|lia..].
    pose proof (check_micro r1 C1 E) as M1. pose proof (check_micro r2 C2) as M2. rewrite <- Hv in M2. specialize (M2 E).
    rewrite M1, M2. unfold truncate_micro in M1, M2. div_lia.
Qed.

Lemma versions_agree r1 r2 c1 d1 t1 c2 d2 t2 fs1 fs2 :
  checkRowHash r1 = Ok true -> checkRowHash r2 = Ok true ->
  payload_of (attempt_of r1 c1 d1 t1) fs1 -> payload_of (attempt_of r2 c2 d2 t2) fs2 ->
  (forall k, assoc k fs1 ≫= canon = assoc k fs2 ≫= canon) -> row_HashVersion r1 = row_HashVersion r2.
Proof.
  intros C1 C2 P1 P2 Hk. pose proof (Hk "outcome") as Ho. pose proof (Hk "hash_version") as Hv.
  rewrite (po_outcome _ _ P1), (po_outcome _ _ P2) in Ho. rewrite (po_version _ _ P1), (po_version _ _ P2) in Hv.
  cbn [rh_Version attempt_of] in *. assert (canon (jint 3) <> None) as H3.
  { unfold canon, jint. cbn [decode_any]. by rewrite parse_decimalZ. }
  destruct (check_version r1 C1) as [E1|[E1|E1]], (check_version r2 C2) as [E2|[E2|E2]]; rewrite E1, E2 in *; cbn -[canon jint] in *;
    try done; first [by destruct H3 | by destruct (H3 (eq_sym Hv))].
Qed.

(** The columns of the first format. *)
Lemma columns_agree r1 r2 kept1 kept2 c1 d1 t1 c2 d2 t2 fs1 fs2 :
  checkRowHash r1 = Ok true -> checkRowHash r2 = Ok true -> in_range r1 -> in_range r2 -> attempt_time r1 t1 -> attempt_time r2 t2 ->
  context_json_with kept1 (row_Context r1) = Some c1 -> context_json_with kept2 (row_Context r2) = Some c2 ->
  (kept1 = true -> ec_APITokenID (row_Context r1) = uuid_nil) -> (kept2 = true -> ec_APITokenID (row_Context r2) = uuid_nil) ->
  delta_json (row_Delta r1) = Some d1 -> delta_json (row_Delta r2) = Some d2 ->
  payload_of (attempt_of r1 c1 d1 t1) fs1 -> payload_of (attempt_of r2 c2 d2 t2) fs2 ->
  (forall k, assoc k fs1 ≫= canon = assoc k fs2 ≫= canon) -> canon c1 <> None -> same_record r1 r2.
Proof.
  intros C1 C2 (Rs1 & Rh1 & Rt1) (Rs2 & Rh2 & Rt2) T1 T2 X1 X2 K1 K2 D1 D2 P1 P2 Hk Hcan.
  pose proof (versions_agree _ _ _ _ _ _ _ _ _ _ C1 C2 P1 P2 Hk) as Hv.
  pose proof (fun k v1 v2 => member_agrees _ _ fs1 fs2 k v1 v2 P1 P2 Hk) as M.
  split.
  - exact (canon_uuid_inj _ _ (M "org_id" _ _ eq_refl eq_refl)).
  - apply canon_int_inj; [done..|]. exact (M "shard" _ _ eq_refl eq_refl).
  - apply canon_int_inj; [done..|]. exact (M "seq" _ _ eq_refl eq_refl).
  - exact (canon_uuid_inj _ _ (M "event_id" _ _ eq_refl eq_refl)).
  - done.
  - pose proof (canon_text_inj _ _ (M "event_time" _ _ eq_refl eq_refl)) as E. rewrite !hashed_time_valid in E. by eapply hashed_time_agrees.
  - exact (canon_uuid_inj _ _ (M "actor_id" _ _ eq_refl eq_refl)).
  - pose proof (canon_text_inj (actorTypeFromCode _) (actorTypeFromCode _) (M "actor_kind" _ _ eq_refl eq_refl)) as E. by rewrite !actor_type_valid in E.
  - exact (canon_text_inj _ _ (M "action" _ _ eq_refl eq_refl)).
  - exact (canon_text_inj _ _ (M "entity_kind" _ _ eq_refl eq_refl)).
  - exact (canon_uuid_inj _ _ (M "entity_id" _ _ eq_refl eq_refl)).
  - exact (canon_uuid_inj _ _ (M "pii_ref" _ _ eq_refl eq_refl)).
  - specialize (M "context" _ _ eq_refl eq_refl). cbn [attempt_of rh_ContextJSON] in M.
    destruct (canon c1) as [w|] eqn:W1; [|done]. symmetry in M.
    assert (kept1 = kept2) as <- by (by eapply same_kept). exists kept1. rewrite X1, X2. cbn. congruence.
  - specialize (M "delta" _ _ eq_refl eq_refl). by rewrite D1, D2.
  - exact (canon_text_inj _ _ (M "idempotency" _ _ eq_refl eq_refl)).
  - intros Hne. change auditHashVersion1 with 1%Z in Hne. assert (row_HashVersion r2 <> 1%Z) as Hne2 by congruence.
    pose proof (Hk "outcome") as Ho. pose proof (Hk "error") as He. pose proof (Hk "extra") as Hx.
    rewrite (po_outcome _ _ P1), (po_outcome _ _ P2) in Ho. rewrite (po_error _ _ P1), (po_error _ _ P2) in He.
    destruct (po_extra _ _ P1 Hne) as (x1 & E1 & A1), (po_extra _ _ P2 Hne2) as (x2 & E2 & A2). rewrite A1, A2 in Hx.
    cbn [attempt_of rh_Version rh_Event at_instant exportEvent ev_Outcome ev_Error ev_Extra] in *.
    apply Z.eqb_neq in Hne, Hne2. rewrite Hne, Hne2 in Ho, He. split_and!; [by injection Ho|exact He|by rewrite E1, E2].
Qed.

(** Two rows with one hash, the same length of predecessor hash and no
    collision among their messages. *)
Lemma same_hash_agrees r1 r2 :
  checkRowHash r1 = Ok true -> checkRowHash r2 = Ok true -> in_range r1 -> in_range r2 ->
  String.length (row_PrevHash r1) = String.length (row_PrevHash r2) -> row_RowHash r1 = row_RowHash r2 ->
  collision_free (row_messages r1 ++ row_messages r2) -> row_PrevHash r1 = row_PrevHash r2 /\ same_record r1 r2.
Proof.
  intros C1 C2 R1 R2 Hlen Hh Hfree.
  destruct (check_attempt r1 C1) as (i1 & m1 & I1 & M1 & S1). destruct (check_attempt r2 C2) as (i2 & m2 & I2 & M2 & S2).
  assert (m1 = m2) as <-.
  { apply Hfree; [apply elem_of_app; left|apply elem_of_app; right|congruence]; apply list_elem_of_omap; eauto. }
  destruct (attempts_elim _ _ I1) as (k1 & c1 & d1 & t1 & X1 & D1 & T1 & K1 & ->).
  destruct (attempts_elim _ _ I2) as (k2 & c2 & d2 & t2 & X2 & D2 & T2 & K2 & ->).
  unfold input_message in M1, M2. destruct (row_payload (attempt_of r1 c1 d1 t1)) as [p1|] eqn:P1; [|done].
  destruct (row_payload (attempt_of r2 c2 d2 t2)) as [p2|] eqn:P2; [|done].
  apply fmap_Some in M1 as (x1 & E1 & ->), M2 as (x2 & E2 & E). apply row_message_inj in E as [Hp <-]; [|done].
  split; [done|].
  destruct (payloads_agree _ _ _ _ x1 P1 P2) as (fs1 & fs2 & Q1 & Q2 & Hk & Hsome);
    [by eapply texts_context|by eapply texts_delta|by eapply texts_context|by eapply texts_delta|done|done|].
  refine (columns_agree _ _ _ _ _ _ _ _ _ _ _ _ C1 C2 R1 R2 T1 T2 X1 X2 K1 K2 D1 D2 Q1 Q2 Hk _).
  apply (Hsome "context"). by apply (po_v1 _ _ Q1).
Qed.

(** ** Chains *)

(** A row that passes and whose numbers the hash keeps apart. *)
Definition verified (r : Row) : Prop := checkRowHash r = Ok true /\ in_range r.

Definition chain_messages (rows : list Row) : list string := rows ≫= row_messages.

Lemma verified_hash_length r : verified r -> String.length (row_RowHash r) = 32%nat.
Proof. intros [(i & m & _ & _ & ->)%check_attempt _]. apply sha256_sum_length. Qed.

(** The predecessor hashes of two rows at one position have one length. *)
Lemma prev_lengths rows1 rows2 r1 r2 :
  Forall verified rows1 -> Forall verified rows2 -> length rows1 = length rows2 ->
  linked 1 EmptyString (rows1 ++ [r1]) -> linked 1 EmptyString (rows2 ++ [r2]) ->
  row_PrevHash r1 = h_LastHash (head_of rows1) /\ row_PrevHash r2 = h_LastHash (head_of rows2) /\
  String.length (row_PrevHash r1) = String.length (row_PrevHash r2).
Proof.
  intros V1 V2 Hl [_ (_ & P1 & _)]%linked_app [_ (_ & P2 & _)]%linked_app. rewrite P1, P2. unfold head_of.
  destruct rows1 as [|a rows1 _] using rev_ind; destruct rows2 as [|b rows2 _] using rev_ind;
    rewrite ?length_app in Hl; cbn in Hl; [done|lia..|].
  rewrite !last_snoc. apply Forall_app in V1 as [_ [V1 _]%Forall_cons], V2 as [_ [V2 _]%Forall_cons].
  split_and!; [done..|]. by rewrite !verified_hash_length.
Qed.

Lemma chains_agree rows1 rows2 :
  linked 1 EmptyString rows1 -> linked 1 EmptyString rows2 -> Forall verified rows1 -> Forall verified rows2 ->
  length rows1 = length rows2 -> h_LastHash (head_of rows1) = h_LastHash (head_of rows2) ->
  collision_free (chain_messages rows1 ++ chain_messages rows2) -> Forall2 same_record rows1 rows2.
Proof.
  revert rows2. induction rows1 as [|r1 rows1 IH] using rev_ind; intros rows2 L1 L2 V1 V2 Hl Hh Hfree.
  { destruct rows2; [constructor|done]. }
  destruct rows2 as [|r2 rows2 _] using rev_ind; [rewrite length_app in Hl; cbn in Hl; lia|].
  rewrite !length_app in Hl. cbn in Hl. rewrite !head_of_snoc in Hh. cbn in Hh.
  apply Forall_app in V1 as [V1 [[C1 R1] _]%Forall_cons], V2 as [V2 [[C2 R2] _]%Forall_cons].
  destruct (prev_lengths rows1 rows2 r1 r2 V1 V2 ltac:(lia) L1 L2) as (P1 & P2 & Hp).
  unfold chain_messages in Hfree. rewrite !bind_app in Hfree.
  destruct (same_hash_agrees r1 r2 C1 C2 R1 R2 Hp Hh) as [Hprev Hsame].
  { eapply collision_free_mono; [|exact Hfree]. intros m. csimpl. rewrite !app_nil_r, !elem_of_app. tauto. }
  apply Forall2_app; [|by constructor]. apply linked_app in L1 as [L1 _], L2 as [L2 _].
  apply IH; [done..|lia|congruence|]. eapply collision_free_mono; [|exact Hfree]. intros m. unfold chain_messages. rewrite !elem_of_app. tauto.
Qed.

Lemma stored_head_inj rows1 rows2 : stored_head (head_of rows1) = stored_head (head_of rows2) -> head_of rows1 = head_of rows2.
Proof. unfold stored_head, head_of. destruct (last rows1), (last rows2); cbn; congruence. Qed.

(** Two ledgers whose chains end in one head. *)
Lemma history_agrees s1 s2 k :
  ledger_ok s1 -> ledger_ok s2 -> l_heads s1 !! k = l_heads s2 !! k ->
  Forall verified (chain_rows k (l_events s1)) -> Forall verified (chain_rows k (l_events s2)) ->
  collision_free (chain_messages (chain_rows k (l_events s1)) ++ chain_messages (chain_rows k (l_events s2))) ->
  Forall2 same_record (chain_rows k (l_events s1)) (chain_rows k (l_events s2)).
Proof.
  intros O1 O2 Hk V1 V2 Hfree. rewrite (ok_heads _ O1), (ok_heads _ O2) in Hk.
  pose proof (ok_linked _ O1 k) as L1. pose proof (ok_linked _ O2 k) as L2.
  pose proof (stored_head_inj _ _ Hk) as E.
  destruct (linked_head _ L1) as [N1 _], (linked_head _ L2) as [N2 _].
  apply chains_agree; [done..| |by rewrite E|done]. rewrite E in N1. lia.
Qed.

End binding.
