(* ===== verification/ManifestSpec.v ===== *)
(** * Read manifests round trip

    What the builder writes for a list of targets, the validator accepts, with
    the digest, the part count and the identity count of the evidence, except
    for one size of target. *)

From S2P Require Import Prelude GoJson Sha256 Bytes Quote Canonical Domain Store Tx AuditEvent RowHash ReadManifest Tamper.
From Stdlib Require Import Ascii.

Section manifest.
Context `{GL : GoLib}.

(** ** Targets decode back *)

(** A target with its texts as UTF-8. *)
Definition valid_target (t : Target) : Target :=
  mkAuditTarget (kind_of_text (to_valid (kind_text (at_Kind t)))) (to_valid (at_NodeType t)) (to_valid (at_Reference t))
    (to_valid (at_Name t)) (to_valid (at_URI t)) (to_valid (at_RelationType t)) (at_ID t) (at_SourceID t) (at_TargetID t) (at_OwnerID t).

Lemma opt_foldl_app {A B} (f : A -> B -> option A) a l1 l2 :
  opt_foldl f a (l1 ++ l2) = match opt_foldl f a l1 with Some a' => opt_foldl f a' l2 | None => None end.
Proof. revert a. induction l1 as [|b l1 IH]; intros a; [done|]. cbn. by destruct (f a b). Qed.

(** One optional text member, written into a field that held nothing. *)
Lemma decode_text t key f s : target_field_of key = Some f -> is_text_field f = true -> set_text t f EmptyString = t ->
  opt_foldl decode_target_member t (member_unless (blank s) key (jstr s)) = Some (set_text t f (to_valid s)).
Proof.
  intros Hf Hx He. unfold member_unless, blank. case_bool_decide as Hs; cbn.
  - subst s. cbn. by rewrite He.
  - unfold decode_target_member. cbn. rewrite Hf. cbn. by rewrite Hx.
Qed.

Lemma decode_id t key f id : target_field_of key = Some f -> is_text_field f = false -> set_id t f uuid_nil = t ->
  opt_foldl decode_target_member t (member_unless (nil id) key (juuid id)) = Some (set_id t f id).
Proof.
  intros Hf Hx He. unfold member_unless, nil. case_bool_decide as Hs; cbn.
  - subst id. by rewrite He.
  - unfold decode_target_member. cbn. rewrite Hf. cbn. by rewrite Hx, uuid_parse_string.
Qed.

Lemma decode_target_text t : decode_target (target_json t) = Some (valid_target t).
Proof.
  unfold decode_target, target_json.
  rewrite opt_foldl_app, (decode_text _ _ FKind) by done. rewrite opt_foldl_app, (decode_text _ _ FNodeType) by done.
  rewrite opt_foldl_app, (decode_text _ _ FReference) by done. rewrite opt_foldl_app, (decode_text _ _ FName) by done.
  rewrite opt_foldl_app, (decode_text _ _ FURI) by done. rewrite opt_foldl_app, (decode_text _ _ FRelationType) by done.
  rewrite opt_foldl_app, (decode_id _ _ FID) by done. rewrite opt_foldl_app, (decode_id _ _ FSourceID) by done.
  rewrite opt_foldl_app, (decode_id _ _ FTargetID) by done. by rewrite (decode_id _ _ FOwnerID).
Qed.

Lemma to_valid_blank s : blank (to_valid s) = blank s.
Proof.
  unfold blank. destruct s as [|c s]; [done|]. rewrite (bool_decide_eq_false_2 (String c s = EmptyString)) by done.
  apply bool_decide_eq_false. cbn. repeat case_match; discriminate.
Qed.

Lemma valid_target_ok t : validateTarget t = Ok tt -> validateTarget (valid_target t) = Ok tt.
Proof.
  unfold validateTarget, valid_target. cbn [at_Kind at_NodeType at_Reference at_URI at_RelationType at_ID at_SourceID at_TargetID at_OwnerID].
  rewrite !to_valid_blank. destruct (at_Kind t) eqn:Hk; try done.
Qed.

(** ** The text of a list of targets *)

Lemma flat_object fs : Forall (fun kv => to_valid kv.1 = kv.1 /\ exists s, kv.2 = JStr (to_valid s)) fs ->
  printable (JObj fs) /\ jdepth (JObj fs) = 1%N.
Proof.
  intros H. cbn. induction H as [|[k v] fs [Hk [s Hs]] _ [IH1 IH2]]; [done|]. cbn in *. subst v. cbn.
  split; [|lia]. split; [|done]. split; [done|apply to_valid_idem].
Qed.

Lemma target_flat t : printable (target_json t) /\ jdepth (target_json t) = 1%N.
Proof.
  apply flat_object. assert (forall b k s, to_valid k = k ->
    Forall (fun kv : string * json => to_valid kv.1 = kv.1 /\ exists s, kv.2 = JStr (to_valid s)) (member_unless b k (jstr s))) as Hs.
  { intros [] k s Hk; repeat constructor; [done|by exists s]. }
  assert (forall b k u, to_valid k = k ->
    Forall (fun kv : string * json => to_valid kv.1 = kv.1 /\ exists s, kv.2 = JStr (to_valid s)) (member_unless b k (juuid u))) as Hu.
  { intros [] k u Hk; repeat constructor; [done|]. exists (uuid_string u). cbn. by rewrite plain_to_valid by apply uuid_string_plain. }
  repeat first [apply Forall_app_2 | apply Hs; done | apply Hu; done].
Qed.

Lemma targets_parse ts : json_parse (targets_text ts) = Some (JArr (target_json <$> ts)).
Proof.
  apply json_parse_print.
  - cbn. induction ts as [|t ts IH]; [done|]. cbn. split; [apply target_flat|done].
  - cbn. assert (foldr (fun x d => N.max (jdepth x) d) 0 (target_json <$> ts) <= 1)%N; [|unfold max_nesting_depth; lia].
    induction ts as [|t ts IH]; cbn [foldr fmap list_fmap]; [lia|]. destruct (target_flat t) as [_ ->]. lia.
Qed.

Lemma targets_decode ts : decode_targets (targets_text ts) = Some (valid_target <$> ts).
Proof.
  unfold decode_targets. rewrite targets_parse. apply mapM_Some. induction ts as [|t ts IH]; constructor; [apply decode_target_text|done].
Qed.

Lemma targets_count ts b : ts <> [] -> (length ts <= ReadManifestMaxEntries)%nat ->
  Forall (fun t => validateTarget t = Ok tt) ts -> manifestPayloadCount (targets_text ts) b = N.of_nat (length ts).
Proof.
  intros Hne Hl Hv. unfold manifestPayloadCount. rewrite targets_decode.
  rewrite bool_decide_eq_false_2 by (by destruct ts). rewrite length_fmap. apply Nat.ltb_ge in Hl as ->. cbn.
  assert (forallb (fun t => is_ok (validateTarget t)) (valid_target <$> ts) = true) as ->; [|by rewrite andb_false_r].
  clear -Hv. induction Hv as [|t ts Ht _ IH]; [done|]. cbn [forallb fmap list_fmap]. by rewrite valid_target_ok, IH.
Qed.

(** ** Sizes *)

Definition target_size (t : Target) : N := byte_count (target_text t).

Definition list_size (ts : list Target) : N := foldr (fun t n => target_size t + 1 + n)%N 0%N ts.

Lemma commas_length l : l <> [] -> (byte_count (commas l) + 1 = foldr (fun s n => byte_count s + 1 + n) 0 l)%N.
Proof.
  induction l as [|s [|s' l] IH]; intros H; [done|cbn; unfold byte_count; lia|].
  cbn [foldr] in *. specialize (IH ltac:(done)).
  change (commas (s :: s' :: l)) with (s +:+ String "," (commas (s' :: l))).
  unfold byte_count in *. rewrite string_length_app. cbn [String.length]. lia.
Qed.

Lemma targets_size ts : ts <> [] -> (byte_count (targets_text ts) + 1 = 2 + list_size ts)%N.
Proof.
  intros Hne. unfold targets_text. cbn [print]. unfold byte_count at 1. cbn [String.length]. rewrite string_length_app. cbn [String.length].
  assert (print <$> (target_json <$> ts) = target_text <$> ts) as E by (by rewrite <- list_fmap_compose). rewrite E.
  pose proof (commas_length (target_text <$> ts) ltac:(by destruct ts)) as H.
  assert (foldr (fun s n => byte_count s + 1 + n)%N 0%N (target_text <$> ts) = list_size ts) as E'.
  { clear. induction ts as [|t ts IH]; [done|]. cbn. by rewrite IH. }
  rewrite E' in H. unfold byte_count in H. lia.
Qed.

(** ** The builder *)

(** A part: a batch of targets within both limits. *)
Definition part_ok (ts : list Target) : Prop :=
  ts <> [] /\ (length ts <= ReadManifestMaxEntries)%nat /\ (2 + list_size ts <= EventPartMaxBytes)%N.

(** The builder after [done]: the batches it emitted and the one it keeps. *)
Record builder_ok (b : manifestBuilder) (batches : list (list Target)) (done : list Target) : Prop := {
  bo_emitted : mb_emitted b = targets_text <$> batches;
  bo_batches : Forall part_ok batches;
  bo_all : concat batches ++ mb_current b = done;
  bo_bytes : mb_currentBytes b = (2 + list_size (mb_current b))%N;
  bo_fits : (length (mb_current b) <= ReadManifestMaxEntries)%nat /\ (mb_currentBytes b <= EventPartMaxBytes)%N;
}.

(** One byte less than the largest target the builder accepts. *)
Definition fits_part (t : Target) : Prop := (target_size t + 3 <= EventPartMaxBytes)%N.

Lemma list_size_app l1 l2 : list_size (l1 ++ l2) = (list_size l1 + list_size l2)%N.
Proof. induction l1 as [|t l1 IH]; [done|]. unfold list_size in *. cbn [app foldr]. rewrite IH. lia. Qed.

Lemma flush_ok b batches done : builder_ok b batches done -> mb_current b <> [] -> builder_ok (flush b) (batches ++ [mb_current b]) done.
Proof.
  intros [He Hb Ha Hy [Hl Hf]] Hne. split; cbn.
  - by rewrite fmap_app, He.
  - apply Forall_app. split; [done|]. constructor; [|constructor]. split_and!; [done..|]. by rewrite <- Hy.
  - by rewrite concat_app, app_nil_r; cbn; rewrite app_nil_r.
  - done.
  - unfold EventPartMaxBytes, ReadManifestMaxEntries. split; lia.
Qed.

Lemma builder_add_ok b batches done t : builder_ok b batches done -> fits_part t ->
  exists b' batches', builder_add b t = Ok b' /\ builder_ok b' batches' (done ++ [t]).
Proof.
  intros Hok Hfit. unfold fits_part, target_size in Hfit. unfold builder_add. cbv zeta.
  destruct (N.ltb_spec EventPartMaxBytes (byte_count (target_text t) + 2)); [lia|].
  assert (forall b batches, builder_ok b batches done -> (length (mb_current b) < ReadManifestMaxEntries)%nat ->
    (mb_currentBytes b + (byte_count (target_text t) + 1) <= EventPartMaxBytes)%N ->
    builder_ok (mkBuilder (mb_current b ++ [t]) (mb_currentBytes b + (byte_count (target_text t) + 1)) (mb_emitted b)) batches (done ++ [t])) as Hpush.
  { clear. intros b batches [He Hb Ha Hy [Hl Hf]] Hlt Hsize. split; cbn [mb_current mb_currentBytes mb_emitted]; [done..| | |].
    - by rewrite app_assoc, Ha.
    - rewrite Hy, list_size_app. unfold list_size at 3. cbn [foldr]. unfold target_size. lia.
    - rewrite length_app. cbn [length]. split; lia. }
  destruct (bool_decide_reflect (length (mb_current b) = ReadManifestMaxEntries)) as [Hfull|Hfull]; cbn [orb].
  - eexists _, _. split; [done|]. apply Hpush; [apply flush_ok; [done|intros E; by rewrite E in Hfull]|unfold ReadManifestMaxEntries; cbn; lia|cbn [flush mb_currentBytes]; lia].
  - destruct (N.ltb_spec EventPartMaxBytes (mb_currentBytes b + (byte_count (target_text t) + 1))).
    + eexists _, _. split; [done|]. apply Hpush; [apply flush_ok; [done|]|unfold ReadManifestMaxEntries; cbn; lia|cbn [flush mb_currentBytes]; lia].
      intros E. pose proof (bo_bytes _ _ _ Hok) as Hy. rewrite E in Hy. cbn in Hy. lia.
    + eexists _, _. split; [done|]. apply Hpush; [done| |done]. pose proof (bo_fits _ _ _ Hok). lia.
Qed.

Lemma builder_fold b batches done ts : builder_ok b batches done -> Forall fits_part ts ->
  exists b' batches', res_foldl builder_add b ts = Ok b' /\ builder_ok b' batches' (done ++ ts).
Proof.
  intros Hok Hts. revert b batches done Hok. induction Hts as [|t ts Ht _ IH]; intros b batches done Hok; cbn [res_foldl].
  - exists b, batches. by rewrite app_nil_r.
  - destruct (builder_add_ok _ _ _ t Hok Ht) as (b1 & bs1 & -> & Hok1).
    destruct (IH _ _ _ Hok1) as (b2 & bs2 & -> & Hok2). exists b2, bs2. split; [done|]. by rewrite <- app_assoc in Hok2.
Qed.

(** The parts of a list of targets are batches of it, in order. *)
Lemma parts_batches ts : Forall fits_part ts ->
  exists batches, readManifestParts ts = Ok (targets_text <$> batches) /\ Forall part_ok batches /\ concat batches = ts.
Proof.
  intros Hts. assert (builder_ok newManifestBuilder [] []) as H0.
  { split; try done. unfold EventPartMaxBytes, ReadManifestMaxEntries. cbn. split; lia. }
  destruct (builder_fold _ _ _ ts H0 Hts) as (b & batches & E & Hok). unfold readManifestParts. rewrite E. cbn [mbind res_bind].
  unfold builder_finish. destruct (mb_current b) as [|t rest] eqn:Ec.
  - exists batches. destruct Hok as [He Hb Ha _ _]. rewrite He. rewrite Ec, app_nil_r in Ha. done.
  - assert (mb_current b <> []) as Hne by (by rewrite Ec). pose proof (flush_ok _ _ _ Hok Hne) as [He Hb Ha _ _].
    eexists. split; [by rewrite He|]. split; [done|]. cbn in Ha. by rewrite app_nil_r in Ha.
Qed.

(** ** The validator *)

Lemma validator_parts batches v check :
  Forall part_ok batches -> Forall (fun t => validateTarget t = Ok tt) (concat batches) ->
  opt_foldl (fun v part => validator_add v part check) v (stored_parts (mv_parts v) (targets_text <$> batches)) =
    Some (mkValidator (mv_root v +:+ concat_text (targets_text <$> batches)) (mv_parts v + N.of_nat (length batches))
            (mv_identities v + N.of_nat (length (concat batches)))).
Proof.
  intros Hp. revert v. induction Hp as [|ts batches (Hne & Hl & Hs) _ IH]; intros v Hv.
  - cbn. rewrite !N.add_0_r, string_app_nil_r. by destruct v.
  - cbn [concat] in Hv. apply Forall_app in Hv as [Hts Hv]. cbn [fmap list_fmap stored_parts opt_foldl]. unfold validator_add at 1. cbn [mp_Index mp_Payload mp_Digest].
    rewrite N.eqb_refl, eqs_refl. cbn [negb orb].
    pose proof (targets_size ts Hne) as Hsize. destruct (N.ltb_spec EventPartMaxBytes (byte_count (targets_text ts))); [lia|]. cbn [orb].
    rewrite (targets_count ts check Hne Hl Hts). destruct (N.eqb_spec (N.of_nat (length ts)) 0); [destruct ts; [done|cbn in *; lia]|].
    pose proof (IH (mkValidator (mv_root v +:+ targets_text ts) (mv_parts v + 1) (mv_identities v + N.of_nat (length ts))) Hv) as E.
    cbn [mv_root mv_parts mv_identities] in E. etrans; [exact E|].
    cbn [concat concat_text length]. rewrite string_app_assoc, length_app. do 2 f_equal; lia.
Qed.


(** The largest target the builder accepts, alone in a manifest, makes it
    emit an empty array first, which the validator refuses. *)
Theorem largest_target_breaks_manifest (t : Target) (read : ReadEvidence) (check : bool) :
  (target_size t + 2 = EventPartMaxBytes)%N ->
  readManifestParts [t] = Ok ["[]"; targets_text [t]] /\ parts_match read (stored_parts 0 ["[]"; targets_text [t]]) check = false.
Proof.
  unfold target_size. intros Hsize. split.
  - unfold readManifestParts. cbn [res_foldl]. unfold builder_add. cbv zeta. cbn [mb_current mb_currentBytes newManifestBuilder].
    rewrite Hsize, N.ltb_irrefl. cbn [length]. rewrite bool_decide_eq_false_2 by done. cbn [orb].
    destruct (N.ltb_spec EventPartMaxBytes (2 + (byte_count (target_text t) + 1))); [done|lia].
  - unfold parts_match. cbn [stored_parts opt_foldl]. unfold validator_add. cbn [mp_Index mp_Payload mp_Digest mv_parts newManifestValidator].
    rewrite eqs_refl. done.
Qed.

End manifest.
