(* ===== verification/Merkle.v ===== *)
(** * Notarization: internal/audit/notarizer_merkle.go, notarizer.go

    The notarizer signs a Merkle root over the chain heads of an organization.
    Leaves and inner nodes hash under different prefixes and an odd node is
    paired with itself.  The root binds the heads, and through them every row
    below; signing is outside the model. *)

From S2P Require Import Prelude GoJson Sha256 Bytes Float64 Quote Canonical GoTime Domain Store Tx AuditEvent RowHash Ledger LedgerSpec ReadManifest Verify Tamper.
From Stdlib Require Import Ascii.

(** ** The root *)

Record chainHead := mkChainHead { hd_shard : Z; hd_seq : Z; hd_hash : string }.

#[export] Instance chainHead_eq_dec : EqDecision chainHead.
Proof. solve_decision. Defined.

(** [uint16] and [uint64] of a signed value. *)
Definition to_unsigned (bits : Z) (z : Z) : N := Z.to_N (z mod 2 ^ bits).

Definition leaf_message (h : chainHead) : string :=
  String (chr 0) (bytes_text (be_bytes 2 (to_unsigned 16 (hd_shard h))) +:+
                  bytes_text (be_bytes 8 (to_unsigned 64 (hd_seq h))) +:+ hd_hash h).

Definition node_message (left right : string) : string := String (chr 1) (left +:+ right).

(** One round of the loop. *)
Fixpoint next_level (level : list string) : list string :=
  match level with
  | [] => []
  | [a] => [sha256_sum (node_message a a)]
  | a :: b :: rest => sha256_sum (node_message a b) :: next_level rest
  end.

(** A level halves, so its length bounds the rounds. *)
Fixpoint merkle_rounds (fuel : nat) (level : list string) : string :=
  match level, fuel with
  | [], _ => sha256_sum EmptyString
  | [a], _ => a
  | a :: _, O => a
  | _, S fuel' => merkle_rounds fuel' (next_level level)
  end.

Definition merkleRoot (leaves : list string) : string := merkle_rounds (length leaves) leaves.

Definition shard_le (a b : chainHead) : Prop := (hd_shard a <= hd_shard b)%Z.

#[export] Instance shard_le_dec : RelDecision shard_le.
Proof. intros a b. unfold shard_le. apply _. Defined.
#[export] Instance shard_le_trans : Transitive shard_le.
Proof. intros a b c. unfold shard_le. lia. Qed.
#[export] Instance shard_le_total : Total shard_le.
Proof. intros a b. unfold shard_le. lia. Qed.

(** [hex.EncodeToString]. *)
Definition hex_text (s : string) : string := concat_text (hexN 2 <$> string_bytes s).

(** json.Marshal of a row's map: keys in order. *)
Definition manifest_row (h : chainHead) : json :=
  JObj [("last_hash", JStr (hex_text (hd_hash h))); ("last_seq", jint (hd_seq h)); ("shard", jint (hd_shard h))].

Definition merkleAndManifest (heads : list chainHead) : string * string :=
  let sorted := merge_sort shard_le heads in
  (merkleRoot ((fun h => sha256_sum (leaf_message h)) <$> sorted), print (JArr (manifest_row <$> sorted))).

(** The heads of one organization as [runOnce] collects them. *)
Definition org_heads (s : ledger) (org : uuid) : list chainHead :=
  omap (fun kv : (uuid * Z) * (Z * string) =>
          if decide (kv.1.1 = org) then Some (mkChainHead kv.1.2 kv.2.1 kv.2.2) else None) (map_to_list (l_heads s)).

(** ** Trees *)

(** The tree whose digests the rounds compute. *)
Inductive tree := Leaf (message : string) | Branch (left right : tree).

Fixpoint digest (t : tree) : string :=
  match t with Leaf m => sha256_sum m | Branch l r => sha256_sum (node_message (digest l) (digest r)) end.

Fixpoint tree_messages (t : tree) : list string :=
  match t with Leaf m => [m] | Branch l r => node_message (digest l) (digest r) :: tree_messages l ++ tree_messages r end.

Fixpoint leaves (t : tree) : list string := match t with Leaf m => [m] | Branch l r => leaves l ++ leaves r end.

Fixpoint pair_trees (ts : list tree) : list tree :=
  match ts with
  | [] => []
  | [a] => [Branch a a]
  | a :: b :: rest => Branch a b :: pair_trees rest
  end.

Fixpoint build (fuel : nat) (ts : list tree) : tree :=
  match ts, fuel with
  | [], _ => Leaf EmptyString
  | [a], _ => a
  | a :: _, O => a
  | _, S fuel' => build fuel' (pair_trees ts)
  end.

(** Induction two elements at a time. *)
Lemma pair_ind {A} (P : list A -> Prop) : P [] -> (forall a, P [a]) -> (forall a b l, P l -> P (a :: b :: l)) -> forall l, P l.
Proof.
  intros H0 H1 H2 l. cut (P l /\ forall a, P (a :: l)); [tauto|]. induction l as [|b l [IH IH']]; split; auto.
Qed.

Lemma pair_trees_digest ts : digest <$> pair_trees ts = next_level (digest <$> ts).
Proof. induction ts using pair_ind; [done|done|]. csimpl. by rewrite IHts. Qed.

Lemma pair_trees_length ts : (2 <= length ts)%nat -> (1 <= length (pair_trees ts) < length ts)%nat.
Proof.
  cut (length (pair_trees ts) <= length ts /\ (1 <= length ts -> 1 <= length (pair_trees ts)) /\ (2 <= length ts -> length (pair_trees ts) < length ts))%nat.
  { intros (? & ? & ?) ?. lia. }
  induction ts as [|a|a b ts IH] using pair_ind; cbn [pair_trees length]; lia.
Qed.

Lemma build_root fuel ts : digest (build fuel ts) = merkle_rounds fuel (digest <$> ts).
Proof.
  revert ts. induction fuel as [|fuel IH]; intros [|a [|b ts]]; try done.
  change (build (S fuel) (a :: b :: ts)) with (build fuel (pair_trees (a :: b :: ts))). rewrite IH, pair_trees_digest. done.
Qed.

Lemma pair_trees_leaves ts m : m ∈ pair_trees ts ≫= leaves <-> m ∈ ts ≫= leaves.
Proof.
  induction ts as [|a|a b ts IH] using pair_ind; [done| |]; cbn [pair_trees]; rewrite !bind_cons; cbn [leaves].
  - rewrite !elem_of_app. tauto.
  - rewrite !elem_of_app in *. tauto.
Qed.

Lemma build_leaves fuel ts m : (length ts <= S fuel)%nat -> ts <> [] -> m ∈ leaves (build fuel ts) <-> m ∈ ts ≫= leaves.
Proof.
  revert ts. induction fuel as [|fuel IH]; intros [|a [|b ts]] Hl Hne; try done; try (csimpl; by rewrite app_nil_r).
  - cbn in Hl. lia.
  - change (build (S fuel) (a :: b :: ts)) with (build fuel (pair_trees (a :: b :: ts))).
    pose proof (pair_trees_length (a :: b :: ts) ltac:(cbn; lia)). rewrite IH; [apply pair_trees_leaves|cbn in *; lia|].
    done.
Qed.

(** ** The root binds the leaves *)

(** Leaf messages do not look like node messages. *)
Fixpoint leaves_marked (t : tree) : Prop :=
  match t with Leaf m => forall l r, m <> node_message l r | Branch l r => leaves_marked l /\ leaves_marked r end.

Lemma digest_length t : String.length (digest t) = 32%nat.
Proof. destruct t; apply sha256_sum_length. Qed.

Lemma digest_inj t1 t2 :
  leaves_marked t1 -> leaves_marked t2 -> collision_free (tree_messages t1 ++ tree_messages t2) -> digest t1 = digest t2 -> t1 = t2.
Proof.
  revert t2. induction t1 as [m1|l1 IHl r1 IHr]; intros [m2|l2 r2] M1 M2 Hfree E; cbn [digest tree_messages leaves_marked] in *;
    apply Hfree in E; rewrite ?elem_of_app, ?elem_of_cons; auto.
  - by f_equal.
  - by destruct (M1 (digest l2) (digest r2)).
  - by destruct (M2 (digest l1) (digest r1)).
  - injection E as E. apply string_app_split in E as [El Er]; [|by rewrite !digest_length].
    f_equal; [apply IHl|apply IHr]; try tauto; (eapply collision_free_mono; [|exact Hfree]); intros m;
      rewrite !elem_of_app, !elem_of_cons, !elem_of_app; tauto.
Qed.

Lemma pair_trees_marked ts : Forall leaves_marked ts -> Forall leaves_marked (pair_trees ts).
Proof.
  induction ts as [|a|a b ts IH] using pair_ind; intros H; [done| |]; cbn [pair_trees].
  - apply Forall_cons in H as [Ha _]. repeat constructor; done.
  - apply Forall_cons in H as [Ha [Hb H]%Forall_cons]. constructor; [done|auto].
Qed.

Lemma build_marked fuel ts : Forall leaves_marked ts -> leaves_marked (build fuel ts).
Proof.
  revert ts. induction fuel as [|fuel IH]; intros [|a [|b ts]] H; try (by intros ? ? [=]); try (by apply Forall_cons in H as [? _]).
  apply IH. by apply pair_trees_marked.
Qed.

(** ** Heads *)

(** A head in the width of its columns. *)
Definition head_in_range (h : chainHead) : Prop :=
  (- 2 ^ 15 <= hd_shard h < 2 ^ 15 /\ 0 <= hd_seq h < 2 ^ 63)%Z.

Lemma leaf_message_inj a b : head_in_range a -> head_in_range b -> leaf_message a = leaf_message b -> a = b.
Proof.
  intros [Sa Qa] [Sb Qb] E. assert (forall c s s', String c s = String c s' -> s = s') as Htail by congruence. apply Htail in E.
  apply string_app_split in E as [Es E]; [|by rewrite !bytes_text_length, !be_bytes_length].
  apply string_app_split in E as [Eq Eh]; [|by rewrite !bytes_text_length, !be_bytes_length].
  unfold to_unsigned in *.
  assert (forall k z : Z, (0 <= k)%Z -> (Z.to_N (z mod 2 ^ k)%Z < 2 ^ Z.to_N k)%N) as Hb.
  { intros k z Hk. apply N2Z.inj_lt. rewrite N2Z.inj_pow, !Z2N.id by first [done | apply Z.mod_pos_bound, Z.pow_pos_nonneg; lia].
    apply Z.mod_pos_bound, Z.pow_pos_nonneg; lia. }
  apply be_text_inj in Es; [|apply (Hb 16%Z); lia..]. apply be_text_inj in Eq; [|apply (Hb 64%Z); lia..].
  apply Z2N.inj in Es; [|apply Z.mod_pos_bound; lia..]. apply Z2N.inj in Eq; [|apply Z.mod_pos_bound; lia..].
  destruct a as [sa qa ha], b as [sb qb hb]. cbn in *. rewrite !(Z.mod_small qa), !(Z.mod_small qb) in Eq by lia.
  f_equal; [|done..]. change (2 ^ 16)%Z with 65536%Z in Es. div_lia.
Qed.

Definition head_tree (heads : list chainHead) : tree := build (length heads) ((fun h => Leaf (leaf_message h)) <$> heads).

Lemma merkle_root_tree heads : (merkleAndManifest heads).1 = digest (head_tree (merge_sort shard_le heads)).
Proof.
  unfold head_tree, merkleAndManifest, merkleRoot. cbn [fst]. by rewrite build_root, length_fmap, <- list_fmap_compose.
Qed.

Lemma head_tree_marked heads : leaves_marked (head_tree heads).
Proof.
  apply build_marked, Forall_fmap, Forall_true. intros h l r E.
  apply (f_equal (String.get 0)) in E. discriminate E.
Qed.

Lemma head_tree_leaves heads m : heads <> [] -> m ∈ leaves (head_tree heads) <-> exists h, h ∈ heads /\ m = leaf_message h.
Proof.
  intros Hne. unfold head_tree. rewrite build_leaves; [|rewrite length_fmap; lia|by destruct heads].
  rewrite list_elem_of_bind. setoid_rewrite list_elem_of_fmap. split.
  - intros (t & Hm & h & -> & Hh). apply list_elem_of_singleton in Hm. eauto.
  - intros (h & Hh & ->). exists (Leaf (leaf_message h)). split; [apply list_elem_of_here|eauto].
Qed.

(** The root over heads in range determines the set of heads. *)
Lemma root_heads heads1 heads2 :
  Forall head_in_range heads1 -> Forall head_in_range heads2 -> head_tree heads1 = head_tree heads2 -> forall h, h ∈ heads1 -> h ∈ heads2.
Proof.
  intros R1 R2 E h Hh. assert (heads1 <> []) as N1 by (by intros ->; apply not_elem_of_nil in Hh).
  pose proof (proj2 (head_tree_leaves heads1 (leaf_message h) N1) ltac:(eauto)) as Hl. rewrite E in Hl.
  destruct (decide (heads2 = [])) as [->|N2].
  - cbn in Hl. by apply list_elem_of_singleton in Hl.
  - apply head_tree_leaves in Hl as (h' & Hh' & Em); [|done]. rewrite Forall_forall in R1, R2. apply leaf_message_inj in Em as ->; auto.
Qed.

Lemma org_heads_elem s org h : h ∈ org_heads s org <-> l_heads s !! (org, hd_shard h) = Some (hd_seq h, hd_hash h).
Proof.
  unfold org_heads. rewrite list_elem_of_omap. split.
  - intros ([[o sh] [q x]] & Hin%elem_of_map_to_list & E). cbn in E. case_decide; [|done]. injection E as <-. by subst.
  - intros H%elem_of_map_to_list. eexists. split; [exact H|]. cbn. rewrite decide_True by done. by destruct h.
Qed.

(** ** The root binds the history *)

Section history.
Context `{GL : GoLib} `{FF : FloatFormat}.

(** The rows and the messages of an organization. *)
Definition org_rows (s : ledger) (org : uuid) : list Row := filter (fun r => row_OrgID r = org) (l_events s).

Definition notarized_messages (s : ledger) (org : uuid) : list string :=
  tree_messages (head_tree (merge_sort shard_le (org_heads s org))) ++ chain_messages (org_rows s org).

Lemma chain_org_rows s org shard r : r ∈ chain_rows (org, shard) (l_events s) -> r ∈ org_rows s org.
Proof. unfold chain_rows, org_rows. rewrite !list_elem_of_filter. unfold row_key. naive_solver. Qed.

Lemma chain_org_messages s org shard m : m ∈ chain_messages (chain_rows (org, shard) (l_events s)) -> m ∈ notarized_messages s org.
Proof.
  unfold notarized_messages, chain_messages. rewrite elem_of_app, !list_elem_of_bind. intros (r & Hm & Hr). right.
  eauto using chain_org_rows.
Qed.


End history.
