(* ===== verification/Consumer.v ===== *)
(** * The audit consumer: internal/audit/consumer.go, consumer_parts.go,
    consumer_token_use.go, dlq.go, dlq_key.go

    The consumer projects the records of one partition in a transaction: each
    record lands in the ledger, is stored as a message of a larger event, or
    goes to the dead-letter table, and the offset moves with them.  A record
    runs in a savepoint, so its failure leaves nothing behind. *)

From S2P Require Import Prelude GoJson Sha256 Bytes Float64 Canonical GoTime Domain Store Tx AuditEvent RowHash Ledger ReadManifest.
From Stdlib Require Import Ascii.

(** ** Tables *)

(** DeadLetterKey: topic, partition and offset of a record. *)
Abbreviation DeadLetterKey := (string * Z * Z)%type (only parsing).

(** A row of audit.events_dlq; the error column holds the cause. *)
Record DeadLetter := mkDeadLetter { dl_Payload : raw; dl_Error : sentinel; dl_AttemptCount : N }.

(** A row of audit.event_assemblies. *)
Record assemblyRow := mkAssembly {
  as_OrgID : uuid;
  as_Shard : Z;
  as_PartCount : N;
  as_TransportDigest : string;
  as_Header : option raw;
  as_CommitVersion : string;
  as_Ready : bool;
}.

(** The tables the batch transaction writes: the ledger, events_dlq,
    consumer_offsets by group, topic and partition, event_assemblies,
    event_assembly_parts, completed_transports and api_tokens.last_used. *)
Record consumerDB := mkDB {
  db_ledger : ledger;
  db_dlq : gmap DeadLetterKey DeadLetter;
  db_offsets : gmap (string * string * Z) Z;
  db_assemblies : gmap uuid assemblyRow;
  db_parts : gmap (uuid * N) (string * raw);
  db_completed : gmap uuid string;
  db_tokens : gmap uuid (option instant);
}.

Definition ctx (A : Type) : Type := consumerDB -> res (consumerDB * A).

#[export] Instance ctx_ret : MRet ctx := fun A a s => Ok (s, a).
#[export] Instance ctx_bind : MBind ctx := fun A B f m s =>
  match m s with Ok (s', a) => f a s' | Err e => Err e end.

Definition c_lift {A} (r : res A) : ctx A := fun s => match r with Ok a => Ok (s, a) | Err e => Err e end.
Definition c_get {A} (f : consumerDB -> A) : ctx A := fun s => Ok (s, f s).

Definition set_ledger (s : consumerDB) (l : ledger) : consumerDB :=
  mkDB l (db_dlq s) (db_offsets s) (db_assemblies s) (db_parts s) (db_completed s) (db_tokens s).
Definition set_dlq (s : consumerDB) (d : gmap DeadLetterKey DeadLetter) : consumerDB :=
  mkDB (db_ledger s) d (db_offsets s) (db_assemblies s) (db_parts s) (db_completed s) (db_tokens s).
Definition set_offsets (s : consumerDB) (o : gmap (string * string * Z) Z) : consumerDB :=
  mkDB (db_ledger s) (db_dlq s) o (db_assemblies s) (db_parts s) (db_completed s) (db_tokens s).
Definition set_assemblies (s : consumerDB) (a : gmap uuid assemblyRow) : consumerDB :=
  mkDB (db_ledger s) (db_dlq s) (db_offsets s) a (db_parts s) (db_completed s) (db_tokens s).
Definition set_parts (s : consumerDB) (p : gmap (uuid * N) (string * raw)) : consumerDB :=
  mkDB (db_ledger s) (db_dlq s) (db_offsets s) (db_assemblies s) p (db_completed s) (db_tokens s).
Definition set_tokens (s : consumerDB) (t : gmap uuid (option instant)) : consumerDB :=
  mkDB (db_ledger s) (db_dlq s) (db_offsets s) (db_assemblies s) (db_parts s) (db_completed s) t.

(** A statement on the ledger tables. *)
Definition on_ledger {A} (m : ltx A) : ctx A := fun s =>
  match m (db_ledger s) with Ok (l, a) => Ok (set_ledger s l, a) | Err e => Err e end.

(** ** Records and replays *)

(** A record with no value reads as zero bytes. *)
Record kafkaRecord := mkRecord {
  rec_Topic : string;
  rec_Partition : Z;
  rec_Offset : Z;
  rec_Value : raw;
  rec_Headers : list (string * string);
}.

Definition record_key (rec : kafkaRecord) : DeadLetterKey := (rec_Topic rec, rec_Partition rec, rec_Offset rec).

Definition dlqReplayHeader : string := "tack-dlq-replay".

(** [strings.Split] at a separator. *)
Fixpoint split_at (sep : ascii) (s : string) : list string :=
  match s with
  | EmptyString => [EmptyString]
  | String c s' =>
      if Ascii.eqb c sep then EmptyString :: split_at sep s'
      else match split_at sep s' with p :: ps => String c p :: ps | [] => [String c EmptyString] end
  end.

Definition DeadLetterKey_String (k : DeadLetterKey) : string :=
  k.1.1 +:+ "/" +:+ decimalZ k.1.2 +:+ "/" +:+ decimalZ k.2.

Definition parseDeadLetterKey (value : string) : option DeadLetterKey :=
  match split_at "/" value with
  | [topic; partition; offset] =>
      p ← parse_int 32 partition;
      o ← parse_int 64 offset;
      Some (topic, p, o)
  | _ => None
  end.

(** The first replay header decides, well formed or not. *)
Fixpoint replay_header (headers : list (string * string)) : option DeadLetterKey :=
  match headers with
  | [] => None
  | (k, v) :: rest => if eqs k dlqReplayHeader then parseDeadLetterKey v else replay_header rest
  end.

Definition replayOrigin (rec : kafkaRecord) : option DeadLetterKey := replay_header (rec_Headers rec).

(** ** Dead letters *)

Definition verifiedReplayOrigin (rec : kafkaRecord) : ctx (option DeadLetterKey) := fun s =>
  Ok (s, match replayOrigin rec with
         | None => None
         | Some origin => match db_dlq s !! origin with
                          | Some row => if decide (dl_Payload row = rec_Value rec) then Some origin else None
                          | None => None
                          end
         end).

(** The update of a verified origin, which is still there, or the insert. *)
Definition write_dead_letter (rec : kafkaRecord) (cause : sentinel) (origin : option DeadLetterKey) : ctx unit := fun s =>
  match origin with
  | Some origin =>
      Ok (set_dlq s (alter (fun row => mkDeadLetter (dl_Payload row) cause (dl_AttemptCount row + 1)) origin (db_dlq s)), tt)
  | None =>
      match db_dlq s !! record_key rec with
      | Some _ => Ok (s, tt)
      | None => Ok (set_dlq s (<[record_key rec := mkDeadLetter (rec_Value rec) cause 0]> (db_dlq s)), tt)
      end
  end.

Definition deadLetterRecord (rec : kafkaRecord) (cause : sentinel) : ctx unit :=
  origin ← verifiedReplayOrigin rec;
  write_dead_letter rec cause origin.

Definition resolveDeadLetter (rec : kafkaRecord) : ctx unit := fun s =>
  match replayOrigin rec with
  | None => Ok (s, tt)
  | Some origin =>
      match db_dlq s !! origin with
      | Some row => if decide (dl_Payload row = rec_Value rec) then Ok (set_dlq s (delete origin (db_dlq s)), tt) else Ok (s, tt)
      | None => Ok (s, tt)
      end
  end.

(** A chain conflict; the serialization and deadlock codes are not told apart
    from it. *)
Definition isRetryableChainErr (e : sentinel) : bool := bool_decide (e = ErrChainConflict).

(** A malformed payload, or a statement the ledger refused for the record. *)
Definition isDeadLetterable (e : sentinel) : bool := bool_decide (e = ErrMalformedPayload) || bool_decide (e = ErrRowRefused).

(** ** Token uses *)

Record committedAuthEvent := mkCommitted { ca_EventTime : instant; ca_Action : string; ca_APITokenID : uuid }.

Definition VerbAuthTokenUsed : string := "auth.token_used".

Definition newest_step (newest : gmap uuid instant) (event : committedAuthEvent) : gmap uuid instant :=
  if negb (eqs (ca_Action event) VerbAuthTokenUsed) || nil (ca_APITokenID event) then newest
  else match newest !! ca_APITokenID event with
       | Some current => if (current <? ca_EventTime event)%Z then <[ca_APITokenID event := ca_EventTime event]> newest else newest
       | None => <[ca_APITokenID event := ca_EventTime event]> newest
       end.

Definition newestTokenUses (projected : list committedAuthEvent) : gmap uuid instant := foldl newest_step ∅ projected.

(** GREATEST, which skips a null. *)
Definition greatest (lastUsed : option instant) (t : instant) : option instant :=
  Some (match lastUsed with Some u => Z.max u t | None => t end).

(** One update per token; a token without a row is left alone. *)
Definition recordTokenUses (projected : list committedAuthEvent) : ctx unit := fun s =>
  Ok (set_tokens s (map_imap (fun id lastUsed =>
        Some (match newestTokenUses projected !! id with Some t => greatest lastUsed t | None => lastUsed end)) (db_tokens s)), tt).

(** ** Messages of multi-part events *)

Definition eventPartsFormatVersion : N := 1.
Definition messageKindPart : string := "event_part".
Definition messageKindManifest : string := "event_manifest".

Record transportMessage := mkMessage {
  tm_Message : string;
  tm_FormatVersion : N;
  tm_EventID : uuid;
  tm_OrgID : uuid;
  tm_Shard : Z;
  tm_PartCount : N;
  tm_TransportDigest : string;
  tm_PartIndex : N;
  tm_PartDigest : string;
  tm_Payload : raw;
  tm_CommitVersion : string;
}.

Definition completedTransport (message : transportMessage) : ctx bool := fun s =>
  match db_completed s !! tm_EventID message with
  | None => if decide (tm_EventID message ∈ l_projected (db_ledger s)) then Err ErrMalformedPayload else Ok (s, false)
  | Some digest => if decide (digest = tm_TransportDigest message) then Ok (s, true) else Err ErrMalformedPayload
  end.

(** INSERT ... ON CONFLICT DO NOTHING, then the stored row is compared. *)
Definition storeAssembly (message : transportMessage) : ctx unit := fun s =>
  match db_assemblies s !! tm_EventID message with
  | None =>
      Ok (set_assemblies s (<[tm_EventID message := mkAssembly (tm_OrgID message) (tm_Shard message) (tm_PartCount message)
                                (tm_TransportDigest message) None EmptyString false]> (db_assemblies s)), tt)
  | Some row =>
      if bool_decide (as_OrgID row = tm_OrgID message) && (as_Shard row =? tm_Shard message)%Z &&
         (as_PartCount row =? tm_PartCount message)%N && eqs (as_TransportDigest row) (tm_TransportDigest message)
      then Ok (s, tt) else Err ErrMalformedPayload
  end.

Definition storeAssemblyPart (message : transportMessage) : ctx unit := fun s =>
  if (tm_PartCount message <=? tm_PartIndex message)%N || (EventPartMaxBytes <? byte_count (tm_Payload message))%N ||
     negb (eqs (sha256Hex (tm_Payload message)) (tm_PartDigest message))
  then Err ErrMalformedPayload
  else match db_parts s !! (tm_EventID message, tm_PartIndex message) with
       | None => Ok (set_parts s (<[(tm_EventID message, tm_PartIndex message) := (tm_PartDigest message, tm_Payload message)]> (db_parts s)), tt)
       | Some (digest, payload) =>
           if eqs digest (tm_PartDigest message) && eqs payload (tm_Payload message) then Ok (s, tt) else Err ErrMalformedPayload
       end.

Definition storeAssemblyHeader (message : transportMessage) (value : raw) : ctx unit := fun s =>
  Ok (set_assemblies s (alter (fun row =>
        match as_Header row with
        | Some _ => row
        | None => mkAssembly (as_OrgID row) (as_Shard row) (as_PartCount row) (as_TransportDigest row) (Some value) (tm_CommitVersion message) (as_Ready row)
        end) (tm_EventID message) (db_assemblies s)), tt).

(** The parts stored for an event. *)
Definition part_count (s : consumerDB) (eventID : uuid) : N :=
  N.of_nat (size (filter (fun kv : (uuid * N) * (string * raw) => kv.1.1 = eventID) (db_parts s))).

Definition mark_ready (eventID : uuid) : ctx unit := fun s =>
  Ok (set_assemblies s (alter (fun row =>
        if negb (as_Ready row) && match as_Header row with Some _ => true | None => false end && (as_PartCount row =? part_count s eventID)%N
        then mkAssembly (as_OrgID row) (as_Shard row) (as_PartCount row) (as_TransportDigest row) (as_Header row) (as_CommitVersion row) true
        else row) eventID (db_assemblies s)), tt).

Definition storeTransportMessage (message : transportMessage) (value : raw) : ctx unit :=
  completed ← completedTransport message;
  if (completed : bool) then mret tt
  else
    _ ← storeAssembly message;
    _ ← (if eqs (tm_Message message) messageKindPart then storeAssemblyPart message else storeAssemblyHeader message value);
    mark_ready (tm_EventID message).

(** ** Projection *)

Section consumer.
Context `{GL : GoLib} `{FF : FloatFormat}.

(** encoding/json on a record's value: the probe for [audit_message], the
    strict decode of a message and the decode of an event. *)
Variable probe_message : raw -> option string.
Variable decode_message : raw -> option transportMessage.
Variable decode_event : raw -> option Event.
(** Whether the ledger refuses the row: a date no partition covers, or a
    column the data does not fit. *)
Variable row_refused : Event -> bool.
(** The identifier drawn for the personal data of a record. *)
Variable fresh : kafkaRecord -> uuid.
Variable group : string.

(** [None]: not a transport message. *)
Definition decodeTransportMessage (value : raw) : res (option transportMessage) :=
  match probe_message value with
  | None => Ok None
  | Some kind =>
      if blank kind then Ok None
      else match decode_message value with
           | None => Err ErrOther
           | Some message =>
               _ ← require (tm_FormatVersion message =? eventPartsFormatVersion)%N ErrOther;
               _ ← require (eqs (tm_Message message) messageKindPart || eqs (tm_Message message) messageKindManifest) ErrOther;
               _ ← require (negb (nil (tm_EventID message) || (tm_PartCount message =? 0)%N || negb (isSHA256Hex (tm_TransportDigest message)))) ErrOther;
               Ok (Some message)
           end
  end.

Definition unmarshalRecord (rec : kafkaRecord) : res Event :=
  match decode_event (rec_Value rec) with
  | None => Err ErrMalformedPayload
  | Some ev => prepareEvent ev
  end.

(** The append, whose INSERT the table can refuse. *)
Definition advance_row (ev : Event) (piiRef : uuid) : ltx chainAppendResult :=
  r ← advanceChain ev piiRef;
  if row_refused ev then l_fail ErrRowRefused else mret r.

(** Personal data first, then the row. *)
Definition land (rec : kafkaRecord) (ev : Event) : ltx chainAppendResult :=
  piiRef ← writeEventPII (fresh rec) ev;
  advance_row ev piiRef.

Definition committed_of (ev : Event) : committedAuthEvent :=
  mkCommitted (ev_OccurredAt ev) (ev_Verb ev) (ec_APITokenID (ev_Context ev)).

(** Reports the event that got a row. *)
Definition projectOne (rec : kafkaRecord) : ctx (option committedAuthEvent) :=
  match decodeTransportMessage (rec_Value rec) with
  | Err _ => c_lift (Err ErrMalformedPayload)
  | Ok (Some message) =>
      _ ← storeTransportMessage message (rec_Value rec);
      mret None
  | Ok None =>
      ev ← c_lift (unmarshalRecord rec);
      _ ← c_lift (match checkReadManifest ev [] with Ok _ => Ok tt | Err _ => Err ErrMalformedPayload end);
      _ ← on_ledger (land rec ev);
      mret (Some (committed_of ev))
  end.

(** An error of the record rolls its savepoint back. *)
Definition projectRecord (rec : kafkaRecord) : ctx (option committedAuthEvent) := fun s =>
  match projectOne rec s with
  | Ok (s', landed) => (_ ← resolveDeadLetter rec; mret landed) s'
  | Err e =>
      if decide (e = ErrAlreadyProjected) then (_ ← resolveDeadLetter rec; mret None) s
      else if isRetryableChainErr e then Err e
      else if isDeadLetterable e then (_ ← deadLetterRecord rec e; mret None) s
      else Err e
  end.

Fixpoint project_records (records : list kafkaRecord) : ctx (list committedAuthEvent) :=
  match records with
  | [] => mret []
  | rec :: rest =>
      landed ← projectRecord rec;
      projected ← project_records rest;
      mret (match landed with Some pe => pe :: projected | None => projected end)
  end.

Definition save_offset (topic : string) (partition offset : Z) : ctx unit := fun s =>
  Ok (set_offsets s (<[(group, topic, partition) := offset]> (db_offsets s)), tt).

(** The batch of a poll is not empty; [last] is its last record. *)
Definition projectBatchOnce (topic : string) (partition : Z) (records : list kafkaRecord) : ctx unit :=
  projected ← project_records records;
  _ ← recordTokenUses projected;
  match last records with
  | Some rec => save_offset topic partition (rec_Offset rec + 1)
  | None => mret tt
  end.

End consumer.
