(* ===== verification/SearchAccess.v ===== *)
(** * Search access: internal/searchaccess, internal/domain/search/filter.go

    A search key says in which organization and under which entry point a
    node may be found.  Indexing compiles the key of a node from its
    hierarchy ([EntryPoints]); a query compiles the key of the caller; the
    engine returns a page when the two are equal ([Permits]).

    Every read of a policy is its own transaction.  [rd W A] is a read that
    may change the world [W] it reads from; the store readers are the classes
    [HierarchyReader] and [PolicyReaders]. *)

From S2P Require Import Prelude GoJson Sha256 Bytes Base64 Float64 Domain Store Tx.
From Stdlib Require Import Ascii.

(** ** Reads *)

Definition rd (W A : Type) : Type := W -> res (W * A).
#[global] Typeclasses Opaque rd.

#[export] Instance rd_ret W : MRet (rd W) := fun A a w => Ok (w, a).
#[export] Instance rd_bind W : MBind (rd W) := fun A B f m w =>
  match m w with Ok (w', a) => f a w' | Err e => Err e end.

Definition rd_fail {W A} (e : sentinel) : rd W A := fun _ => Err e.
Definition rd_lift {W A} (r : res A) : rd W A := fun w => match r with Ok a => Ok (w, a) | Err e => Err e end.
Definition rd_ensure {W} (b : bool) (e : sentinel) : rd W unit := rd_lift (require b e).

(** ** Package slices

    [slices.Sort], [slices.IsSorted], [slices.Compact] and
    [slices.BinarySearch] on strings. *)

Definition sort_strings (l : list string) : list string := merge_sort String.le l.

Fixpoint is_sorted (l : list string) : bool :=
  match l with
  | x :: (y :: _) as l' => bool_decide (String.le x y) && is_sorted l'
  | _ => true
  end.

Fixpoint compact (l : list string) : list string :=
  match l with
  | x :: (y :: _) as l' => if decide (x = y) then compact l' else x :: compact l'
  | _ => l
  end.

(** [slices.BinarySearch]: the bounds [i, j); [found] reads position [i]. *)
Fixpoint binary_search_loop (fuel : nat) (l : list string) (target : string) (i j : nat) : nat :=
  match fuel with
  | O => i
  | S fuel' =>
      if i <? j then
        let h := (i + j) / 2 in
        match l !! h with
        | Some x =>
            if bool_decide (String.le target x) then binary_search_loop fuel' l target i h
            else binary_search_loop fuel' l target (S h) j
        | None => i
        end
      else i
  end.

Definition BinarySearch (l : list string) (target : string) : nat * bool :=
  let i := binary_search_loop (length l) l target 0 (length l) in
  (i, bool_decide (l !! i = Some target)).

(** ** Filters: internal/domain/search/filter.go *)

Definition MaxAccessKeys : nat := 64.
Definition MaxAccessValueBytes : nat := 256.

Record AccessFilter := mkFilter { af_Version : string; af_Keys : list string }.

Fixpoint hasDuplicate (values : list string) : bool :=
  match values with
  | x :: (y :: _) as values' => bool_decide (y = x) || hasDuplicate values'
  | _ => false
  end.

Definition ValidateAccessFilter (filter : AccessFilter) : res unit :=
  if bool_decide (af_Version filter = EmptyString) || (MaxAccessValueBytes <? String.length (af_Version filter))
  then Err ErrInvalidAccessFilter
  else if bool_decide (af_Keys filter = []) || (MaxAccessKeys <? length (af_Keys filter))
  then Err ErrInvalidAccessFilter
  else if negb (is_sorted (af_Keys filter)) || hasDuplicate (af_Keys filter)
  then Err ErrInvalidAccessFilter
  else if existsb (fun key => bool_decide (key = EmptyString) || (MaxAccessValueBytes <? String.length key)) (af_Keys filter)
  then Err ErrInvalidAccessFilter
  else Ok tt.

Definition Permits (f : AccessFilter) (resourceKeys : list string) : bool :=
  existsb (fun key => (BinarySearch (af_Keys f) key).2) resourceKeys.

(** ** Keys: key.go *)

Definition uuid_bytes (id : uuid) : list N := be_bytes 16 id.

Definition appendPart (encoded part : list N) : list N :=
  encoded ++ be_bytes 8 (N.of_nat (length part)) ++ part.

Definition key_message (version : string) (parts : list (list N)) : list N :=
  foldl appendPart (appendPart [] (string_bytes version)) parts.

Definition EncodeKey (version : string) (parts : list (list N)) : res string :=
  if bool_decide (version = EmptyString) || bool_decide (parts = []) then Err ErrOther
  else if existsb (fun part => bool_decide (part = [])) parts then Err ErrOther
  else
    let digest := be_bytes 32 (sha256 (bytes_text (key_message version parts))) in
    Ok (version +:+ ":" +:+ raw_url_encode digest).

(** ** The hierarchy: hierarchy_rule.go, hierarchy_walk.go *)

Record OrgNode := mkOrgNode { on_OrgID : uuid; on_NodeID : uuid }.

#[export] Instance OrgNode_eq_dec : EqDecision OrgNode.
Proof. solve_decision. Defined.

#[export] Instance OrgNode_countable : Countable OrgNode.
Proof.
  apply (inj_countable' (fun o => (on_OrgID o, on_NodeID o)) (fun p => mkOrgNode p.1 p.2)). by intros [].
Defined.

Record AncestorState := mkAncestor {
  as_Exists : bool;
  as_OrgID : uuid;
  as_TypeKey : string;
  as_Type : option NodeType;
  as_ChildOfs : list uuid;
}.

(** The zero value, which Go reads for a node that is not in the map. *)
Definition zero_ancestor : AncestorState := mkAncestor false uuid_nil EmptyString None [].

(** [hierarchyDefectError]: each matches [ErrHierarchyDefect], and the last
    also its cause. *)
Inductive hierarchyDefect :=
  | HierarchyCycle (at_node : uuid)
  | AncestorDefect (ancestor : uuid)
  | TypeDefect (typeKey : string)
  | ParentDefect (child : uuid) (cause : sentinel).

Record hierarchyWalk := mkWalk {
  hw_resource : OrgNode;
  hw_current : uuid;
  hw_visited : gset uuid;
  hw_entry : uuid;
  hw_defect : option hierarchyDefect;
  hw_done : bool;
}.

Definition startWalk (resource : OrgNode) : hierarchyWalk :=
  mkWalk resource (on_NodeID resource) ∅ uuid_nil None false.

Definition walk_fail (w : hierarchyWalk) (defect : hierarchyDefect) : hierarchyWalk :=
  mkWalk (hw_resource w) (hw_current w) (hw_visited w) (hw_entry w) (Some defect) true.

Definition walk_finish (w : hierarchyWalk) (entryPointID : uuid) : hierarchyWalk :=
  mkWalk (hw_resource w) (hw_current w) (hw_visited w) entryPointID (hw_defect w) true.

Definition walk_visit (w : hierarchyWalk) : hierarchyWalk :=
  mkWalk (hw_resource w) (hw_current w) ({[hw_current w]} ∪ hw_visited w) (hw_entry w) (hw_defect w) (hw_done w).

Definition walk_up (w : hierarchyWalk) (parentID : uuid) : hierarchyWalk :=
  mkWalk (hw_resource w) parentID (hw_visited w) (hw_entry w) (hw_defect w) (hw_done w).

Definition hierarchyParent (nodeID : uuid) (state : AncestorState) : uuid + hierarchyDefect :=
  match HierarchyParent (as_Type state) (as_ChildOfs state) with
  | Ok parentID => inl parentID
  | Err cause => inr (ParentDefect nodeID cause)
  end.

Definition walk_key (w : hierarchyWalk) : OrgNode := mkOrgNode (on_OrgID (hw_resource w)) (hw_current w).

Definition step (w : hierarchyWalk) (ancestors : gmap OrgNode AncestorState) : hierarchyWalk :=
  if decide (hw_current w ∈ hw_visited w) then walk_fail w (HierarchyCycle (hw_current w))
  else
    let state := default zero_ancestor (ancestors !! walk_key w) in
    if negb (as_Exists state) || negb (bool_decide (as_OrgID state = on_OrgID (hw_resource w)))
    then walk_fail (walk_visit w) (AncestorDefect (hw_current w))
    else
      match as_Type state with
      | None => walk_fail (walk_visit w) (TypeDefect (as_TypeKey state))
      | Some kind =>
          if Features_Has (nt_Features kind) FeatureIsEntryPoint then walk_finish (walk_visit w) (hw_current w)
          else
            match hierarchyParent (hw_current w) state with
            | inr defect => walk_fail (walk_visit w) defect
            | inl parentID =>
                if nil parentID then walk_finish (walk_visit w) (hw_current w) else walk_up (walk_visit w) parentID
            end
      end.

Definition unfinished (walks : list hierarchyWalk) : list hierarchyWalk :=
  filter (fun w => hw_done w = false) walks.

(** [nodeSet]: distinct nodes in insertion order. *)
Record nodeSet := mkNodeSet { ns_nodes : list OrgNode; ns_seen : gset OrgNode }.

Definition newNodeSet : nodeSet := mkNodeSet [] ∅.

Definition nodeSet_add (s : nodeSet) (k : OrgNode) : nodeSet :=
  if decide (k ∈ ns_seen s) then s else mkNodeSet (ns_nodes s ++ [k]) ({[k]} ∪ ns_seen s).

(** What EntryPoints needs of a store. *)
Class HierarchyReader (W : Type) := Ancestors : list OrgNode -> rd W (gmap OrgNode AncestorState).

Definition unreadAncestors (active : list hierarchyWalk) (ancestors : gmap OrgNode AncestorState) : nodeSet :=
  foldl (fun s w => if decide (is_Some (ancestors !! walk_key w)) then s else nodeSet_add s (walk_key w))
    newNodeSet active.

Definition addAncestor (states : gmap OrgNode AncestorState) (ancestors : gmap OrgNode AncestorState) (k : OrgNode) :
    res (gmap OrgNode AncestorState) :=
  match states !! k with Some state => Ok (<[k := state]> ancestors) | None => Err ErrOther end.

Section entry_points.
Context {W : Type} `{HR : !HierarchyReader W}.

Definition readLevel (active : list hierarchyWalk) (ancestors : gmap OrgNode AncestorState) :
    rd W (gmap OrgNode AncestorState) :=
  let nodes := ns_nodes (unreadAncestors active ancestors) in
  match nodes with
  | [] => mret ancestors
  | _ => states ← Ancestors nodes; rd_lift (res_foldl (addAncestor states) ancestors nodes)
  end.

(** A level steps every walk in progress; the walks are shared, so a step
    shows in the list of all walks. *)
Definition stepAll (walks : list hierarchyWalk) (ancestors : gmap OrgNode AncestorState) : list hierarchyWalk :=
  map (fun w => if hw_done w then w else step w ancestors) walks.

Fixpoint walkLevels (fuel : nat) (walks : list hierarchyWalk) (ancestors : gmap OrgNode AncestorState) :
    rd W (list hierarchyWalk) :=
  match unfinished walks with
  | [] => mret walks
  | active =>
      match fuel with
      | O => rd_fail OutOfFuel
      | S fuel' =>
          ancestors ← readLevel active ancestors;
          walkLevels fuel' (stepAll walks ancestors) ancestors
      end
  end.

Definition walkOutcome (acc : gmap OrgNode uuid * gmap OrgNode hierarchyDefect) (w : hierarchyWalk) :
    gmap OrgNode uuid * gmap OrgNode hierarchyDefect :=
  match hw_defect w with
  | Some defect => (acc.1, <[hw_resource w := defect]> acc.2)
  | None => (<[hw_resource w := hw_entry w]> acc.1, acc.2)
  end.

Definition EntryPoints (fuel : nat) (resources : list OrgNode) :
    rd W (gmap OrgNode uuid * gmap OrgNode hierarchyDefect) :=
  walks ← walkLevels fuel (startWalk <$> resources) ∅;
  mret (foldl walkOutcome (∅, ∅) walks).

End entry_points.

(** ** The organization-scope compiler: org_scope*.go, entry_point.go, hierarchy.go *)

Definition maxDependentPage : Z := 100.

Record IDPage := mkPage { ip_IDs : list uuid; ip_NextCursor : string; ip_Done : bool }.

(** node.NodeReader, TypeReader and RelationshipReader. *)
Class PolicyReaders (W : Type) := {
  ViewGet : uuid -> rd W (option NodeView);
  ViewResolve : uuid -> rd W (option NodeResolve);
  TypeByKey : uuid -> string -> rd W (option NodeType);
  EdgesFrom : uuid -> uuid -> string -> string -> Z -> rd W IDPage;
  EdgesTo : uuid -> uuid -> string -> string -> Z -> rd W IDPage;
}.

Record IndexAccessRequest := mkIndexRequest {
  ir_Version : string;
  ir_OrganizationID : uuid;
  ir_ResourceID : uuid;
  ir_Generation : Z;
}.

Record AccessRequest := mkAccessRequest {
  aq_Version : string;
  aq_PrincipalID : uuid;
  aq_AuthorityID : uuid;
  aq_EntryPointID : uuid;
  aq_MemberOrganizations : list uuid;
}.

Section compiler.
Context {W : Type} `{PR : !PolicyReaders W}.

(** [childOfs]: every target, page by page. *)
Fixpoint childOfs_pages (fuel : nat) (k : OrgNode) (targets : list uuid) (cursor : string) : rd W (list uuid) :=
  match fuel with
  | O => rd_fail OutOfFuel
  | S fuel' =>
      page ← EdgesFrom (on_OrgID k) (on_NodeID k) RelChildOf cursor maxDependentPage;
      let targets := targets ++ ip_IDs page in
      if ip_Done page then mret targets else childOfs_pages fuel' k targets (ip_NextCursor page)
  end.

Definition childOfs (fuel : nat) (k : OrgNode) : rd W (list uuid) := childOfs_pages fuel k [] EmptyString.

Definition typeByKey (orgID : uuid) (typeKey : string) (kinds : gmap string (option NodeType)) :
    rd W (option NodeType * gmap string (option NodeType)) :=
  match kinds !! typeKey with
  | Some kind => mret (kind, kinds)
  | None => kind ← TypeByKey orgID typeKey; mret (kind, <[typeKey := kind]> kinds)
  end.

(** One node of [compilerHierarchy.Ancestors], with the types read so far. *)
Definition compilerAncestor (fuel : nat) (k : OrgNode) (kinds : gmap string (option NodeType)) :
    rd W (AncestorState * gmap string (option NodeType)) :=
  view ← ViewGet (on_NodeID k);
  match view with
  | None => mret (zero_ancestor, kinds)
  | Some view =>
      if negb (bool_decide (v_OrgID view = on_OrgID k))
      then mret (mkAncestor true (v_OrgID view) EmptyString None [], kinds)
      else
        '(kind, kinds) ← typeByKey (on_OrgID k) (v_NodeType view) kinds;
        match kind with
        | Some t =>
            if Features_Has (nt_Features t) FeatureIsEntryPoint
            then mret (mkAncestor true (v_OrgID view) (v_NodeType view) kind [], kinds)
            else
              targets ← childOfs fuel k;
              mret (mkAncestor true (v_OrgID view) (v_NodeType view) kind targets, kinds)
        | None => mret (mkAncestor true (v_OrgID view) (v_NodeType view) None [], kinds)
        end
  end.

Fixpoint compilerAncestors (fuel : nat) (nodes : list OrgNode) (kinds : gmap string (option NodeType))
    (states : gmap OrgNode AncestorState) : rd W (gmap OrgNode AncestorState) :=
  match nodes with
  | [] => mret states
  | k :: nodes' =>
      '(state, kinds) ← compilerAncestor fuel k kinds;
      compilerAncestors fuel nodes' kinds (<[k := state]> states)
  end.

(** [compilerHierarchy]: one read transaction for each step. *)
Definition compilerHierarchy (fuel : nat) : HierarchyReader W := fun nodes => compilerAncestors fuel nodes ∅ ∅.

Definition entryPoint (fuel : nat) (orgID resourceID : uuid) : rd W uuid :=
  let resource := mkOrgNode orgID resourceID in
  '(entries, defects) ← EntryPoints (HR := compilerHierarchy fuel) fuel [resource];
  match defects !! resource with
  | Some _ => rd_fail ErrHierarchyDefect
  | None => mret (default uuid_nil (entries !! resource))
  end.

Definition inOrg (orgID nodeID : uuid) : rd W bool :=
  resolved ← ViewResolve nodeID;
  mret (match resolved with Some r => bool_decide (nr_OrgID r = orgID) | None => false end).

(** The sources of one page that are in the organization, each once. *)
Fixpoint childSources (orgID : uuid) (sources children : list uuid) : rd W (list uuid) :=
  match sources with
  | [] => mret children
  | sourceID :: sources' =>
      if decide (sourceID ∈ children) then childSources orgID sources' children
      else
        sourceExists ← inOrg orgID sourceID;
        childSources orgID sources' (if (sourceExists : bool) then children ++ [sourceID] else children)
  end.

Definition children (orgID resourceID : uuid) (cursor : string) (limit : Z) : rd W IDPage :=
  exist ← inOrg orgID resourceID;
  if negb exist then mret (mkPage [] EmptyString true)
  else
    page ← EdgesTo orgID resourceID RelChildOf cursor limit;
    children ← childSources orgID (ip_IDs page) [];
    mret (mkPage children (ip_NextCursor page) (ip_Done page)).

Definition GrantKey (version : string) (orgID entryPointID : uuid) : res string :=
  EncodeKey version [uuid_bytes orgID; uuid_bytes entryPointID].

Definition OrgScope_Dependents (orgID resourceID : uuid) (cursor : string) (limit : Z) : rd W IDPage :=
  if (limit <? 1)%Z || (maxDependentPage <? limit)%Z then rd_fail ErrOther
  else children orgID resourceID cursor limit.

Definition ResourceAuthority (resourceID : uuid) : rd W uuid :=
  resolved ← ViewResolve resourceID;
  match resolved with
  | Some r => if nil (nr_OrgID r) then rd_fail ErrOther else mret (nr_OrgID r)
  | None => rd_fail ErrOther
  end.

Definition OrgScope_Index (fuel : nat) (version : string) (request : IndexAccessRequest) : rd W SearchAccess :=
  if negb (bool_decide (ir_Version request = version)) || nil (ir_OrganizationID request) ||
     nil (ir_ResourceID request) || (ir_Generation request <? 0)%Z
  then rd_fail ErrOther
  else
    authority ← ResourceAuthority (ir_ResourceID request);
    if negb (bool_decide (authority = ir_OrganizationID request)) then rd_fail ErrOther
    else
      entryPointID ← entryPoint fuel (ir_OrganizationID request) (ir_ResourceID request);
      key ← rd_lift (GrantKey version (ir_OrganizationID request) entryPointID);
      mret (mkSearchAccess [ir_Version request] [key] (ir_Generation request)).

Definition OrgScope_EntryAuthority (entryPointID : uuid) : rd W uuid :=
  view ← ViewGet entryPointID;
  match view with
  | None => rd_fail ErrAccessDenied
  | Some view =>
      if nil (v_OrgID view) then rd_fail ErrAccessDenied
      else
        nodeType ← TypeByKey (v_OrgID view) (v_NodeType view);
        match nodeType with
        | Some t =>
            if Features_Has (nt_Features t) FeatureIsEntryPoint then mret (v_OrgID view) else rd_fail ErrAccessDenied
        | None => rd_fail ErrAccessDenied
        end
  end.

Definition OrgScope_Query (version : string) (request : AccessRequest) : rd W (list string) :=
  if negb (bool_decide (aq_Version request = version)) || nil (aq_PrincipalID request) || nil (aq_EntryPointID request)
  then rd_fail ErrOther
  else
    authority ← OrgScope_EntryAuthority (aq_EntryPointID request);
    if negb (bool_decide (authority = aq_AuthorityID request)) ||
       negb (bool_decide (authority ∈ aq_MemberOrganizations request))
    then rd_fail ErrAccessDenied
    else
      key ← rd_lift (EncodeKey (aq_Version request) [uuid_bytes authority; uuid_bytes (aq_EntryPointID request)]);
      mret [key].

End compiler.

(** ** Policies by version: access.go, query.go *)

Definition StableVersion : string := "org-scope-v1".
Definition RotatedVersion : string := "org-scope-v2".

Record Compiler (W : Type) := mkCompiler {
  co_Index : IndexAccessRequest -> rd W SearchAccess;
  co_GrantKey : uuid -> uuid -> res string;
  co_Dependents : uuid -> uuid -> string -> Z -> rd W IDPage;
  co_EntryAuthority : uuid -> rd W uuid;
  co_Query : AccessRequest -> rd W (list string);
}.
Arguments mkCompiler {W} _ _ _ _ _.
Arguments co_Index {W} _ _.
Arguments co_GrantKey {W} _ _ _.
Arguments co_Dependents {W} _ _ _ _ _.
Arguments co_EntryAuthority {W} _ _.
Arguments co_Query {W} _ _.

Definition NewOrgScopeCompiler {W} `{PR : !PolicyReaders W} (fuel : nat) (version : string) : Compiler W :=
  mkCompiler (OrgScope_Index fuel version) (GrantKey version) OrgScope_Dependents OrgScope_EntryAuthority
    (OrgScope_Query version).

Abbreviation PolicySet W := (gmap string (Compiler W)) (only parsing).

Definition NewPolicySet {W} `{PR : !PolicyReaders W} (fuel : nat) : PolicySet W :=
  foldl (fun m version => <[version := NewOrgScopeCompiler fuel version]> m) ∅ [StableVersion; RotatedVersion].

(** A dependent cursor: the position of the version, ':', and the cursor of
    its compiler. *)
Definition formatDependentCursor (position : Z) (inner : string) : string := decimalZ position +:+ ":" +:+ inner.

(** [strings.Cut] at the first ':'. *)
Fixpoint cut_colon (s : string) : option (string * string) :=
  match s with
  | EmptyString => None
  | String c s' =>
      if Ascii.eqb c ":" then Some (EmptyString, s')
      else match cut_colon s' with Some (a, b) => Some (String c a, b) | None => None end
  end.

Definition parseDependentCursor (cursor : string) : res (Z * string) :=
  if bool_decide (cursor = EmptyString) then Ok (0%Z, EmptyString)
  else
    match cut_colon cursor with
    | None => Err ErrOther
    | Some (positionText, inner) =>
        match parse_int 64 positionText with
        | Some position => if (position <? 0)%Z then Err ErrOther else Ok (position, inner)
        | None => Err ErrOther
        end
    end.

Record ResourceAccess := mkResourceAccess { ra_Keys : list string; ra_Defect : option hierarchyDefect }.

Section policies.
Context {W : Type}.

Definition compiler (s : PolicySet W) (version : string) : res (Compiler W) :=
  match s !! version with Some c => Ok c | None => Err ErrOther end.

(** The checks on what a compiler returned. *)
Definition valid_access (version : string) (access : SearchAccess) : bool :=
  negb (bool_decide (ac_Versions access = []) || bool_decide (ac_Keys access = []) || (ac_Generation access <? 0)%Z ||
        negb (is_sorted (ac_Versions access)) || negb (is_sorted (ac_Keys access)) ||
        bool_decide (EmptyString ∈ ac_Versions access) || bool_decide (EmptyString ∈ ac_Keys access) ||
        negb (length (compact (ac_Versions access)) =? length (ac_Versions access)) ||
        negb (length (compact (ac_Keys access)) =? length (ac_Keys access)) ||
        negb (bool_decide (head (ac_Versions access) = Some version))).

Definition PolicySet_Index (s : PolicySet W) (request : IndexAccessRequest) : rd W SearchAccess :=
  c ← rd_lift (compiler s (ir_Version request));
  access ← co_Index c request;
  if valid_access (ir_Version request) access then mret access else rd_fail ErrOther.

Definition PolicySet_Dependents (s : PolicySet W) (versions : list string) (orgID resourceID : uuid)
    (cursor : string) (limit : Z) : rd W IDPage :=
  '(position, inner) ← rd_lift (parseDependentCursor cursor);
  match versions !! Z.to_nat position with
  | None => mret (mkPage [] EmptyString true)
  | Some version =>
      c ← rd_lift (compiler s version);
      page ← co_Dependents c orgID resourceID inner limit;
      mret
        (if negb (ip_Done page) then mkPage (ip_IDs page) (formatDependentCursor position (ip_NextCursor page)) false
         else if (position + 1 <? Z.of_nat (length versions))%Z
         then mkPage (ip_IDs page) (formatDependentCursor (position + 1) EmptyString) false
         else mkPage (ip_IDs page) EmptyString true)
  end.

Definition PolicySet_EntryAuthority (s : PolicySet W) (entryPointID : uuid) : rd W uuid :=
  c ← rd_lift (compiler s StableVersion);
  co_EntryAuthority c entryPointID.

Definition PolicySet_Query (s : PolicySet W) (request : AccessRequest) : rd W AccessFilter :=
  c ← rd_lift (compiler s (aq_Version request));
  keys ← co_Query c request;
  let filter := mkFilter (aq_Version request) (compact (sort_strings keys)) in
  _ ← rd_lift (ValidateAccessFilter filter);
  mret filter.

(** The keys of one resource under every registered version. *)
Definition resourceKeys (s : PolicySet W) (orgID entryPointID : uuid) : res (list string) :=
  keys ← res_mapM
    (fun version => match s !! version with Some c => co_GrantKey c orgID entryPointID | None => Err ErrOther end)
    (sort_strings (map_to_list s).*1);
  Ok (compact (sort_strings keys)).

Definition addResourceAccess (s : PolicySet W) (entries : gmap OrgNode uuid) (defects : gmap OrgNode hierarchyDefect)
    (accesses : gmap OrgNode ResourceAccess) (resource : OrgNode) : res (gmap OrgNode ResourceAccess) :=
  match defects !! resource with
  | Some defect => Ok (<[resource := mkResourceAccess [] (Some defect)]> accesses)
  | None =>
      keys ← resourceKeys s (on_OrgID resource) (default uuid_nil (entries !! resource));
      Ok (<[resource := mkResourceAccess keys None]> accesses)
  end.

(** The reader's world is its own: a batch reads in one transaction. *)
Definition BatchResourceKeys {V} `{HR : !HierarchyReader V} (fuel : nat) (s : PolicySet W) (resources : list OrgNode) :
    rd V (gmap OrgNode ResourceAccess) :=
  '(entries, defects) ← EntryPoints fuel resources;
  rd_lift (res_foldl (addResourceAccess s entries defects) ∅ resources).

(** compileSearchAccess (search_access_compile.go). *)
Fixpoint compileVersions (s : PolicySet W) (orgID nodeID : uuid) (generation : Z) (versions keys : list string) :
    rd W (list string) :=
  match versions with
  | [] => mret keys
  | version :: versions' =>
      compiled ← PolicySet_Index s (mkIndexRequest version orgID nodeID generation);
      compileVersions s orgID nodeID generation versions' (keys ++ ac_Keys compiled)
  end.

Definition compileSearchAccess (s : PolicySet W) (versions : list string) (orgID nodeID : uuid) (generation : Z) :
    rd W SearchAccess :=
  let versions := match versions with [] => [StableVersion] | _ => versions end in
  keys ← compileVersions s orgID nodeID generation versions [];
  mret (mkSearchAccess (compact (sort_strings versions)) (compact (sort_strings keys)) generation).

End policies.
