(* ===== verification/SearchReaders.v ===== *)
(** * The store behind the access policies: internal/adapters/foundationdb

    The readers the policies run on.  While indexing, every read is its own
    transaction, so each sees the store of its time ([readers], over a
    [history] of stores); the summary of a result page reads everything in
    one transaction ([summaryHierarchy]).  A page cursor is the text of the
    last key read. *)

From S2P Require Import Prelude GoJson Sha256 Bytes Base64 Float64 Canonical Domain Store Tx Keys Records MutationRead SearchAccess.
From Stdlib Require Import Ascii.

(** The base64 text of a packed key; the tuple layer unpacks what it packs. *)
Class KeyText := {
  key_text : key -> string;
  text_key : string -> option key;
  text_key_text k : text_key (key_text k) = Some k;
  key_text_nonempty k : key_text k <> EmptyString;
}.

(** A concrete instance: the key as a decimal number. *)
Definition decimal_key_text (k : key) : string := decimal (Npos (encode k)).
Definition decimal_text_key (s : string) : option key := decode (Z.to_pos (digits_value 0 s)).

#[export] Program Instance decimal_keys : KeyText := {| key_text := decimal_key_text; text_key := decimal_text_key |}.
Next Obligation. intros k. unfold decimal_text_key, decimal_key_text. rewrite decimal_value. apply decode_encode. Qed.
Next Obligation.
  intros k E. unfold decimal_key_text in E. apply (f_equal (digits_value 0)) in E. rewrite decimal_value in E. done.
Qed.

Definition maxRelationshipPage : Z := 100.

Section readers.
Context `{FDB : Fdb} `{GL : GoLib} `{KT : KeyText}.

(** ** Views (view.go) *)

Definition getResolve (nodeID : uuid) : tx (option NodeResolve) :=
  encoded ← tr_get_bytes (nodeResolveKey nodeID);
  match encoded with
  | None => mret None
  | Some (VResolve r) => mret (Some r)
  | Some _ => fail ErrDecode
  end.

Definition getView (nodeID : uuid) (resolved : option NodeResolve) : tx (option NodeView) :=
  match resolved with
  | None => mret None
  | Some r =>
      encoded ← tr_get_bytes (nodeViewKey (nr_OrgID r) (nr_NodeType r) nodeID);
      match encoded with
      | None => mret None
      | Some (VView v) => mret (Some v)
      | Some _ => fail ErrDecode
      end
  end.

Definition ViewStore_Get (nodeID : uuid) : tx (option NodeView) :=
  resolved ← getResolve nodeID; getView nodeID resolved.

(** An absent record is an error here. *)
Definition ViewStore_Resolve (nodeID : uuid) : tx (option NodeResolve) :=
  resolved ← getResolve nodeID;
  match resolved with None => fail ErrNotFound | Some r => mret (Some r) end.

(** ** Relationship pages (relationship_page.go) *)

(** The entries of a range that starts after [lastKey], or at the prefix. *)
Definition selection (s : kv) (prefix : key) (lastKey : option key) : list (key * value) :=
  match lastKey with
  | None => frange s prefix
  | Some last =>
      filter (fun item => ~ key_le item.1 last /\ (prefix `prefix_of` item.1 \/ key_le item.1 prefix)) (frange s [])
  end.

Definition tr_select (prefix : key) (lastKey : option key) : tx (list (key * value)) := fun st =>
  Ok (st, selection (tx_kv st) prefix lastKey).

Definition decodeCursor (cursor : string) : res (option key) :=
  if bool_decide (cursor = EmptyString) then Ok None
  else match text_key cursor with Some k => Ok (Some k) | None => Err ErrOther end.

Definition edgePage (prefix : key) (cursor : string) (limit : Z) : tx IDPage :=
  if (limit <? 1)%Z || (maxRelationshipPage <? limit)%Z then fail ErrOther
  else
    begin ← lift (decodeCursor cursor);
    selected ← tr_select prefix begin;
    let items := take (Z.to_nat limit + 1) selected in
    let done := length items <=? Z.to_nat limit in
    let items := if done then items else take (Z.to_nat limit) items in
    ids ← lift (res_mapM (fun item => edgeEnd item.1) items);
    mret (mkPage ids (if done then EmptyString else match last items with Some item => key_text item.1 | None => EmptyString end) done).

Definition RelationshipStore_EdgesFrom (orgID sourceID : uuid) (relationType cursor : string) (limit : Z) : tx IDPage :=
  edgePage (relationshipPrefixBySource orgID sourceID relationType) cursor limit.

Definition RelationshipStore_EdgesTo (orgID targetID : uuid) (relationType cursor : string) (limit : Z) : tx IDPage :=
  edgePage (relationshipReversePrefixByTarget orgID targetID relationType) cursor limit.

(** ** One transaction for each read *)

(** The [t]-th transaction reads [history t]. *)
Definition read_txn {A} (history : nat -> kv) (m : tx A) : rd nat A := fun t =>
  match m (mkTx (history t) []) with Ok (_, a) => Ok (S t, a) | Err e => Err e end.

Definition store_readers (history : nat -> kv) : PolicyReaders nat := {|
  ViewGet nodeID := read_txn history (ViewStore_Get nodeID);
  ViewResolve nodeID := read_txn history (ViewStore_Resolve nodeID);
  TypeByKey orgID typeKey := read_txn history (nodeTypeByKey orgID typeKey);
  EdgesFrom orgID sourceID relationType cursor limit :=
    read_txn history (RelationshipStore_EdgesFrom orgID sourceID relationType cursor limit);
  EdgesTo orgID targetID relationType cursor limit :=
    read_txn history (RelationshipStore_EdgesTo orgID targetID relationType cursor limit);
|}.

(** ** Summaries (node_summary.go, node_summary_hierarchy.go) *)

Definition readSummaryViews (nodeIDs : list uuid) : tx (list (option NodeView)) :=
  resolves ← mapM_tx getResolve nodeIDs;
  mapM_tx (fun '(nodeID, resolved) => getView nodeID resolved) (zip nodeIDs resolves).

(** The types read so far, by organization and type key. *)
Abbreviation typeCache := (gmap (uuid * string) (option NodeType)) (only parsing).

Definition summaryType (orgID : uuid) (typeKey : string) (kinds : typeCache) : tx (option NodeType * typeCache) :=
  match kinds !! (orgID, typeKey) with
  | Some kind => mret (kind, kinds)
  | None => kind ← nodeTypeByKey orgID typeKey; mret (kind, <[(orgID, typeKey) := kind]> kinds)
  end.

(** The first pass: the state of a node before its edges are read. *)
Definition summaryState (k : OrgNode) (view : option NodeView) (kinds : typeCache) : tx (AncestorState * typeCache) :=
  match view with
  | None => mret (zero_ancestor, kinds)
  | Some view =>
      if negb (bool_decide (v_OrgID view = on_OrgID k))
      then mret (mkAncestor true (v_OrgID view) EmptyString None [], kinds)
      else
        '(kind, kinds) ← summaryType (on_OrgID k) (v_NodeType view) kinds;
        mret (mkAncestor true (v_OrgID view) (v_NodeType view) kind [], kinds)
  end.

Fixpoint summaryStates (nodes : list (OrgNode * option NodeView)) (kinds : typeCache)
    (states : gmap OrgNode AncestorState) : tx (gmap OrgNode AncestorState * typeCache) :=
  match nodes with
  | [] => mret (states, kinds)
  | (k, view) :: nodes' =>
      '(state, kinds) ← summaryState k view kinds;
      summaryStates nodes' kinds (<[k := state]> states)
  end.

Definition reads_edges (state : AncestorState) : bool :=
  match as_Type state with Some t => negb (Features_Has (nt_Features t) FeatureIsEntryPoint) | None => false end.

(** The second pass: the targets of each node below an entry point. *)
Fixpoint summaryEdges (nodes : list OrgNode) (states : gmap OrgNode AncestorState) : tx (gmap OrgNode AncestorState) :=
  match nodes with
  | [] => mret states
  | k :: nodes' =>
      match states !! k with
      | Some state =>
          if reads_edges state then
            items ← tr_range (relationshipPrefixBySource (on_OrgID k) (on_NodeID k) RelChildOf);
            targets ← lift (res_mapM (fun item => edgeEnd item.1) items);
            summaryEdges nodes'
              (<[k := mkAncestor (as_Exists state) (as_OrgID state) (as_TypeKey state) (as_Type state) targets]> states)
          else summaryEdges nodes' states
      | None => summaryEdges nodes' states
      end
  end.

Definition summaryAncestors (nodes : list OrgNode) (kinds : typeCache) : tx (gmap OrgNode AncestorState * typeCache) :=
  views ← readSummaryViews (on_NodeID <$> nodes);
  '(states, kinds) ← summaryStates (zip nodes views) kinds ∅;
  states ← summaryEdges nodes states;
  mret (states, kinds).

(** The world of a batch: its transaction and its type cache. *)
Definition summaryHierarchy : HierarchyReader (txst * typeCache) := fun nodes '(st, kinds) =>
  match summaryAncestors nodes kinds st with
  | Ok (st', (states, kinds')) => Ok ((st', kinds'), states)
  | Err e => Err e
  end.

Inductive SummaryStatus := SummaryFound | SummaryDeleted.

Record Summary := mkSummary { sm_ID : uuid; sm_NodeType : string; sm_Name : string }.

Record SummaryResult := mkSummaryResult {
  sr_NodeID : uuid;
  sr_Status : SummaryStatus;
  sr_Summary : Summary;
  sr_AccessKeys : list string;
}.

(** [utf8.RuneStart]: not a continuation byte. *)
Definition rune_start (c : ascii) : bool := negb (in_range 128 191 c).

(** The largest rune boundary at or below [n]. *)
Fixpoint rune_end (text : string) (n : nat) : nat :=
  match n with
  | O => O
  | S n' => match String.get n text with Some c => if rune_start c then n else rune_end text n' | None => n end
  end.

Definition TruncateUTF8 (text : string) (maxBytes : Z) : string :=
  if (Z.of_nat (String.length text) <=? maxBytes)%Z then text
  else String.substring 0 (rune_end text (Z.to_nat (Z.max maxBytes 0))) text.

Definition maxSummaryBatch : nat := 100.

Definition summaryResult (maxNameBytes : Z) (accesses : gmap OrgNode ResourceAccess) (entry : uuid * option NodeView) :
    SummaryResult :=
  match entry.2 with
  | None => mkSummaryResult entry.1 SummaryDeleted (mkSummary entry.1 EmptyString EmptyString) []
  | Some view =>
      let access := default (mkResourceAccess [] None) (accesses !! mkOrgNode (v_OrgID view) entry.1) in
      mkSummaryResult entry.1 SummaryFound
        (mkSummary entry.1 (v_NodeType view) (TruncateUTF8 (v_Name view) maxNameBytes)) (ra_Keys access)
  end.

(** A batch starts with an empty type cache. *)
Definition summaryKeys {W} (fuel : nat) (policies : PolicySet W) (resources : list OrgNode) :
    tx (gmap OrgNode ResourceAccess) := fun st =>
  match BatchResourceKeys (HR := summaryHierarchy) fuel policies resources (st, ∅) with
  | Ok (w, accesses) => Ok (w.1, accesses)
  | Err e => Err e
  end.

Definition Summaries {W} (fuel : nat) (policies : PolicySet W) (nodeIDs : list uuid) (maxNameBytes : Z) :
    tx (list SummaryResult) :=
  if (maxSummaryBatch <? length nodeIDs) || (maxNameBytes <? 1)%Z then fail ErrOther
  else
    views ← readSummaryViews nodeIDs;
    let found := zip nodeIDs views in
    let resources := omap (fun '(nodeID, view) => match view with
                                                  | Some v => Some (mkOrgNode (v_OrgID v) nodeID)
                                                  | None => None
                                                  end) found in
    accesses ← summaryKeys fuel policies resources;
    mret (summaryResult maxNameBytes accesses <$> found).

End readers.
