(* ===== verification/HierarchySpec.v ===== *)
(** * Correctness of the hierarchy walk

    [entry_point] says which node an indexed node is found under: the nearest
    ancestor-or-self of an entry-point type, or the root.  [EntryPoints] walks
    many nodes together, reading each ancestor at most once; for any reader it
    agrees with the relation on the states it read, and it ends after at most
    one level more than there are nodes to visit. *)

From S2P Require Import Prelude GoJson Sha256 Bytes Base64 Float64 Domain Store Tx SearchAccess.

(** ** The relation *)

Section entry.
Variable anc : OrgNode -> option AncestorState.
Variable org : uuid.

(** The node exists in the organization and its type is known. *)
Definition located (n : uuid) (st : AncestorState) (kind : NodeType) : Prop :=
  anc (mkOrgNode org n) = Some st /\ as_Exists st = true /\ as_OrgID st = org /\ as_Type st = Some kind.

Definition entry_type (kind : NodeType) : bool := Features_Has (nt_Features kind) FeatureIsEntryPoint.

Inductive entry_point : uuid -> uuid -> Prop :=
  | entry_here n st kind : located n st kind -> entry_type kind = true -> entry_point n n
  | entry_root n st kind :
      located n st kind -> entry_type kind = false ->
      HierarchyParent (Some kind) (as_ChildOfs st) = Ok uuid_nil -> entry_point n n
  | entry_up n st kind p e :
      located n st kind -> entry_type kind = false ->
      HierarchyParent (Some kind) (as_ChildOfs st) = Ok p -> p <> uuid_nil ->
      entry_point p e -> entry_point n e.

(** The step up from a node that is no entry point. *)
Definition goes_up (n p : uuid) : Prop :=
  exists st kind, located n st kind /\ entry_type kind = false /\
    HierarchyParent (Some kind) (as_ChildOfs st) = Ok p /\ p <> uuid_nil.

Lemma located_fun n st kind st' kind' : located n st kind -> located n st' kind' -> st = st' /\ kind = kind'.
Proof. intros (H1 & _ & _ & H2) (H3 & _ & _ & H4). simplify_eq. done. Qed.

Lemma goes_up_fun n p p' : goes_up n p -> goes_up n p' -> p = p'.
Proof.
  intros (st & kind & Hl & _ & Hp & _) (st' & kind' & Hl' & _ & Hp' & _).
  destruct (located_fun _ _ _ _ _ Hl Hl') as [-> ->]. congruence.
Qed.

Lemma entry_point_up n p e : goes_up n p -> entry_point n e <-> entry_point p e.
Proof.
  intros (st & kind & Hl & Ht & Hp & Hn). split; [|by intros; eapply entry_up].
  destruct 1 as [n st' kind' Hl'|n st' kind' Hl'|n st' kind' p' e Hl' _ Hp' _ He];
    destruct (located_fun _ _ _ _ _ Hl Hl') as [-> ->]; congruence.
Qed.

Lemma entry_point_rtc n p e : rtc goes_up n p -> entry_point n e <-> entry_point p e.
Proof. induction 1 as [|n p q Hnp _ IH]; [done|]. by rewrite (entry_point_up n p). Qed.

Lemma entry_point_fun n e e' : entry_point n e -> entry_point n e' -> e = e'.
Proof.
  intros H. revert e'. induction H as [n st kind Hl Ht|n st kind Hl Ht Hp|n st kind p e Hl Ht Hp Hn _ IH]; intros e' H'.
  3: { apply IH, (entry_point_up n); [by exists st, kind|done]. }
  all: destruct H' as [n st' kind' Hl'|n st' kind' Hl'|n st' kind' p' e' Hl' ? ? ?]; [done|done|];
    destruct (located_fun _ _ _ _ _ Hl Hl') as [-> ->]; congruence.
Qed.

Lemma tc_first n m : tc goes_up n m -> exists p, goes_up n p /\ rtc goes_up p m.
Proof. destruct 1 as [a b Hab|a b c Hab Hbc]; eexists; split; [done|done|done|by apply tc_rtc]. Qed.

(** A cycle has no entry point. *)
Lemma cycle_no_entry n e : tc goes_up n n -> ~ entry_point n e.
Proof.
  intros Hc H. induction H as [n st kind Hl Ht|n st kind Hl Ht Hp|n st kind p e Hl Ht Hp Hn _ IH];
    apply tc_first in Hc as (q & Hup & Hr).
  1,2: destruct Hup as (st' & kind' & Hl' & ? & ? & ?); destruct (located_fun _ _ _ _ _ Hl Hl') as [-> ->]; congruence.
  assert (goes_up n p) as Hup' by (by exists st, kind). rewrite (goes_up_fun _ _ _ Hup Hup') in Hr.
  apply IH. eapply tc_rtc_l; [done|by constructor].
Qed.

End entry.

Lemma entry_point_mono (anc anc' : OrgNode -> option AncestorState) org n e :
  (forall k st, anc k = Some st -> anc' k = Some st) -> entry_point anc org n e -> entry_point anc' org n e.
Proof.
  intros Hsub. assert (forall n st kind, located anc org n st kind -> located anc' org n st kind) as Hl.
  { intros m st kind (H1 & H2). split; [by apply Hsub|done]. }
  induction 1; [eapply entry_here|eapply entry_root|eapply entry_up]; eauto.
Qed.

(** ** One walk *)

(** [anc] answers as the states read so far. *)
Definition agrees (ancestors : gmap OrgNode AncestorState) (anc : OrgNode -> option AncestorState) : Prop :=
  forall k st, ancestors !! k = Some st -> anc k = Some st.

(** What is true of a walk whatever the unread nodes are. *)
Definition walk_ok (anc : OrgNode -> option AncestorState) (w : hierarchyWalk) : Prop :=
  let org := on_OrgID (hw_resource w) in
  let start := on_NodeID (hw_resource w) in
  if hw_done w then
    match hw_defect w with
    | None => entry_point anc org start (hw_entry w)
    | Some _ => forall e, ~ entry_point anc org start e
    end
  else
    hw_defect w = None /\
    rtc (goes_up anc org) start (hw_current w) /\
    (forall v, v ∈ hw_visited w -> tc (goes_up anc org) v (hw_current w)).

Lemma startWalk_ok anc r : walk_ok anc (startWalk r).
Proof. split; [done|]. split; [done|]. cbn. set_solver. Qed.

Lemma step_resource w ancestors : hw_resource (step w ancestors) = hw_resource w.
Proof.
  unfold step. case_decide; [done|]. case_match; [done|]. case_match; [|done]. case_match; [done|].
  case_match; [by case_match|done].
Qed.

Lemma no_entry_rtc anc org start n : rtc (goes_up anc org) start n ->
  (forall e, ~ entry_point anc org n e) -> forall e, ~ entry_point anc org start e.
Proof. intros Hr Hn e He. apply (Hn e). by apply (entry_point_rtc _ _ _ _ _ Hr). Qed.

Lemma entry_inv anc org n e st : entry_point anc org n e -> anc (mkOrgNode org n) = Some st ->
  exists kind, as_Exists st = true /\ as_OrgID st = org /\ as_Type st = Some kind /\
    (entry_type kind = true \/ is_ok (HierarchyParent (Some kind) (as_ChildOfs st)) = true).
Proof.
  intros H Hst. destruct H as [n st' kind (H1&H2&H3&H4)|n st' kind (H1&H2&H3&H4) ? Hp|n st' kind p e (H1&H2&H3&H4) ? Hp];
    rewrite H1 in Hst; injection Hst as <-; exists kind; repeat (split; [done|]); [by left|right; by rewrite Hp..].
Qed.

(** The node a walk is at leads up from its resource. *)
Definition at_node (anc : OrgNode -> option AncestorState) (w : hierarchyWalk) : Prop :=
  rtc (goes_up anc (on_OrgID (hw_resource w))) (on_NodeID (hw_resource w)) (hw_current w).

Lemma walk_fail_ok anc w d : at_node anc w ->
  (forall e, ~ entry_point anc (on_OrgID (hw_resource w)) (hw_current w) e) -> walk_ok anc (walk_fail w d).
Proof. intros Hr Hn. unfold walk_ok. cbn. by eapply no_entry_rtc. Qed.

Lemma walk_finish_ok anc w : at_node anc w -> hw_defect w = None ->
  entry_point anc (on_OrgID (hw_resource w)) (hw_current w) (hw_current w) -> walk_ok anc (walk_finish w (hw_current w)).
Proof. intros Hr Hd He. unfold walk_ok. cbn. rewrite Hd. by eapply entry_point_rtc. Qed.

Lemma walk_step_ok anc ancestors w st :
  agrees ancestors anc -> hw_done w = false -> ancestors !! walk_key w = Some st -> walk_ok anc w ->
  walk_ok anc (step w ancestors).
Proof.
  intros Hag Hd Hst Hw. unfold walk_ok in Hw. rewrite Hd in Hw. destruct Hw as (Hdef & Hr & Hv).
  pose proof (Hag _ _ Hst) as Hanc. unfold step. rewrite Hst. cbn [default from_option id].
  case_decide as Hvis.
  { apply walk_fail_ok; [done|]. intros e. by apply cycle_no_entry, Hv. }
  destruct (negb (as_Exists st) || negb (bool_decide (as_OrgID st = on_OrgID (hw_resource w)))) eqn:Hex.
  { apply walk_fail_ok; [done|]. intros e He. destruct (entry_inv _ _ _ _ _ He Hanc) as (kind & He1 & He2 & _).
    cbn in He2. rewrite He1, He2, bool_decide_true in Hex; done. }
  apply orb_false_iff in Hex as [Hex Horg]. apply negb_false_iff in Hex. apply negb_false_iff, bool_decide_eq_true in Horg.
  destruct (as_Type st) as [kind|] eqn:Ht.
  2: { apply walk_fail_ok; [done|]. intros e He. destruct (entry_inv _ _ _ _ _ He Hanc) as (kind & _ & _ & He3 & _). congruence. }
  assert (located anc (on_OrgID (hw_resource w)) (hw_current w) st kind) as Hl by done.
  destruct (Features_Has (nt_Features kind) FeatureIsEntryPoint) eqn:Hf.
  { apply (walk_finish_ok _ (walk_visit w)); [done..|]. by eapply entry_here. }
  unfold hierarchyParent. rewrite Ht. destruct (HierarchyParent (Some kind) (as_ChildOfs st)) as [p|cause] eqn:Hp.
  2: { apply walk_fail_ok; [done|]. intros e He. destruct (entry_inv _ _ _ _ _ He Hanc) as (kind' & _ & _ & He3 & Hk).
       rewrite Ht in He3. injection He3 as <-. unfold entry_type in Hk. rewrite Hf, Hp in Hk. by destruct Hk. }
  unfold nil. case_bool_decide as Hn.
  { subst p. apply (walk_finish_ok _ (walk_visit w)); [done..|]. by eapply entry_root. }
  assert (goes_up anc (on_OrgID (hw_resource w)) (hw_current w) p) as Hup by (by exists st, kind).
  unfold walk_ok. cbn. rewrite Hd. split; [done|]. split; [by eapply rtc_r|].
  intros v [->%elem_of_singleton|Hin]%elem_of_union; [by constructor|]. eapply tc_r; [by apply Hv|done].
Qed.

(** A walk that goes on has visited one node more, which exists. *)
Lemma step_visits w ancestors : hw_done w = false -> hw_done (step w ancestors) = false ->
  hw_visited (step w ancestors) = ({[hw_current w]} ∪ hw_visited w) /\ ~ (hw_current w ∈ hw_visited w) /\
  exists st, ancestors !! walk_key w = Some st /\ as_Exists st = true.
Proof.
  intros Hd. unfold step. case_decide as Hv; [done|].
  destruct (ancestors !! _) as [st|] eqn:Hst; cbn [default from_option id]; [|done].
  destruct (as_Exists st) eqn:Hex; [|done]. intros H. split; [|split; [done|by exists st]]. revert H.
  case_match; [done|]. case_match; [|done]. case_match; [done|]. case_match; [|done]. by case_match.
Qed.

(** ** One level *)

Definition set_ok (s : nodeSet) : Prop := NoDup (ns_nodes s) /\ forall k, k ∈ ns_nodes s <-> k ∈ ns_seen s.

Lemma nodeSet_add_ok s k : set_ok s -> set_ok (nodeSet_add s k) /\
  forall x, x ∈ ns_nodes (nodeSet_add s k) <-> x ∈ ns_nodes s \/ x = k.
Proof.
  intros [Hn Hs]. unfold nodeSet_add. case_decide as Hk.
  - split; [done|]. intros x. rewrite <-Hs in Hk. split; [by left|]. by intros [Hx|Hx]; [|subst x].
  - rewrite <-Hs in Hk. split; [split|]; cbn.
    + apply NoDup_app. split; [done|]. split; [set_solver|]. apply NoDup_singleton.
    + intros x. rewrite elem_of_app, elem_of_union, elem_of_singleton, list_elem_of_singleton, Hs. tauto.
    + intros x. by rewrite elem_of_app, list_elem_of_singleton.
Qed.

Lemma unread_spec active ancestors :
  NoDup (ns_nodes (unreadAncestors active ancestors)) /\
  forall k, k ∈ ns_nodes (unreadAncestors active ancestors) <->
    ancestors !! k = None /\ exists w, w ∈ active /\ walk_key w = k.
Proof.
  unfold unreadAncestors.
  assert (set_ok newNodeSet) as H0 by (split; [apply NoDup_nil_2|set_solver]).
  assert (forall s, set_ok s ->
    let s' := foldl (fun s w => if decide (is_Some (ancestors !! walk_key w)) then s else nodeSet_add s (walk_key w)) s active in
    set_ok s' /\ forall k, k ∈ ns_nodes s' <-> k ∈ ns_nodes s \/ ancestors !! k = None /\ exists w, w ∈ active /\ walk_key w = k) as H.
  { induction active as [|w active IH]; intros s Hs; cbn.
    - split; [done|]. intros k. split; [by left|]. intros [?|(_ & w & Hw & _)]; [done|]. set_solver.
    - case_decide as Hd.
      + destruct (IH s Hs) as [H1 H2]. split; [done|]. intros k. rewrite H2. split.
        * intros [?|(? & x & ? & ?)]; [by left|right]. split; [done|]. exists x. set_solver.
        * intros [?|(Hk & x & [->|Hx]%elem_of_cons & Hxk)]; [by left| |right; by eauto].
          subst. destruct Hd as [? Hd]. by rewrite Hd in Hk.
      + destruct (nodeSet_add_ok s (walk_key w) Hs) as [Ha Hb]. destruct (IH _ Ha) as [H1 H2].
        split; [done|]. intros k. rewrite H2, Hb. apply eq_None_not_Some in Hd. split.
        * intros [[?| ->]|(? & x & ? & ?)]; [by left|right|right].
          -- split; [done|]. exists w. set_solver.
          -- split; [done|]. exists x. set_solver.
        * intros [?|(Hk & x & [->|Hx]%elem_of_cons & Hxk)]; [by left; left|left; by right|right; by eauto]. }
  destruct (H _ H0) as [[H1 _] H2]. split; [done|]. intros k. rewrite H2. set_solver.
Qed.

Lemma addAncestors_spec states ns ancestors ancestors' :
  res_foldl (addAncestor states) ancestors ns = Ok ancestors' ->
  forall k, ancestors' !! k = (if decide (k ∈ ns) then states !! k else ancestors !! k) /\
            (k ∈ ns -> is_Some (states !! k)).
Proof.
  revert ancestors. induction ns as [|n ns IH]; intros ancestors E k; cbn [res_foldl] in E.
  { injection E as <-. split; [done|]. set_solver. }
  unfold addAncestor in E at 1. destruct (states !! n) as [st|] eqn:Hst; [|done].
  destruct (IH _ E k) as [H1 H2]. split.
  - rewrite H1. destruct (decide (k ∈ ns)) as [Hin|Hin]; [by rewrite decide_True by set_solver|].
    destruct (decide (k = n)) as [->|Hne].
    + by rewrite lookup_insert_eq, decide_True by set_solver.
    + by rewrite lookup_insert_ne, decide_False by set_solver.
  - intros [->|?]%elem_of_cons; [done|auto].
Qed.

Lemma addAncestors_ok states ns ancestors : (forall k, k ∈ ns -> is_Some (states !! k)) ->
  exists ancestors', res_foldl (addAncestor states) ancestors ns = Ok ancestors'.
Proof.
  revert ancestors. induction ns as [|n ns IH]; intros ancestors H; cbn [res_foldl]; [by eexists|].
  unfold addAncestor at 1. destruct (H n) as [st ->]; [set_solver|]. apply IH. set_solver.
Qed.

Section walk.
Context {W : Type} `{HR : !HierarchyReader W}.
(** [P k st]: a state the reader may answer for a node. *)
Variable P : OrgNode -> AncestorState -> Prop.

(** The organizations the reader is asked about. *)
Variable Q : uuid -> Prop.

Definition asked (ks : list OrgNode) : Prop := forall k, k ∈ ks -> Q (on_OrgID k).

(** [I] holds of the world throughout. *)
Variable I : W -> Prop.

Definition answers : Prop := forall ks w w' m,
  asked ks -> I w -> Ancestors ks w = Ok (w', m) -> I w' /\ forall k st, k ∈ ks -> m !! k = Some st -> P k st.

Definition answers_all : Prop := forall ks w, asked ks -> I w -> exists w' m,
  Ancestors ks w = Ok (w', m) /\ forall k, k ∈ ks -> is_Some (m !! k).

(** Every walk is of such an organization. *)
Definition walks_in (walks : list hierarchyWalk) : Prop := forall x, x ∈ walks -> Q (on_OrgID (hw_resource x)).

Lemma unread_asked active ancestors : walks_in active -> asked (ns_nodes (unreadAncestors active ancestors)).
Proof. intros Hq k Hk. apply unread_spec in Hk as (_ & x & Hx & <-). by apply Hq. Qed.

Lemma unfinished_in walks : walks_in walks -> walks_in (unfinished walks).
Proof. intros Hq x [_ Hx]%list_elem_of_filter. auto. Qed.

Lemma stepAll_in walks ancestors : walks_in walks -> walks_in (stepAll walks ancestors).
Proof.
  intros Hq x Hx. apply list_elem_of_fmap in Hx as (y & -> & Hy). destruct (hw_done y); [auto|].
  rewrite step_resource. auto.
Qed.

Lemma start_in resources : asked resources -> walks_in (startWalk <$> resources).
Proof. intros Hq x (r & -> & Hr)%list_elem_of_fmap. by apply Hq. Qed.

Lemma readLevel_ok active ancestors w w' ancestors' :
  answers -> walks_in active -> I w -> readLevel active ancestors w = Ok (w', ancestors') ->
  I w' /\
  (forall k st, ancestors !! k = Some st -> ancestors' !! k = Some st) /\
  (forall x, x ∈ active -> is_Some (ancestors' !! walk_key x)) /\
  (forall k st, ancestors' !! k = Some st -> ancestors !! k = Some st \/ P k st).
Proof.
  intros HP Hq HI E. pose proof (unread_asked active ancestors Hq) as Hask.
  destruct (unread_spec active ancestors) as [_ Hun]. unfold readLevel in E.
  destruct (ns_nodes (unreadAncestors active ancestors)) as [|n ns] eqn:En.
  { injection E as <- <-. split; [done|]. split; [done|]. split; [|by left]. intros x Hx.
    destruct (ancestors !! walk_key x) eqn:Ex; [by eexists|]. exfalso.
    apply (not_elem_of_nil (walk_key x)). apply Hun. split; [done|]. by exists x. }
  cbv [mbind rd_bind] in E. destruct (Ancestors (n :: ns) w) as [[w1 m]|] eqn:Ea; [|done].
  unfold rd_lift in E. destruct (res_foldl (addAncestor m) ancestors (n :: ns)) as [a|] eqn:Ef; [|done].
  injection E as <- <-. pose proof (addAncestors_spec _ _ _ _ Ef) as Hs.
  destruct (HP _ _ _ _ Hask HI Ea) as [HI' Hans]. split; [done|]. split; [|split].
  - intros k st Hk. destruct (Hs k) as [-> _]. case_decide as Hin; [|done]. apply Hun in Hin as [Hin _]. congruence.
  - intros x Hx. destruct (Hs (walk_key x)) as [-> Hm]. case_decide as Hin; [auto|].
    destruct (ancestors !! walk_key x) eqn:Ex; [by eexists|]. destruct Hin. apply Hun. split; [done|]. by exists x.
  - intros k st. destruct (Hs k) as [-> _]. case_decide as Hin; [|by left]. right. by eapply Hans.
Qed.

Lemma stepAll_unfinished walks ancestors x : x ∈ unfinished (stepAll walks ancestors) ->
  exists y, y ∈ unfinished walks /\ x = step y ancestors.
Proof.
  unfold unfinished, stepAll. intros [Hx Hin]%list_elem_of_filter. apply list_elem_of_fmap in Hin as (y & -> & Hy).
  destruct (hw_done y) eqn:Hd; [by rewrite Hd in Hx|]. exists y. split; [|done]. by apply list_elem_of_filter.
Qed.

Definition all_ok (ancestors : gmap OrgNode AncestorState) (walks : list hierarchyWalk) : Prop :=
  forall anc, agrees ancestors anc -> Forall (walk_ok anc) walks.

Lemma stepAll_ok walks ancestors ancestors' :
  (forall k st, ancestors !! k = Some st -> ancestors' !! k = Some st) ->
  (forall x, x ∈ unfinished walks -> is_Some (ancestors' !! walk_key x)) ->
  all_ok ancestors walks -> all_ok ancestors' (stepAll walks ancestors').
Proof.
  intros Hsub Hread Hall anc Hag. specialize (Hall anc ltac:(intros ???; auto)). unfold stepAll.
  apply Forall_fmap. apply Forall_forall. intros x Hx. rewrite Forall_forall in Hall. specialize (Hall x Hx). cbn.
  destruct (hw_done x) eqn:Hd; [done|]. destruct (Hread x) as [st Hst]; [by apply list_elem_of_filter|].
  by eapply walk_step_ok.
Qed.

Lemma walkLevels_ok fuel walks ancestors w w' walks' :
  answers -> walks_in walks -> I w -> all_ok ancestors walks -> (forall k st, ancestors !! k = Some st -> P k st) ->
  walkLevels fuel walks ancestors w = Ok (w', walks') ->
  I w' /\ exists ancestors', (forall k st, ancestors' !! k = Some st -> P k st) /\ all_ok ancestors' walks' /\
    Forall (fun x => hw_done x = true) walks' /\ hw_resource <$> walks' = hw_resource <$> walks.
Proof.
  intros HP. revert walks ancestors w. induction fuel as [|fuel IH]; intros walks ancestors w Hq HI Hok Ha E; cbn [walkLevels] in E;
    destruct (unfinished walks) as [|x active] eqn:Eu.
  1,3: injection E as <- <-; split; [done|]; exists ancestors; split; [done|split; [done|split; [|done]]]; apply Forall_forall; intros y Hy;
    destruct (hw_done y) eqn:Hd; [done|]; exfalso; apply (not_elem_of_nil y); rewrite <-Eu; by apply list_elem_of_filter.
  { done. }
  cbv [mbind rd_bind] in E. destruct (readLevel (x :: active) ancestors w) as [[w1 a]|] eqn:Er; [|done].
  rewrite <-Eu in Er. apply readLevel_ok in Er as (HI' & Hsub & Hread & Hnew); [|done|by apply unfinished_in|done].
  destruct (IH (stepAll walks a) a w1) as (HI2 & a' & H1 & H2 & H3 & H4); [by apply stepAll_in|done|by eapply stepAll_ok| |done|].
  { intros k st [Hk|Hk]%Hnew; auto. }
  split; [done|]. exists a'. split; [done|]. split; [done|]. split; [done|]. rewrite H4. unfold stepAll.
  rewrite <-list_fmap_compose. apply list_fmap_ext. intros i y _. cbn. destruct (hw_done y); [done|apply step_resource].
Qed.

(** *** The end of the walk *)

Lemma outcome_spec walks acc :
  let '(entries, defects) := foldl walkOutcome acc walks in
  (forall r e, entries !! r = Some e -> acc.1 !! r = Some e \/ exists w, w ∈ walks /\ hw_resource w = r /\ hw_defect w = None /\ hw_entry w = e) /\
  (forall r d, defects !! r = Some d -> acc.2 !! r = Some d \/ exists w, w ∈ walks /\ hw_resource w = r /\ hw_defect w = Some d) /\
  (forall r, is_Some (acc.1 !! r) \/ is_Some (acc.2 !! r) \/ (exists w, w ∈ walks /\ hw_resource w = r) ->
     is_Some (entries !! r) \/ is_Some (defects !! r)).
Proof.
  revert acc. induction walks as [|w walks IH]; intros acc; cbn [foldl].
  { destruct acc as [en de]. cbn. split; [by left|]. split; [by left|]. intros r [?|[?|(w & Hw & _)]]; [by left|by right|set_solver]. }
  specialize (IH (walkOutcome acc w)). destruct (foldl walkOutcome (walkOutcome acc w) walks) as [en de].
  destruct IH as (H1 & H2 & H3). unfold walkOutcome in *. destruct (hw_defect w) as [d|] eqn:Hd; cbn [fst snd] in *.
  - split; [|split].
    + intros r e [?|(x & ? & ?)]%H1; [by left|]. right. exists x. set_solver.
    + intros r d' [Hr|(x & ? & ?)]%H2; [|right; exists x; set_solver].
      apply lookup_insert_Some in Hr as [[<- <-]|[_ Hr]]; [right; exists w; set_solver|by left].
    + intros r Hr. apply H3. destruct Hr as [?|[Hr|(x & [->|Hx]%elem_of_cons & <-)]]; [by left|right; left|right; left|].
      * destruct (decide (hw_resource w = r)) as [->|Hne]; [rewrite lookup_insert_eq; by eexists|by rewrite lookup_insert_ne].
      * rewrite lookup_insert_eq. by eexists.
      * right. right. by exists x.
  - split; [|split].
    + intros r e [Hr|(x & ? & ?)]%H1; [|right; exists x; set_solver].
      apply lookup_insert_Some in Hr as [[<- <-]|[_ Hr]]; [right; exists w; set_solver|by left].
    + intros r d [?|(x & ? & ?)]%H2; [by left|]. right. exists x. set_solver.
    + intros r Hr. apply H3. destruct Hr as [Hr|[?|(x & [->|Hx]%elem_of_cons & <-)]]; [left|right; by left|left|].
      * destruct (decide (hw_resource w = r)) as [->|Hne]; [rewrite lookup_insert_eq; by eexists|by rewrite lookup_insert_ne].
      * rewrite lookup_insert_eq. by eexists.
      * right. right. by exists x.
Qed.

(** For any reader: there are states it answered under which every resource
    has the entry point reported, or no entry point whatever else is there. *)
Lemma EntryPoints_sound fuel resources w w' entries defects :
  answers -> asked resources -> I w -> EntryPoints fuel resources w = Ok (w', (entries, defects)) ->
  I w' /\ exists ancestors, (forall k st, ancestors !! k = Some st -> P k st) /\
    forall r, r ∈ resources ->
      (exists e, entries !! r = Some e /\ defects !! r = None /\
         forall anc, agrees ancestors anc -> entry_point anc (on_OrgID r) (on_NodeID r) e) \/
      (exists d, defects !! r = Some d /\ entries !! r = None /\
         forall anc e, agrees ancestors anc -> ~ entry_point anc (on_OrgID r) (on_NodeID r) e).
Proof.
  intros HP Hq HI E. unfold EntryPoints in E. cbv [mbind rd_bind] in E.
  destruct (walkLevels fuel (startWalk <$> resources) ∅ w) as [[w1 walks]|] eqn:Ew; [|done].
  apply walkLevels_ok in Ew as (HI' & ancestors & Ha & Hok & Hdone & Hres); [|done|by apply start_in|done| |by intros ??].
  2: { intros anc _. apply Forall_fmap, Forall_forall. intros r _. apply startWalk_ok. }
  injection E as <- Eo. split; [done|]. exists ancestors. split; [done|]. intros r Hr.
  pose proof (outcome_spec walks (∅, ∅)) as Ho. rewrite Eo in Ho. cbn [fst snd] in Ho. destruct Ho as (H1 & H2 & H3).
  assert (exists x, x ∈ walks /\ hw_resource x = r) as (x & Hx & Hxr).
  { assert (r ∈ hw_resource <$> walks) as (x & -> & Hx)%list_elem_of_fmap; [|by exists x].
    rewrite Hres. rewrite <-list_fmap_compose. apply list_elem_of_fmap. by exists r. }
  assert (forall anc x, agrees ancestors anc -> x ∈ walks -> hw_done x = true /\ walk_ok anc x) as Hw.
  { intros anc y Hag Hy. split; [by eapply (proj1 (Forall_forall _ _)) in Hdone|].
    by eapply (proj1 (Forall_forall _ _)) in Hok. }
  assert (forall e, entries !! r = Some e -> forall anc, agrees ancestors anc -> entry_point anc (on_OrgID r) (on_NodeID r) e) as He.
  { intros e [He|(y & Hy & <- & Hd & <-)]%H1 anc Hag; [by rewrite lookup_empty in He|].
    destruct (Hw anc y Hag Hy) as [Hyd Hyo]. unfold walk_ok in Hyo. by rewrite Hyd, Hd in Hyo. }
  assert (forall d, defects !! r = Some d -> forall anc e, agrees ancestors anc -> ~ entry_point anc (on_OrgID r) (on_NodeID r) e) as Hde.
  { intros d [Hd|(y & Hy & <- & Hd)]%H2 anc e Hag; [by rewrite lookup_empty in Hd|].
    destruct (Hw anc y Hag Hy) as [Hyd Hyo]. unfold walk_ok in Hyo. rewrite Hyd, Hd in Hyo. apply Hyo. }
  assert (agrees ancestors (fun k => ancestors !! k)) as Hself by (intros ???; done).
  destruct (entries !! r) as [e|] eqn:Een, (defects !! r) as [d|] eqn:Ede.
  - exfalso. eapply (Hde d eq_refl _ e Hself). by apply He.
  - left. exists e. auto.
  - right. exists d. eauto.
  - destruct (H3 r) as [[? ?]|[? ?]]; [|congruence..]. right. right. by exists x.
Qed.

(** *** Termination *)

Lemma readLevel_total active ancestors w : answers_all -> walks_in active -> I w -> exists w' ancestors', readLevel active ancestors w = Ok (w', ancestors').
Proof.
  intros Hall Hq HI. pose proof (unread_asked active ancestors Hq) as Hask. unfold readLevel. destruct (ns_nodes (unreadAncestors active ancestors)) as [|n ns] eqn:En; [by eexists _, _|].
  destruct (Hall (n :: ns) w Hask HI) as (w1 & m & Em & Hm). cbv [mbind rd_bind]. rewrite Em.
  destruct (addAncestors_ok m (n :: ns) ancestors Hm) as [a Ea]. unfold rd_lift. rewrite Ea. by eexists _, _.
Qed.

Variable U : gset uuid.
Hypothesis existing : forall k st, Q (on_OrgID k) -> P k st -> as_Exists st = true -> on_NodeID k ∈ U.

Lemma walkLevels_total n fuel walks ancestors w :
  answers -> answers_all -> walks_in walks -> I w -> size U < n + fuel -> (forall k st, ancestors !! k = Some st -> P k st) ->
  (forall x, x ∈ unfinished walks -> hw_visited x ⊆ U /\ size (hw_visited x) = n) ->
  exists w' walks', walkLevels fuel walks ancestors w = Ok (w', walks').
Proof.
  intros HP Hall. revert n walks ancestors w. induction fuel as [|fuel IH]; intros n walks ancestors w Hq HI Hf Ha Hv; cbn [walkLevels];
    destruct (unfinished walks) as [|x active] eqn:Eu; [by eexists _, _| |by eexists _, _|].
  { exfalso. destruct (Hv x) as [Hsub Hn]; [left|]. apply subseteq_size in Hsub. lia. }
  destruct (readLevel_total (x :: active) ancestors w Hall) as (w1 & a & Er).
  { rewrite <-Eu. by apply unfinished_in. }
  { done. }
  cbv [mbind rd_bind]. rewrite Er.
  rewrite <-Eu in Er, Hv. apply readLevel_ok in Er as (HI' & _ & _ & Hnew); [|done|by apply unfinished_in|done].
  assert (forall k st, a !! k = Some st -> P k st) as Ha' by (intros k st [Hk|Hk]%Hnew; auto).
  apply (IH (S n)); [by apply stepAll_in|done|lia|done|]. intros y Hy. assert (hw_done y = false) as Hyd by (by apply list_elem_of_filter in Hy as [? _]).
  apply stepAll_unfinished in Hy as (z & Hz & ->). assert (hw_done z = false) as Hzd by (by apply list_elem_of_filter in Hz as [? _]).
  destruct (step_visits z a Hzd Hyd) as (-> & Hcur & st & Hst & Hex). destruct (Hv z Hz) as [Hsub Hn].
  assert (hw_current z ∈ U) by (apply (existing (walk_key z) st); [by apply Hq; apply list_elem_of_filter in Hz as [_ ?]|auto..]). split; [set_solver|].
  rewrite size_union by set_solver. rewrite size_singleton. lia.
Qed.

Lemma EntryPoints_total fuel resources w :
  answers -> answers_all -> asked resources -> I w -> size U < fuel -> exists w' r, EntryPoints fuel resources w = Ok (w', r).
Proof.
  intros HP Hall Hq HI Hf.
  destruct (walkLevels_total 0 fuel (startWalk <$> resources) ∅ w) as (w' & walks & E); [done|done|by apply start_in|done|done|done| |].
  { intros x [_ Hx]%list_elem_of_filter. apply list_elem_of_fmap in Hx as (r & -> & _). cbn. split; [set_solver|apply size_empty]. }
  unfold EntryPoints. cbv [mbind rd_bind]. rewrite E. by eexists _, _.
Qed.

End walk.

(** ** The store at rest *)

(** A reader that answers the same state for a node whenever it is asked. *)
Definition steady {W} `{HR : !HierarchyReader W} (Q : uuid -> Prop) (I : W -> Prop) (anc : OrgNode -> AncestorState) : Prop :=
  forall ks w, asked Q ks -> I w -> exists w' m, Ancestors ks w = Ok (w', m) /\ I w' /\ forall k, k ∈ ks -> m !! k = Some (anc k).

Lemma steady_answers {W} `{HR : !HierarchyReader W} Q I anc : steady Q I anc ->
  answers (fun k st => st = anc k) Q I /\ answers_all Q I.
Proof.
  intros Hs. split.
  - intros ks w w' m Hq HI E. destruct (Hs ks w Hq HI) as (w1 & m1 & E1 & HI' & Hm). rewrite E in E1. injection E1 as <- <-.
    split; [done|]. intros k st Hk Hst. specialize (Hm k Hk). congruence.
  - intros ks w Hq HI. destruct (Hs ks w Hq HI) as (w1 & m1 & E1 & _ & Hm). eexists _, _. split; [done|].
    intros k Hk. rewrite Hm by done. by eexists.
Qed.

Definition full (anc : OrgNode -> AncestorState) : OrgNode -> option AncestorState := fun k => Some (anc k).

Lemma EntryPoints_steady {W} `{HR : !HierarchyReader W} Q I anc (U : gset uuid) fuel resources w :
  steady Q I anc -> asked Q resources -> I w ->
  (forall k, Q (on_OrgID k) -> as_Exists (anc k) = true -> on_NodeID k ∈ U) -> size U < fuel ->
  exists w' entries defects, EntryPoints fuel resources w = Ok (w', (entries, defects)) /\ I w' /\
    forall r, r ∈ resources ->
      (forall e, entries !! r = Some e <-> entry_point (full anc) (on_OrgID r) (on_NodeID r) e) /\
      (is_Some (defects !! r) <-> forall e, ~ entry_point (full anc) (on_OrgID r) (on_NodeID r) e).
Proof.
  intros Hs Hq HI HU Hf. destruct (steady_answers Q I anc Hs) as [HP Hall].
  destruct (EntryPoints_total (fun k st => st = anc k) Q I U) with (fuel := fuel) (resources := resources) (w := w)
    as (w' & [entries defects] & E); [by intros k st ? -> Hex; auto|done..|].
  exists w', entries, defects. split; [done|].
  apply (EntryPoints_sound (fun k st => st = anc k) Q I) in E as (HI' & ancestors & Ha & Ho); [|done..].
  split; [done|]. intros r Hr.
  assert (agrees ancestors (full anc)) as Hag by (intros k st ->%Ha; done).
  destruct (Ho r Hr) as [(e & He & Hd & Hp)|(d & Hd & He & Hp)]; rewrite He, Hd; split.
  - intros e'. split; [intros [= <-]; auto|]. intros H'. f_equal. eapply entry_point_fun; [by apply Hp|done].
  - split; [by intros [? [=]]|]. intros Hn. destruct (Hn e). auto.
  - intros e'. split; [done|]. intros H'. by destruct (Hp (full anc) e').
  - split; [|by eexists]. intros _ e'. auto.
Qed.

(** ** Each node is read at most once *)

(** A reader with the list of the nodes it was asked for. *)
Definition logged {W} (HR : HierarchyReader W) : HierarchyReader (W * list OrgNode) := fun ks '(w, log) =>
  match Ancestors (HierarchyReader := HR) ks w with Ok (w', m) => Ok ((w', log ++ ks), m) | Err e => Err e end.

Definition log_ok (log : list OrgNode) (ancestors : gmap OrgNode AncestorState) : Prop :=
  NoDup log /\ forall k, k ∈ log -> is_Some (ancestors !! k).

Lemma readLevel_log {W} (HR : HierarchyReader W) active ancestors w log w' log' ancestors' :
  log_ok log ancestors -> readLevel (HR := logged HR) active ancestors (w, log) = Ok ((w', log'), ancestors') ->
  log_ok log' ancestors'.
Proof.
  intros [Hnd Hlog] E. destruct (unread_spec active ancestors) as [Hun Hspec]. unfold readLevel in E.
  destruct (ns_nodes (unreadAncestors active ancestors)) as [|n ns] eqn:En; [by injection E as <- <- <-|].
  cbv [mbind rd_bind Ancestors logged] in E. destruct (HR (n :: ns) w) as [[w1 m]|]; [|done].
  unfold rd_lift in E. destruct (res_foldl (addAncestor m) ancestors (n :: ns)) as [a|] eqn:Ef; [|done].
  injection E as <- <- <-. pose proof (addAncestors_spec _ _ _ _ Ef) as Hs. split.
  - apply NoDup_app. split; [done|]. split; [|done]. intros k Hk Hin. apply Hspec in Hin as [Hin _].
    destruct (Hlog k Hk) as [? Hk']. congruence.
  - intros k Hk. destruct (Hs k) as [-> Hm]. case_decide as Hin; [auto|]. apply elem_of_app in Hk as [Hk|Hk]; [auto|done].
Qed.

Lemma walkLevels_log {W} (HR : HierarchyReader W) fuel walks ancestors w log w' log' walks' :
  log_ok log ancestors -> walkLevels (HR := logged HR) fuel walks ancestors (w, log) = Ok ((w', log'), walks') -> NoDup log'.
Proof.
  revert walks ancestors w log. induction fuel as [|fuel IH]; intros walks ancestors w log Hlog E; cbn [walkLevels] in E;
    destruct (unfinished walks) as [|x active]; [by injection E as <- <- <-; destruct Hlog|done|by injection E as <- <- <-; destruct Hlog|].
  cbv [mbind rd_bind] in E. destruct (readLevel (HR := logged HR) (x :: active) ancestors (w, log)) as [[[w1 log1] a]|] eqn:Er; [|done].
  eapply IH; [|done]. by eapply readLevel_log.
Qed.

(** A walk over many resources reads no node twice, whatever the reader
    answers. *)
Theorem EntryPoints_reads_once {W} (HR : HierarchyReader W) fuel resources w w' log r :
  EntryPoints (HR := logged HR) fuel resources (w, []) = Ok ((w', log), r) -> NoDup log.
Proof.
  unfold EntryPoints. cbv [mbind rd_bind]. destruct (walkLevels _ _ _ _) as [[[w1 log1] walks]|] eqn:E; [|done].
  intros [= <- <- <-]. eapply walkLevels_log; [|done]. split; [constructor|]. set_solver.
Qed.

(** ** The properties *)

(** Whatever the store does between the reads, an entry point that
    [EntryPoints] reports follows by the hierarchy rule from states it read,
    and a resource it reports as defective has no entry point by those
    states, whatever the nodes it did not read hold. *)
Theorem EntryPoints_by_the_rule {W} `{HR : !HierarchyReader W} (P : OrgNode -> AncestorState -> Prop) fuel resources w w' entries defects :
  answers P (fun _ => True) (fun _ => True) ->
  EntryPoints fuel resources w = Ok (w', (entries, defects)) ->
  exists ancestors, (forall k st, ancestors !! k = Some st -> P k st) /\
    forall r, r ∈ resources ->
      (exists e, entries !! r = Some e /\ defects !! r = None /\
         forall anc, agrees ancestors anc -> entry_point anc (on_OrgID r) (on_NodeID r) e) \/
      (exists d, defects !! r = Some d /\ entries !! r = None /\
         forall anc e, agrees ancestors anc -> ~ entry_point anc (on_OrgID r) (on_NodeID r) e).
Proof. intros HP E. by destruct (EntryPoints_sound _ _ _ _ _ _ _ _ _ HP (fun _ _ => I) I E) as [_ H]. Qed.

(** C37: The walk ends, on a parent cycle too: when the reader answers every
    node and only nodes of a finite set exist, one level more than that set
    has nodes is enough, however the store changes between the reads. *)
Theorem EntryPoints_terminates {W} `{HR : !HierarchyReader W} (P : OrgNode -> AncestorState -> Prop) (U : gset uuid) fuel resources w :
  answers P (fun _ => True) (fun _ => True) -> answers_all (fun _ => True) (fun _ => True) ->
  (forall k st, P k st -> as_Exists st = true -> on_NodeID k ∈ U) -> size U < fuel ->
  exists w' entries defects, EntryPoints fuel resources w = Ok (w', (entries, defects)).
Proof.
  intros HP Hall HU Hf.
  destruct (EntryPoints_total P (fun _ => True) (fun _ => True) U (fun k st _ => HU k st) fuel resources w HP Hall (fun _ _ => I) I Hf)
    as (w' & [entries defects] & E). by exists w', entries, defects.
Qed.

(** C7: On a store at rest the answer is the hierarchy rule itself: a resource
    has the entry point reported, or is defective when it has none. *)
Theorem EntryPoints_refines {W} `{HR : !HierarchyReader W} Q (I : W -> Prop) anc (U : gset uuid) fuel resources w :
  steady Q I anc -> asked Q resources -> I w ->
  (forall k, Q (on_OrgID k) -> as_Exists (anc k) = true -> on_NodeID k ∈ U) -> size U < fuel ->
  exists w' entries defects, EntryPoints fuel resources w = Ok (w', (entries, defects)) /\
    forall r, r ∈ resources ->
      (forall e, entries !! r = Some e <-> entry_point (full anc) (on_OrgID r) (on_NodeID r) e) /\
      (is_Some (defects !! r) <-> forall e, ~ entry_point (full anc) (on_OrgID r) (on_NodeID r) e).
Proof.
  intros Hs Hq HI HU Hf. destruct (EntryPoints_steady Q I anc U fuel resources w Hs Hq HI HU Hf) as (w' & en & de & E & _ & H).
  by exists w', en, de.
Qed.
