(* ===== verification/ReadersSpec.v ===== *)
(** * The readers of the access policies read the store

    [store_state] is the hierarchy state of a node as the records of one
    store give it.  On a store that keeps the invariants of [NodeInv] and
    [RelInv], the reader of indexing, which reads each record in its own
    transaction and edges page by page, and the reader of result pages, which
    reads in one transaction, both answer it. *)

From S2P Require Import Prelude GoJson Sha256 Bytes Base64 Float64 Canonical Domain Store Tx Keys Records MutationRead Mutation SearchAccess SearchReaders HierarchySpec.

Section readers_spec.
Context `{FDB : Fdb} `{GL : GoLib} `{KT : KeyText}.

(** ** The state a store holds *)

Definition resolve_of (s : kv) (id : uuid) : option NodeResolve :=
  match fget s (nodeResolveKey id) with Some (VResolve r) => Some r | _ => None end.

Definition view_of (s : kv) (id : uuid) : option NodeView :=
  match resolve_of s id with
  | Some r => match fget s (nodeViewKey (nr_OrgID r) (nr_NodeType r) id) with Some (VView v) => Some v | _ => None end
  | None => None
  end.

Definition type_of (s : kv) (o : uuid) (typeKey : string) : option NodeType :=
  match nodeTypeByKey o typeKey (mkTx s []) with Ok (_, t) => t | Err _ => None end.

Definition target_of (item : key * value) : option uuid :=
  match edgeEnd item.1 with Ok id => Some id | Err _ => None end.

Definition parent_edges (s : kv) (o n : uuid) : list (key * value) := frange s (relationshipPrefixBySource o n RelChildOf).
Definition parent_targets (s : kv) (o n : uuid) : list uuid := omap target_of (parent_edges s o n).

Definition store_state (s : kv) (k : OrgNode) : AncestorState :=
  match view_of s (on_NodeID k) with
  | None => zero_ancestor
  | Some v =>
      if decide (v_OrgID v = on_OrgID k) then
        let kind := type_of s (on_OrgID k) (v_NodeType v) in
        mkAncestor true (v_OrgID v) (v_NodeType v) kind
          (match kind with
           | Some t => if entry_type t then [] else parent_targets s (on_OrgID k) (on_NodeID k)
           | None => []
           end)
      else mkAncestor true (v_OrgID v) EmptyString None []
  end.

(** The records decode, and a type key names one type. *)
Record readable (s : kv) (Q : uuid -> Prop) : Prop := {
  re_nodes : NodeInv s;
  re_relationships : RelInv s;
  re_types o typeKey : Q o -> is_ok (nodeTypeByKey o typeKey (mkTx s [])) = true;
}.

Context (s : kv) (Q : uuid -> Prop) (Hs : readable s Q).

(** ** Point reads *)

Lemma tx_bind_eq {A B} (m : tx A) (f : A -> tx B) st st' a : m st = Ok (st', a) -> (m ≫= f) st = f a st'.
Proof. intros E. unfold mbind, tx_bind. by rewrite E. Qed.

Lemma tr_get_bytes_eq k st : tr_get_bytes k st =
  Ok (st, match fget (tx_kv st) k with Some v => if no_bytes v then None else Some v | None => None end).
Proof. unfold tr_get_bytes. cbv [mbind tx_bind tr_get]. by destruct (fget (tx_kv st) k). Qed.

Lemma getResolve_eq id : getResolve id (mkTx s []) = Ok (mkTx s [], resolve_of s id).
Proof.
  unfold getResolve, resolve_of. erewrite tx_bind_eq by apply tr_get_bytes_eq. cbn [tx_kv].
  destruct (fget s (nodeResolveKey id)) as [v|] eqn:E; [|done].
  destruct (ni_resolve _ (re_nodes _ _ Hs) _ _ E) as (n & -> & _). done.
Qed.

Lemma getView_eq id : getView id (resolve_of s id) (mkTx s []) = Ok (mkTx s [], view_of s id).
Proof.
  unfold getView, view_of. destruct (resolve_of s id) as [r|] eqn:Er; [|done]. unfold resolve_of in Er.
  destruct (fget s (nodeResolveKey id)) as [v|] eqn:E; [|done].
  destruct (ni_resolve _ (re_nodes _ _ Hs) _ _ E) as (n & -> & Hn & _ & _ & Hv). injection Er as <-. cbn [nr_OrgID nr_NodeType].
  erewrite tx_bind_eq by apply tr_get_bytes_eq. cbn [tx_kv]. by rewrite Hv.
Qed.

Lemma ViewStore_Get_eq id : ViewStore_Get id (mkTx s []) = Ok (mkTx s [], view_of s id).
Proof. unfold ViewStore_Get. erewrite tx_bind_eq by apply getResolve_eq. apply getView_eq. Qed.

(** A view and a resolve record name the same organization. *)
Lemma view_resolve id : v_OrgID <$> view_of s id = nr_OrgID <$> resolve_of s id.
Proof.
  unfold view_of. destruct (resolve_of s id) as [r|] eqn:Er; [|done]. unfold resolve_of in Er.
  destruct (fget s (nodeResolveKey id)) as [v|] eqn:E; [|done].
  destruct (ni_resolve _ (re_nodes _ _ Hs) _ _ E) as (n & -> & Hn & _ & _ & Hv). injection Er as <-. cbn [nr_OrgID nr_NodeType].
  by rewrite Hv.
Qed.

Lemma nodeTypeByKey_eq o typeKey : Q o -> nodeTypeByKey o typeKey (mkTx s []) = Ok (mkTx s [], type_of s o typeKey).
Proof.
  intros Ho. unfold type_of. pose proof (re_types _ _ Hs o typeKey Ho) as Hok.
  destruct (nodeTypeByKey o typeKey (mkTx s [])) as [[st t]|] eqn:E; [|done].
  assert (reads (nodeTypeByKey o typeKey)) as Hr by (unfold nodeTypeByKey, indexedIDs; reads).
  by rewrite (Hr _ _ _ E).
Qed.

(** ** Edges *)

Lemma parent_edge o n item : item ∈ parent_edges s o n ->
  exists b, item.1 = relationshipKey o n RelChildOf b /\ target_of item = Some b.
Proof.
  destruct item as [k v]. unfold parent_edges. intros [Hp Hv]%frange_spec.
  assert (family k = "relationship") as Hk by (by destruct Hp as [l ->]).
  destruct (rel_forward _ (re_relationships _ _ Hs) _ _ Hk Hv) as (r & -> & -> & _).
  apply relationshipPrefix_spec in Hp as (Ho & Hn & [Ht|Ht]); [done|]. exists (rel_TargetID r).
  split; [unfold rel_key; cbn; congruence|]. unfold target_of, rel_key. cbn [fst]. by rewrite edgeEnd_forward.
Qed.

Lemma edge_ends items : (forall item, item ∈ items -> is_Some (target_of item)) ->
  res_mapM (fun item => edgeEnd item.1) items = Ok (omap target_of items).
Proof.
  induction items as [|item items IH]; intros H; [done|]. cbn [res_mapM]. csimpl.
  destruct (H item) as [b Hb]; [set_solver|]. rewrite Hb. unfold target_of in Hb.
  destruct (edgeEnd item.1) as [b'|]; [|done]. injection Hb as ->. rewrite IH by set_solver. done.
Qed.

Lemma parent_items o n items : (forall item, item ∈ items -> item ∈ parent_edges s o n) ->
  res_mapM (fun item => edgeEnd item.1) items = Ok (omap target_of items).
Proof. intros H. apply edge_ends. intros item Hi%H. destruct (parent_edge _ _ _ Hi) as (b & _ & ->). by eexists. Qed.

(** *** The next page starts after the last key *)

Lemma range_sorted p : StronglySorted entry_le (frange s p).
Proof.
  pose proof (frange_sorted s p) as H. induction (frange s p) as [|x l IH]; [constructor|].
  cbn in H. inversion_clear H as [|? ? Hl Hx]. constructor; [auto|]. by rewrite Forall_fmap in Hx.
Qed.

Lemma range_nodup p : NoDup (frange s p).
Proof. eapply NoDup_fmap_1, frange_nodup. Qed.

(** Two entries of one store with the same key are the same. *)
Lemma entries_eq p q x y : x ∈ frange s p -> y ∈ frange s q -> entry_le x y -> entry_le y x -> x = y.
Proof.
  destruct x as [k v], y as [k' v']. intros [_ Hx]%frange_spec [_ Hy]%frange_spec H1 H2.
  assert (k = k') by (by apply (anti_symm key_le)). subst. congruence.
Qed.

Lemma sorted_drop p i y x : frange s p !! i = Some y ->
  x ∈ drop (S i) (frange s p) <-> x ∈ frange s p /\ ~ key_le x.1 y.1.
Proof.
  intros Hy. pose proof (range_sorted p) as Hsort. pose proof (range_nodup p) as Hnd.
  assert (forall x, x ∈ frange s p -> key_le x.1 y.1 -> key_le y.1 x.1 -> x = y) as Heq.
  { intros z Hz H1 H2. eapply entries_eq; [done| |done|done]. by eapply list_elem_of_lookup_2. }
  rewrite <-(take_drop_middle _ _ _ Hy) in Hsort, Hnd.
  apply StronglySorted_app in Hsort as (Hlt & Hs1 & Hs2). apply NoDup_app in Hnd as (_ & Hd & Hn2).
  apply NoDup_cons in Hn2 as [Hyd _]. inversion_clear Hs2 as [|? ? _ Hgt]. rewrite Forall_forall in Hgt. split.
  - intros Hx. assert (x ∈ frange s p) as Hin by (eapply subseteq_drop; done). split; [done|].
    intros Hle. specialize (Hgt x Hx). destruct Hyd. rewrite <-(Heq x Hin Hle Hgt). done.
  - intros [Hx Hle]. rewrite <-(take_drop_middle _ _ _ Hy) in Hx.
    apply elem_of_app in Hx as [Hx|[->|Hx]%elem_of_cons]; [|destruct Hle; apply key_le_refl|done].
    destruct Hle. apply (Hlt x y); [done|left].
Qed.

Lemma selection_after p i y : frange s p !! i = Some y -> selection s p (Some y.1) = drop (S i) (frange s p).
Proof.
  intros Hy. unfold selection. assert (p `prefix_of` y.1) as Hpy.
  { apply list_elem_of_lookup_2 in Hy. destruct y. by apply frange_spec in Hy as [? _]. }
  assert (forall k, p `prefix_of` k -> key_le p k) as Hpre.
  { clear. induction p as [|e p IH]; intros k [l ->]; [done|]. cbn. rewrite decide_True by done. apply IH. by eexists. }
  apply (StronglySorted_unique_strong entry_le).
  - intros x1 x2 [_ H1]%list_elem_of_filter H2. eapply entries_eq; [done|]. eapply subseteq_drop. done.
  - apply StronglySorted_filter, range_sorted.
  - assert (StronglySorted entry_le (take (S i) (frange s p) ++ drop (S i) (frange s p))) as Ha by (rewrite take_drop; apply range_sorted).
    by apply StronglySorted_app in Ha as (_ & _ & Ha).
  - apply NoDup_Permutation; [apply NoDup_filter, range_nodup| |].
    { pose proof (range_nodup p) as Hn. rewrite <-(take_drop (S i)) in Hn. by apply NoDup_app in Hn as (_ & _ & Hn). }
    intros [k v]. rewrite (sorted_drop p i y) by done. rewrite list_elem_of_filter, !frange_spec. cbn [fst].
    split; [intros [[Hn [?|Hk]] [_ ?]]|intros [[? ?] Hn]]; [done| |].
    + destruct Hn. etrans; [done|]. by apply Hpre.
    + split; [split; [done|by left]|split; [by exists k|done]].
Qed.

(** *** Pages *)

(** A cursor of the [i]-th entry. *)
Definition cursor_at (o n : uuid) (i : nat) (cursor : string) : Prop :=
  (i = 0 /\ cursor = EmptyString) \/ (exists j y, i = S j /\ parent_edges s o n !! j = Some y /\ cursor = key_text y.1).

Definition page_items (o n : uuid) (i : nat) : list (key * value) := take 100 (drop i (parent_edges s o n)).

Lemma tr_select_at o n i cursor : cursor_at o n i cursor ->
  exists begin, decodeCursor cursor = Ok begin /\
    tr_select (relationshipPrefixBySource o n RelChildOf) begin (mkTx s []) = Ok (mkTx s [], drop i (parent_edges s o n)).
Proof.
  intros [[-> ->]|(j & y & -> & Hy & ->)]; unfold decodeCursor.
  - exists None. split; [done|]. unfold tr_select. cbn. by rewrite drop_0.
  - exists (Some y.1). pose proof (key_text_nonempty y.1). rewrite bool_decide_false by done. rewrite text_key_text.
    split; [done|]. unfold tr_select. cbn [tx_kv]. by rewrite (selection_after _ j) by done.
Qed.

Lemma edgePage_eq o n i cursor : cursor_at o n i cursor -> let done := length (drop i (parent_edges s o n)) <=? 100 in
  edgePage (relationshipPrefixBySource o n RelChildOf) cursor maxDependentPage (mkTx s []) =
  Ok (mkTx s [], mkPage (omap target_of (page_items o n i))
    (if done then EmptyString else match last (page_items o n i) with Some item => key_text item.1 | None => EmptyString end) done).
Proof.
  intros Hc done. destruct (tr_select_at o n i cursor Hc) as (begin & Hd & Hsel). unfold edgePage.
  change ((maxDependentPage <? 1)%Z || (maxRelationshipPage <? maxDependentPage)%Z) with false. cbv iota.
  erewrite tx_bind_eq by (unfold lift; by rewrite Hd). erewrite tx_bind_eq by apply Hsel. cbv zeta.
  change (Z.to_nat maxDependentPage) with 100. change (100 + 1) with 101. rewrite length_take.
  assert ((101 `min` length (drop i (parent_edges s o n)) <=? 100) = done) as ->.
  { unfold done. destruct (Nat.leb_spec (length (drop i (parent_edges s o n))) 100); [apply Nat.leb_le|apply Nat.leb_gt]; lia. }
  assert ((if done then take 101 (drop i (parent_edges s o n)) else take 100 (take 101 (drop i (parent_edges s o n)))) =
    page_items o n i) as ->.
  { unfold done, page_items. destruct (Nat.leb_spec (length (drop i (parent_edges s o n))) 100).
    - rewrite !take_ge by lia. done.
    - by rewrite take_take. }
  erewrite tx_bind_eq; [done|]. unfold lift. rewrite (parent_items o n); [done|].
  intros item Hi. eapply subseteq_drop, subseteq_take. exact Hi.
Qed.

(** Reading every page reads every edge. *)
Lemma childOfs_pages_eq fuel o n i cursor targets t :
  cursor_at o n i cursor -> length (drop i (parent_edges s o n)) < fuel ->
  exists t', childOfs_pages (PR := store_readers (fun _ => s)) fuel (mkOrgNode o n) targets cursor t =
    Ok (t', targets ++ omap target_of (drop i (parent_edges s o n))).
Proof.
  revert i cursor targets t. induction fuel as [|fuel IH]; intros i cursor targets t Hc Hf; [lia|]. cbn [childOfs_pages].
  cbv [mbind rd_bind]. cbn [EdgesFrom store_readers on_OrgID on_NodeID]. unfold read_txn, RelationshipStore_EdgesFrom.
  rewrite (edgePage_eq o n i) by done. cbn [ip_IDs ip_Done ip_NextCursor].
  destruct (Nat.leb_spec (length (drop i (parent_edges s o n))) 100) as [Hd|Hd].
  - exists (S t). unfold page_items. by rewrite take_ge.
  - destruct (last (page_items o n i)) as [y|] eqn:Hl.
    2: { apply last_None in Hl. apply (f_equal length) in Hl. unfold page_items in Hl. rewrite length_take in Hl. cbn [length] in Hl. assert (100 <= 100 `min` length (drop i (parent_edges s o n))) by lia. rewrite Hl in *. lia. }
    destruct (IH (i + 100) (key_text y.1) (targets ++ omap target_of (page_items o n i)) (S t)) as [t' E].
    + assert (length (page_items o n i) = 100) as Hlen by (unfold page_items; rewrite length_take; lia).
      rewrite last_lookup, Hlen in Hl. right. exists (i + 99), y. split; [lia|split; [|done]].
      unfold page_items in Hl. change (Nat.pred 100) with 99 in Hl. rewrite lookup_take, decide_True in Hl by lia.
      by rewrite lookup_drop in Hl.
    + rewrite length_drop in *. lia.
    + exists t'. rewrite E, <-app_assoc. do 3 f_equal. unfold page_items. rewrite <-omap_app. f_equal.
      rewrite <-(drop_drop _ 100 i). apply take_drop.
Qed.

Lemma childOfs_eq fuel o n t : length (parent_edges s o n) < fuel ->
  exists t', childOfs (PR := store_readers (fun _ => s)) fuel (mkOrgNode o n) t = Ok (t', parent_targets s o n).
Proof.
  intros Hf. unfold childOfs. destruct (childOfs_pages_eq fuel o n 0 EmptyString [] t) as [t' E]; [by left|done|].
  exists t'. rewrite E. done.
Qed.

(** ** Indexing: a transaction for each read *)

(** The types read so far are those of the store. *)
Definition kinds_ok (o : uuid) (kinds : gmap string (option NodeType)) : Prop :=
  forall typeKey kind, kinds !! typeKey = Some kind -> kind = type_of s o typeKey.

Lemma typeByKey_eq o typeKey kinds t : Q o -> kinds_ok o kinds ->
  exists t' kinds', typeByKey (PR := store_readers (fun _ => s)) o typeKey kinds t = Ok (t', (type_of s o typeKey, kinds')) /\ kinds_ok o kinds'.
Proof.
  intros Ho Hk. unfold typeByKey. destruct (kinds !! typeKey) as [kind|] eqn:E.
  - exists t, kinds. rewrite <-(Hk _ _ E). done.
  - exists (S t), (<[typeKey := type_of s o typeKey]> kinds). cbv [mbind rd_bind]. cbn [TypeByKey store_readers]. unfold read_txn.
    rewrite nodeTypeByKey_eq by done. split; [done|]. intros key kind [[<- <-]|[_ ?]]%lookup_insert_Some; auto.
Qed.

Lemma compilerAncestor_eq fuel k kinds t :
  Q (on_OrgID k) -> kinds_ok (on_OrgID k) kinds -> length (parent_edges s (on_OrgID k) (on_NodeID k)) < fuel ->
  exists t' kinds', compilerAncestor (PR := store_readers (fun _ => s)) fuel k kinds t = Ok (t', (store_state s k, kinds')) /\
    kinds_ok (on_OrgID k) kinds'.
Proof.
  destruct k as [o n]. cbn [on_OrgID on_NodeID]. intros Ho Hk Hf. unfold compilerAncestor, store_state. cbn [on_OrgID on_NodeID].
  cbv [mbind rd_bind]. cbn [ViewGet store_readers]. unfold read_txn at 1. rewrite ViewStore_Get_eq.
  destruct (view_of s n) as [v|] eqn:Ev; [|by eexists _, _].
  case_bool_decide as Hv; cbn [negb]; [rewrite decide_True by done|rewrite decide_False by done; by eexists _, _].
  destruct (typeByKey_eq o (v_NodeType v) kinds (S t) Ho Hk) as (t1 & kinds' & -> & Hk').
  destruct (type_of s o (v_NodeType v)) as [kind|]; [|by eexists _, _]. unfold entry_type.
  destruct (Features_Has (nt_Features kind) FeatureIsEntryPoint); [by eexists _, _|].
  destruct (childOfs_eq fuel o n t1 Hf) as [t2 ->]. by eexists _, _.
Qed.

Lemma compilerAncestors_eq fuel o nodes kinds states t :
  Q o -> (forall k, k ∈ nodes -> on_OrgID k = o) -> kinds_ok o kinds ->
  (forall n, length (parent_edges s o n) < fuel) ->
  exists t' m, compilerAncestors (PR := store_readers (fun _ => s)) fuel nodes kinds states t = Ok (t', m) /\
    forall k, m !! k = if decide (k ∈ nodes) then Some (store_state s k) else states !! k.
Proof.
  intros Ho. revert kinds states t. induction nodes as [|k nodes IH]; intros kinds states t Hn Hk Hf; cbn [compilerAncestors].
  { exists t, states. split; [done|]. intros k. by rewrite decide_False by set_solver. }
  assert (on_OrgID k = o) as Hko by (apply Hn; left).
  destruct (compilerAncestor_eq fuel k kinds t) as (t1 & kinds' & E & Hk'); [by rewrite Hko..|rewrite Hko; apply Hf|].
  cbv [mbind rd_bind]. rewrite E. rewrite Hko in Hk'.
  destruct (IH kinds' (<[k := store_state s k]> states) t1) as (t2 & m & E2 & Hm); [intros ??; apply Hn; by right|done|done|].
  exists t2, m. split; [done|]. intros x. rewrite Hm. destruct (decide (x ∈ nodes)); [by rewrite decide_True by set_solver|].
  destruct (decide (x = k)) as [->|]; [by rewrite lookup_insert_eq, decide_True by set_solver|].
  by rewrite lookup_insert_ne, decide_False by set_solver.
Qed.

(** One compilation reads one organization. *)
Lemma compiler_steady fuel o : Q o -> (forall n, length (parent_edges s o n) < fuel) ->
  steady (HR := compilerHierarchy (PR := store_readers (fun _ => s)) fuel) (eq o) (fun _ => True) (store_state s).
Proof.
  intros Ho Hf ks t Hq _. destruct (compilerAncestors_eq fuel o ks ∅ ∅ t) as (t' & m & E & Hm); [done| |by intros ?? ?|done|].
  { intros k Hk. symmetry. by apply Hq. }
  exists t', m. split; [done|]. split; [done|]. intros k Hk. by rewrite Hm, decide_True.
Qed.

(** ** Result pages: one transaction *)

Lemma mapM_tx_eq {A B} (f : A -> tx B) (g : A -> B) l :
  (forall a, a ∈ l -> f a (mkTx s []) = Ok (mkTx s [], g a)) -> mapM_tx f l (mkTx s []) = Ok (mkTx s [], g <$> l).
Proof.
  induction l as [|a l IH]; intros H; [done|]. cbn [mapM_tx]. erewrite tx_bind_eq by (apply H; left).
  erewrite tx_bind_eq; [done|]. apply IH. intros b Hb. apply H. by right.
Qed.

Lemma readSummaryViews_eq ids : readSummaryViews ids (mkTx s []) = Ok (mkTx s [], view_of s <$> ids).
Proof.
  unfold readSummaryViews. erewrite tx_bind_eq by (apply (mapM_tx_eq _ (resolve_of s)); intros id _; apply getResolve_eq).
  rewrite (mapM_tx_eq _ (fun p => view_of s p.1)).
  - do 2 f_equal. clear. induction ids as [|id ids IH]; [done|]. csimpl. by rewrite IH.
  - intros [id r] Hin. cbn [fst]. assert (r = resolve_of s id) as ->; [|apply getView_eq].
    clear -Hin. induction ids as [|x ids IH]; [by apply not_elem_of_nil in Hin|]. csimpl in *.
    apply elem_of_cons in Hin as [[= -> ->]|]; [done|auto].
Qed.

(** The state before the edges are read, and after. *)
Definition bare_state (k : OrgNode) : AncestorState :=
  match view_of s (on_NodeID k) with
  | None => zero_ancestor
  | Some v =>
      if decide (v_OrgID v = on_OrgID k)
      then mkAncestor true (v_OrgID v) (v_NodeType v) (type_of s (on_OrgID k) (v_NodeType v)) []
      else mkAncestor true (v_OrgID v) EmptyString None []
  end.

Definition with_targets (k : OrgNode) (state : AncestorState) : AncestorState :=
  mkAncestor (as_Exists state) (as_OrgID state) (as_TypeKey state) (as_Type state) (parent_targets s (on_OrgID k) (on_NodeID k)).

Lemma store_state_eq k : store_state s k = if reads_edges (bare_state k) then with_targets k (bare_state k) else bare_state k.
Proof.
  unfold store_state, bare_state. destruct (view_of s (on_NodeID k)) as [v|]; [|done]. case_decide; [|done].
  unfold reads_edges, with_targets. cbn [as_Type as_Exists as_OrgID as_TypeKey].
  destruct (type_of s (on_OrgID k) (v_NodeType v)) as [t|]; [|done]. unfold entry_type. by case_match.
Qed.

Lemma reads_edges_store k : reads_edges (store_state s k) = reads_edges (bare_state k).
Proof. rewrite store_state_eq. destruct (reads_edges (bare_state k)) eqn:E; done. Qed.

Definition cache_ok (kinds : gmap (uuid * string) (option NodeType)) : Prop :=
  forall o typeKey kind, kinds !! (o, typeKey) = Some kind -> kind = type_of s o typeKey.

Lemma summaryType_eq o typeKey kinds : Q o -> cache_ok kinds ->
  exists kinds', summaryType o typeKey kinds (mkTx s []) = Ok (mkTx s [], (type_of s o typeKey, kinds')) /\ cache_ok kinds'.
Proof.
  intros Ho Hk. unfold summaryType. destruct (kinds !! (o, typeKey)) as [kind|] eqn:E.
  - exists kinds. rewrite <-(Hk _ _ _ E). done.
  - exists (<[(o, typeKey) := type_of s o typeKey]> kinds). erewrite tx_bind_eq by (by apply nodeTypeByKey_eq).
    split; [done|]. intros o' key kind [[[= <- <-] <-]|[_ ?]]%lookup_insert_Some; [done|by apply Hk].
Qed.

Lemma summaryStates_eq nodes kinds states :
  asked Q nodes -> cache_ok kinds ->
  exists kinds' m, summaryStates ((fun k => (k, view_of s (on_NodeID k))) <$> nodes) kinds states (mkTx s []) =
      Ok (mkTx s [], (m, kinds')) /\ cache_ok kinds' /\
    forall k, m !! k = if decide (k ∈ nodes) then Some (bare_state k) else states !! k.
Proof.
  revert kinds states. induction nodes as [|k nodes IH]; intros kinds states Hq Hk; rewrite ?fmap_nil, ?fmap_cons; cbn [summaryStates].
  { exists kinds, states. split; [done|]. split; [done|]. intros k. by rewrite decide_False by set_solver. }
  assert (exists kinds', summaryState k (view_of s (on_NodeID k)) kinds (mkTx s []) = Ok (mkTx s [], (bare_state k, kinds')) /\ cache_ok kinds')
    as (kinds' & E & Hk').
  { unfold summaryState, bare_state. destruct (view_of s (on_NodeID k)) as [v|]; [|by eexists].
    case_bool_decide as Hv; cbn [negb]; [rewrite decide_True by done|rewrite decide_False by done; by eexists].
    destruct (summaryType_eq (on_OrgID k) (v_NodeType v) kinds) as (kinds' & E & Hk'); [apply Hq; left|done|].
    exists kinds'. by erewrite tx_bind_eq by apply E. }
  erewrite tx_bind_eq by apply E. cbv beta iota.
  destruct (IH kinds' (<[k := bare_state k]> states)) as (kinds2 & m & E2 & Hk2 & Hm); [intros x Hx; apply Hq; by right|done|].
  exists kinds2, m. split; [done|]. split; [done|]. intros x. rewrite Hm.
  destruct (decide (x ∈ nodes)); [by rewrite decide_True by set_solver|].
  destruct (decide (x = k)) as [->|]; [by rewrite lookup_insert_eq, decide_True by set_solver|].
  by rewrite lookup_insert_ne, decide_False by set_solver.
Qed.

Lemma summaryEdges_eq nodes states :
  (forall k, k ∈ nodes -> states !! k = Some (bare_state k) \/ states !! k = Some (store_state s k)) ->
  exists m, summaryEdges nodes states (mkTx s []) = Ok (mkTx s [], m) /\
    forall k, m !! k = if decide (k ∈ nodes) then Some (store_state s k) else states !! k.
Proof.
  revert states. induction nodes as [|k nodes IH]; intros states H; cbn [summaryEdges].
  { exists states. split; [done|]. intros k. by rewrite decide_False by set_solver. }
  assert (exists st, states !! k = Some st /\ reads_edges st = reads_edges (bare_state k) /\ with_targets k st = with_targets k (bare_state k) /\
    (reads_edges (bare_state k) = false -> st = store_state s k)) as (st & -> & Hre & Hwt & Hst).
  { destruct (H k) as [E|E]; [left|..]; eexists; (split; [exact E|]).
    - split; [done|]. split; [done|]. intros Hr. by rewrite store_state_eq, Hr.
    - split; [apply reads_edges_store|]. split; [|done]. rewrite store_state_eq. by destruct (reads_edges (bare_state k)). }
  rewrite Hre. destruct (reads_edges (bare_state k)) eqn:Er.
  - erewrite tx_bind_eq by done. cbn [tx_kv].
    erewrite tx_bind_eq by (unfold lift; rewrite (parent_items (on_OrgID k) (on_NodeID k)); [done|done]).
    change (mkAncestor (as_Exists st) (as_OrgID st) (as_TypeKey st) (as_Type st) _) with (with_targets k st).
    assert (with_targets k st = store_state s k) as -> by (by rewrite Hwt, store_state_eq, Er).
    destruct (IH (<[k := store_state s k]> states)) as (m & E & Hm).
    { intros x Hx. destruct (decide (x = k)) as [->|]; [right; by rewrite lookup_insert_eq|]. rewrite lookup_insert_ne by done. apply H. by right. }
    exists m. split; [done|]. intros x. rewrite Hm. destruct (decide (x ∈ nodes)); [by rewrite decide_True by set_solver|].
    destruct (decide (x = k)) as [->|]; [by rewrite lookup_insert_eq, decide_True by set_solver|].
    by rewrite lookup_insert_ne, decide_False by set_solver.
  - destruct (IH states) as (m & E & Hm); [intros x Hx; apply H; by right|]. exists m. split; [done|].
    intros x. rewrite Hm. destruct (decide (x ∈ nodes)); [by rewrite decide_True by set_solver|].
    destruct (decide (x = k)) as [->|]; [rewrite decide_True by set_solver|by rewrite decide_False by set_solver].
    destruct (H k) as [E'|E']; [left|..]; rewrite E'; [|done]. by rewrite store_state_eq, Er.
Qed.

(** A batch may name any organization whose types can be read. *)
Lemma summary_steady : steady (HR := summaryHierarchy) Q (fun w => w.1 = mkTx s [] /\ cache_ok w.2) (store_state s).
Proof.
  intros ks [st kinds] Hq [Hst Hk]. cbn in Hst, Hk. subst st. unfold Ancestors, summaryHierarchy.
  destruct (summaryStates_eq ks kinds ∅ Hq Hk) as (kinds' & m & E & Hk' & Hm).
  destruct (summaryEdges_eq ks m) as (m' & E' & Hm'); [intros k Hin; left; by rewrite Hm, decide_True|].
  exists (mkTx s [], kinds'), m'. split; [|split; [done|intros k Hin; by rewrite Hm', decide_True]].
  unfold summaryAncestors. erewrite tx_bind_eq by apply readSummaryViews_eq.
  assert (zip ks (view_of s <$> (on_NodeID <$> ks)) = (fun k => (k, view_of s (on_NodeID k))) <$> ks) as ->.
  { clear. induction ks as [|k ks IH]; [done|]. csimpl. by rewrite IH. }
  erewrite tx_bind_eq by apply E. cbv beta iota. erewrite tx_bind_eq by apply E'. done.
Qed.

End readers_spec.
