(* ===== verification/AccessSpec.v ===== *)
(** * Correctness of the access policies

    - filters: binary search is membership on a valid filter;
    - keys: a key determines its version, organization and entry point,
      up to a collision of SHA-256;
    - the walk: [EntryPoints] refines the relation [entry_point], for any
      reader, and ends within a bound given by the nodes that exist;
    - readers: on a store that does not change, indexing (a transaction for
      each read, edges page by page) and the summary of a result page (one
      transaction) read the same hierarchy;
    - decisions: a page is returned to a caller exactly when its node is in
      the caller's organization under the requested entry point. *)

From S2P Require Import Prelude GoJson Sha256 Bytes Base64 Float64 Canonical Domain Store Tx Keys Records MutationRead Mutation SearchAccess SearchReaders HierarchySpec ReadersSpec.
From Stdlib Require Import Ascii.

(** ** Sorted lists of strings *)

Lemma is_sorted_spec l : is_sorted l = true <-> Sorted String.le l.
Proof.
  induction l as [|x [|y l] IH]; [split; [intros _; constructor|done]|split; [intros _; by repeat constructor|done]|].
  cbn [is_sorted]. rewrite andb_true_iff, bool_decide_eq_true, IH. split.
  - intros [Hxy Hl]. constructor; [done|by constructor].
  - intros H. inversion_clear H as [|? ? Hl Hx]. inversion_clear Hx. done.
Qed.

Lemma sorted_strong l : is_sorted l = true -> StronglySorted String.le l.
Proof. rewrite is_sorted_spec. apply Sorted_StronglySorted, _. Qed.

Lemma sorted_sort l : is_sorted (sort_strings l) = true.
Proof. apply is_sorted_spec, Sorted_merge_sort, _. Qed.

Lemma elem_of_sort l x : x ∈ sort_strings l <-> x ∈ l.
Proof. unfold sort_strings. by rewrite (merge_sort_Permutation String.le l). Qed.

Lemma elem_of_compact l x : x ∈ compact l <-> x ∈ l.
Proof.
  induction l as [|a [|b l] IH]; [done..|]. cbn [compact]. case_decide as E.
  - subst. rewrite IH. set_solver.
  - set_solver.
Qed.

Lemma StronglySorted_lookup l i j x y :
  StronglySorted String.le l -> l !! i = Some x -> l !! j = Some y -> i <= j -> String.le x y.
Proof.
  intros Hl. revert i j. induction Hl as [|a l Hl IH Ha]; intros i j Hi Hj Hij; [done|].
  destruct i as [|i], j as [|j]; simplify_eq/=; [done| |lia|apply (IH i j); [done..|lia]].
  apply list_elem_of_lookup_2 in Hj. rewrite Forall_forall in Ha. auto.
Qed.

Lemma binary_search_spec l target fuel i j :
  StronglySorted String.le l -> i <= j <= length l -> j - i <= fuel ->
  (forall k x, k < i -> l !! k = Some x -> ~ String.le target x) ->
  (forall k x, j <= k -> l !! k = Some x -> String.le target x) ->
  let r := binary_search_loop fuel l target i j in
  (forall k x, k < r -> l !! k = Some x -> ~ String.le target x) /\
  (forall k x, r <= k -> l !! k = Some x -> String.le target x).
Proof.
  intros Hl. revert i j. induction fuel as [|fuel IH]; intros i j Hij Hf Hlo Hhi; cbn [binary_search_loop].
  { assert (i = j) as -> by lia. done. }
  destruct (Nat.ltb_spec i j) as [Hlt|Hge]; [|assert (i = j) as -> by lia; done].
  assert (i <= (i + j) / 2 < j) as Hm by (split; [apply Nat.div_le_lower_bound|apply Nat.Div0.div_lt_upper_bound]; lia).
  set (h := (i + j) / 2) in *. destruct (lookup_lt_is_Some_2 l h) as [x Hx]; [lia|]. rewrite Hx.
  case_bool_decide as Hle.
  - apply IH; [lia|lia|done|]. intros k y Hk Hy. transitivity x; [done|].
    eapply StronglySorted_lookup; eauto.
  - apply IH; [lia|lia| |done]. intros k y Hk Hy Hty. apply Hle. transitivity y; [done|].
    eapply (StronglySorted_lookup l k h); eauto. lia.
Qed.

Lemma BinarySearch_found l target : is_sorted l = true -> (BinarySearch l target).2 = true <-> target ∈ l.
Proof.
  intros Hl%sorted_strong. unfold BinarySearch. cbn [snd]. rewrite bool_decide_eq_true.
  destruct (binary_search_spec l target (length l) 0 (length l)) as [Hlo Hhi]; [done|lia|lia|lia|..].
  { intros k x Hk Hx%lookup_lt_Some. lia. }
  set (r := binary_search_loop _ _ _ _ _) in *. split; [apply list_elem_of_lookup_2|].
  intros [k Hk]%list_elem_of_lookup_1. destruct (decide (r <= k)) as [Hrk|Hrk].
  - destruct (lookup_lt_is_Some_2 l r) as [x Hx]; [apply lookup_lt_Some in Hk; lia|]. rewrite Hx. f_equal.
    apply (anti_symm String.le); [by eapply StronglySorted_lookup|by apply (Hhi r); [lia|]].
  - exfalso. apply (Hlo k target); [lia|done|reflexivity].
Qed.

Lemma permits_spec f keys : is_sorted (af_Keys f) = true -> Permits f keys = true <-> exists k, k ∈ keys /\ k ∈ af_Keys f.
Proof.
  intros Hf. unfold Permits. rewrite existsb_exists. split; intros (k & Hk & Hm); exists k.
  - by rewrite list_elem_of_In, <-BinarySearch_found.
  - by rewrite <-list_elem_of_In, BinarySearch_found.
Qed.

(** ** Keys *)

Definition grant_message (version : string) (orgID entryPointID : uuid) : string :=
  bytes_text (key_message version [uuid_bytes orgID; uuid_bytes entryPointID]).

Lemma EncodeKey_grant version o e :
  GrantKey version o e =
  if bool_decide (version = EmptyString) then Err ErrOther
  else Ok (version +:+ ":" +:+ raw_url_encode (be_bytes 32 (sha256 (grant_message version o e)))).
Proof. unfold GrantKey, EncodeKey. by case_bool_decide. Qed.

Lemma digest_text_length n : String.length (raw_url_encode (be_bytes 32 n)) = 43.
Proof. done. Qed.

Lemma key_message_small version parts :
  Forall (Forall (fun b => (b < 256)%N)) parts -> Forall (fun b => (b < 256)%N) (key_message version parts).
Proof.
  unfold key_message. assert (Forall (fun b => (b < 256)%N) (appendPart [] (string_bytes version))) as Hv.
  { unfold appendPart. rewrite !Forall_app. split; [constructor|split; [apply be_bytes_small|apply string_bytes_small]]. }
  revert Hv. generalize (appendPart [] (string_bytes version)) as m. induction parts as [|p parts IH]; intros m Hm H; [done|].
  apply Forall_cons in H as [Hp H]. cbn [foldl]. apply IH; [|done]. unfold appendPart. rewrite !Forall_app.
  repeat split; [done|apply be_bytes_small|done].
Qed.

Lemma uuid_bytes_inj a b : (a < 2 ^ 128)%N -> (b < 2 ^ 128)%N -> uuid_bytes a = uuid_bytes b -> a = b.
Proof. intros Ha Hb H%be_bytes_mod. by rewrite !N.mod_small in H. Qed.

Lemma grant_message_inj version o1 e1 o2 e2 :
  (o1 < 2 ^ 128)%N -> (e1 < 2 ^ 128)%N -> (o2 < 2 ^ 128)%N -> (e2 < 2 ^ 128)%N ->
  grant_message version o1 e1 = grant_message version o2 e2 -> o1 = o2 /\ e1 = e2.
Proof.
  intros ???? H. apply bytes_text_inj in H;
    [|apply key_message_small; constructor; [apply be_bytes_small|constructor; [apply be_bytes_small|constructor]]..].
  unfold key_message in H. cbn [foldl] in H. unfold appendPart in H. rewrite <-!app_assoc in H.
  apply app_inj_1 in H as [_ H]; [|done]. apply app_inj_1 in H as [_ H]; [|done].
  apply app_inj_1 in H as [_ H]; [|done]. apply app_inj_1 in H as [_ H]; [|done].
  apply app_inj_1 in H as [Ho H]; [|done]. apply app_inj_1 in H as [_ He]; [|done].
  split; by apply uuid_bytes_inj.
Qed.

Lemma Ok_inj {A} (a b : A) : Ok a = Ok b -> a = b.
Proof. by intros [=]. Qed.

Lemma keyed_split (v1 v2 t1 t2 : string) :
  String.length t1 = String.length t2 -> v1 +:+ ":" +:+ t1 = v2 +:+ ":" +:+ t2 -> v1 = v2 /\ t1 = t2.
Proof.
  intros Hl E. apply string_app_split_r in E as [-> E]; [|rewrite !string_length_app; lia]. split; [done|].
  by apply (string_app_split ":" ":") in E as [_ E].
Qed.

Lemma digest_text_inj w n m :
  raw_url_encode (be_bytes w n) = raw_url_encode (be_bytes w m) -> be_bytes w n = be_bytes w m.
Proof. apply raw_url_encode_inj; apply be_bytes_small. Qed.

(** A key fixes its grant. *)
Lemma GrantKey_inj v1 o1 e1 v2 o2 e2 k :
  (o1 < 2 ^ 128)%N -> (e1 < 2 ^ 128)%N -> (o2 < 2 ^ 128)%N -> (e2 < 2 ^ 128)%N ->
  collision_free [grant_message v1 o1 e1; grant_message v2 o2 e2] ->
  GrantKey v1 o1 e1 = Ok k -> GrantKey v2 o2 e2 = Ok k -> v1 = v2 /\ o1 = o2 /\ e1 = e2.
Proof.
  intros ???? Hfree. rewrite !EncodeKey_grant. do 2 (case_bool_decide; [done|]). intros E1 E2.
  rewrite <-E2 in E1. clear E2. apply Ok_inj in E1 as E.
  apply keyed_split in E as [-> E]; [|by rewrite !digest_text_length].
  apply digest_text_inj in E. split; [done|]. apply grant_message_inj with v2; [done..|].
  apply Hfree; [left|right; left|]. unfold sha256_sum. by rewrite E.
Qed.

Lemma GrantKey_ok v o e k : GrantKey v o e = Ok k -> v <> EmptyString /\ String.length k = String.length v + 44.
Proof.
  rewrite EncodeKey_grant. case_bool_decide; [done|]. intros <-%Ok_inj. split; [done|].
  rewrite !string_length_app, digest_text_length. cbn. lia.
Qed.

(** ** Decisions *)

(** The keys a resource carries for its grant under some versions. *)
Definition grants (versions keys : list string) (o e : uuid) : Prop :=
  forall k, k ∈ keys <-> exists v, v ∈ versions /\ GrantKey v o e = Ok k.

(** The messages hashed for a caller and for a resource. *)
Definition decision_messages (version : string) (a e : uuid) (versions : list string) (o e' : uuid) : list string :=
  grant_message version a e :: ((fun v => grant_message v o e') <$> versions).

Definition wide (id : uuid) : Prop := (id < 2 ^ 128)%N.

Lemma grants_compact versions keys o e :
  Forall2 (fun v k => GrantKey v o e = Ok k) versions keys -> grants versions (compact (sort_strings keys)) o e.
Proof.
  intros H k. rewrite elem_of_compact, elem_of_sort. split.
  - intros Hk. apply list_elem_of_lookup_1 in Hk as [i Hi].
    destruct (Forall2_lookup_r _ _ _ _ _ H Hi) as (v & Hv & Hg). exists v. split; [by eapply list_elem_of_lookup_2|done].
  - intros (v & Hv & Hg). apply list_elem_of_lookup_1 in Hv as [i Hi].
    destruct (Forall2_lookup_l _ _ _ _ _ H Hi) as (k' & Hk & Hg'). rewrite Hg in Hg'. injection Hg' as ->.
    by eapply list_elem_of_lookup_2.
Qed.

(** The caller's key is among the keys of a resource exactly when both name
    one organization and one entry point. *)
Lemma permits_grant version a e kq versions keys o e' :
  wide a -> wide e -> wide o -> wide e' ->
  collision_free (decision_messages version a e versions o e') ->
  GrantKey version a e = Ok kq -> version ∈ versions -> grants versions keys o e' ->
  Permits (mkFilter version [kq]) keys = true <-> o = a /\ e' = e.
Proof.
  intros Ha He Ho He' Hfree Hq Hv Hg. rewrite permits_spec by done. cbn [af_Keys]. split.
  - intros (k & Hk & ->%list_elem_of_singleton). apply Hg in Hk as (v & Hin & Hk).
    assert (collision_free [grant_message v o e'; grant_message version a e]) as Hfree'.
    { eapply collision_free_mono; [|exact Hfree]. intros m. unfold decision_messages. rewrite !elem_of_cons, list_elem_of_fmap.
      intros [->|[->|H]]; [right; by exists v|by left|by apply not_elem_of_nil in H]. }
    by destruct (GrantKey_inj _ _ _ _ _ _ _ Ho He' Ha He Hfree' Hk Hq) as (_ & -> & ->).
  - intros [-> ->]. exists kq. split; [|by left]. apply Hg. by exists version.
Qed.

(** *** The registered versions *)

Definition registered : list string := [StableVersion; RotatedVersion].

Section policies.
Context {W : Type} `{PR : !PolicyReaders W}.

Lemma policy_lookup fuel v : NewPolicySet (PR := PR) fuel !! v =
  if decide (v ∈ registered) then Some (NewOrgScopeCompiler fuel v) else None.
Proof.
  unfold NewPolicySet, registered. cbn [foldl]. destruct (decide (v = RotatedVersion)) as [->|Hr].
  { by rewrite lookup_insert_eq. }
  rewrite lookup_insert_ne by done. destruct (decide (v = StableVersion)) as [->|Hs]; [by rewrite lookup_insert_eq|].
  rewrite lookup_insert_ne, lookup_empty by done. rewrite decide_False; [done|]. set_solver.
Qed.

Lemma GrantKey_registered v o e : v ∈ registered -> exists k, GrantKey v o e = Ok k.
Proof.
  rewrite EncodeKey_grant. intros Hv. rewrite bool_decide_false; [by eexists|]. intros ->.
  apply elem_of_cons in Hv as [Hv|[Hv|Hv]%elem_of_cons]; [done|done|by apply not_elem_of_nil in Hv].
Qed.

Lemma resourceKeys_grants fuel o e :
  exists keys, resourceKeys (NewPolicySet (PR := PR) fuel) o e = Ok keys /\ grants registered keys o e.
Proof.
  unfold resourceKeys. set (versions := sort_strings _).
  assert (forall v, v ∈ versions <-> v ∈ registered) as Hvs.
  { intros v. unfold versions. rewrite elem_of_sort, list_elem_of_fmap. split.
    - intros ([v' c] & -> & Hin%elem_of_map_to_list). rewrite policy_lookup in Hin. by case_decide.
    - intros Hv. exists (v, NewOrgScopeCompiler fuel v). split; [done|]. by rewrite elem_of_map_to_list, policy_lookup, decide_True. }
  set (f := fun version => match NewPolicySet fuel !! version with Some c => co_GrantKey c o e | None => Err ErrOther end).
  assert (forall v, v ∈ versions -> f v = GrantKey v o e) as Hf.
  { intros v Hv%Hvs. unfold f. by rewrite policy_lookup, decide_True. }
  assert (exists keys, Forall2 (fun v k => GrantKey v o e = Ok k) versions keys) as [keys Hk].
  { clearbody versions. clear -Hvs. assert (Forall (fun v => exists k, GrantKey v o e = Ok k) versions) as H.
    { apply Forall_forall. intros v Hv%Hvs. by apply GrantKey_registered. }
    clear Hvs. induction H as [|v vs [k Hk] _ [ks IH]]; [by exists []|]. exists (k :: ks). by constructor. }
  assert (res_mapM f versions = Ok keys) as ->.
  { apply res_mapM_ok. clear -Hk Hf. induction Hk as [|v k vs ks Hvk _ IH]; constructor; [rewrite Hf by left; done|].
    apply IH. intros x Hx. apply Hf. by right. }
  eexists. split; [done|]. intros k. rewrite (grants_compact _ _ _ _ Hk k). by setoid_rewrite Hvs.
Qed.

End policies.

(** *** A store at rest *)

Section store.
Context `{FDB : Fdb} `{GL : GoLib} `{KT : KeyText}.

(** The store can be read, the fuel covers its nodes and edges, and its
    identifiers are 16 bytes. *)
Record at_rest (s : kv) (fuel : nat) : Prop := {
  ar_readable : readable s (fun _ => True);
  ar_edges o n : length (parent_edges s o n) < fuel;
  ar_nodes : exists U : gset uuid, (forall id v, view_of s id = Some v -> id ∈ U) /\ size U < fuel;
  ar_wide id v : view_of s id = Some v -> wide id /\ wide (v_OrgID v);
}.

Context (s : kv) (fuel : nat) (Hs : at_rest s fuel).

#[local] Instance rest_readers : PolicyReaders nat := store_readers (fun _ => s).

(** The entry point of a node by the records of the store. *)
Definition entry_of (o n e : uuid) : Prop := entry_point (full (store_state s)) o n e.

Lemma store_state_exists k : as_Exists (store_state s k) = true -> exists v, view_of s (on_NodeID k) = Some v.
Proof. unfold store_state. destruct (view_of s (on_NodeID k)); [by eexists|done]. Qed.

Lemma entry_of_view o n e : entry_of o n e ->
  (exists v, view_of s n = Some v /\ v_OrgID v = o) /\ (exists v, view_of s e = Some v /\ v_OrgID v = o).
Proof.
  assert (forall m st kind, located (full (store_state s)) o m st kind -> exists v, view_of s m = Some v /\ v_OrgID v = o) as Hl.
  { intros m st kind ([= <-] & Hex & Ho & _). unfold store_state in *. cbn [on_OrgID on_NodeID] in *.
    destruct (view_of s m) as [v|]; [|done]. exists v. split; [done|]. by case_decide. }
  induction 1 as [n st kind H|n st kind H|n st kind p e H ? ? ? _ [_ IH]]; split; eauto.
Qed.

(** *** Callers *)

Definition caller_may (request : AccessRequest) : Prop :=
  aq_PrincipalID request <> uuid_nil /\ aq_EntryPointID request <> uuid_nil /\
  aq_AuthorityID request ∈ aq_MemberOrganizations request /\
  exists v kind, view_of s (aq_EntryPointID request) = Some v /\ v_OrgID v = aq_AuthorityID request /\
    aq_AuthorityID request <> uuid_nil /\
    type_of s (aq_AuthorityID request) (v_NodeType v) = Some kind /\ entry_type kind = true.

Lemma entry_authority_eq e t : exists t',
  OrgScope_EntryAuthority e t =
    match view_of s e with
    | Some v =>
        if nil (v_OrgID v) then Err ErrAccessDenied
        else match type_of s (v_OrgID v) (v_NodeType v) with
             | Some kind => if entry_type kind then Ok (t', v_OrgID v) else Err ErrAccessDenied
             | None => Err ErrAccessDenied
             end
    | None => Err ErrAccessDenied
    end.
Proof.
  exists (S (S t)). unfold OrgScope_EntryAuthority. cbv [mbind rd_bind]. cbn [ViewGet rest_readers store_readers]. unfold read_txn at 1.
  rewrite (ViewStore_Get_eq s _ (ar_readable _ _ Hs)). destruct (view_of s e) as [v|]; [|done].
  destruct (nil (v_OrgID v)); [done|]. cbn [TypeByKey rest_readers store_readers]. unfold read_txn.
  rewrite (nodeTypeByKey_eq s _ (ar_readable _ _ Hs)) by done. destruct (type_of s (v_OrgID v) (v_NodeType v)) as [kind|]; [|done].
  unfold entry_type. by destruct (Features_Has (nt_Features kind) FeatureIsEntryPoint).
Qed.

Lemma filter_ok v o e k : v ∈ registered -> GrantKey v o e = Ok k -> ValidateAccessFilter (mkFilter v [k]) = Ok tt.
Proof.
  intros Hv Hk. destruct (GrantKey_ok _ _ _ _ Hk) as [Hne Hlen]. unfold ValidateAccessFilter. cbn [af_Version af_Keys].
  assert (String.length v = 12) as Hl.
  { apply elem_of_cons in Hv as [->|[->|Hv]%elem_of_cons]; [done|done|by apply not_elem_of_nil in Hv]. }
  rewrite Hl in *. rewrite bool_decide_false by done. cbn. rewrite Hlen. cbn.
  rewrite bool_decide_false; [done|]. intros ->. done.
Qed.

Lemma query_eq request t :
  aq_Version request ∈ registered -> caller_may request ->
  exists t' k, GrantKey (aq_Version request) (aq_AuthorityID request) (aq_EntryPointID request) = Ok k /\
    PolicySet_Query (NewPolicySet fuel) request t = Ok (t', mkFilter (aq_Version request) [k]).
Proof.
  intros Hv (Hp & He & Hm & v & kind & Hview & Ho & Hnil & Ht & Hk).
  destruct (GrantKey_registered (aq_Version request) (aq_AuthorityID request) (aq_EntryPointID request) Hv) as [k Hg].
  destruct (entry_authority_eq (aq_EntryPointID request) t) as [t' Ea]. exists t', k. split; [done|].
  rewrite Hview, Ho in Ea. unfold nil in Ea. rewrite bool_decide_false in Ea by done. rewrite Ht, Hk in Ea.
  unfold PolicySet_Query, compiler. cbv [mbind rd_bind rd_lift]. rewrite policy_lookup, decide_True by done.
  cbn [co_Query NewOrgScopeCompiler]. unfold OrgScope_Query, nil. rewrite bool_decide_true by done.
  rewrite !bool_decide_false by done. cbn [negb orb]. cbv [mbind rd_bind]. rewrite Ea.
  rewrite !bool_decide_true by done. cbn [negb orb]. unfold GrantKey in Hg. unfold rd_lift. rewrite Hg.
  cbv [mret rd_ret]. change (compact (sort_strings [k])) with [k].
  by rewrite (filter_ok _ (aq_AuthorityID request) (aq_EntryPointID request)).
Qed.

Lemma query_denied request t :
  aq_Version request ∈ registered -> aq_PrincipalID request <> uuid_nil -> aq_EntryPointID request <> uuid_nil ->
  ~ caller_may request -> PolicySet_Query (NewPolicySet fuel) request t = Err ErrAccessDenied.
Proof.
  intros Hv Hp He Hno. destruct (entry_authority_eq (aq_EntryPointID request) t) as [t' Ea].
  unfold PolicySet_Query, compiler. cbv [mbind rd_bind rd_lift]. rewrite policy_lookup, decide_True by done.
  cbn [co_Query NewOrgScopeCompiler]. unfold OrgScope_Query, nil. rewrite bool_decide_true by done.
  rewrite !bool_decide_false by done. cbn [negb orb]. cbv [mbind rd_bind]. rewrite Ea.
  destruct (view_of s (aq_EntryPointID request)) as [v|] eqn:Hview; [|done].
  unfold nil. case_bool_decide as Hnil; [done|].
  destruct (type_of s (v_OrgID v) (v_NodeType v)) as [kind|] eqn:Ht; [|done]. destruct (entry_type kind) eqn:Hk; [|done].
  case_bool_decide as Ha; cbn [negb orb]; [|done]. case_bool_decide as Hm; cbn [negb]; [|done].
  destruct Hno. split; [done|]. split; [done|]. rewrite Ha in *. split; [done|]. by exists v, kind.
Qed.

Lemma query_ok request t t' f : PolicySet_Query (NewPolicySet fuel) request t = Ok (t', f) ->
  aq_Version request ∈ registered /\ caller_may request.
Proof.
  destruct (entry_authority_eq (aq_EntryPointID request) t) as [t1 Ea].
  unfold PolicySet_Query, compiler. cbv [mbind rd_bind rd_lift]. rewrite policy_lookup. destruct (decide _) as [Hv|]; [|done].
  cbn [co_Query NewOrgScopeCompiler]. unfold OrgScope_Query, nil. rewrite bool_decide_true by done. cbn [negb orb].
  case_bool_decide as Hp; [done|]. case_bool_decide as He; [done|]. cbn [orb]. cbv [mbind rd_bind]. rewrite Ea.
  destruct (view_of s (aq_EntryPointID request)) as [v|] eqn:Hview; [|done]. unfold nil. case_bool_decide as Hnil; [done|].
  destruct (type_of s (v_OrgID v) (v_NodeType v)) as [kind|] eqn:Ht; [|done]. destruct (entry_type kind) eqn:Hk; [|done].
  case_bool_decide as Ha; cbn [negb orb]; [|done]. case_bool_decide as Hm; cbn [negb]; [|done]. intros _.
  split; [done|]. split; [done|]. split; [done|]. rewrite Ha in *. split; [done|]. by exists v, kind.
Qed.

(** *** Resources *)

(** The access of a resource: its grants, or none without an entry point. *)
Definition access_ok (r : OrgNode) (acc : ResourceAccess) : Prop :=
  (exists e, entry_of (on_OrgID r) (on_NodeID r) e /\ ra_Defect acc = None /\ grants registered (ra_Keys acc) (on_OrgID r) e) \/
  ((forall e, ~ entry_of (on_OrgID r) (on_NodeID r) e) /\ ra_Keys acc = [] /\ is_Some (ra_Defect acc)).

Lemma addResources_ok entries defects resources accesses :
  (forall r, r ∈ resources ->
    (forall e, entries !! r = Some e <-> entry_of (on_OrgID r) (on_NodeID r) e) /\
    (is_Some (defects !! r) <-> forall e, ~ entry_of (on_OrgID r) (on_NodeID r) e)) ->
  (forall r, r ∈ resources -> is_Some (entries !! r) \/ is_Some (defects !! r)) ->
  exists accesses', res_foldl (addResourceAccess (NewPolicySet fuel) entries defects) accesses resources = Ok accesses' /\
    forall r, (r ∈ resources -> exists acc, accesses' !! r = Some acc /\ access_ok r acc) /\
      (~ r ∈ resources -> accesses' !! r = accesses !! r).
Proof.
  revert accesses. induction resources as [|r rs IH]; intros accesses H Hsome; cbn [res_foldl].
  { exists accesses. split; [done|]. intros r. split; [by intros ?%not_elem_of_nil|done]. }
  assert (exists acc, addResourceAccess (NewPolicySet fuel) entries defects accesses r = Ok (<[r := acc]> accesses) /\ access_ok r acc)
    as (acc & -> & Hacc).
  { destruct (H r) as [He Hd]; [left|]. unfold addResourceAccess. destruct (defects !! r) as [d|] eqn:Ed.
    - eexists. split; [done|]. right. split; [apply Hd; by eexists|]. split; [done|by eexists].
    - destruct (Hsome r) as [[e Ee]|[? ?]]; [left| |congruence]. rewrite Ee. cbn [default from_option id].
      destruct (resourceKeys_grants fuel (on_OrgID r) e) as (keys & Ek & Hg). cbv [mbind res_bind]. rewrite Ek.
      eexists. split; [done|]. left. exists e. split; [apply He; exact Ee|]. split; [reflexivity|exact Hg]. }
  destruct (IH (<[r := acc]> accesses)) as (accesses' & E & Hr);
    [intros x Hx; apply H; by right|intros x Hx; apply Hsome; by right|].
  exists accesses'. split; [done|]. intros x. destruct (Hr x) as [H1 H2]. split.
  - intros Hx. destruct (decide (x ∈ rs)) as [Hin|Hin]; [auto|]. apply elem_of_cons in Hx as [->|Hx]; [|done].
    exists acc. by rewrite H2, lookup_insert_eq.
  - intros [Hne Hx]%not_elem_of_cons. rewrite H2 by done. by apply lookup_insert_ne.
Qed.

Lemma entries_or_defects {W} `{HR : !HierarchyReader W} f resources w w' entries defects :
  EntryPoints f resources w = Ok (w', (entries, defects)) ->
  forall r, r ∈ resources -> is_Some (entries !! r) \/ is_Some (defects !! r).
Proof.
  intros E r Hr. destruct (EntryPoints_sound (fun _ _ => True) (fun _ => True) (fun _ => True) f resources w w' entries defects)
    as (_ & m & _ & H); [by intros ? ? ? ? ? ? ?|done|done|done|].
  destruct (H r Hr) as [(e & He & _)|(d & Hd & _)]; [left|right]; by eexists.
Qed.

(** The walk of a batch, and the bounds it needs. *)
Lemma batch_entries resources : exists w' entries defects,
  EntryPoints (HR := summaryHierarchy) fuel resources (mkTx s [], ∅) = Ok (w', (entries, defects)) /\ w'.1 = mkTx s [] /\
  (forall r, r ∈ resources ->
    (forall e, entries !! r = Some e <-> entry_of (on_OrgID r) (on_NodeID r) e) /\
    (is_Some (defects !! r) <-> forall e, ~ entry_of (on_OrgID r) (on_NodeID r) e)).
Proof.
  destruct (ar_nodes _ _ Hs) as (U & HU & Hsize).
  destruct (EntryPoints_steady (HR := summaryHierarchy) (fun _ => True) _ (store_state s) U fuel resources (mkTx s [], ∅)
    (summary_steady s _ (ar_readable _ _ Hs))) as (w' & entries & defects & E & [Hw _] & Hr); [done|by split| |done|].
  { intros k _ [v Hv]%store_state_exists. by eapply HU. }
  by exists w', entries, defects.
Qed.

Lemma batch_access resources : exists accesses,
  summaryKeys fuel (NewPolicySet fuel) resources (mkTx s []) = Ok (mkTx s [], accesses) /\
  forall r, r ∈ resources -> exists acc, accesses !! r = Some acc /\ access_ok r acc.
Proof.
  destruct (batch_entries resources) as (w' & entries & defects & E & Hw & Hr).
  destruct (addResources_ok entries defects resources ∅ Hr (entries_or_defects (HR := summaryHierarchy) _ _ _ _ _ _ E))
    as (accesses & Ea & Hacc).
  exists accesses. split; [|intros r Hin; by apply Hacc].
  unfold summaryKeys, BatchResourceKeys. cbv [mbind rd_bind]. rewrite E. unfold rd_lift. by rewrite Ea, Hw.
Qed.

(** *** Summaries *)

Lemma Summaries_eq ids maxName : length ids <= maxSummaryBatch -> (1 <= maxName)%Z -> exists accesses,
  Summaries fuel (NewPolicySet fuel) ids maxName (mkTx s []) =
    Ok (mkTx s [], (fun id => summaryResult maxName accesses (id, view_of s id)) <$> ids) /\
  forall id v, id ∈ ids -> view_of s id = Some v ->
    exists acc, accesses !! mkOrgNode (v_OrgID v) id = Some acc /\ access_ok (mkOrgNode (v_OrgID v) id) acc.
Proof.
  intros Hlen Hmax. unfold Summaries.
  assert ((maxSummaryBatch <? length ids) || (maxName <? 1)%Z = false) as ->
    by (apply orb_false_iff; split; [apply Nat.ltb_ge|apply Z.ltb_ge]; lia).
  set (resources := omap (fun id => match view_of s id with Some v => Some (mkOrgNode (v_OrgID v) id) | None => None end) ids).
  destruct (batch_access resources) as (accesses & E & Hacc). exists accesses. split.
  - erewrite tx_bind_eq by apply (readSummaryViews_eq s _ (ar_readable _ _ Hs)). cbv zeta.
    assert (zip ids (view_of s <$> ids) = (fun id => (id, view_of s id)) <$> ids) as ->.
    { clear. induction ids as [|id ids IH]; [done|]. csimpl. by rewrite IH. }
    assert (omap (fun '(nodeID, view) => match view with Some v => Some (mkOrgNode (v_OrgID v) nodeID) | None => None end)
      ((fun id => (id, view_of s id)) <$> ids) = resources) as ->.
    { unfold resources. clear. induction ids as [|id ids IH]; [done|]. csimpl. rewrite IH. done. }
    erewrite tx_bind_eq by apply E. unfold mret, tx_ret. by rewrite <-list_fmap_compose.
  - intros id v Hid Hv. apply Hacc. unfold resources. apply list_elem_of_omap. exists id. by rewrite Hv.
Qed.

(** A caller's filter and the access of a resource. *)
Lemma access_permits version a e kq r acc :
  version ∈ registered -> wide a -> wide e -> GrantKey version a e = Ok kq -> access_ok r acc ->
  (forall e', entry_of (on_OrgID r) (on_NodeID r) e' ->
     collision_free (decision_messages version a e registered (on_OrgID r) e')) ->
  Permits (mkFilter version [kq]) (ra_Keys acc) = true <-> on_OrgID r = a /\ entry_of (on_OrgID r) (on_NodeID r) e.
Proof.
  intros Hv Ha He Hg Hacc Hfree. destruct Hacc as [(e' & He' & _ & Hk)|(Hno & -> & _)].
  2: { split; [done|]. intros [_ H]. by destruct (Hno e). }
  destruct (entry_of_view _ _ _ He') as [_ (v & Hv' & Hov)]. destruct (ar_wide _ _ Hs _ _ Hv') as [Hw1 Hw2]. rewrite Hov in Hw2.
  rewrite (permits_grant version a e kq registered (ra_Keys acc) (on_OrgID r) e'); [|by auto..].
  split; intros [Eo H]; (split; [done|]); [by rewrite <-H|by eapply entry_point_fun].
Qed.

(** *** Indexing *)

Lemma entryPoint_eq o n t :
  (exists t' e, entryPoint fuel o n t = Ok (t', e) /\ entry_of o n e) \/
  ((forall e, ~ entry_of o n e) /\ entryPoint fuel o n t = Err ErrHierarchyDefect).
Proof.
  destruct (ar_nodes _ _ Hs) as (U & HU & Hsize).
  destruct (EntryPoints_steady (HR := compilerHierarchy fuel) (eq o) (fun _ => True) (store_state s) U fuel [mkOrgNode o n] t)
    as (t' & entries & defects & E & _ & Hr).
  - apply (compiler_steady s _ (ar_readable _ _ Hs)); [done|]. intros m. apply (ar_edges _ _ Hs).
  - by intros k ->%list_elem_of_singleton.
  - done.
  - intros k _ [v Hv]%store_state_exists. by eapply HU.
  - done.
  - destruct (Hr (mkOrgNode o n)) as [He Hd]; [by apply list_elem_of_singleton|]. cbn [on_OrgID on_NodeID] in *.
    unfold entryPoint. cbv [mbind rd_bind]. rewrite E.
    destruct (defects !! mkOrgNode o n) as [d|] eqn:Ed.
    + right. split; [apply Hd; by eexists|done].
    + left. destruct (entries_or_defects (HR := compilerHierarchy fuel) _ _ _ _ _ _ E (mkOrgNode o n)) as [[e Ee]|[? ?]];
        [by apply list_elem_of_singleton| |congruence].
      rewrite Ee. exists t', e. split; [done|]. by apply He.
Qed.

Lemma authority_eq n t : exists t',
  ResourceAuthority n t = match view_of s n with
                          | Some v => if nil (v_OrgID v) then Err ErrOther else Ok (t', v_OrgID v)
                          | None => Err ErrNotFound
                          end.
Proof.
  exists (S t). unfold ResourceAuthority. cbv [mbind rd_bind]. cbn [ViewResolve rest_readers store_readers]. unfold read_txn, ViewStore_Resolve.
  erewrite tx_bind_eq by apply (getResolve_eq s _ (ar_readable _ _ Hs)).
  pose proof (view_resolve s _ (ar_readable _ _ Hs) n) as Hvr.
  destruct (view_of s n) as [v|], (resolve_of s n) as [r|]; try done. cbn in Hvr. injection Hvr as ->. cbn.
  by destruct (nil (nr_OrgID r)).
Qed.

Lemma valid_single v k gen : v <> EmptyString -> k <> EmptyString -> (0 <= gen)%Z ->
  valid_access v (mkSearchAccess [v] [k] gen) = true.
Proof.
  intros Hv Hk Hg. assert (forall x : string, x <> EmptyString -> ~ EmptyString ∈ [x]) as Hn.
  { intros x Hx [?|?%not_elem_of_nil]%elem_of_cons; [congruence|done]. }
  unfold valid_access. cbn [ac_Versions ac_Keys ac_Generation is_sorted compact length Nat.eqb head].
  rewrite (bool_decide_false ([v] = [])), (bool_decide_false ([k] = [])), (bool_decide_false (EmptyString ∈ [v])),
    (bool_decide_false (EmptyString ∈ [k])), bool_decide_true by auto.
  by rewrite (proj2 (Z.ltb_ge _ _) Hg).
Qed.

Definition indexable (o n : uuid) (gen : Z) : Prop := o <> uuid_nil /\ n <> uuid_nil /\ (0 <= gen)%Z.

Lemma PolicySet_Index_eq version o n gen t : version ∈ registered -> indexable o n gen ->
  (exists t' e k, entry_of o n e /\ GrantKey version o e = Ok k /\
     PolicySet_Index (NewPolicySet fuel) (mkIndexRequest version o n gen) t = Ok (t', mkSearchAccess [version] [k] gen)) \/
  ((forall e, ~ entry_of o n e) /\ is_ok (PolicySet_Index (NewPolicySet fuel) (mkIndexRequest version o n gen) t) = false).
Proof.
  intros Hv (Ho & Hn & Hg). unfold PolicySet_Index, compiler. cbv [mbind rd_bind rd_lift]. rewrite policy_lookup, decide_True by done.
  cbn [co_Index NewOrgScopeCompiler ir_Version]. unfold OrgScope_Index. cbn [ir_Version ir_OrganizationID ir_ResourceID ir_Generation].
  assert (nil o = false) as -> by (by apply bool_decide_eq_false).
  assert (nil n = false) as -> by (by apply bool_decide_eq_false). rewrite bool_decide_true by done.
  rewrite (proj2 (Z.ltb_ge _ _) Hg). cbn [negb orb]. cbv [mbind rd_bind]. destruct (authority_eq n t) as [t1 ->].
  destruct (view_of s n) as [v|] eqn:Ev.
  2: { right. split; [|done]. intros e [(v & Hv' & _) _]%entry_of_view. congruence. }
  destruct (decide (v_OrgID v = o)) as [Hvo|Hvo].
  2: { right. split.
       - intros e [(v' & Hv' & ?) _]%entry_of_view. congruence.
       - destruct (nil (v_OrgID v)); [done|]. by rewrite bool_decide_false. }
  rewrite Hvo. unfold nil. rewrite bool_decide_false by done. rewrite bool_decide_true by done. cbn [negb].
  destruct (entryPoint_eq o n t1) as [(t2 & e & -> & He)|[He ->]]; [left|by right].
  destruct (GrantKey_registered version o e Hv) as [k Hk]. exists t2, e, k. split; [done|]. split; [done|].
  unfold rd_lift. rewrite Hk. cbv [mret rd_ret]. destruct (GrantKey_ok _ _ _ _ Hk) as [Hv0 Hlen].
  rewrite valid_single; [done|done| |done]. intros ->. cbn in Hlen. lia.
Qed.

Lemma compileVersions_eq o n gen e versions keys t :
  (forall v, v ∈ versions -> v ∈ registered) -> indexable o n gen -> entry_of o n e ->
  exists t' ks, Forall2 (fun v k => GrantKey v o e = Ok k) versions ks /\
    compileVersions (NewPolicySet fuel) o n gen versions keys t = Ok (t', keys ++ ks).
Proof.
  intros Hv Hi He. revert keys t. induction versions as [|v vs IH]; intros keys t; cbn [compileVersions].
  { exists t, []. split; [constructor|]. by rewrite app_nil_r. }
  destruct (PolicySet_Index_eq v o n gen t) as [(t1 & e' & k & He' & Hk & E)|[Hno _]]; [apply Hv; left|done| |by destruct (Hno e)].
  rewrite (entry_point_fun _ _ _ _ _ He' He) in Hk. cbv [mbind rd_bind]. rewrite E. cbn [ac_Keys].
  destruct (IH ltac:(intros x Hx; apply Hv; by right) (keys ++ [k]) t1) as (t' & ks & Hks & E').
  exists t', (k :: ks). split; [by constructor|]. rewrite E'. by rewrite <-app_assoc.
Qed.

(** Compilation succeeds exactly for a node with an entry point, and then
    holds its grants. *)
Lemma compile_eq versions o n gen t :
  let versions' := match versions with [] => [StableVersion] | _ => versions end in
  (forall v, v ∈ versions' -> v ∈ registered) -> indexable o n gen ->
  (exists t' e access, entry_of o n e /\ grants versions' (ac_Keys access) o e /\
     ac_Versions access = compact (sort_strings versions') /\ ac_Generation access = gen /\
     compileSearchAccess (NewPolicySet fuel) versions o n gen t = Ok (t', access)) \/
  ((forall e, ~ entry_of o n e) /\ is_ok (compileSearchAccess (NewPolicySet fuel) versions o n gen t) = false).
Proof.
  intros versions' Hv Hi. unfold compileSearchAccess. cbv zeta. fold versions'.
  assert (exists v vs, versions' = v :: vs) as (v & vs & Evs) by (destruct versions as [|v vs]; eauto).
  destruct (PolicySet_Index_eq v o n gen t) as [(t1 & e & k & He & _)|[Hno E]]; [apply Hv; rewrite Evs; left|done|left|right].
  - destruct (compileVersions_eq o n gen e versions' [] t Hv Hi He) as (t' & ks & Hks & E).
    eexists t', e, _. split; [done|]. cbv [mbind rd_bind]. rewrite E. cbn [app].
    split; [|split; [|split; [|reflexivity]]]; [by apply grants_compact|done|done].
  - split; [done|]. rewrite Evs. cbn [compileVersions]. cbv [mbind rd_bind].
    by destruct (PolicySet_Index _ _ t).
Qed.

Lemma compiled_permits version a e kq versions o n e' keys :
  version ∈ versions -> wide a -> wide e -> GrantKey version a e = Ok kq ->
  entry_of o n e' -> grants versions keys o e' ->
  collision_free (decision_messages version a e versions o e') ->
  Permits (mkFilter version [kq]) keys = true <-> o = a /\ entry_of o n e.
Proof.
  intros Hv Ha He Hg He' Hk Hfree. destruct (entry_of_view _ _ _ He') as [_ (v & Hv' & Hov)].
  destruct (ar_wide _ _ Hs _ _ Hv') as [Hw1 Hw2]. rewrite Hov in Hw2.
  rewrite (permits_grant version a e kq versions keys o e') by done.
  split; intros [Eo H]; (split; [done|]); [by rewrite <-H|by eapply entry_point_fun].
Qed.

End store.

(** ** The properties *)

Section properties.
Context `{FDB : Fdb} `{GL : GoLib} `{KT : KeyText}.

(** The policies over a store that does not change. *)
Definition rest_policies (s : kv) (fuel : nat) : PolicySet nat := NewPolicySet (PR := store_readers (fun _ => s)) fuel.

Lemma caller_wide s fuel request : at_rest s fuel -> caller_may s request ->
  wide (aq_AuthorityID request) /\ wide (aq_EntryPointID request).
Proof. intros Hs (_ & _ & _ & v & _ & Hv & <- & _). destruct (ar_wide _ _ Hs _ _ Hv). done. Qed.

Lemma summaries_permit s fuel request kq ids maxName :
  at_rest s fuel -> aq_Version request ∈ registered -> caller_may s request ->
  GrantKey (aq_Version request) (aq_AuthorityID request) (aq_EntryPointID request) = Ok kq ->
  length ids <= maxSummaryBatch -> (1 <= maxName)%Z ->
  (forall id o e', id ∈ ids -> entry_of s o id e' ->
     collision_free (decision_messages (aq_Version request) (aq_AuthorityID request) (aq_EntryPointID request) registered o e')) ->
  exists results, Summaries fuel (rest_policies s fuel) ids maxName (mkTx s []) = Ok (mkTx s [], results) /\
    Forall2 (fun id r => sr_NodeID r = id /\ sm_ID (sr_Summary r) = id /\
      (Permits (mkFilter (aq_Version request) [kq]) (sr_AccessKeys r) = true <->
       entry_of s (aq_AuthorityID request) id (aq_EntryPointID request))) ids results.
Proof.
  intros Hs Hv Hmay Hg Hlen Hmax Hfree. destruct (caller_wide _ _ _ Hs Hmay) as [Ha He].
  destruct (Summaries_eq s fuel Hs ids maxName Hlen Hmax) as (accesses & Es & Hacc).
  eexists. split; [exact Es|].
  assert (forall n, n ∈ ids -> let r := summaryResult maxName accesses (n, view_of s n) in
    sr_NodeID r = n /\ sm_ID (sr_Summary r) = n /\ (Permits (mkFilter (aq_Version request) [kq]) (sr_AccessKeys r) = true <->
      entry_of s (aq_AuthorityID request) n (aq_EntryPointID request))) as Hone.
  { intros n Hn. unfold summaryResult. cbn [fst snd]. destruct (view_of s n) as [v|] eqn:Hview; cbn [sr_NodeID sr_Summary sm_ID sr_AccessKeys]; (split; [done|]; split; [done|]).
    - destruct (Hacc n v Hn Hview) as (acc & -> & Hok). cbn [default from_option id].
      rewrite (access_permits s fuel Hs _ _ _ kq (mkOrgNode (v_OrgID v) n) acc Hv Ha He Hg Hok) by (intros e' He'; by apply (Hfree n)).
      cbn [on_OrgID on_NodeID]. split; [by intros [<- ?]|]. intros Hen.
      destruct (entry_of_view _ _ _ _ Hen) as [(v' & Hv' & Hov) _]. rewrite Hview in Hv'. injection Hv' as <-. by rewrite Hov.
    - split; [done|]. intros Hen. destruct (entry_of_view _ _ _ _ Hen) as [(v' & Hv' & _) _]. congruence. }
  clear -Hone. induction ids as [|n ids IH]; [constructor|]. rewrite fmap_cons. constructor; [apply Hone; left|].
  apply IH. intros m Hm. apply Hone. by right.
Qed.

(** C21: A result page shows a node to a caller exactly when the node is in
    the caller's organization and its entry point is the one the caller
    searches under: the access keys of its summary, read in one transaction,
    hold the caller's key in that case only. *)
Theorem summary_decision s fuel request ids maxName t :
  at_rest s fuel -> aq_Version request ∈ registered -> caller_may s request ->
  length ids <= maxSummaryBatch -> (1 <= maxName)%Z ->
  (forall id o e', id ∈ ids -> entry_of s o id e' ->
     collision_free (decision_messages (aq_Version request) (aq_AuthorityID request) (aq_EntryPointID request) registered o e')) ->
  exists t' filter results,
    PolicySet_Query (rest_policies s fuel) request t = Ok (t', filter) /\
    Summaries fuel (rest_policies s fuel) ids maxName (mkTx s []) = Ok (mkTx s [], results) /\
    Forall2 (fun id r => sr_NodeID r = id /\
      (Permits filter (sr_AccessKeys r) = true <-> entry_of s (aq_AuthorityID request) id (aq_EntryPointID request))) ids results.
Proof.
  intros Hs Hv Hmay Hlen Hmax Hfree. destruct (query_eq s fuel Hs request t Hv Hmay) as (t' & kq & Hg & Eq).
  destruct (summaries_permit s fuel request kq ids maxName Hs Hv Hmay Hg Hlen Hmax Hfree) as (results & Es & Hall).
  eexists t', _, results. split; [exact Eq|]. split; [exact Es|]. eapply Forall2_impl; [exact Hall|]. cbn. tauto.
Qed.

(** A page of a node is indexed exactly when the node has an entry point,
    and a caller's filter then permits it exactly when the caller searches
    that organization under that entry point, for every write version. *)
Theorem index_decision s fuel request versions o n gen t tq :
  at_rest s fuel -> (forall v, v ∈ versions -> v ∈ registered) -> aq_Version request ∈ versions -> caller_may s request ->
  o <> uuid_nil -> n <> uuid_nil -> (0 <= gen)%Z ->
  (forall e', entry_of s o n e' ->
     collision_free (decision_messages (aq_Version request) (aq_AuthorityID request) (aq_EntryPointID request) versions o e')) ->
  exists tq' filter, PolicySet_Query (rest_policies s fuel) request tq = Ok (tq', filter) /\
    (is_ok (compileSearchAccess (rest_policies s fuel) versions o n gen t) = true <-> exists e, entry_of s o n e) /\
    forall t' access, compileSearchAccess (rest_policies s fuel) versions o n gen t = Ok (t', access) ->
      ac_Versions access = compact (sort_strings versions) /\ ac_Generation access = gen /\
      (Permits filter (ac_Keys access) = true <->
       o = aq_AuthorityID request /\ entry_of s o n (aq_EntryPointID request)).
Proof.
  intros Hs Hvs Hv Hmay Ho Hn Hg Hfree. destruct (caller_wide _ _ _ Hs Hmay) as [Ha He].
  destruct (query_eq s fuel Hs request tq (Hvs _ Hv) Hmay) as (tq' & kq & Hk & Eq).
  exists tq', (mkFilter (aq_Version request) [kq]). split; [done|].
  assert (match versions with [] => [StableVersion] | _ => versions end = versions) as Evs
    by (destruct versions; [by apply not_elem_of_nil in Hv|done]).
  destruct (compile_eq s fuel Hs versions o n gen t) as [(t1 & e' & access & He' & Hgr & Hver & Hgen & E)|[Hno E]];
    [by rewrite Evs|done| |]; rewrite ?Evs in *;
    unfold rest_policies; change (store_readers (fun _ => s)) with (rest_readers s).
  - rewrite E. split; [split; [by exists e'|done]|]. intros t' access' [= <- <-]. split; [done|]. split; [done|].
    by apply (compiled_permits s fuel Hs _ _ _ _ versions o n e'); auto.
  - rewrite E. split; [split; [done|]|]; [by intros [e ?%Hno]|]. intros t' access E'. by rewrite E' in E.
Qed.

(** A caller who belongs to the organization of the entry point, which is
    the authority of the request and whose type is an entry-point type, gets
    a valid filter; every other caller is denied. *)
Theorem query_decision s fuel request t :
  at_rest s fuel -> aq_Version request ∈ registered ->
  aq_PrincipalID request <> uuid_nil -> aq_EntryPointID request <> uuid_nil ->
  (caller_may s request -> exists t' filter, PolicySet_Query (rest_policies s fuel) request t = Ok (t', filter) /\
     af_Version filter = aq_Version request /\ ValidateAccessFilter filter = Ok tt) /\
  (~ caller_may s request -> PolicySet_Query (rest_policies s fuel) request t = Err ErrAccessDenied).
Proof.
  intros Hs Hv Hp He. split; [intros Hmay|by apply query_denied].
  destruct (query_eq s fuel Hs request t Hv Hmay) as (t' & k & Hk & E).
  eexists t', _. split; [exact E|]. split; [done|]. by eapply filter_ok.
Qed.

End properties.

(** ** Dependents *)

Lemma all_digits_cut (s inner : string) : all_digits s = true -> cut_colon (s +:+ ":" +:+ inner) = Some (s, inner).
Proof.
  induction s as [|c s IH]; intros H; [done|]. cbn [all_digits] in H. apply andb_prop in H as [Hc H].
  rewrite append_cons. cbn [cut_colon]. rewrite (IH H). destruct (Ascii.eqb_spec c ":") as [->|]; [done|done].
Qed.

Lemma decimal_go_nonempty fuel n acc : decimal_go (S fuel) n acc <> EmptyString.
Proof.
  revert n acc. induction fuel as [|fuel IH]; intros n acc; cbn [decimal_go] in *; (case_match; [done|]); [done|apply IH].
Qed.

Lemma parse_decimal p : (0 <= p < 2 ^ 63)%Z -> parse_int 64 (decimalZ p) = Some p.
Proof.
  intros Hp. unfold decimalZ. rewrite (proj2 (Z.ltb_ge _ _)) by lia.
  pose proof (decimal_digits (Z.abs_N p)) as Hd. pose proof (decimal_value (Z.abs_N p)) as Hv.
  unfold parse_int. assert (decimal (Z.abs_N p) <> EmptyString) as Hne.
  { apply decimal_go_nonempty. }
  destruct (decimal (Z.abs_N p)) as [|c d]; [done|]. cbn [all_digits] in Hd. pose proof Hd as Hd'. apply andb_prop in Hd as [Hc _].
  assert (match c with "-"%char => (true, d) | "+"%char => (false, d) | _ => (false, String c d) end = (false, String c d)) as E.
  { clear -Hc. destruct c as [[] [] [] [] [] [] [] []]; first [reflexivity|discriminate Hc]. }
  cbv iota beta in E |- *. rewrite E. rewrite bool_decide_false by done. cbn [all_digits]. rewrite Hd'. cbn [orb negb].
  rewrite Hv, N2Z.inj_abs_N, Z.abs_eq by lia. change (64 - 1)%Z with 63%Z.
  rewrite (proj2 (Z.leb_le _ _)), (proj2 (Z.ltb_lt _ _)) by lia. done.
Qed.

(** A dependents cursor reads back as the version position and the
    compiler cursor it was made of, whatever text the compiler's cursor is. *)
Theorem dependent_cursor_roundtrip position inner :
  (0 <= position < 2 ^ 63)%Z -> parseDependentCursor (formatDependentCursor position inner) = Ok (position, inner).
Proof.
  intros Hp. unfold parseDependentCursor, formatDependentCursor. rewrite bool_decide_false.
  - rewrite all_digits_cut.
    + rewrite parse_decimal by done. by rewrite (proj2 (Z.ltb_ge _ _)) by lia.
    + unfold decimalZ. rewrite (proj2 (Z.ltb_ge _ _)) by lia. apply decimal_digits.
  - intros E. apply (f_equal String.length) in E. rewrite !string_length_app in E. cbn in E. lia.
Qed.

(** On the store behind the policies a node that does not resolve is an
    error, not an empty page of dependents. *)
Lemma dependents_of_missing `{FDB : Fdb} `{GL : GoLib} `{KT : KeyText} history o n cursor limit t :
  (1 <= limit <= maxDependentPage)%Z -> fget (history t) (nodeResolveKey n) = None ->
  OrgScope_Dependents (PR := store_readers history) o n cursor limit t = Err ErrNotFound.
Proof.
  intros Hl Hn. unfold OrgScope_Dependents. rewrite (proj2 (Z.ltb_ge _ _)), (proj2 (Z.ltb_ge _ _)) by lia. cbn [orb].
  unfold children, inOrg. cbv [mbind rd_bind]. cbn [ViewResolve store_readers]. unfold read_txn, ViewStore_Resolve, getResolve.
  erewrite tx_bind_eq; [|erewrite tx_bind_eq by apply tr_get_bytes_eq; cbn [tx_kv]; rewrite Hn; done]. done.
Qed.
