(* ===== verification/SearchSession.v ===== *)
(** * Search sessions: adapters/foundationdb/search_session*.go, search_replay.go

    A search keeps its place in a session: a header with its deadlines and
    version, the query tokens in chunks, a mark for each node it has
    consumed, and the page of the last version.  Three key families list
    sessions by expiry minute, by index and by access version.  A step of the
    store is one transaction on the keys it packs; it collects the changes
    that [changes.append] writes to the outbox with it. *)

From S2P Require Import Prelude GoJson Sha256 Bytes Base64 Float64 Quote Canonical GoTime Domain Store Tx Keys Schedule Fence RowHash SearchAccess.
From Stdlib Require Import Ascii.

(** ** The session: internal/domain/search/query.go, session.go *)

Record Query := mkQuery {
  q_Text : string;
  q_Index : string;
  q_NodeType : string;
  q_Access : AccessFilter;
  q_Generation : Z;
}.

Record Snapshot := mkSnapshot { sn_PITID : string; sn_Index : string; sn_QueryTokens : raw }.

Record Session := mkSession {
  ss_ID : uuid;
  ss_PrincipalID : uuid;
  ss_AuthorityID : uuid;
  ss_EntryPointID : uuid;
  ss_Binding : string;
  ss_Query : Query;
  ss_Snapshot : Snapshot;
  ss_Sort : raw;
  ss_Version : Z;
  ss_CreatedAt : gotime;
  ss_IdleDeadline : gotime;
  ss_AbsoluteDeadline : gotime;
  ss_Complete : bool;
  ss_Closing : bool;
}.

Definition Session_Expired (s : Session) (now : gotime) : bool :=
  negb (now <? ss_IdleDeadline s)%Z || negb (now <? ss_AbsoluteDeadline s)%Z.

Definition Continuable (s : Session) (now : gotime) (restoreEpoch : Z) : bool :=
  negb (ss_Closing s) && (q_Generation (ss_Query s) =? restoreEpoch)%Z && negb (Session_Expired s now).

Record PageCommit := mkPageCommit {
  pc_Sort : raw;
  pc_PITID : string;
  pc_Visited : list uuid;
  pc_ResultIDs : list uuid;
  pc_Complete : bool;
}.

(** ** The binding (session.go, writer.go) *)

Definition writeIdentityPart (destination part : list N) : list N :=
  destination ++ be_bytes 8 (N.of_nat (length part)) ++ part.

Definition RankingVersion : string := "2".

Definition identity_parts (rankingVersion : string) (principalID authorityID entryPointID : uuid) (query : Query) : list (list N) :=
  [string_bytes rankingVersion; string_bytes (decimalZ (q_Generation query));
   SearchAccess.uuid_bytes principalID; SearchAccess.uuid_bytes authorityID; SearchAccess.uuid_bytes entryPointID;
   string_bytes (q_Text query); string_bytes (q_NodeType query); string_bytes (q_Index query);
   string_bytes (af_Version (q_Access query))] ++ (string_bytes <$> af_Keys (q_Access query)).

Definition identity_message (rankingVersion : string) (principalID authorityID entryPointID : uuid) (query : Query) : string :=
  bytes_text (foldl writeIdentityPart [] (identity_parts rankingVersion principalID authorityID entryPointID query)).

Definition RankedSessionBinding (rankingVersion : string) (principalID authorityID entryPointID : uuid) (query : Query) : string :=
  sha256_sum (identity_message rankingVersion principalID authorityID entryPointID query).

Definition SessionBinding (principalID authorityID entryPointID : uuid) (query : Query) : string :=
  RankedSessionBinding RankingVersion principalID authorityID entryPointID query.

(** ** Hexadecimal text: encoding/hex *)

Fixpoint EncodeToString (s : string) : string :=
  match s with
  | EmptyString => EmptyString
  | String c s' => String (hexdigit (code c / 16)) (String (hexdigit (code c mod 16)) (EncodeToString s'))
  end.

Fixpoint DecodeString (s : string) : option string :=
  match s with
  | EmptyString => Some EmptyString
  | String a (String b s') =>
      high ← hexval a; low ← hexval b; rest ← DecodeString s';
      Some (String (chr (high * 16 + low)) rest)
  | String _ EmptyString => None
  end.

(** ** The stored bytes *)

Definition maxSessionHeaderBytes : Z := 65536.
Definition sessionTokenChunkBytes : nat := 16 * 1024.
Definition maxSessionVisitedIDs : nat := 400.
Definition maxSessionResultIDs : nat := 25.
Definition maxSessionPositionBytes : Z := 8192.
Definition maxSessionCleanupKeys : Z := 100.

(** [json.Compact] as [json.Marshal] runs it on a raw message: no white space
    between tokens, and the bytes HTML escapes in \u form. *)
Definition html_escape (c : ascii) : option string :=
  if Ascii.eqb c "<" then Some "\u003c" else if Ascii.eqb c ">" then Some "\u003e"
  else if Ascii.eqb c "&" then Some "\u0026" else None.

Fixpoint compact_json (inString : bool) (s : string) : string :=
  match s with
  | EmptyString => EmptyString
  | String c s1 =>
      if negb inString && is_space c then compact_json false s1
      else
        let plain := String c (compact_json (if Ascii.eqb c dquote then negb inString else inString) s1) in
        match html_escape c with
        | Some e => e +:+ compact_json inString s1
        | None =>
            match s1 with
            | String c2 s2 =>
                if inString && Ascii.eqb c "\" then String c (String c2 (compact_json true s2))
                else
                  match s2 with
                  | String c3 s3 =>
                      match line_separator c c2 c3 with
                      | Some e => e +:+ compact_json inString s3
                      | None => plain
                      end
                  | EmptyString => plain
                  end
            | EmptyString => plain
            end
        end
  end.

Definition raw_text (r : raw) : option string :=
  match json_parse r with Some _ => Some (compact_json false r) | None => None end.

Section header.
Context `{GL : GoLib}.

Definition optional_raw (k : string) (r : raw) : option (list string) :=
  if blank r then Some [] else t ← raw_text r; Some [quote k +:+ String ":" t].

Definition string_list (l : list string) : json := match l with [] => JNull | _ => JArr (JStr <$> l) end.

(** The text [json.Marshal] writes for a header. *)
Definition header_text (r : searchSessionRecord) : option string :=
  createdAt ← time_json (sh_CreatedAt r);
  idle ← time_json (sh_IdleDeadline r);
  absolute ← time_json (sh_AbsoluteDeadline r);
  sort ← optional_raw "sort" (sh_Sort r);
  Some ("{" +:+ commas
    ((print_member <$>
      [("id", juuid (sh_ID r)); ("principal_id", juuid (sh_PrincipalID r)); ("authority_id", juuid (sh_AuthorityID r));
       ("entry_point_id", juuid (sh_EntryPointID r)); ("binding", JStr (sh_Binding r)); ("text", JStr (sh_Text r));
       ("index", JStr (sh_Index r)); ("node_type", JStr (sh_NodeType r)); ("access_version", JStr (sh_AccessVersion r));
       ("access_keys", string_list (sh_AccessKeys r)); ("generation", jint (sh_Generation r)); ("pit_id", JStr (sh_PITID r))])
     ++ sort ++
     (print_member <$>
      [("version", jint (sh_Version r)); ("token_bytes", jint (sh_TokenBytes r)); ("token_chunks", jint (sh_TokenChunks r));
       ("created_at", createdAt); ("idle_deadline", idle); ("absolute_deadline", absolute);
       ("complete", JBool (sh_Complete r)); ("closing", JBool (sh_Closing r))])) +:+ "}").

(** What decoding that text gives. *)
Definition decoded_record (r : searchSessionRecord) : searchSessionRecord :=
  mkSessionRecord (sh_ID r) (sh_PrincipalID r) (sh_AuthorityID r) (sh_EntryPointID r) (sh_Binding r)
    (to_valid (sh_Text r)) (to_valid (sh_Index r)) (to_valid (sh_NodeType r)) (to_valid (sh_AccessVersion r))
    (to_valid <$> sh_AccessKeys r) (sh_Generation r) (to_valid (sh_PITID r)) (compact_json false (sh_Sort r))
    (sh_Version r) (sh_TokenBytes r) (sh_TokenChunks r) (sh_CreatedAt r) (sh_IdleDeadline r) (sh_AbsoluteDeadline r)
    (sh_Complete r) (sh_Closing r).

Definition replay_text (r : searchReplayRecord) : string :=
  print (JObj [("result_ids", match rp_ResultIDs r with [] => JNull | ids => JArr (juuid <$> ids) end);
               ("complete", JBool (rp_Complete r))]).

End header.

(** ** Headers and sessions (search_session_record.go) *)

Definition sessionRecordFor (session : Session) : searchSessionRecord :=
  let tokens := String.length (sn_QueryTokens (ss_Snapshot session)) in
  let chunks := (tokens + sessionTokenChunkBytes - 1) / sessionTokenChunkBytes in
  mkSessionRecord (ss_ID session) (ss_PrincipalID session) (ss_AuthorityID session) (ss_EntryPointID session)
    (EncodeToString (ss_Binding session)) (q_Text (ss_Query session)) (q_Index (ss_Query session))
    (q_NodeType (ss_Query session)) (af_Version (q_Access (ss_Query session))) (af_Keys (q_Access (ss_Query session)))
    (q_Generation (ss_Query session)) (sn_PITID (ss_Snapshot session)) (ss_Sort session) (ss_Version session)
    (Z.of_nat tokens) (Z.of_nat chunks) (ss_CreatedAt session) (ss_IdleDeadline session) (ss_AbsoluteDeadline session)
    (ss_Complete session) (ss_Closing session).

Definition record_session (r : searchSessionRecord) (tokens : raw) : res Session :=
  match DecodeString (sh_Binding r) with
  | Some binding =>
      if String.length binding =? 32 then
        Ok (mkSession (sh_ID r) (sh_PrincipalID r) (sh_AuthorityID r) (sh_EntryPointID r) binding
              (mkQuery (sh_Text r) (sh_Index r) (sh_NodeType r) (mkFilter (sh_AccessVersion r) (sh_AccessKeys r)) (sh_Generation r))
              (mkSnapshot (sh_PITID r) (sh_Index r) tokens)
              (sh_Sort r) (sh_Version r) (sh_CreatedAt r) (sh_IdleDeadline r) (sh_AbsoluteDeadline r) (sh_Complete r) (sh_Closing r))
      else Err ErrOther
  | None => Err ErrOther
  end.

(** ** The change record (search_session_audit*.go) *)

(** A header with its query tokens. *)
Record sessionState := mkSessionState { st_record : searchSessionRecord; st_tokens : raw }.

Inductive sessionChange :=
  | SessionCreate (after : sessionState)
  | SessionUpdate (before after : sessionState)
  | SessionDelete (before : sessionState)
  | ReplayCreate (sessionID : uuid) (version : Z) (after : searchReplayRecord)
  | ReplayDelete (sessionID : uuid) (version : Z) (before : searchReplayRecord)
  | VisitedCreate (sessionID nodeID : uuid)
  | VisitedDelete (sessionID nodeID : uuid).

Section sessions.
Context `{FDB : Fdb} `{GL : GoLib}.

(** ** Keys (search_session_keys.go) *)

Definition searchSessionBuckets : Z := 32.

Definition searchSessionBucket (sessionID : uuid) : Z :=
  (foldl fnv_step fnv_offset (Fence.uuid_bytes sessionID) mod searchSessionBuckets)%Z.

(** Proofs use no fact about the hash. *)
#[global] Opaque searchSessionBucket.

Definition bucket_elem (sessionID : uuid) : elem := TInt (searchSessionBucket sessionID).

Definition searchSessionKey (sessionID : uuid) : key := [TStr "search_session"; bucket_elem sessionID; id_elem sessionID].
Definition searchSessionChildPrefix (sessionID : uuid) : key :=
  [TStr "search_session_child"; bucket_elem sessionID; id_elem sessionID].
Definition searchSessionPartPrefix (sessionID : uuid) (part : string) : key :=
  [TStr "search_session_child"; bucket_elem sessionID; id_elem sessionID; TStr part].
Definition searchSessionTokenKey (sessionID : uuid) (chunk : Z) : key :=
  [TStr "search_session_child"; bucket_elem sessionID; id_elem sessionID; TStr "token"; TInt chunk].
Definition searchSessionVisitedKey (sessionID nodeID : uuid) : key :=
  [TStr "search_session_child"; bucket_elem sessionID; id_elem sessionID; TStr "visited"; id_elem nodeID].
Definition searchSessionReplayKey (sessionID : uuid) (version : Z) : key :=
  [TStr "search_session_child"; bucket_elem sessionID; id_elem sessionID; TStr "replay"; TInt version].

(** Seconds from year 1 to 1970. *)
Definition unix_epoch : Z := 62135596800.

Definition searchSessionMinute (deadline : gotime) : Z := Z.quot (deadline / 1000000000 - unix_epoch) 60.

Definition searchSessionExpiryKey (sessionID : uuid) (deadline : gotime) : key :=
  [TStr "search_session_expiry"; TInt (searchSessionMinute deadline); bucket_elem sessionID; id_elem sessionID].
Definition searchSessionPresenceKey (index : string) (sessionID : uuid) : key :=
  [TStr "search_session_present"; TStr index; bucket_elem sessionID; id_elem sessionID].
Definition searchSessionVersionKey (authorityID : uuid) (version : string) (absolute : gotime) (sessionID : uuid) : key :=
  [TStr "search_session_version"; id_elem authorityID; TStr version; TInt (searchSessionMinute absolute);
   bucket_elem sessionID; id_elem sessionID].
Definition searchSessionVersionPrefix (authorityID : uuid) (version : string) : key :=
  [TStr "search_session_version"; id_elem authorityID; TStr version].
Definition searchSessionVersionStart (authorityID : uuid) (version : string) (now : gotime) : key :=
  [TStr "search_session_version"; id_elem authorityID; TStr version; TInt (searchSessionMinute now)].

(** ** The transaction *)

(** The store, the scope of the events ([bind]) and the changes so far. *)
Record sessionTx := mkSessionTx { st_kv : kv; st_scope : uuid * uuid; st_changes : list sessionChange }.

Definition stx (A : Type) : Type := rd sessionTx A.

Definition s_get (k : key) : rd sessionTx (option value) := fun w => Ok (w, fget (st_kv w) k).
Definition s_range (p : key) : rd sessionTx (list (key * value)) := fun w => Ok (w, frange (st_kv w) p).
Definition s_modify (f : kv -> kv) : rd sessionTx unit := fun w => Ok (mkSessionTx (f (st_kv w)) (st_scope w) (st_changes w), tt).
Definition s_set (k : key) (v : value) : rd sessionTx unit := s_modify (fun s => fset s k v).
Definition s_clear (k : key) : rd sessionTx unit := s_modify (fun s => fclear s k).
Definition s_clear_range (p : key) : rd sessionTx unit := s_modify (fun s => fclear_range s p).
Definition s_record (c : sessionChange) : rd sessionTx unit := fun w => Ok (mkSessionTx (st_kv w) (st_scope w) (st_changes w ++ [c]), tt).

Definition s_startAttempt : rd sessionTx unit := fun w => Ok (mkSessionTx (st_kv w) (st_scope w) [], tt).
Definition bind_scope (r : searchSessionRecord) : rd sessionTx unit := fun w =>
  Ok (mkSessionTx (st_kv w) (sh_AuthorityID r, sh_EntryPointID r) (st_changes w), tt).

Fixpoint forEach {A} (l : list A) (f : A -> rd sessionTx unit) : rd sessionTx unit :=
  match l with [] => mret tt | a :: l' => _ ← f a; forEach l' f end.

(** A read that sees a value without bytes as absent. *)
Definition s_get_bytes (k : key) : rd sessionTx (option value) :=
  v ← s_get k;
  mret (match v with Some v' => if no_bytes v' then None else Some v' | None => None end).

Definition readSession (sessionID : uuid) : rd sessionTx (option searchSessionRecord) :=
  v ← s_get_bytes (searchSessionKey sessionID);
  match v with None => mret None | Some (VSession r) => mret (Some r) | Some _ => rd_fail ErrDecode end.

Definition readReplay (sessionID : uuid) (version : Z) : rd sessionTx (option searchReplayRecord) :=
  v ← s_get_bytes (searchSessionReplayKey sessionID version);
  match v with None => mret None | Some (VReplay r) => mret (Some r) | Some _ => rd_fail ErrDecode end.

Definition writeSession (sessionID : uuid) (r : searchSessionRecord) : rd sessionTx unit :=
  match header_text r with
  | None => rd_fail ErrEncode
  | Some t =>
      if (maxSessionHeaderBytes <? Z.of_nat (String.length t))%Z then rd_fail ErrInvalidQuery
      else s_set (searchSessionKey sessionID) (VSession (decoded_record r))
  end.

Definition writeReplay (sessionID : uuid) (version : Z) (r : searchReplayRecord) : rd sessionTx unit :=
  if (maxSessionHeaderBytes <? Z.of_nat (String.length (replay_text r)))%Z then rd_fail ErrInvalidQuery
  else s_set (searchSessionReplayKey sessionID version) (VReplay r).

(** [requireWrittenVersion] over the rollout record. *)
Definition requireWrittenVersion (authorityID : uuid) (version : string) : rd sessionTx unit := fun w =>
  match readRollout authorityID (mkTx (st_kv w) []) with
  | Ok (_, record) => if decide (version ∈ ro_WriteVersions record) then Ok (w, tt) else Err ErrSessionChanged
  | Err e => Err e
  end.

Definition clearSessionVersion (r : searchSessionRecord) : rd sessionTx unit :=
  s_clear (searchSessionVersionKey (sh_AuthorityID r) (sh_AccessVersion r) (sh_AbsoluteDeadline r) (sh_ID r)).

(** A retirement attempt passes the key that must still be present. *)
Definition requireRetireFence (fence : option key) : rd sessionTx unit :=
  match fence with
  | None => mret tt
  | Some k => v ← s_get k; rd_ensure (negb (absent_bytes v)) ErrRetireAttemptFenced
  end.

(** The bytes of a child value. *)
Definition child_text (v : value) : res string :=
  match v with VText s | VBytes s => Ok s | VEmpty => Ok EmptyString | _ => Err ErrDecode end.

Definition concat_text (l : list string) : string := foldr String.append EmptyString l.

(** ** Create and Load (search_session.go) *)

Definition token_chunk (tokens : raw) (chunk : nat) : string :=
  String.substring (chunk * sessionTokenChunkBytes) sessionTokenChunkBytes tokens.

Definition create_invalid (session : Session) : bool :=
  nil (ss_ID session) || negb (ss_Version session =? 0)%Z || blank (sn_QueryTokens (ss_Snapshot session)) ||
  blank (sn_PITID (ss_Snapshot session)).

Definition Session_Create (session : Session) : rd sessionTx Session :=
  if create_invalid session then rd_fail ErrOther
  else
    let record := sessionRecordFor session in
    let id := ss_ID session in
    let tokens := sn_QueryTokens (ss_Snapshot session) in
    _ ← s_startAttempt;
    _ ← bind_scope record;
    existing ← readSession id;
    match existing with
    | Some _ => rd_fail ErrOther
    | None =>
        _ ← requireWrittenVersion (ss_AuthorityID session) (af_Version (q_Access (ss_Query session)));
        _ ← writeSession id record;
        _ ← forEach (seq 0 (Z.to_nat (sh_TokenChunks record)))
              (fun chunk => s_set (searchSessionTokenKey id (Z.of_nat chunk)) (VBytes (token_chunk tokens chunk)));
        _ ← s_set (searchSessionExpiryKey id (ss_IdleDeadline session)) VEmpty;
        _ ← s_set (searchSessionPresenceKey (q_Index (ss_Query session)) id) VEmpty;
        _ ← s_set (searchSessionVersionKey (ss_AuthorityID session) (af_Version (q_Access (ss_Query session)))
                     (ss_AbsoluteDeadline session) id) VEmpty;
        _ ← s_record (SessionCreate (mkSessionState record tokens));
        mret session
    end.

Definition Session_Load (sessionID : uuid) : rd sessionTx Session :=
  found ← readSession sessionID;
  match found with
  | None => rd_fail ErrSessionNotFound
  | Some record =>
      if sh_Closing record then rd_lift (record_session record EmptyString)
      else
        items ← s_range (searchSessionPartPrefix sessionID "token");
        let chunks := take (Z.to_nat (sh_TokenChunks record) + 1) items in
        _ ← rd_ensure (Z.of_nat (length chunks) =? sh_TokenChunks record)%Z ErrOther;
        texts ← rd_lift (res_mapM (fun item : key * value => child_text item.2) chunks);
        let tokens := concat_text texts in
        _ ← rd_ensure (Z.of_nat (String.length tokens) =? sh_TokenBytes record)%Z ErrOther;
        rd_lift (record_session record tokens)
  end.

(** ** Pages (search_replay.go) *)

Definition Session_Replay (sessionID : uuid) (version : Z) : rd sessionTx (option PageCommit) :=
  found ← readReplay sessionID version;
  mret (match found with
        | Some record => Some (mkPageCommit EmptyString EmptyString [] (rp_ResultIDs record) (rp_Complete record))
        | None => None
        end).

Definition visited_now (s : kv) (sessionID nodeID : uuid) : bool :=
  negb (absent_bytes (fget s (searchSessionVisitedKey sessionID nodeID))).

(** The nodes of the list the session has consumed. *)
Definition Session_HasVisited (sessionID : uuid) (nodeIDs : list uuid) : rd sessionTx (gset uuid) :=
  if maxSessionVisitedIDs <? length nodeIDs then rd_fail ErrOther
  else fun w => Ok (w, list_to_set (filter (fun nodeID => visited_now (st_kv w) sessionID nodeID = true) nodeIDs)).

Definition commit_out_of_bounds (commit : PageCommit) : bool :=
  (maxSessionVisitedIDs <? length (pc_Visited commit)) || (maxSessionResultIDs <? length (pc_ResultIDs commit)) ||
  (maxSessionPositionBytes <? Z.of_nat (String.length (pc_Sort commit)) + Z.of_nat (String.length (pc_PITID commit)))%Z || blank (pc_PITID commit).

Definition visited_mark : value := VBytes (String (chr 1) EmptyString).

Definition clearPreviousReplay (sessionID : uuid) (version : Z) : rd sessionTx unit :=
  if (version =? 0)%Z then mret tt
  else
    let previousVersion := (version - 1)%Z in
    previous ← readReplay sessionID previousVersion;
    _ ← s_clear (searchSessionReplayKey sessionID previousVersion);
    match previous with
    | Some r => s_record (ReplayDelete sessionID previousVersion r)
    | None => mret tt
    end.

Definition with_position (r : searchSessionRecord) (commit : PageCommit) (idle : gotime) (version : Z) : searchSessionRecord :=
  mkSessionRecord (sh_ID r) (sh_PrincipalID r) (sh_AuthorityID r) (sh_EntryPointID r) (sh_Binding r) (sh_Text r)
    (sh_Index r) (sh_NodeType r) (sh_AccessVersion r) (sh_AccessKeys r) (sh_Generation r) (pc_PITID commit)
    (pc_Sort commit) version (sh_TokenBytes r) (sh_TokenChunks r) (sh_CreatedAt r) idle (sh_AbsoluteDeadline r)
    (pc_Complete commit) (sh_Closing r).

(** The idle deadline, or the absolute deadline when that is earlier. *)
Definition renewed_idle (now idleTimeout absolute : gotime) : gotime :=
  if (absolute <? now + idleTimeout)%Z then absolute else (now + idleTimeout)%Z.

Definition applyPageCommit (now idleTimeout : gotime) (stored : searchSessionRecord) (version : Z) (commit : PageCommit) :
    rd sessionTx searchSessionRecord :=
  let sessionID := sh_ID stored in
  _ ← forEach (pc_Visited commit) (fun nodeID =>
        _ ← s_set (searchSessionVisitedKey sessionID nodeID) visited_mark;
        s_record (VisitedCreate sessionID nodeID));
  let replay := mkReplay (pc_ResultIDs commit) (pc_Complete commit) in
  _ ← writeReplay sessionID version replay;
  _ ← s_record (ReplayCreate sessionID version replay);
  _ ← clearPreviousReplay sessionID version;
  _ ← s_clear (searchSessionExpiryKey sessionID (sh_IdleDeadline stored));
  let idle := renewed_idle now idleTimeout (sh_AbsoluteDeadline stored) in
  _ ← s_set (searchSessionExpiryKey sessionID idle) VEmpty;
  _ ← (if pc_Complete commit then clearSessionVersion stored else mret tt);
  let record := with_position stored commit idle ((version + 1) mod 2 ^ 64)%Z in
  _ ← writeSession sessionID record;
  _ ← s_record (SessionUpdate (mkSessionState stored EmptyString) (mkSessionState record EmptyString));
  mret record.

(** The clock is read for each deadline and once more to renew. *)
Record commitClock := mkCommitClock { cc_idle : gotime; cc_absolute : gotime; cc_renew : gotime }.

Definition commit_expired (clock : commitClock) (stored : searchSessionRecord) : bool :=
  sh_Closing stored || negb (cc_idle clock <? sh_IdleDeadline stored)%Z ||
  negb (cc_absolute clock <? sh_AbsoluteDeadline stored)%Z.

(** The function of the commit's transaction. *)
Definition commitAttempt (clock : commitClock) (idleTimeout : gotime) (sessionID : uuid) (version : Z) (commit : PageCommit) :
    rd sessionTx searchSessionRecord :=
  _ ← s_startAttempt;
  found ← readSession sessionID;
  match found with
  | None => rd_fail ErrSessionNotFound
  | Some stored =>
      if negb (sh_Version stored =? version)%Z then rd_fail ErrSessionChanged
      else if commit_expired clock stored then rd_fail ErrSessionExpired
      else
        _ ← bind_scope stored;
        applyPageCommit (cc_renew clock) idleTimeout stored version commit
  end.

(** The session of the header is decoded after the transaction. *)
Definition Session_CommitPage (clock : commitClock) (idleTimeout : gotime) (sessionID : uuid) (version : Z) (commit : PageCommit) :
    rd sessionTx Session :=
  if commit_out_of_bounds commit then rd_fail ErrOther
  else
    record ← commitAttempt clock idleTimeout sessionID version commit;
    rd_lift (record_session record EmptyString).

(** ** Cleanup (search_session_cleanup*.go) *)

Definition with_closing (r : searchSessionRecord) : searchSessionRecord :=
  mkSessionRecord (sh_ID r) (sh_PrincipalID r) (sh_AuthorityID r) (sh_EntryPointID r) (sh_Binding r) (sh_Text r)
    (sh_Index r) (sh_NodeType r) (sh_AccessVersion r) (sh_AccessKeys r) (sh_Generation r) (sh_PITID r)
    (sh_Sort r) (sh_Version r) (sh_TokenBytes r) (sh_TokenChunks r) (sh_CreatedAt r) (sh_IdleDeadline r)
    (sh_AbsoluteDeadline r) (sh_Complete r) true.

Definition Session_BeginCleanup (fence : option key) (sessionID : uuid) : rd sessionTx unit :=
  _ ← s_startAttempt;
  _ ← requireRetireFence fence;
  found ← readSession sessionID;
  match found with
  | None => mret tt
  | Some stored =>
      if sh_Closing stored then mret tt
      else
        _ ← bind_scope stored;
        _ ← clearSessionVersion stored;
        let record := with_closing stored in
        _ ← writeSession sessionID record;
        s_record (SessionUpdate (mkSessionState stored EmptyString) (mkSessionState record EmptyString))
  end.

(** The tuple decoder returns text for the node of a visited key and a number
    for the version of a replay key. *)
Definition recordChildDelete (sessionID : uuid) (part : string) (childIdentity : elem) (stored : value) : rd sessionTx unit :=
  if decide (part = "visited") then
    match elem_id childIdentity with
    | Some nodeID => s_record (VisitedDelete sessionID nodeID)
    | None => rd_fail ErrDecode
    end
  else if negb (bool_decide (part = "replay")) then rd_fail ErrOther
  else
    match childIdentity, stored with
    | TInt version, VReplay r =>
        if (0 <=? version)%Z && (version <? 2 ^ 64)%Z then s_record (ReplayDelete sessionID version r) else rd_fail ErrDecode
    | _, _ => rd_fail ErrDecode
    end.

Fixpoint clearChildLoop (sessionID : uuid) (children : list (key * value)) (tokensFound : bool) : rd sessionTx bool :=
  match children with
  | [] => mret tokensFound
  | (k, stored) :: children' =>
      match k with
      | _ :: _ :: _ :: part :: childIdentity :: _ =>
          let part := default EmptyString (elem_text part) in
          if decide (part = "token") then clearChildLoop sessionID children' true
          else
            _ ← recordChildDelete sessionID part childIdentity stored;
            _ ← s_clear k;
            clearChildLoop sessionID children' tokensFound
      | _ => rd_fail ErrDecode
      end
  end.

Definition clearSessionTokens (sessionID : uuid) : rd sessionTx raw :=
  chunks ← s_range (searchSessionPartPrefix sessionID "token");
  texts ← rd_lift (res_mapM (fun item : key * value => child_text item.2) chunks);
  _ ← s_clear_range (searchSessionPartPrefix sessionID "token");
  mret (concat_text texts).

Definition clearChildren (sessionID : uuid) (children : list (key * value)) : rd sessionTx raw :=
  tokensFound ← clearChildLoop sessionID children false;
  if (tokensFound : bool) then clearSessionTokens sessionID else mret EmptyString.

(** [true]: the session is gone. *)
Definition Session_CleanupSlice (fence : option key) (sessionID : uuid) (limit : Z) : rd sessionTx bool :=
  if (limit <? 1)%Z || (maxSessionCleanupKeys <? limit)%Z then rd_fail ErrOther
  else
    _ ← s_startAttempt;
    _ ← requireRetireFence fence;
    found ← readSession sessionID;
    match found with
    | None => mret true
    | Some record =>
        if negb (sh_Closing record) then rd_fail ErrOther
        else
          _ ← bind_scope record;
          items ← s_range (searchSessionChildPrefix sessionID);
          let children := take (Z.to_nat limit) items in
          tokens ← clearChildren sessionID children;
          if (Z.of_nat (length children) =? limit)%Z then
            _ ← (if blank tokens then mret tt
                 else s_record (SessionUpdate (mkSessionState record tokens) (mkSessionState record EmptyString)));
            mret false
          else
            _ ← s_clear (searchSessionExpiryKey sessionID (sh_IdleDeadline record));
            _ ← s_clear (searchSessionPresenceKey (sh_Index record) sessionID);
            _ ← clearSessionVersion record;
            _ ← s_clear (searchSessionKey sessionID);
            _ ← s_record (SessionDelete (mkSessionState record tokens));
            mret true
    end.

(** The sessions of expiry minutes before the minute of [now], oldest first. *)
Definition ExpiredSessions (now : gotime) (limit : nat) : rd sessionTx (list uuid) :=
  items ← s_range [TStr "search_session_expiry"];
  let begin := filter (fun item => ~ key_le [TStr "search_session_expiry"; TInt (searchSessionMinute now)] item.1) items in
  rd_lift (res_mapM (fun item => match item.1 !! 3 with
                                 | Some e => match elem_id e with Some id => Ok id | None => Err ErrDecode end
                                 | None => Err ErrDecode
                                 end) (take limit begin)).

(** [sessionVersionPresent] (search_access_rollout_steps.go): a session that
    can still read under [version]. *)
Definition sessionVersionPresent (now : gotime) (authorityID : uuid) (version : string) : rd sessionTx bool :=
  items ← s_range (searchSessionVersionPrefix authorityID version);
  mret (negb (bool_decide (filter (fun item => key_le (searchSessionVersionStart authorityID version now) item.1) items = []))).

End sessions.
