(* ===== verification/SearchQuery.v ===== *)
(** * Public search: internal/service/search_query*.go

    A search opens a point in time of the engine and a session, then returns
    bounded pages of the nodes its caller may see.  Every candidate of the
    engine is checked against the current summary of its node; the commit of
    a page stores the position it consumed, and a cursor that is behind the
    session reads its page again from the committed result.

    The service runs on its ports: the engine, the session store, the
    summaries, the access policy, the audit writes around an external step,
    the clock.  They are the interface [SearchQueryPorts] over a world [W].
    A port may change the world and fail; an error is the list of sentinels
    [errors.Is] finds in it, since [errors.Join] puts several together. *)

From S2P Require Import Prelude GoJson Sha256 Bytes Float64 Quote GoTime Domain Store Tx AuditEvent SearchAccess SearchReaders SearchSession.

(** ** Services *)

Abbreviation fault := (list sentinel) (only parsing).

Inductive outcome (A : Type) := Done (a : A) | Failed (e : fault).
Arguments Done {A} _.
Arguments Failed {A} _.

Definition svc (W A : Type) : Type := W -> W * outcome A.
#[global] Typeclasses Opaque svc.

#[export] Instance svc_ret W : MRet (svc W) := fun A a w => (w, Done a).
#[export] Instance svc_bind W : MBind (svc W) := fun A B f m w =>
  match m w with (w', Done a) => f a w' | (w', Failed e) => (w', Failed e) end.

Definition svc_fail {W A} (e : fault) : svc W A := fun w => (w, Failed e).

(** A call whose error the caller inspects. *)
Definition attempt {W A} (m : svc W A) : svc W (outcome A) := fun w => let '(w', o) := m w in (w', Done o).

Definition Is (e : fault) (target : sentinel) : bool := bool_decide (target ∈ e).

(** A Go error value: [None] is nil. *)
Definition fault_of {A} (o : outcome A) : option fault := match o with Done _ => None | Failed e => Some e end.

(** [errors.Join]. *)
Definition joined (a b : option fault) : option fault :=
  match a, b with
  | None, _ => b
  | _, None => a
  | Some e, Some e' => Some (e ++ e')
  end.

Definition return_error {W} (e : option fault) : svc W unit :=
  match e with None => mret tt | Some e => svc_fail e end.

(** ** Settings (internal/config/search_query.go) *)

Record SearchQuerySettings := mkQuerySettings {
  MaxQueryBytes : Z;
  MaxResponseBytes : Z;
  MaxTokenBytes : Z;
  BatchSize : Z;
  MaxBatches : Z;
  MaxResults : Z;
  IdleTimeout : Z;
  AbsoluteTimeout : Z;
  RequestDeadline : Z;
  Concurrency : Z;
  AdmissionWait : Z;
  CursorKeyLength : option Z;
}.

(** ** Ports *)

Record RankHit := mkHit { rh_NodeID : uuid; rh_Sort : raw }.
Record RankBatch := mkBatch { rb_Hits : list RankHit; rb_PITID : string }.

Inductive CleanupStep := CleanupClose | CleanupDelete.

Inductive snapshotOperation := snapshotCreate | snapshotDelete.

Record snapshotEvidence := mkEvidence { se_SessionID : uuid; se_Index : string; se_PITID : string }.

(** The observed evidence of a step. *)
Inductive stepEvidence := Observed (e : snapshotEvidence) | ObservedClosed (e : snapshotEvidence) (alreadyClosed : bool) | NoEvidence.

Class SearchQueryPorts (W : Type) := {
  EntryAuthority : uuid -> svc W uuid;
  AccessQuery : AccessRequest -> svc W AccessFilter;
  ActiveAccessVersion : uuid -> svc W string;
  ServingSearchIndex : svc W string;
  SearchRestoreEpoch : svc W Z;
  (** [Open] may return a snapshot with an error. *)
  Ranker_Open : Query -> svc W (Snapshot * option fault);
  Ranker_Read : Query -> Snapshot -> raw -> svc W RankBatch;
  Ranker_Close : Snapshot -> svc W unit;
  Sessions_Create : Session -> svc W Session;
  Sessions_Load : uuid -> svc W Session;
  Sessions_Replay : uuid -> Z -> svc W (option PageCommit);
  Sessions_HasVisited : uuid -> list uuid -> svc W (gset uuid);
  Sessions_CommitPage : uuid -> Z -> PageCommit -> svc W Session;
  Sessions_BeginCleanup : uuid -> svc W unit;
  Sessions_CleanupSlice : uuid -> Z -> svc W bool;
  Sessions_RecordCleanupFailure : uuid -> CleanupStep -> fault -> svc W unit;
  ExpiredSessionIDs : nat -> svc W (list uuid);
  NodeSummaries : list uuid -> Z -> svc W (list SummaryResult);
  (** What RunExternalStep saves before the run function, what FinishStep
      saves for the step, and what it saves after. *)
  Audit_SaveIntent : Session -> snapshotOperation -> snapshotEvidence -> svc W unit;
  Audit_FinishStep : Session -> snapshotOperation -> OutcomeDetails -> stepEvidence -> svc W unit;
  Audit_SaveResult : Session -> snapshotOperation -> OutcomeDetails -> option fault -> svc W unit;
  AcquireSlot : svc W unit;
  ReleaseSlot : W -> W;
  ClockNow : svc W gotime;
  NewSessionID : svc W uuid;
  (** [rand.Int] below a positive bound. *)
  RandInt : nat -> svc W nat;
  ContextErr : svc W bool;
}.

Definition summaryNameBytes : Z := 256.
Definition resultOverheadBytes : Z := 160.
Definition responseReserveBytes : Z := 512.
Definition sweepSessionLimit : nat := 2.
Definition sweepCandidateWindow : nat := 64.
Definition sweepSliceLimit : nat := 4.
Definition cleanupSliceKeys : Z := 100.

Record SearchRequest := mkSearchRequest {
  rq_PrincipalID : uuid;
  rq_EntryPointID : uuid;
  rq_MemberOrganizations : list uuid;
  rq_Text : string;
  rq_NodeType : string;
  rq_SessionID : uuid;
  rq_Version : Z;
}.

Record SearchPage := mkSearchPage {
  sp_SessionID : uuid;
  sp_NextVersion : Z;
  sp_Results : list Summary;
  sp_Complete : bool;
}.

(** ** One page (search_query_page.go) *)

Record pageState := mkPageState {
  ps_results : list Summary;
  ps_resultIDs : list uuid;
  ps_visited : list uuid;
  ps_seen : gset uuid;
  ps_bytes : Z;
  ps_position : raw;
  ps_full : bool;
  ps_pending : bool;
}.

Definition text_bytes (s : string) : Z := Z.of_nat (String.length s).

Definition ResultBytes (summary : Summary) : Z :=
  (text_bytes (sm_Name summary) + text_bytes (sm_NodeType summary) + resultOverheadBytes)%Z.

Definition accepted (result : SummaryResult) (filter : AccessFilter) (nodeType : string) : bool :=
  match sr_Status result with
  | SummaryFound => Permits filter (sr_AccessKeys result) && (blank nodeType || bool_decide (sm_NodeType (sr_Summary result) = nodeType))
  | SummaryDeleted => false
  end.

(** A summary that no page can hold. *)
Definition oversized (settings : SearchQuerySettings) (summary : Summary) : bool :=
  (MaxResponseBytes settings <? responseReserveBytes + ResultBytes summary)%Z.

(** [true]: the node is consumed. *)
Definition admit_result (settings : SearchQuerySettings) (page : pageState) (summary : Summary) : pageState * bool :=
  let size := ResultBytes summary in
  if oversized settings summary then (page, true)
  else if (MaxResults settings <=? Z.of_nat (length (ps_results page)))%Z || (MaxResponseBytes settings <? ps_bytes page + size)%Z
  then (page, false)
  else (mkPageState (ps_results page ++ [summary]) (ps_resultIDs page ++ [sm_ID summary]) (ps_visited page) (ps_seen page)
          (ps_bytes page + size)%Z (ps_position page) (ps_full page) (ps_pending page), true).

Definition with_ps_position (page : pageState) (position : raw) : pageState :=
  mkPageState (ps_results page) (ps_resultIDs page) (ps_visited page) (ps_seen page) (ps_bytes page) position
    (ps_full page) (ps_pending page).

Definition with_stop (page : pageState) (pending : bool) : pageState :=
  mkPageState (ps_results page) (ps_resultIDs page) (ps_visited page) (ps_seen page) (ps_bytes page) (ps_position page) true pending.

Definition consumed (page : pageState) (hit : RankHit) : pageState :=
  mkPageState (ps_results page) (ps_resultIDs page) (ps_visited page ++ [rh_NodeID hit]) ({[rh_NodeID hit]} ∪ ps_seen page)
    (ps_bytes page) (rh_Sort hit) (ps_full page) (ps_pending page).

(** The candidates of a batch in order, without repetition. *)
Fixpoint candidatesOf (seen : gset uuid) (hits : list RankHit) (candidates : list uuid) : list uuid :=
  match hits with
  | [] => candidates
  | hit :: hits' =>
      let id := rh_NodeID hit in
      if bool_decide (id ∈ seen) || bool_decide (id ∈ candidates) then candidatesOf seen hits' candidates
      else candidatesOf seen hits' (candidates ++ [id])
  end.

Definition no_summary (id : uuid) : SummaryResult := mkSummaryResult id SummaryDeleted (mkSummary uuid_nil EmptyString EmptyString) [].

Definition by_id (summaries : list SummaryResult) : gmap uuid SummaryResult :=
  foldl (fun m r => <[sr_NodeID r := r]> m) ∅ summaries.

Fixpoint consumeHits (settings : SearchQuerySettings) (filter : AccessFilter) (nodeType : string) (visited : gset uuid)
    (byID : gmap uuid SummaryResult) (hits : list RankHit) (page : pageState) : pageState :=
  match hits with
  | [] => page
  | hit :: hits' =>
      let id := rh_NodeID hit in
      if bool_decide (id ∈ ps_seen page) || bool_decide (id ∈ visited)
      then consumeHits settings filter nodeType visited byID hits' (with_ps_position page (rh_Sort hit))
      else
        let result := default (no_summary uuid_nil) (byID !! id) in
        let '(page', taken) := if accepted result filter nodeType then admit_result settings page (sr_Summary result) else (page, true) in
        if negb taken then with_stop page' true
        else
          let page'' := consumed page' hit in
          if (MaxResults settings <=? Z.of_nat (length (ps_results page'')))%Z
          then with_stop page'' (negb (bool_decide (hits' = [])))
          else consumeHits settings filter nodeType visited byID hits' page''
  end.

Section service.
Context {W : Type} `{SP : SearchQueryPorts W} (settings : SearchQuerySettings).

Definition consumeBatch (session : Session) (filter : AccessFilter) (hits : list RankHit) (page : pageState) : svc W pageState :=
  let candidates := candidatesOf (ps_seen page) hits [] in
  visited ← Sessions_HasVisited (ss_ID session) candidates;
  let fresh := base.filter (fun id => id ∉ visited) candidates in
  summaries ← NodeSummaries fresh summaryNameBytes;
  mret (consumeHits settings filter (q_NodeType (ss_Query session)) visited (by_id summaries) hits page).

(** ** Snapshots under an audited step (search_query_audit.go) *)

Definition snapshotStepFailedCode : string := "point_in_time_failed".
Definition snapshotStepFailedMessage : string := "OpenSearch did not complete the point in time operation".
Definition snapshotStepUncertainCode : string := "point_in_time_uncertain".
Definition snapshotStepUncertainMessage : string := "OpenSearch did not confirm the point in time result".
Definition snapshotStepPartialCode : string := "point_in_time_partial".
Definition snapshotStepPartialMessage : string := "OpenSearch created a partial point in time".

Context `{GL : GoLib}.

Definition snapshot_reference (session : Session) (operation : snapshotOperation) : string :=
  "opensearch/point-in-time/" +:+ uuid_string (ss_ID session) +:+ "/" +:+
  match operation with snapshotCreate => "create" | snapshotDelete => "delete" end.

Definition step_details (reference : string) (effectErr : option fault) : OutcomeDetails :=
  match effectErr with
  | None => mkOutcomeDetails OutcomeCompleted EmptyString EmptyString []
  | Some e =>
      if Is e ErrSnapshotUncertain
      then mkOutcomeDetails OutcomeIncomplete snapshotStepUncertainCode snapshotStepUncertainMessage []
      else if Is e ErrSnapshotPartial
      then mkOutcomeDetails OutcomePartiallyCompleted snapshotStepPartialCode snapshotStepPartialMessage [reference]
      else mkOutcomeDetails OutcomeFailed snapshotStepFailedCode snapshotStepFailedMessage []
  end.

(** The effect runs only after its intent is saved; its value is [None] when
    it did not run. *)
Definition runEncodedStep {A} (session : Session) (operation : snapshotOperation) (planned : snapshotEvidence)
    (effect : svc W (A * stepEvidence * option fault)) : svc W (option A * option fault) :=
  saved ← attempt (Audit_SaveIntent session operation planned);
  match saved with
  | Failed e => mret (None, Some e)
  | Done _ =>
      '(a, observed, effectErr) ← effect;
      let details := step_details (snapshot_reference session operation) effectErr in
      finished ← attempt (Audit_FinishStep session operation details observed);
      let runErr := joined effectErr (fault_of finished) in
      recorded ← attempt (Audit_SaveResult session operation details runErr);
      mret (Some a, joined runErr (fault_of recorded))
  end.

Definition closeSnapshot (session : Session) (snapshot : Snapshot) : svc W (option fault) :=
  if blank (sn_PITID snapshot) then mret None
  else
    let planned := mkEvidence (ss_ID session) (sn_Index snapshot) (sn_PITID snapshot) in
    '(_, err) ← runEncodedStep session snapshotDelete planned
      (closed ← attempt (Ranker_Close snapshot);
       mret (match closed with
             | Done _ => (tt, ObservedClosed planned false, None)
             | Failed e => if Is e ErrSnapshotLost then (tt, ObservedClosed planned true, None) else (tt, NoEvidence, Some e)
             end));
    mret err.

Definition no_snapshot : Snapshot := mkSnapshot EmptyString EmptyString EmptyString.

Definition openSnapshot (session : Session) : svc W Snapshot :=
  let planned := mkEvidence (ss_ID session) (q_Index (ss_Query session)) EmptyString in
  '(ran, recordErr) ← runEncodedStep session snapshotCreate planned
    ('(snapshot, openErr) ← Ranker_Open (ss_Query session);
     mret ((snapshot, openErr), Observed (mkEvidence (ss_ID session) (q_Index (ss_Query session)) (sn_PITID snapshot)), openErr));
  let '(snapshot, openErr) := default (no_snapshot, None) ran in
  match recordErr with
  | None => mret snapshot
  | Some recorded =>
      match openErr with
      | None =>
          closeErr ← closeSnapshot session snapshot;
          svc_fail ([ErrEngineUnavailable] ++ recorded ++ default [] closeErr)
      | Some opened =>
          if Is opened ErrSnapshotPartial then
            closeErr ← closeSnapshot session snapshot;
            match closeErr with
            | Some e => if Is e ErrEventNotRecorded then svc_fail (recorded ++ [ErrEngineUnavailable] ++ e) else svc_fail recorded
            | None => svc_fail recorded
            end
          else svc_fail recorded
      end
  end.

(** ** Closing (search_query_replay.go) *)

Definition recordCleanupFailure (sessionID : uuid) (step : CleanupStep) (cause : fault) : svc W (option fault) :=
  recorded ← attempt (Sessions_RecordCleanupFailure sessionID step cause);
  mret (match recorded with
        | Done _ => None
        | Failed e => Some ([ErrEngineUnavailable; ErrEventNotRecorded] ++ cause ++ e)
        end).

(** Whether BeginCleanup started an attempt, and the error. *)
Definition closeSessionStep (session : Session) : svc W (bool * option fault) :=
  closeErr ← closeSnapshot session (ss_Snapshot session);
  let snapshotRecordErr := match closeErr with
                           | Some e => if Is e ErrEventNotRecorded then Some ([ErrEngineUnavailable] ++ e) else None
                           | None => None
                           end in
  begun ← attempt (Sessions_BeginCleanup (ss_ID session));
  match begun with
  | Done _ => mret (true, snapshotRecordErr)
  | Failed e =>
      recorded ← recordCleanupFailure (ss_ID session) CleanupClose e;
      mret (negb (Is e ErrSessionStepNotStarted), joined snapshotRecordErr recorded)
  end.

Definition closeSession (session : Session) : svc W (option fault) :=
  '(_, err) ← closeSessionStep session; mret err.

(** [errors.Join] of a refusal with the error of closing. *)
Definition refuse {A} (refusal : fault) (closeErr : option fault) : svc W A := svc_fail (refusal ++ default [] closeErr).

Definition refuseExpired {A} (session : Session) : svc W A :=
  closeErr ← (if ss_Closing session then mret None else closeSession session);
  refuse [ErrSessionExpired] closeErr.

(** ** Reading (search_query_read.go) and replay *)

Definition readBatch (session : Session) (snapshot : Snapshot) (position : raw) : svc W RankBatch :=
  read ← attempt (Ranker_Read (ss_Query session) snapshot position);
  match read with
  | Done raw => mret raw
  | Failed e =>
      closeErr ← (if Is e ErrSnapshotLost then closeSession session else mret None);
      refuse e closeErr
  end.

Fixpoint replayResults (filter : AccessFilter) (nodeType : string) (used : Z) (summaries : list SummaryResult) : list Summary :=
  match summaries with
  | [] => []
  | result :: summaries' =>
      let size := ResultBytes (sr_Summary result) in
      if negb (accepted result filter nodeType) || (MaxResponseBytes settings <? used + size)%Z
      then replayResults filter nodeType used summaries'
      else sr_Summary result :: replayResults filter nodeType (used + size) summaries'
  end.

Definition replay (session : Session) (version : Z) (filter : AccessFilter) : svc W SearchPage :=
  found ← Sessions_Replay (ss_ID session) version;
  match found with
  | None => svc_fail [ErrSessionChanged]
  | Some commit =>
      summaries ← NodeSummaries (pc_ResultIDs commit) summaryNameBytes;
      mret (mkSearchPage (ss_ID session) ((version + 1) mod 2 ^ 64)%Z
              (replayResults filter (q_NodeType (ss_Query session)) responseReserveBytes summaries) (pc_Complete commit))
  end.

(** ** Advancing (search_query_page.go) *)

Definition with_pit (snapshot : Snapshot) (pitID : string) : Snapshot :=
  mkSnapshot pitID (sn_Index snapshot) (sn_QueryTokens snapshot).

(** At most [reads] batches; the result holds the reads that remain and
    whether the engine had no more hits. *)
Fixpoint readLoop (reads : nat) (session : Session) (filter : AccessFilter) (snapshot : Snapshot) (page : pageState) :
    svc W (nat * Snapshot * pageState * bool) :=
  match reads with
  | O => mret (O, snapshot, page, false)
  | S reads' =>
      if ps_full page then mret (reads, snapshot, page, false)
      else
        raw ← readBatch session snapshot (ps_position page);
        let snapshot := with_pit snapshot (rb_PITID raw) in
        if bool_decide (rb_Hits raw = []) then mret (reads, snapshot, page, true)
        else
          page ← consumeBatch session filter (rb_Hits raw) page;
          readLoop reads' session filter snapshot page
  end.

(** The batch after a full page tells whether more hits exist. *)
Definition lookAhead (reads : nat) (session : Session) (snapshot : Snapshot) (page : pageState) (complete : bool) :
    svc W (Snapshot * bool) :=
  if ps_full page && negb (ps_pending page) && (0 <? reads) then
    raw ← readBatch session snapshot (ps_position page);
    mret (with_pit snapshot (rb_PITID raw), bool_decide (rb_Hits raw = []))
  else mret (snapshot, complete).

Definition new_page (session : Session) : pageState :=
  mkPageState [] [] [] ∅ responseReserveBytes (ss_Sort session) false false.

Definition page_commit (page : pageState) (snapshot : Snapshot) (complete : bool) : PageCommit :=
  mkPageCommit (ps_position page) (sn_PITID snapshot) (ps_visited page) (ps_resultIDs page) complete.

Definition advance (session : Session) (filter : AccessFilter) : svc W SearchPage :=
  '(reads, snapshot, page, complete) ←
    readLoop (Z.to_nat (MaxBatches settings)) session filter (ss_Snapshot session) (new_page session);
  '(snapshot, complete) ← lookAhead reads session snapshot page complete;
  committed ← attempt (Sessions_CommitPage (ss_ID session) (ss_Version session) (page_commit page snapshot complete));
  match committed with
  | Failed e =>
      if Is e ErrSessionChanged && negb (Is e ErrEventNotRecorded) then replay session (ss_Version session) filter
      else svc_fail e
  | Done next =>
      let result := mkSearchPage (ss_ID session) (ss_Version next) (ps_results page) complete in
      if (complete : bool) then
        closeErr ← closeSnapshot session snapshot;
        match closeErr with
        | Some e => if Is e ErrEventNotRecorded then svc_fail ([ErrEngineUnavailable] ++ e) else mret result
        | None => mret result
        end
      else mret result
  end.

(** ** Opening (search_query_open.go) *)

Definition with_snapshot (s : Session) (snapshot : Snapshot) (created idle absolute : gotime) : Session :=
  mkSession (ss_ID s) (ss_PrincipalID s) (ss_AuthorityID s) (ss_EntryPointID s) (ss_Binding s) (ss_Query s) snapshot
    (ss_Sort s) (ss_Version s) created idle absolute (ss_Complete s) (ss_Closing s).

Definition with_index (q : Query) (index : string) : Query :=
  mkQuery (q_Text q) index (q_NodeType q) (q_Access q) (q_Generation q).

Definition open (request : SearchRequest) (authority : uuid) (query : Query) : svc W SearchPage :=
  index ← ServingSearchIndex;
  let query := with_index query index in
  id ← NewSessionID;
  let session := mkSession id (rq_PrincipalID request) authority (rq_EntryPointID request)
    (SessionBinding (rq_PrincipalID request) authority (rq_EntryPointID request) query) query
    (mkSnapshot EmptyString index EmptyString) EmptyString 0 0 0 0 false false in
  snapshot ← openSnapshot session;
  now ← ClockNow;
  let session := with_snapshot session snapshot now (now + IdleTimeout settings)%Z (now + AbsoluteTimeout settings)%Z in
  created ← attempt (Sessions_Create session);
  match created with
  | Failed e => closeErr ← closeSnapshot session (ss_Snapshot session); refuse e closeErr
  | Done created => advance created (q_Access query)
  end.

(** ** The expiry sweep (search_query_replay.go) *)

(** Deletes at most [sweepSliceLimit] slices; [first] holds before any slice
    has committed. *)
Fixpoint cleanupSlices (slices : nat) (first : bool) (sessionID : uuid) : svc W (option fault) :=
  match slices with
  | O => mret None
  | S slices' =>
      deleted ← attempt (Sessions_CleanupSlice sessionID cleanupSliceKeys);
      match deleted with
      | Failed e =>
          if negb first && Is e ErrSessionStepNotStarted then mret None
          else recordCleanupFailure sessionID CleanupDelete e
      | Done true => mret None
      | Done false => cleanupSlices slices' false sessionID
      end
  end.

Definition deleteSession (sessionID : uuid) : svc W (option fault) :=
  loaded ← attempt (Sessions_Load sessionID);
  match loaded with
  | Failed e =>
      if Is e ErrSessionNotFound then mret None else recordCleanupFailure sessionID CleanupDelete e
  | Done session =>
      if ss_Closing session then cleanupSlices sweepSliceLimit true sessionID
      else
        '(started, closeErr) ← closeSessionStep session;
        match closeErr with
        | Some e => mret (Some e)
        | None => if (started : bool) then cleanupSlices sweepSliceLimit true sessionID else mret None
        end
  end.

Definition swap (l : list uuid) (i j : nat) : list uuid :=
  match l !! i, l !! j with Some x, Some y => <[j := x]> (<[i := y]> l) | _, _ => l end.

(** A partial shuffle; an error of the random source chooses nothing. *)
Fixpoint chooseLoop (position remaining : nat) (candidates : list uuid) : svc W (option (list uuid)) :=
  match remaining with
  | O => mret (Some candidates)
  | S remaining' =>
      offset ← attempt (RandInt (length candidates - position));
      match offset with
      | Failed _ => mret None
      | Done o => chooseLoop (S position) remaining' (swap candidates position (position + o))
      end
  end.

Definition chooseSweepSessions (candidates : list uuid) : svc W (list uuid) :=
  let chosen := Nat.min sweepSessionLimit (length candidates) in
  shuffled ← chooseLoop 0 chosen candidates;
  mret (match shuffled with Some l => take chosen l | None => [] end).

Fixpoint sweepLoop (chosen : list uuid) : svc W (option fault) :=
  match chosen with
  | [] => mret None
  | sessionID :: chosen' =>
      ended ← ContextErr;
      if (ended : bool) then mret None
      else
        err ← deleteSession sessionID;
        match err with Some e => mret (Some e) | None => sweepLoop chosen' end
  end.

Definition sweepExpired : svc W (option fault) :=
  expired ← attempt (ExpiredSessionIDs sweepCandidateWindow);
  match expired with
  | Failed _ => mret None
  | Done expired => chosen ← chooseSweepSessions expired; sweepLoop chosen
  end.

(** ** Search (search_query.go) *)

Definition callerAccess (request : SearchRequest) (authority : uuid) (version : string) : svc W AccessFilter :=
  AccessQuery (mkAccessRequest version (rq_PrincipalID request) authority (rq_EntryPointID request) (rq_MemberOrganizations request)).

Definition continueSession (request : SearchRequest) (session : Session) (authority : uuid) (current : Query) : svc W SearchPage :=
  let filter := q_Access current in
  let binding := SessionBinding (rq_PrincipalID request) authority (rq_EntryPointID request) current in
  if negb (bool_decide (binding = ss_Binding session)) || (ss_Version session <? rq_Version request)%Z
  then svc_fail [ErrSessionMismatch]
  else
    expired ← (if ss_Closing session then mret true else now ← ClockNow; mret (Session_Expired session now));
    if (expired : bool) then refuseExpired session
    else if (rq_Version request <? ss_Version session)%Z then replay session (rq_Version request) filter
    else if ss_Complete session then svc_fail [ErrSessionExpired]
    else advance session filter.

Definition invalid_text (text : string) : bool :=
  blank text || (MaxQueryBytes settings <? text_bytes text)%Z || negb (bool_decide (to_valid text = text)).

(** The page of [open] is withheld when the sweep fails. *)
Definition openAndSweep (request : SearchRequest) (authority : uuid) (query : Query) : svc W SearchPage :=
  opened ← attempt (open request authority query);
  sweepErr ← sweepExpired;
  match sweepErr, opened with
  | Some e, _ => svc_fail (default [] (fault_of opened) ++ e)
  | None, Done page => mret page
  | None, Failed e => svc_fail e
  end.

Definition searchAdmitted (request : SearchRequest) (text : string) : svc W SearchPage :=
  authority ← EntryAuthority (rq_EntryPointID request);
  restoreEpoch ← SearchRestoreEpoch;
  if nil (rq_SessionID request) then
    version ← ActiveAccessVersion authority;
    filter ← callerAccess request authority version;
    openAndSweep request authority (mkQuery text EmptyString (rq_NodeType request) filter restoreEpoch)
  else
    session ← Sessions_Load (rq_SessionID request);
    filter ← callerAccess request authority (af_Version (q_Access (ss_Query session)));
    continueSession request session authority
      (mkQuery text (q_Index (ss_Query session)) (rq_NodeType request) filter restoreEpoch).

(** The slot is released on every path. *)
Definition with_slot {A} (m : svc W A) : svc W A := fun w => let '(w', o) := m w in (ReleaseSlot w', o).

Definition Search (request : SearchRequest) : svc W SearchPage :=
  let text := trim_space (rq_Text request) in
  if invalid_text text then svc_fail [ErrInvalidQuery]
  else
    _ ← AcquireSlot;
    with_slot (searchAdmitted request text).

End service.
