(* ===== verification/SessionSpec.v ===== *)
(** * What the session store promises

    [commit_kv] and the other [_kv] functions are the stores the operations
    leave.  [SessInv] says that the three lists of sessions (by expiry
    minute, by index and by access version) hold exactly the sessions whose
    headers exist; every operation keeps it. *)

From S2P Require Import Prelude GoJson Sha256 Bytes Base64 Float64 Quote Canonical GoTime Domain Concrete Store Tx Keys Schedule Fence RowHash SearchAccess SearchSession.
From Stdlib Require Import Ascii.

(** ** Stepping a read *)

Lemma rd_bind_ok {W A B} (m : rd W A) (f : A -> rd W B) w w' b :
  (m ≫= f) w = Ok (w', b) <-> exists w1 a, m w = Ok (w1, a) /\ f a w1 = Ok (w', b).
Proof.
  cbv [mbind rd_bind]. split; [destruct (m w) as [[w1 a]|]; [eauto|done]|]. by intros (w1 & a & -> & ?).
Qed.

Lemma rd_ret_ok {W A} (a : A) (w w' : W) b : (mret a : rd W A) w = Ok (w', b) <-> w' = w /\ b = a.
Proof. cbv [mret rd_ret]. naive_solver. Qed.

Lemma rd_fail_ok {W A} e (w w' : W) (a : A) : rd_fail e w = Ok (w', a) -> False.
Proof. done. Qed.

Lemma rd_ensure_ok {W} b e (w w' : W) u : rd_ensure b e w = Ok (w', u) <-> w' = w /\ b = true.
Proof. unfold rd_ensure, rd_lift, require. destruct b, u; naive_solver. Qed.

Lemma rd_lift_ok {W A} (r : res A) (w w' : W) a : rd_lift r w = Ok (w', a) <-> w' = w /\ r = Ok a.
Proof. unfold rd_lift. destruct r; naive_solver. Qed.

Tactic Notation "rd_at" hyp(E) ident(w) ident(a) ident(H) := apply rd_bind_ok in E as (w & a & H & E).

(** ** Ranges *)

Lemma sorted_unique (l1 l2 : list (key * value)) : StronglySorted key_le l1.*1 -> StronglySorted key_le l2.*1 ->
  NoDup l1.*1 -> NoDup l2.*1 -> (forall x, x ∈ l1 <-> x ∈ l2) -> l1 = l2.
Proof.
  revert l2. induction l1 as [|x l1 IH]; intros [|y l2] H1 H2 N1 N2 Hx; [done| | |].
  { destruct (not_elem_of_nil y). apply Hx. by left. }
  { destruct (not_elem_of_nil x). apply Hx. by left. }
  rewrite !fmap_cons in *. apply StronglySorted_inv in H1 as [H1 F1], H2 as [H2 F2].
  apply NoDup_cons in N1 as [M1 N1], N2 as [M2 N2]. rewrite Forall_forall in F1, F2.
  assert (y ∈ x :: l1) as Hy by (apply Hx; by left). assert (x ∈ y :: l2) as Hx' by (apply Hx; by left).
  assert (x = y) as <-.
  { assert (key_le x.1 y.1) as L1.
    { apply elem_of_cons in Hy as [->|Hy]; [apply key_le_refl|]. apply F1. by apply list_elem_of_fmap_2. }
    assert (key_le y.1 x.1) as L2.
    { apply elem_of_cons in Hx' as [<-|Hx']; [apply key_le_refl|]. apply F2. by apply list_elem_of_fmap_2. }
    assert (x.1 = y.1) as E by (by apply (anti_symm key_le)).
    apply elem_of_cons in Hx' as [|Hx']; [done|]. destruct M2. rewrite <- E. by apply list_elem_of_fmap_2. }
  f_equal. apply IH; [done..|]. intros z. split; intros Hz.
  - assert (z ∈ x :: l2) as Hz' by (apply Hx; by right). apply elem_of_cons in Hz' as [->|?]; [|done].
    destruct M1. by apply list_elem_of_fmap_2.
  - assert (z ∈ x :: l1) as Hz' by (apply Hx; by right). apply elem_of_cons in Hz' as [->|?]; [|done].
    destruct M2. by apply list_elem_of_fmap_2.
Qed.

Section spec.
Context `{FDB : Fdb} `{GL : GoLib}.

Lemma frange_ext s s' p : (forall k, p `prefix_of` k -> fget s k = fget s' k) -> frange s p = frange s' p.
Proof.
  intros Hs. apply sorted_unique; auto using frange_sorted, frange_nodup.
  intros [k v]. rewrite !frange_spec. split; intros [Hp Hk]; (split; [done|]); [by rewrite <- Hs|by rewrite Hs].
Qed.

(** ** The operations as functions of the store *)

Definition get_session (s : kv) (id : uuid) : res (option searchSessionRecord) :=
  match fget s (searchSessionKey id) with
  | None => Ok None
  | Some v => if no_bytes v then Ok None else match v with VSession r => Ok (Some r) | _ => Err ErrDecode end
  end.

Definition get_replay (s : kv) (id : uuid) (version : Z) : res (option searchReplayRecord) :=
  match fget s (searchSessionReplayKey id version) with
  | None => Ok None
  | Some v => if no_bytes v then Ok None else match v with VReplay r => Ok (Some r) | _ => Err ErrDecode end
  end.

Lemma readSession_eq id w :
  readSession id w = match get_session (st_kv w) id with Ok o => Ok (w, o) | Err e => Err e end.
Proof.
  unfold readSession, s_get_bytes, s_get, get_session. cbv [mbind rd_bind mret rd_ret].
  destruct (fget _ _) as [v|]; [|done]. destruct (no_bytes v); [done|]. by destruct v.
Qed.

Lemma readReplay_eq id version w :
  readReplay id version w = match get_replay (st_kv w) id version with Ok o => Ok (w, o) | Err e => Err e end.
Proof.
  unfold readReplay, s_get_bytes, s_get, get_replay. cbv [mbind rd_bind mret rd_ret].
  destruct (fget _ _) as [v|]; [|done]. destruct (no_bytes v); [done|]. by destruct v.
Qed.

Lemma readSession_ok id w w' o : readSession id w = Ok (w', o) <-> w' = w /\ get_session (st_kv w) id = Ok o.
Proof. rewrite readSession_eq. destruct (get_session _ _); naive_solver. Qed.

Lemma readReplay_ok id version w w' o : readReplay id version w = Ok (w', o) <-> w' = w /\ get_replay (st_kv w) id version = Ok o.
Proof. rewrite readReplay_eq. destruct (get_replay _ _ _); naive_solver. Qed.

Lemma get_session_Some s id r : get_session s id = Ok (Some r) <-> fget s (searchSessionKey id) = Some (VSession r).
Proof.
  unfold get_session. destruct (fget _ _) as [v|]; [|done]. destruct (no_bytes v) eqn:Hv; [|destruct v; naive_solver].
  split; [done|]. by intros [= ->].
Qed.

Lemma s_modify_ok f w w' u : s_modify f w = Ok (w', u) <-> w' = mkSessionTx (f (st_kv w)) (st_scope w) (st_changes w).
Proof. unfold s_modify. destruct u. naive_solver. Qed.

Lemma s_record_ok c w w' u : s_record c w = Ok (w', u) <-> w' = mkSessionTx (st_kv w) (st_scope w) (st_changes w ++ [c]).
Proof. unfold s_record. destruct u. naive_solver. Qed.

Lemma s_range_ok p w w' l : s_range p w = Ok (w', l) <-> w' = w /\ l = frange (st_kv w) p.
Proof. unfold s_range. naive_solver. Qed.

Lemma writeSession_ok id r w w' u : writeSession id r w = Ok (w', u) <->
  (exists t, header_text r = Some t /\ (Z.of_nat (String.length t) <= maxSessionHeaderBytes)%Z) /\
  w' = mkSessionTx (fset (st_kv w) (searchSessionKey id) (VSession (decoded_record r))) (st_scope w) (st_changes w).
Proof.
  unfold writeSession. destruct (header_text r) as [t|]; [|split; [done|by intros [(? & ? & _) _]]].
  destruct (Z.ltb_spec maxSessionHeaderBytes (Z.of_nat (String.length t))) as [Hb|Hb].
  - split; [done|]. intros [(t' & [= <-] & ?) _]. lia.
  - unfold s_set. rewrite s_modify_ok. split; [intros ->; split; [eauto|done]|by intros [_ ->]].
Qed.

Lemma writeReplay_ok id version r w w' u : writeReplay id version r w = Ok (w', u) <->
  (Z.of_nat (String.length (replay_text r)) <= maxSessionHeaderBytes)%Z /\
  w' = mkSessionTx (fset (st_kv w) (searchSessionReplayKey id version) (VReplay r)) (st_scope w) (st_changes w).
Proof.
  unfold writeReplay. destruct (Z.ltb_spec maxSessionHeaderBytes (Z.of_nat (String.length (replay_text r)))) as [Hb|Hb].
  - split; [done|]. intros [? _]. lia.
  - unfold s_set. rewrite s_modify_ok. split; [by intros ->|by intros [_ ->]].
Qed.

(** The writes of a page commit, in order. *)
Definition mark_all (s : kv) (id : uuid) (ids : list uuid) : kv :=
  foldl (fun s n => fset s (searchSessionVisitedKey id n) visited_mark) s ids.

Definition drop_previous (s : kv) (id : uuid) (version : Z) : kv :=
  if (version =? 0)%Z then s else fclear s (searchSessionReplayKey id (version - 1)).

Definition drop_version (s : kv) (r : searchSessionRecord) : kv :=
  fclear s (searchSessionVersionKey (sh_AuthorityID r) (sh_AccessVersion r) (sh_AbsoluteDeadline r) (sh_ID r)).

Definition commit_kv (s : kv) (stored : searchSessionRecord) (version : Z) (c : PageCommit) (idle : gotime) : kv :=
  let id := sh_ID stored in
  let s := fset (mark_all s id (pc_Visited c)) (searchSessionReplayKey id version) (VReplay (mkReplay (pc_ResultIDs c) (pc_Complete c))) in
  let s := drop_previous s id version in
  let s := fset (fclear s (searchSessionExpiryKey id (sh_IdleDeadline stored))) (searchSessionExpiryKey id idle) VEmpty in
  let s := if pc_Complete c then drop_version s stored else s in
  fset s (searchSessionKey id) (VSession (decoded_record (with_position stored c idle ((version + 1) mod 2 ^ 64)%Z))).

Lemma forEach_marks id ids w w' u :
  forEach ids (fun n => _ ← s_set (searchSessionVisitedKey id n) visited_mark; s_record (VisitedCreate id n)) w = Ok (w', u) ->
  st_kv w' = mark_all (st_kv w) id ids /\ st_changes w' = st_changes w ++ (VisitedCreate id <$> ids).
Proof.
  revert w. induction ids as [|n ids IH]; intros w E; cbn [forEach] in E.
  { apply rd_ret_ok in E as [-> _]. by rewrite app_nil_r. }
  rd_at E w1 u1 H1. rd_at H1 w2 u2 H2. apply s_modify_ok in H2 as ->. apply s_record_ok in H1 as ->.
  destruct (IH _ E) as [-> ->]. cbn. by rewrite <- app_assoc.
Qed.

Lemma clearPreviousReplay_kv id version w w' u : clearPreviousReplay id version w = Ok (w', u) ->
  st_kv w' = drop_previous (st_kv w) id version.
Proof.
  unfold clearPreviousReplay, drop_previous. destruct (version =? 0)%Z; [by intros [-> _]%rd_ret_ok|]. intros E.
  rd_at E w1 previous H1. apply readReplay_ok in H1 as [-> _]. rd_at E w2 u2 H2. apply s_modify_ok in H2 as ->.
  destruct previous; [by apply s_record_ok in E as ->|by apply rd_ret_ok in E as [-> _]].
Qed.

Lemma commitAttempt_run clock idleTimeout id version c w w' record :
  commitAttempt clock idleTimeout id version c w = Ok (w', record) ->
  exists stored, fget (st_kv w) (searchSessionKey id) = Some (VSession stored) /\ sh_Version stored = version /\
    commit_expired clock stored = false /\
    let idle := renewed_idle (cc_renew clock) idleTimeout (sh_AbsoluteDeadline stored) in
    st_kv w' = commit_kv (st_kv w) stored version c idle /\ record = with_position stored c idle ((version + 1) mod 2 ^ 64)%Z.
Proof.
  unfold commitAttempt. intros E.
  rd_at E w1 u1 H1. injection H1 as <- _. rd_at E w2 found H2. apply readSession_ok in H2 as [-> H2]. cbn [st_kv] in H2.
  destruct found as [stored|]; [|done]. apply get_session_Some in H2.
  destruct (Z.eqb_spec (sh_Version stored) version) as [<-|]; [|done]. cbn [negb] in E.
  destruct (commit_expired clock stored) eqn:Hexp; [done|]. rd_at E w3 u3 H3. injection H3 as <- _. rename E into H4.
  exists stored. split; [done|]. split; [done|]. split; [done|].
  unfold applyPageCommit in H4. cbn [st_kv] in H4.
  rd_at H4 w5 u5 H5. apply forEach_marks in H5 as [K5 _]. rd_at H4 w6 u6 H6. apply writeReplay_ok in H6 as [_ ->].
  rd_at H4 w7 u7 H7. apply s_record_ok in H7 as ->. rd_at H4 w8 u8 H8. apply clearPreviousReplay_kv in H8. cbn [st_kv] in H8.
  rd_at H4 w9 u9 H9. apply s_modify_ok in H9 as ->. rd_at H4 w10 u10 H10. apply s_modify_ok in H10 as ->.
  rd_at H4 w11 u11 H11. rd_at H4 w12 u12 H12. apply writeSession_ok in H12 as [_ ->]. rd_at H4 w13 u13 H13. apply s_record_ok in H13 as ->.
  apply rd_ret_ok in H4 as [-> ->]. cbn [st_kv]. cbn zeta. split; [|done]. unfold commit_kv. f_equal.
  destruct (pc_Complete c); [apply s_modify_ok in H11 as ->|apply rd_ret_ok in H11 as [-> _]]; cbn [st_kv]; by rewrite H8, K5.
Qed.

Lemma CommitPage_run clock idleTimeout id version c w w' next :
  Session_CommitPage clock idleTimeout id version c w = Ok (w', next) ->
  exists stored, fget (st_kv w) (searchSessionKey id) = Some (VSession stored) /\ sh_Version stored = version /\
    commit_expired clock stored = false /\ commit_out_of_bounds c = false /\
    let idle := renewed_idle (cc_renew clock) idleTimeout (sh_AbsoluteDeadline stored) in
    st_kv w' = commit_kv (st_kv w) stored version c idle /\
    record_session (with_position stored c idle ((version + 1) mod 2 ^ 64)%Z) EmptyString = Ok next.
Proof.
  unfold Session_CommitPage. destruct (commit_out_of_bounds c) eqn:Hbounds; [done|]. intros E.
  rd_at E w1 record H1. apply rd_lift_ok in E as [-> E].
  apply commitAttempt_run in H1 as (stored & H1 & H2 & H3 & H4 & ->). by exists stored.
Qed.

(** ** Keys *)

Lemma fget_set_ne s k v k' : k <> k' -> fget (fset s k v) k' = fget s k'.
Proof. intros. by rewrite fget_set, decide_False. Qed.

Lemma fget_set_eq s k v : fget (fset s k v) k = Some v.
Proof. by rewrite fget_set, decide_True. Qed.

Lemma fget_clear_ne s k k' : k <> k' -> fget (fclear s k) k' = fget s k'.
Proof. intros. by rewrite fget_clear, decide_False. Qed.

Lemma fget_clear_eq s k : fget (fclear s k) k = None.
Proof. by rewrite fget_clear, decide_True. Qed.

Lemma session_key_inj a b : searchSessionKey a = searchSessionKey b -> a = b.
Proof. unfold searchSessionKey. intros [= _ E]. by apply uuid_string_inj. Qed.

Lemma visited_key_inj a n b m : searchSessionVisitedKey a n = searchSessionVisitedKey b m -> a = b /\ n = m.
Proof. unfold searchSessionVisitedKey. intros [= _ E1 E2]. split; by apply uuid_string_inj. Qed.

Lemma replay_key_inj a n b m : searchSessionReplayKey a n = searchSessionReplayKey b m -> a = b /\ n = m.
Proof. unfold searchSessionReplayKey. intros [= _ E1 E2]. split; [by apply uuid_string_inj|done]. Qed.

Lemma token_key_inj a n b m : searchSessionTokenKey a n = searchSessionTokenKey b m -> a = b /\ n = m.
Proof. unfold searchSessionTokenKey. intros [= _ E1 E2]. split; [by apply uuid_string_inj|done]. Qed.

Lemma child_prefix_key a k : searchSessionChildPrefix a `prefix_of` k -> exists rest, k = searchSessionChildPrefix a ++ rest.
Proof. by intros [rest ->]; exists rest. Qed.

Lemma child_prefix_inj a b rest rest' : searchSessionChildPrefix a ++ rest = searchSessionChildPrefix b ++ rest' -> a = b /\ rest = rest'.
Proof. unfold searchSessionChildPrefix. intros [= _ E1 E2]. split; [by apply uuid_string_inj|done]. Qed.

Lemma mark_all_other s id ids k : (forall n, k <> searchSessionVisitedKey id n) -> fget (mark_all s id ids) k = fget s k.
Proof.
  intros Hk. revert s. induction ids as [|n ids IH]; intros s; [done|].
  change (mark_all s id (n :: ids)) with (mark_all (fset s (searchSessionVisitedKey id n) visited_mark) id ids).
  rewrite IH, fget_set_ne; [done|]. intros E. by apply (Hk n).
Qed.

Lemma mark_all_visited s id ids n : fget (mark_all s id ids) (searchSessionVisitedKey id n) =
  if decide (n ∈ ids) then Some visited_mark else fget s (searchSessionVisitedKey id n).
Proof.
  revert s. induction ids as [|m ids IH]; intros s.
  { by rewrite decide_False by apply not_elem_of_nil. }
  change (mark_all s id (m :: ids)) with (mark_all (fset s (searchSessionVisitedKey id m) visited_mark) id ids).
  rewrite IH. destruct (decide (n ∈ ids)) as [Hin|Hin]; [by rewrite decide_True by (by right)|].
  destruct (decide (n = m)) as [->|Hne]; [by rewrite decide_True, fget_set_eq by (by left)|].
  rewrite decide_False by (by rewrite not_elem_of_cons). apply fget_set_ne. by intros [_ ->]%visited_key_inj.
Qed.

Lemma drop_previous_other s id version k : k <> searchSessionReplayKey id (version - 1) -> fget (drop_previous s id version) k = fget s k.
Proof. intros Hk. unfold drop_previous. destruct (_ =? _)%Z; [done|]. by rewrite fget_clear_ne. Qed.

Lemma drop_version_other s r (b : bool) k :
  k <> searchSessionVersionKey (sh_AuthorityID r) (sh_AccessVersion r) (sh_AbsoluteDeadline r) (sh_ID r) ->
  fget (if b then drop_version s r else s) k = fget s k.
Proof. intros Hk. destruct b; [|done]. by apply fget_clear_ne. Qed.

(** A commit leaves the keys outside the list alone. *)
Lemma commit_other s stored version c idle k :
  k <> searchSessionKey (sh_ID stored) -> (forall n, k <> searchSessionVisitedKey (sh_ID stored) n) ->
  (forall v, k <> searchSessionReplayKey (sh_ID stored) v) -> k <> searchSessionExpiryKey (sh_ID stored) (sh_IdleDeadline stored) ->
  k <> searchSessionExpiryKey (sh_ID stored) idle ->
  k <> searchSessionVersionKey (sh_AuthorityID stored) (sh_AccessVersion stored) (sh_AbsoluteDeadline stored) (sh_ID stored) ->
  fget (commit_kv s stored version c idle) k = fget s k.
Proof.
  intros H1 H2 H3 H4 H5 H6. unfold commit_kv.
  by rewrite fget_set_ne, drop_version_other, fget_set_ne, fget_clear_ne, drop_previous_other, fget_set_ne, mark_all_other.
Qed.

Lemma commit_session s stored version c idle id : fget (commit_kv s stored version c idle) (searchSessionKey id) =
  if decide (id = sh_ID stored) then Some (VSession (decoded_record (with_position stored c idle ((version + 1) mod 2 ^ 64)%Z)))
  else fget s (searchSessionKey id).
Proof.
  destruct (decide (id = sh_ID stored)) as [->|Hne]; [unfold commit_kv; apply fget_set_eq|].
  apply commit_other; try (intros; discriminate). by intros ?%session_key_inj.
Qed.

Lemma commit_visited s stored version c idle n :
  fget (commit_kv s stored version c idle) (searchSessionVisitedKey (sh_ID stored) n) =
  if decide (n ∈ pc_Visited c) then Some visited_mark else fget s (searchSessionVisitedKey (sh_ID stored) n).
Proof.
  unfold commit_kv.
  rewrite fget_set_ne, drop_version_other, fget_set_ne, fget_clear_ne, drop_previous_other, fget_set_ne by discriminate.
  apply mark_all_visited.
Qed.

Lemma commit_replay s stored version c idle :
  fget (commit_kv s stored version c idle) (searchSessionReplayKey (sh_ID stored) version) =
  Some (VReplay (mkReplay (pc_ResultIDs c) (pc_Complete c))).
Proof.
  unfold commit_kv. rewrite fget_set_ne, drop_version_other, fget_set_ne, fget_clear_ne, drop_previous_other
    by (discriminate || (intros [_ ?]%replay_key_inj; lia)).
  apply fget_set_eq.
Qed.

(** ** Loading *)

Definition load_result (s : kv) (id : uuid) : res Session :=
  match get_session s id with
  | Err e => Err e
  | Ok None => Err ErrSessionNotFound
  | Ok (Some record) =>
      if sh_Closing record then record_session record EmptyString
      else
        let chunks := take (Z.to_nat (sh_TokenChunks record) + 1) (frange s (searchSessionPartPrefix id "token")) in
        if negb (Z.of_nat (length chunks) =? sh_TokenChunks record)%Z then Err ErrOther
        else
          match res_mapM (fun item : key * value => child_text item.2) chunks with
          | Err e => Err e
          | Ok texts =>
              if negb (Z.of_nat (String.length (concat_text texts)) =? sh_TokenBytes record)%Z then Err ErrOther
              else record_session record (concat_text texts)
          end
  end.

Lemma Load_eq id w : Session_Load id w = match load_result (st_kv w) id with Ok s => Ok (w, s) | Err e => Err e end.
Proof.
  unfold Session_Load, load_result. cbv [mbind rd_bind]. rewrite readSession_eq. destruct (get_session _ _) as [[record|]|]; [|done..].
  destruct (sh_Closing record); [unfold rd_lift; by destruct (record_session _ _)|].
  unfold s_range, rd_ensure, rd_lift, require. destruct (_ =? _)%Z; [|done]. cbn [negb].
  destruct (res_mapM _ _) as [texts|]; [|done]. destruct (_ =? _)%Z; [|done]. cbn [negb]. by destruct (record_session _ _).
Qed.

(** The session that a decoded header gives. *)
Definition decoded_session (s : Session) : Session :=
  let q := ss_Query s in
  mkSession (ss_ID s) (ss_PrincipalID s) (ss_AuthorityID s) (ss_EntryPointID s) (ss_Binding s)
    (mkQuery (to_valid (q_Text q)) (to_valid (q_Index q)) (to_valid (q_NodeType q))
       (mkFilter (to_valid (af_Version (q_Access q))) (to_valid <$> af_Keys (q_Access q))) (q_Generation q))
    (mkSnapshot (to_valid (sn_PITID (ss_Snapshot s))) (to_valid (q_Index q)) (sn_QueryTokens (ss_Snapshot s)))
    (compact_json false (ss_Sort s)) (ss_Version s) (ss_CreatedAt s) (ss_IdleDeadline s) (ss_AbsoluteDeadline s)
    (ss_Complete s) (ss_Closing s).

Definition committed_session (s : Session) (c : PageCommit) (idle : gotime) : Session :=
  mkSession (ss_ID s) (ss_PrincipalID s) (ss_AuthorityID s) (ss_EntryPointID s) (ss_Binding s) (ss_Query s)
    (mkSnapshot (pc_PITID c) (sn_Index (ss_Snapshot s)) (sn_QueryTokens (ss_Snapshot s))) (pc_Sort c)
    ((ss_Version s + 1) mod 2 ^ 64)%Z (ss_CreatedAt s) idle (ss_AbsoluteDeadline s) (pc_Complete c) (ss_Closing s).

Lemma record_session_fields r tokens s : record_session r tokens = Ok s ->
  ss_ID s = sh_ID r /\ ss_Version s = sh_Version r /\ ss_Closing s = sh_Closing r /\ ss_Complete s = sh_Complete r /\
  ss_IdleDeadline s = sh_IdleDeadline r /\ ss_AbsoluteDeadline s = sh_AbsoluteDeadline r.
Proof.
  unfold record_session. destruct (DecodeString _); [|done]. destruct (_ =? _); [|done]. by intros [= <-].
Qed.

Lemma record_session_decoded r c idle version tokens s : record_session r tokens = Ok s -> sh_Version r = version ->
  record_session (decoded_record (with_position r c idle ((version + 1) mod 2 ^ 64)%Z)) tokens =
    Ok (decoded_session (committed_session s c idle)).
Proof.
  unfold record_session. cbn [sh_Binding decoded_record with_position]. destruct (DecodeString _); [|done].
  destruct (_ =? _); [|done]. by intros [= <-] <-.
Qed.

Lemma token_not_written id k : searchSessionPartPrefix id "token" `prefix_of` k ->
  (forall id', k <> searchSessionKey id') /\ (forall id' n, k <> searchSessionVisitedKey id' n) /\
  (forall id' v, k <> searchSessionReplayKey id' v) /\ (forall id' t, k <> searchSessionExpiryKey id' t) /\
  (forall i id', k <> searchSessionPresenceKey i id') /\ (forall a v t id', k <> searchSessionVersionKey a v t id').
Proof. intros [rest ->]. split_and!; intros; discriminate. Qed.

Lemma commit_load s id sess stored version c idle : load_result s id = Ok sess -> fget s (searchSessionKey id) = Some (VSession stored) ->
  sh_ID stored = id -> sh_Version stored = version -> sh_Closing stored = false ->
  load_result (commit_kv s stored version c idle) id = Ok (decoded_session (committed_session sess c idle)).
Proof.
  intros Hload Hs Hid Hv Hclosing. unfold load_result in *. rewrite (proj2 (get_session_Some _ _ _) Hs) in Hload.
  assert (get_session (commit_kv s stored version c idle) id =
    Ok (Some (decoded_record (with_position stored c idle ((version + 1) mod 2 ^ 64)%Z)))) as ->.
  { apply get_session_Some. by rewrite commit_session, decide_True. }
  cbn [sh_Closing decoded_record with_position sh_TokenChunks sh_TokenBytes]. rewrite Hclosing in *.
  rewrite (frange_ext (commit_kv s stored version c idle) s).
  2:{ intros k (H1 & H2 & H3 & H4 & H5 & H6)%token_not_written. apply commit_other; auto. }
  destruct (negb _); [done|]. destruct (res_mapM _ _) as [texts|]; [|done]. destruct (negb _); [done|].
  by apply record_session_decoded.
Qed.

(** ** Creating *)

Definition token_writes (s : kv) (id : uuid) (tokens : raw) (chunks : nat) : kv :=
  foldl (fun s i => fset s (searchSessionTokenKey id (Z.of_nat i)) (VBytes (token_chunk tokens i))) s (seq 0 chunks).

Definition create_kv (s : kv) (session : Session) : kv :=
  let record := sessionRecordFor session in
  let id := ss_ID session in
  let q := ss_Query session in
  let s := fset s (searchSessionKey id) (VSession (decoded_record record)) in
  let s := token_writes s id (sn_QueryTokens (ss_Snapshot session)) (Z.to_nat (sh_TokenChunks record)) in
  let s := fset s (searchSessionExpiryKey id (ss_IdleDeadline session)) VEmpty in
  let s := fset s (searchSessionPresenceKey (q_Index q) id) VEmpty in
  fset s (searchSessionVersionKey (ss_AuthorityID session) (af_Version (q_Access q)) (ss_AbsoluteDeadline session) id) VEmpty.

Lemma forEach_tokens id tokens l w w' u :
  forEach l (fun chunk => s_set (searchSessionTokenKey id (Z.of_nat chunk)) (VBytes (token_chunk tokens chunk))) w = Ok (w', u) ->
  st_kv w' = foldl (fun s i => fset s (searchSessionTokenKey id (Z.of_nat i)) (VBytes (token_chunk tokens i))) (st_kv w) l.
Proof.
  revert w. induction l as [|i l IH]; intros w E; cbn [forEach] in E; [by apply rd_ret_ok in E as [-> _]|].
  rd_at E w1 u1 H1. apply s_modify_ok in H1 as ->. by rewrite (IH _ E).
Qed.

Lemma Create_run session w w' s' : Session_Create session w = Ok (w', s') ->
  s' = session /\ create_invalid session = false /\ get_session (st_kv w) (ss_ID session) = Ok None /\
  requireWrittenVersion (ss_AuthorityID session) (af_Version (q_Access (ss_Query session))) w = Ok (w, tt) /\
  st_kv w' = create_kv (st_kv w) session.
Proof.
  unfold Session_Create. destruct (create_invalid session) eqn:Hinv; [done|]. intros E.
  rd_at E w1 u1 H1. injection H1 as <- _. rd_at E w2 u2 H2. injection H2 as <- _.
  rd_at E w3 existing H3. apply readSession_ok in H3 as [-> H3]. cbn [st_kv] in H3. destruct existing; [done|].
  rd_at E w4 u4 H4. assert (w4 = mkSessionTx (st_kv w) (sh_AuthorityID (sessionRecordFor session), sh_EntryPointID (sessionRecordFor session)) []
    /\ requireWrittenVersion (ss_AuthorityID session) (af_Version (q_Access (ss_Query session))) w = Ok (w, tt)) as [-> Hreq].
  { unfold requireWrittenVersion in *. cbn [st_kv] in H4. destruct (readRollout _ _) as [[? record]|]; [|done].
    destruct (decide _); [|done]. injection H4 as <- _. by split. }
  rd_at E w5 u5 H5. apply writeSession_ok in H5 as [_ ->]. rd_at E w6 u6 H6. apply forEach_tokens in H6. cbn [st_kv] in H6.
  rd_at E w7 u7 H7. apply s_modify_ok in H7 as ->. rd_at E w8 u8 H8. apply s_modify_ok in H8 as ->.
  rd_at E w9 u9 H9. apply s_modify_ok in H9 as ->. rd_at E w10 u10 H10. apply s_record_ok in H10 as ->.
  apply rd_ret_ok in E as [-> ->]. cbn [st_kv]. split; [done|]. split; [done|]. split; [done|]. split; [done|].
  unfold create_kv, token_writes. by rewrite H6.
Qed.

Lemma token_writes_other s id tokens n k : (forall i, i < n -> k <> searchSessionTokenKey id (Z.of_nat i)) ->
  fget (token_writes s id tokens n) k = fget s k.
Proof.
  unfold token_writes. induction n as [|n IH]; intros Hk; [done|]. rewrite seq_S, foldl_app. cbn [foldl Nat.add].
  rewrite fget_set_ne; [apply IH; auto with lia|]. intros E. by apply (Hk n); [lia|].
Qed.

Lemma token_writes_token s id tokens n i : fget (token_writes s id tokens n) (searchSessionTokenKey id (Z.of_nat i)) =
  if decide (i < n) then Some (VBytes (token_chunk tokens i)) else fget s (searchSessionTokenKey id (Z.of_nat i)).
Proof.
  unfold token_writes. induction n as [|n IH]; [by rewrite decide_False by lia|].
  rewrite seq_S, foldl_app. cbn [foldl Nat.add]. destruct (decide (i = n)) as [->|Hne].
  - by rewrite fget_set_eq, decide_True by lia.
  - rewrite fget_set_ne, IH; [by destruct (decide (i < n)), (decide (i < S n)); try lia|].
    intros [_ ?]%token_key_inj. lia.
Qed.

Lemma create_other s session k : k <> searchSessionKey (ss_ID session) ->
  (forall i, i < Z.to_nat (sh_TokenChunks (sessionRecordFor session)) -> k <> searchSessionTokenKey (ss_ID session) (Z.of_nat i)) ->
  k <> searchSessionExpiryKey (ss_ID session) (ss_IdleDeadline session) ->
  k <> searchSessionPresenceKey (q_Index (ss_Query session)) (ss_ID session) ->
  k <> searchSessionVersionKey (ss_AuthorityID session) (af_Version (q_Access (ss_Query session))) (ss_AbsoluteDeadline session) (ss_ID session) ->
  fget (create_kv s session) k = fget s k.
Proof. intros. unfold create_kv. by rewrite !fget_set_ne, token_writes_other, fget_set_ne. Qed.

Lemma create_session s session id : fget (create_kv s session) (searchSessionKey id) =
  if decide (id = ss_ID session) then Some (VSession (decoded_record (sessionRecordFor session))) else fget s (searchSessionKey id).
Proof.
  destruct (decide (id = ss_ID session)) as [->|Hne].
  - unfold create_kv. rewrite !fget_set_ne, token_writes_other by discriminate. apply fget_set_eq.
  - apply create_other; try (intros; discriminate). by intros ?%session_key_inj.
Qed.

Lemma create_token s session i : fget (create_kv s session) (searchSessionTokenKey (ss_ID session) (Z.of_nat i)) =
  if decide (i < Z.to_nat (sh_TokenChunks (sessionRecordFor session)))
  then Some (VBytes (token_chunk (sn_QueryTokens (ss_Snapshot session)) i))
  else fget s (searchSessionTokenKey (ss_ID session) (Z.of_nat i)).
Proof.
  unfold create_kv. rewrite !fget_set_ne, token_writes_token by discriminate. destruct (decide _); [done|].
  by rewrite fget_set_ne by discriminate.
Qed.

(** *** The query tokens *)

Lemma substring_split a b c s : String.substring a (b + c) s = String.substring a b s +:+ String.substring (a + b) c s.
Proof.
  revert a b. induction s as [|x s IH]; intros a b.
  { destruct a, b, c; done. }
  destruct a as [|a]; [|cbn; apply IH]. destruct b as [|b]; [by destruct c|]. cbn. rewrite append_cons. f_equal. apply (IH 0 b).
Qed.

Lemma substring_none a s : String.substring a 0 s = EmptyString.
Proof. revert a. induction s as [|x s IH]; intros [|a]; cbn; auto. Qed.

Lemma substring_all n s : String.length s <= n -> String.substring 0 n s = s.
Proof. revert n. induction s as [|x s IH]; intros [|n] Hn; cbn in *; [done|done|lia|]. f_equal. apply IH. lia. Qed.

Lemma concat_chunks tokens k m :
  concat_text (token_chunk tokens <$> seq k m) = String.substring (k * sessionTokenChunkBytes) (m * sessionTokenChunkBytes) tokens.
Proof.
  unfold token_chunk. generalize sessionTokenChunkBytes as C. intros C. revert k. induction m as [|m IH]; intros k.
  - by rewrite substring_none.
  - cbn [seq]. rewrite fmap_cons. change (concat_text (?x :: ?l)) with (x +:+ concat_text l). rewrite IH. cbn [Nat.mul].
    rewrite substring_split. do 2 f_equal. lia.
Qed.

Lemma token_count_enough (tokens : raw) : String.length tokens <=
  (String.length tokens + sessionTokenChunkBytes - 1) / sessionTokenChunkBytes * sessionTokenChunkBytes.
Proof.
  assert (0 < sessionTokenChunkBytes) as HC by (unfold sessionTokenChunkBytes; lia). revert HC. generalize sessionTokenChunkBytes as C.
  intros C HC. pose proof (Nat.div_mod (String.length tokens + C - 1) C ltac:(lia)).
  pose proof (Nat.mod_upper_bound (String.length tokens + C - 1) C ltac:(lia)). nia.
Qed.

(** *** Loading what was created *)

Lemma DecodeString_Encode s : DecodeString (EncodeToString s) = Some s.
Proof.
  induction s as [|c s IH]; [done|]. cbn [EncodeToString DecodeString].
  assert (code c < 256)%N as Hc by apply N_ascii_bounded.
  destruct (hexdigit_cases (code c / 16)) as (-> & _ & _); [apply N.Div0.div_lt_upper_bound; lia|].
  destruct (hexdigit_cases (code c mod 16)) as (-> & _ & _); [apply N.mod_upper_bound; lia|].
  cbn. rewrite IH. cbn. do 2 f_equal. rewrite <- (ascii_N_embedding c) at 3. unfold chr, code. f_equal.
  rewrite (N.div_mod (N_of_ascii c) 16) at 3 by lia. lia.
Qed.

Definition no_children (s : kv) (id : uuid) : Prop := forall k, searchSessionChildPrefix id `prefix_of` k -> fget s k = None.

Definition token_items (id : uuid) (tokens : raw) (k n : nat) : list (key * value) :=
  (fun i => (searchSessionTokenKey id (Z.of_nat i), VBytes (token_chunk tokens i))) <$> seq k n.

Lemma token_key_le id a b : (a <= b)%Z -> key_le (searchSessionTokenKey id a) (searchSessionTokenKey id b).
Proof.
  intros Hab. unfold searchSessionTokenKey. cbn [key_le]. rewrite !decide_True by done. case_decide; done.
Qed.

Lemma token_items_sorted id tokens k n : StronglySorted key_le (token_items id tokens k n).*1.
Proof.
  unfold token_items. revert k. induction n as [|n IH]; intros k; [constructor|]. cbn [seq]. rewrite !fmap_cons. constructor; [apply IH|].
  rewrite <- list_fmap_compose. apply Forall_fmap, Forall_forall. intros i Hi%elem_of_seq. apply token_key_le. lia.
Qed.

Lemma token_items_nodup id tokens k n : NoDup (token_items id tokens k n).*1.
Proof.
  unfold token_items. rewrite <- list_fmap_compose. apply NoDup_fmap_2_strong; [|apply NoDup_seq].
  intros i j _ _ [_ ?]%token_key_inj. lia.
Qed.

Lemma create_tokens s session : no_children s (ss_ID session) ->
  frange (create_kv s session) (searchSessionPartPrefix (ss_ID session) "token") =
  token_items (ss_ID session) (sn_QueryTokens (ss_Snapshot session)) 0 (Z.to_nat (sh_TokenChunks (sessionRecordFor session))).
Proof.
  intros Hnone. apply sorted_unique; auto using frange_sorted, frange_nodup, token_items_sorted, token_items_nodup.
  intros [k v]. rewrite frange_spec. unfold token_items. rewrite list_elem_of_fmap. split.
  - intros [Hp Hk]. destruct (decide (k ∈ (fun i => searchSessionTokenKey (ss_ID session) (Z.of_nat i)) <$>
      seq 0 (Z.to_nat (sh_TokenChunks (sessionRecordFor session))))) as [(i & -> & Hi)%list_elem_of_fmap|Hn].
    + apply elem_of_seq in Hi as Hi'. rewrite create_token, decide_True in Hk by lia. injection Hk as <-. by exists i.
    + exfalso. destruct (token_not_written _ _ Hp) as (H1 & H2 & H3 & H4 & H5 & H6). rewrite create_other in Hk; try done; auto.
      * rewrite Hnone in Hk; [done|]. destruct Hp as [rest ->]. by exists (TStr "token" :: rest).
      * intros i Hi ->. apply Hn, list_elem_of_fmap. exists i. split; [done|]. apply elem_of_seq. lia.
  - intros (i & [= -> ->] & [_ Hi]%elem_of_seq). split; [by exists [TInt (Z.of_nat i)]|]. by rewrite create_token, decide_True.
Qed.

Lemma create_load s session : no_children s (ss_ID session) -> String.length (ss_Binding session) = 32 -> ss_Closing session = false ->
  load_result (create_kv s session) (ss_ID session) = Ok (decoded_session session).
Proof.
  intros Hnone Hbinding Hclosing. unfold load_result.
  assert (get_session (create_kv s session) (ss_ID session) = Ok (Some (decoded_record (sessionRecordFor session)))) as ->.
  { apply get_session_Some. by rewrite create_session, decide_True. }
  cbn [sh_Closing decoded_record sessionRecordFor]. rewrite Hclosing, create_tokens by done.
  cbn [sh_TokenChunks sh_TokenBytes decoded_record sessionRecordFor]. rewrite Nat2Z.id.
  set (tokens := sn_QueryTokens (ss_Snapshot session)). set (n := (String.length tokens + sessionTokenChunkBytes - 1) / sessionTokenChunkBytes).
  assert (length (token_items (ss_ID session) tokens 0 n) = n) as Hlen by (unfold token_items; by rewrite length_fmap, length_seq).
  rewrite take_ge by lia. rewrite Hlen, Z.eqb_refl. cbn [negb].
  assert (res_mapM (fun item : key * value => child_text item.2) (token_items (ss_ID session) tokens 0 n) = Ok (token_chunk tokens <$> seq 0 n)) as ->.
  { apply res_mapM_ok. unfold token_items. apply Forall2_fmap_l, Forall2_fmap_r. apply Forall_Forall2_diag, Forall_forall. done. }
  rewrite concat_chunks. cbn [Nat.mul]. rewrite substring_all by apply token_count_enough. rewrite Z.eqb_refl. cbn [negb].
  unfold record_session, decoded_record, sessionRecordFor. cbn [sh_Binding]. rewrite DecodeString_Encode, Hbinding. done.
Qed.

(** ** The lists of sessions *)

Definition header (s : kv) (id : uuid) : option searchSessionRecord :=
  match fget s (searchSessionKey id) with Some (VSession r) => Some r | _ => None end.

(** A list holds one key for each session that [entry] lists, and no other. *)
Definition listed (s : kv) (fam : string) (entry : uuid -> searchSessionRecord -> option key) : Prop :=
  forall k, family k = fam -> is_Some (fget s k) <-> exists id r, header s id = Some r /\ entry id r = Some k.

Definition by_expiry (id : uuid) (r : searchSessionRecord) : option key := Some (searchSessionExpiryKey id (sh_IdleDeadline r)).
Definition by_index (id : uuid) (r : searchSessionRecord) : option key := Some (searchSessionPresenceKey (sh_Index r) id).
Definition by_version (id : uuid) (r : searchSessionRecord) : option key :=
  if sh_Complete r || sh_Closing r then None
  else Some (searchSessionVersionKey (sh_AuthorityID r) (sh_AccessVersion r) (sh_AbsoluteDeadline r) id).

Lemma by_expiry_key id r id' t : by_expiry id r = Some (searchSessionExpiryKey id' t) -> id = id'.
Proof. unfold by_expiry, searchSessionExpiryKey. intros [= E1 E2 E3]. by apply uuid_string_inj. Qed.

Lemma by_index_key id r i id' : by_index id r = Some (searchSessionPresenceKey i id') -> id = id'.
Proof. unfold by_index, searchSessionPresenceKey. intros [= E1 E2 E3]. by apply uuid_string_inj. Qed.

Lemma by_version_key id r a v t id' : by_version id r = Some (searchSessionVersionKey a v t id') -> id = id'.
Proof. unfold by_version, searchSessionVersionKey. destruct (_ || _); [done|]. intros [= E1 E2 E3 E4 E5]. by apply uuid_string_inj. Qed.

Lemma by_expiry_inj id r id' r' k : by_expiry id r = Some k -> by_expiry id' r' = Some k -> id = id'.
Proof. intros H [= <-]. by eapply by_expiry_key. Qed.

Lemma by_index_inj id r id' r' k : by_index id r = Some k -> by_index id' r' = Some k -> id = id'.
Proof. intros H [= <-]. by eapply by_index_key. Qed.

Lemma by_version_inj id r id' r' k : by_version id r = Some k -> by_version id' r' = Some k -> id = id'.
Proof. intros H. unfold by_version at 1. destruct (_ || _); [done|]. intros [= <-]. by eapply by_version_key. Qed.

Lemma listed_update s s' fam (entry : uuid -> searchSessionRecord -> option key) id :
  (forall id r id' r' k, entry id r = Some k -> entry id' r' = Some k -> id = id') ->
  listed s fam entry -> (forall id', id' <> id -> header s' id' = header s id') ->
  (forall k, family k = fam -> is_Some (fget s' k) <->
     (exists r, header s' id = Some r /\ entry id r = Some k) \/
     (is_Some (fget s k) /\ ~ exists r, header s id = Some r /\ entry id r = Some k)) ->
  listed s' fam entry.
Proof.
  intros Hinj Hs Hother Hk k Hf. rewrite (Hk k Hf), (Hs k Hf). split.
  - intros [(r & Hr & He)|[(id' & r & Hr & He) Hnot]]; [by exists id, r|]. destruct (decide (id' = id)) as [->|Hne].
    + destruct Hnot. by exists r.
    + exists id', r. by rewrite Hother.
  - intros (id' & r & Hr & He). destruct (decide (id' = id)) as [->|Hne]; [left; by exists r|right].
    rewrite Hother in Hr by done. split; [by exists id', r|]. intros (r' & _ & He'). by destruct Hne; eapply Hinj.
Qed.

(** The records below a session. *)
Inductive child_ok : list elem -> value -> Prop :=
  | child_token i bytes : child_ok [TStr "token"; TInt i] (VBytes bytes)
  | child_visited n v : child_ok [TStr "visited"; id_elem n] v
  | child_replay version r : (0 <= version < 2 ^ 64)%Z -> child_ok [TStr "replay"; TInt version] (VReplay r).

Record SessInv (s : kv) : Prop := {
  si_header id v : fget s (searchSessionKey id) = Some v ->
    exists r, v = VSession r /\ sh_ID r = id /\ to_valid (sh_Index r) = sh_Index r /\
      to_valid (sh_AccessVersion r) = sh_AccessVersion r /\ (0 <= sh_Version r < 2 ^ 64)%Z;
  si_expiry : listed s "search_session_expiry" by_expiry;
  si_index : listed s "search_session_present" by_index;
  si_version : listed s "search_session_version" by_version;
  si_child id rest v : fget s (searchSessionChildPrefix id ++ rest) = Some v -> child_ok rest v /\ is_Some (header s id);
}.

Lemma exists_Some {A} (x : A) (P : A -> Prop) : (exists r, Some x = Some r /\ P r) <-> P x.
Proof. naive_solver. Qed.

Lemma header_Some s id r : header s id = Some r <-> fget s (searchSessionKey id) = Some (VSession r).
Proof. unfold header. destruct (fget _ _) as [[]|]; naive_solver. Qed.

Lemma header_eq s s' id : fget s' (searchSessionKey id) = fget s (searchSessionKey id) -> header s' id = header s id.
Proof. unfold header. by intros ->. Qed.

Lemma is_Some_set s k v k' : is_Some (fget (fset s k v) k') <-> k = k' \/ is_Some (fget s k').
Proof. rewrite fget_set. case_decide; naive_solver. Qed.

Lemma is_Some_clear s k k' : is_Some (fget (fclear s k) k') <-> k <> k' /\ is_Some (fget s k').
Proof. rewrite fget_clear. case_decide; naive_solver. Qed.

Lemma mark_all_Some s id ids k v : fget (mark_all s id ids) k = Some v ->
  (exists n, k = searchSessionVisitedKey id n) \/ fget s k = Some v.
Proof.
  revert s. induction ids as [|n ids IH]; intros s Hv; [by right|]. destruct (IH _ Hv) as [?|H]; [by left|].
  rewrite fget_set in H. case_decide; [left; by exists n|by right].
Qed.

Lemma commit_child s stored version c idle id rest v :
  fget (commit_kv s stored version c idle) (searchSessionChildPrefix id ++ rest) = Some v ->
  (id = sh_ID stored /\ exists n, rest = [TStr "visited"; id_elem n]) \/
  (id = sh_ID stored /\ rest = [TStr "replay"; TInt version] /\ v = VReplay (mkReplay (pc_ResultIDs c) (pc_Complete c))) \/
  fget s (searchSessionChildPrefix id ++ rest) = Some v.
Proof.
  unfold commit_kv. rewrite fget_set_ne, drop_version_other, fget_set_ne, fget_clear_ne by discriminate.
  assert (forall s', fget (drop_previous s' (sh_ID stored) version) (searchSessionChildPrefix id ++ rest) = Some v ->
    fget s' (searchSessionChildPrefix id ++ rest) = Some v) as Hdrop.
  { intros s'. unfold drop_previous. destruct (_ =? _)%Z; [done|]. rewrite fget_clear. by case_decide. }
  intros H%Hdrop. rewrite fget_set in H. case_decide as Hk.
  - right. left. change (searchSessionReplayKey (sh_ID stored) version) with (searchSessionChildPrefix (sh_ID stored) ++ [TStr "replay"; TInt version]) in Hk.
    apply child_prefix_inj in Hk as [<- <-]. by injection H as <-.
  - apply mark_all_Some in H as [[n Hn]|H]; [|by right; right]. left.
    change (searchSessionVisitedKey (sh_ID stored) n) with (searchSessionChildPrefix (sh_ID stored) ++ [TStr "visited"; id_elem n]) in Hn.
    apply child_prefix_inj in Hn as [-> ->]. eauto.
Qed.

(** A page commit of a session that is not complete. *)
Lemma commit_inv s stored id c idle : SessInv s -> header s id = Some stored ->
  sh_Complete stored = false -> sh_Closing stored = false ->
  SessInv (commit_kv s stored (sh_Version stored) c idle).
Proof.
  intros Hinv Hstored Hcomplete Hclosing. pose proof Hstored as Hget. apply header_Some in Hget.
  destruct (si_header _ Hinv _ _ Hget) as (r & [= <-] & Hid & Hindex & Hversion & Hrange).
  set (new := decoded_record (with_position stored c idle ((sh_Version stored + 1) mod 2 ^ 64)%Z)).
  assert (header (commit_kv s stored (sh_Version stored) c idle) id = Some new) as Hnew.
  { apply header_Some. by rewrite commit_session, decide_True. }
  assert (forall id', id' <> id -> header (commit_kv s stored (sh_Version stored) c idle) id' = header s id') as Hother.
  { intros id' Hne. apply header_eq. by rewrite commit_session, decide_False by congruence. }
  assert (forall k, family k <> "search_session" -> family k <> "search_session_child" ->
    is_Some (fget (commit_kv s stored (sh_Version stored) c idle) k) <->
    (if pc_Complete c then searchSessionVersionKey (sh_AuthorityID stored) (sh_AccessVersion stored) (sh_AbsoluteDeadline stored) id <> k else True) /\
    (searchSessionExpiryKey id idle = k \/ searchSessionExpiryKey id (sh_IdleDeadline stored) <> k /\ is_Some (fget s k))) as Hlist.
  { intros k H1 H2. unfold commit_kv. rewrite fget_set_ne by (by intros <-). rewrite Hid.
    assert (is_Some (fget (drop_previous (fset (mark_all s id (pc_Visited c)) (searchSessionReplayKey id (sh_Version stored))
      (VReplay (mkReplay (pc_ResultIDs c) (pc_Complete c)))) id (sh_Version stored)) k) <-> is_Some (fget s k)) as Hinner.
    { rewrite drop_previous_other, fget_set_ne, mark_all_other; [done|intros n ->|intros <-|intros ->]; done. }
    destruct (pc_Complete c); [unfold drop_version; rewrite Hid, is_Some_clear|]; rewrite is_Some_set, is_Some_clear, Hinner; tauto. }
  constructor.
  - intros id' v Hv. destruct (decide (id' = id)) as [->|Hne].
    + rewrite commit_session, decide_True in Hv by done. injection Hv as <-. eexists. split; [done|]. cbn. rewrite !to_valid_idem.
      split_and!; try done; apply Z.mod_pos_bound; lia.
    + rewrite commit_session, decide_False in Hv by congruence. by apply (si_header _ Hinv).
  - eapply (listed_update s); [apply by_expiry_inj|apply Hinv|exact Hother|]. intros k Hf.
    rewrite Hlist by (by rewrite Hf). rewrite Hstored, Hnew, !exists_Some. unfold by_expiry.
    change (sh_IdleDeadline new) with idle.
    assert (searchSessionVersionKey (sh_AuthorityID stored) (sh_AccessVersion stored) (sh_AbsoluteDeadline stored) id <> k) by (by intros <-).
    destruct (pc_Complete c); naive_solver.
  - eapply (listed_update s); [apply by_index_inj|apply Hinv|exact Hother|]. intros k Hf.
    rewrite Hlist by (by rewrite Hf). rewrite Hstored, Hnew, !exists_Some. unfold by_index.
    change (sh_Index new) with (to_valid (sh_Index stored)). rewrite Hindex.
    assert (searchSessionVersionKey (sh_AuthorityID stored) (sh_AccessVersion stored) (sh_AbsoluteDeadline stored) id <> k) by (by intros <-).
    assert (forall t, searchSessionExpiryKey id t <> k) by (by intros t <-).
    assert (is_Some (fget s (searchSessionPresenceKey (sh_Index stored) id))) as Hp.
    { apply (si_index _ Hinv); [done|]. by exists id, stored. }
    destruct (decide (searchSessionPresenceKey (sh_Index stored) id = k)) as [<-|]; destruct (pc_Complete c); naive_solver.
  - eapply (listed_update s); [apply by_version_inj|apply Hinv|exact Hother|]. intros k Hf.
    rewrite Hlist by (by rewrite Hf). rewrite Hstored, Hnew, !exists_Some.
    set (vk := searchSessionVersionKey (sh_AuthorityID stored) (sh_AccessVersion stored) (sh_AbsoluteDeadline stored) id).
    assert (by_version id stored = Some vk) as Hold by (unfold by_version; by rewrite Hcomplete, Hclosing).
    assert (by_version id new = if pc_Complete c then None else Some vk) as Hn.
    { unfold by_version. cbn. rewrite Hversion, Hclosing, orb_false_r. done. }
    assert (forall t, searchSessionExpiryKey id t <> k) by (by intros t <-).
    assert (is_Some (fget s vk)) as Hp by (apply (si_version _ Hinv); [done|by exists id, stored]).
    rewrite Hold, Hn. destruct (decide (vk = k)) as [<-|]; destruct (pc_Complete c); naive_solver.
  - intros id' rest v [(-> & n & ->)|[(-> & -> & ->)|Hv]]%commit_child.
    + rewrite Hid, Hnew. split; [constructor|done].
    + rewrite Hid, Hnew. split; [by constructor|done].
    + destruct (si_child _ Hinv _ _ _ Hv) as [Hok Hh]. split; [done|].
      destruct (decide (id' = id)) as [->|Hne]; [by rewrite Hnew|by rewrite Hother].
Qed.

(** A new session. *)
Lemma no_header_no_children s id : SessInv s -> header s id = None -> no_children s id.
Proof.
  intros Hinv Hnone k [rest ->]. destruct (fget s (searchSessionChildPrefix id ++ rest)) as [v|] eqn:Hv; [|done].
  apply (si_child _ Hinv) in Hv as [_ [r Hr]]. congruence.
Qed.

Lemma get_session_None s id : SessInv s -> get_session s id = Ok None <-> header s id = None.
Proof.
  intros Hinv. unfold get_session, header. destruct (fget s (searchSessionKey id)) as [v|] eqn:Hv; [|done].
  by destruct (si_header _ Hinv _ _ Hv) as (r & -> & _).
Qed.

Lemma create_child s session id rest v : fget (create_kv s session) (searchSessionChildPrefix id ++ rest) = Some v ->
  (id = ss_ID session /\ exists i bytes, rest = [TStr "token"; TInt i] /\ v = VBytes bytes) \/
  fget s (searchSessionChildPrefix id ++ rest) = Some v.
Proof.
  unfold create_kv. rewrite !fget_set_ne by discriminate. unfold token_writes.
  assert (forall s', fget (fset s' (searchSessionKey (ss_ID session)) (VSession (decoded_record (sessionRecordFor session))))
    (searchSessionChildPrefix id ++ rest) = fget s' (searchSessionChildPrefix id ++ rest)) as Hs by (intros s'; by rewrite fget_set_ne).
  induction (Z.to_nat (sh_TokenChunks (sessionRecordFor session))) as [|n IH]; [cbn [seq foldl]; rewrite Hs; by right|].
  rewrite seq_S, foldl_app. cbn [foldl Nat.add]. rewrite fget_set. case_decide as Hk; [|exact IH].
  intros [= <-]. left. change (searchSessionTokenKey (ss_ID session) (Z.of_nat n)) with
    (searchSessionChildPrefix (ss_ID session) ++ [TStr "token"; TInt (Z.of_nat n)]) in Hk.
  apply child_prefix_inj in Hk as [<- <-]. eauto.
Qed.

Lemma create_inv s session : SessInv s -> header s (ss_ID session) = None -> create_invalid session = false ->
  to_valid (q_Index (ss_Query session)) = q_Index (ss_Query session) ->
  to_valid (af_Version (q_Access (ss_Query session))) = af_Version (q_Access (ss_Query session)) ->
  ss_Complete session = false -> ss_Closing session = false -> SessInv (create_kv s session).
Proof.
  intros Hinv Hnone Hvalid Hindex Hversion Hcomplete Hclosing.
  set (id := ss_ID session). set (new := decoded_record (sessionRecordFor session)).
  assert (header (create_kv s session) id = Some new) as Hnew by (apply header_Some; by rewrite create_session, decide_True).
  assert (forall id', id' <> id -> header (create_kv s session) id' = header s id') as Hother.
  { intros id' Hne. apply header_eq. by rewrite create_session, decide_False. }
  set (vk := searchSessionVersionKey (ss_AuthorityID session) (af_Version (q_Access (ss_Query session))) (ss_AbsoluteDeadline session) id).
  set (ek := searchSessionExpiryKey id (ss_IdleDeadline session)). set (pk := searchSessionPresenceKey (q_Index (ss_Query session)) id).
  assert (forall k, family k <> "search_session" -> family k <> "search_session_child" ->
    is_Some (fget (create_kv s session) k) <-> vk = k \/ pk = k \/ ek = k \/ is_Some (fget s k)) as Hlist.
  { intros k H1 H2. unfold create_kv. rewrite !is_Some_set, token_writes_other, fget_set_ne; [done|by intros <-|by intros i _ ->]. }
  assert (forall (P : searchSessionRecord -> Prop), (exists r, header s id = Some r /\ P r) <-> False) as Hold.
  { intros P. unfold id. rewrite Hnone. naive_solver. }
  constructor.
  - intros id' v Hv. rewrite create_session in Hv. case_decide as Hd; [|by apply (si_header _ Hinv)].
    injection Hv as <-. eexists. split; [done|]. cbn. rewrite !to_valid_idem. split_and!; try done.
    + apply orb_false_iff in Hvalid as [Hvalid _]. apply orb_false_iff in Hvalid as [Hvalid _]. apply orb_false_iff in Hvalid as [_ Hvalid].
      apply negb_false_iff, Z.eqb_eq in Hvalid. lia.
    + apply orb_false_iff in Hvalid as [Hvalid _]. apply orb_false_iff in Hvalid as [Hvalid _]. apply orb_false_iff in Hvalid as [_ Hvalid].
      apply negb_false_iff, Z.eqb_eq in Hvalid. lia.
  - eapply (listed_update s); [apply by_expiry_inj|apply Hinv|exact Hother|]. intros k Hf.
    rewrite Hlist by (by rewrite Hf). rewrite Hold, Hnew, exists_Some. change (by_expiry id new) with (Some ek).
    assert (vk <> k /\ pk <> k) by (split; by intros <-). naive_solver.
  - eapply (listed_update s); [apply by_index_inj|apply Hinv|exact Hother|]. intros k Hf.
    rewrite Hlist by (by rewrite Hf). rewrite Hold, Hnew, exists_Some.
    change (by_index id new) with (Some (searchSessionPresenceKey (to_valid (q_Index (ss_Query session))) id)). rewrite Hindex.
    assert (vk <> k /\ ek <> k) by (split; by intros <-). naive_solver.
  - eapply (listed_update s); [apply by_version_inj|apply Hinv|exact Hother|]. intros k Hf.
    rewrite Hlist by (by rewrite Hf). rewrite Hold, Hnew, exists_Some.
    assert (by_version id new = Some vk) as -> by (unfold by_version; cbn; by rewrite Hcomplete, Hclosing, Hversion).
    assert (pk <> k /\ ek <> k) by (split; by intros <-). naive_solver.
  - intros id' rest v [(-> & i & bytes & -> & ->)|Hv]%create_child; fold id; [rewrite Hnew; split; [constructor|done]|].
    destruct (si_child _ Hinv _ _ _ Hv) as [Hok Hh]. split; [done|].
    destruct (decide (id' = id)) as [->|Hne]; [by rewrite Hnew|by rewrite Hother].
Qed.

(** Closing a session. *)
Definition closing_kv (s : kv) (stored : searchSessionRecord) : kv :=
  fset (drop_version s stored) (searchSessionKey (sh_ID stored)) (VSession (decoded_record (with_closing stored))).

Lemma closing_inv s stored id : SessInv s -> header s id = Some stored -> sh_Closing stored = false -> SessInv (closing_kv s stored).
Proof.
  intros Hinv Hstored Hclosing. pose proof Hstored as Hget. apply header_Some in Hget.
  destruct (si_header _ Hinv _ _ Hget) as (r & [= <-] & Hid & Hindex & Hversion & Hrange).
  set (new := decoded_record (with_closing stored)).
  assert (header (closing_kv s stored) id = Some new) as Hnew.
  { apply header_Some. unfold closing_kv. by rewrite Hid, fget_set_eq. }
  assert (forall id', id' <> id -> header (closing_kv s stored) id' = header s id') as Hother.
  { intros id' Hne. apply header_eq. unfold closing_kv, drop_version. rewrite fget_set_ne, fget_clear_ne; [done..|].
    rewrite Hid. by intros ?%session_key_inj. }
  set (vk := searchSessionVersionKey (sh_AuthorityID stored) (sh_AccessVersion stored) (sh_AbsoluteDeadline stored) id).
  assert (forall k, family k <> "search_session" -> is_Some (fget (closing_kv s stored) k) <-> vk <> k /\ is_Some (fget s k)) as Hlist.
  { intros k H1. unfold closing_kv, drop_version. rewrite fget_set_ne by (by intros <-). by rewrite is_Some_clear, Hid. }
  constructor.
  - intros id' v Hv. destruct (decide (id' = id)) as [->|Hne].
    + apply header_Some in Hnew. rewrite Hv in Hnew. injection Hnew as ->. eexists. split; [done|]. unfold new. cbn. by rewrite !to_valid_idem.
    + unfold closing_kv, drop_version in Hv. rewrite fget_set_ne, fget_clear_ne in Hv; [|done|rewrite Hid; by intros ?%session_key_inj].
      by apply (si_header _ Hinv).
  - eapply (listed_update s); [apply by_expiry_inj|apply Hinv|exact Hother|]. intros k Hf.
    rewrite Hlist by (by rewrite Hf). rewrite Hstored, Hnew, !exists_Some. change (by_expiry id new) with (by_expiry id stored).
    assert (is_Some (fget s (searchSessionExpiryKey id (sh_IdleDeadline stored)))) as Hp by (apply (si_expiry _ Hinv); [done|by exists id, stored]).
    assert (vk <> k) by (by intros <-). unfold by_expiry. destruct (decide (searchSessionExpiryKey id (sh_IdleDeadline stored) = k)) as [<-|]; naive_solver.
  - eapply (listed_update s); [apply by_index_inj|apply Hinv|exact Hother|]. intros k Hf.
    rewrite Hlist by (by rewrite Hf). rewrite Hstored, Hnew, !exists_Some. unfold by_index.
    change (sh_Index new) with (to_valid (sh_Index stored)). rewrite Hindex.
    assert (is_Some (fget s (searchSessionPresenceKey (sh_Index stored) id))) as Hp by (apply (si_index _ Hinv); [done|by exists id, stored]).
    assert (vk <> k) by (by intros <-). destruct (decide (searchSessionPresenceKey (sh_Index stored) id = k)) as [<-|]; naive_solver.
  - eapply (listed_update s); [apply by_version_inj|apply Hinv|exact Hother|]. intros k Hf.
    rewrite Hlist by (by rewrite Hf). rewrite Hstored, Hnew, !exists_Some.
    assert (by_version id new = None) as -> by (unfold by_version; cbn; by rewrite orb_true_r).
    unfold by_version. rewrite Hclosing, orb_false_r. destruct (sh_Complete stored) eqn:Hc; [|fold vk; naive_solver].
    assert (is_Some (fget s k) -> vk <> k) as Hnot; [|naive_solver].
    intros (id' & r & Hr & He)%(si_version _ Hinv); [|done]. intros <-. assert (id' = id) as ->.
    { by eapply by_version_key. }
    rewrite Hstored in Hr. injection Hr as <-. unfold by_version in He. by rewrite Hc in He.
  - intros id' rest v Hv. unfold closing_kv, drop_version in Hv. rewrite fget_set_ne, fget_clear_ne in Hv by discriminate.
    destruct (si_child _ Hinv _ _ _ Hv) as [Hok Hh]. split; [done|].
    destruct (decide (id' = id)) as [->|Hne]; [by rewrite Hnew|by rewrite Hother].
Qed.

Lemma BeginCleanup_run fence id w w' u : Session_BeginCleanup fence id w = Ok (w', u) ->
  (get_session (st_kv w) id = Ok None /\ st_kv w' = st_kv w) \/
  exists stored, fget (st_kv w) (searchSessionKey id) = Some (VSession stored) /\
    st_kv w' = if sh_Closing stored then st_kv w
               else fset (drop_version (st_kv w) stored) (searchSessionKey id) (VSession (decoded_record (with_closing stored))).
Proof.
  unfold Session_BeginCleanup. intros E. rd_at E w1 u1 H1. injection H1 as <- _. rd_at E w2 u2 H2.
  assert (st_kv w2 = st_kv w) as Hw2.
  { unfold requireRetireFence in H2. destruct fence; [|by apply rd_ret_ok in H2 as [-> _]].
    rd_at H2 w3 v H3. injection H3 as <- _. by apply rd_ensure_ok in H2 as [-> _]. }
  rd_at E w3 found H3. apply readSession_ok in H3 as [-> H3]. rewrite Hw2 in H3. destruct found as [stored|].
  2:{ left. apply rd_ret_ok in E as [-> _]. by split. }
  right. exists stored. apply get_session_Some in H3. split; [done|]. destruct (sh_Closing stored); [by apply rd_ret_ok in E as [-> _]|].
  rd_at E w4 u4 H4. injection H4 as <- _. rd_at E w5 u5 H5. apply s_modify_ok in H5 as ->.
  rd_at E w6 u6 H6. apply writeSession_ok in H6 as [_ ->]. apply s_record_ok in E as ->. cbn [st_kv]. by rewrite Hw2.
Qed.

(** Deleting a slice. *)
Definition part_of (item : key * value) : string :=
  match item.1 with _ :: _ :: _ :: e :: _ => default EmptyString (elem_text e) | _ => EmptyString end.

Definition is_token (item : key * value) : bool := bool_decide (part_of item = "token").

Definition clear_keys (s : kv) (items : list (key * value)) : kv :=
  foldl (fun s item => if is_token item then s else fclear s item.1) s items.

Definition clear_children_kv (s : kv) (id : uuid) (items : list (key * value)) : kv :=
  let s := clear_keys s items in
  if existsb is_token items then fclear_range s (searchSessionPartPrefix id "token") else s.

Definition children (s : kv) (id : uuid) : list (key * value) := frange s (searchSessionChildPrefix id).

Definition item_ok (id : uuid) (item : key * value) : Prop :=
  exists rest, item.1 = searchSessionChildPrefix id ++ rest /\ child_ok rest item.2.

Lemma children_ok s id : SessInv s -> Forall (item_ok id) (children s id).
Proof.
  intros Hinv. apply Forall_forall. intros [k v] [[rest ->] Hv]%frange_spec. exists rest. split; [done|]. by apply (si_child _ Hinv) in Hv as [? _].
Qed.

Lemma clearChildLoop_run id items found w : Forall (item_ok id) items ->
  exists changes, clearChildLoop id items found w =
    Ok (mkSessionTx (clear_keys (st_kv w) items) (st_scope w) changes, found || existsb is_token items).
Proof.
  intros Hok. revert found w. induction Hok as [|[k v] items (rest & Hk & Hrest) _ IH]; intros found w.
  { exists (st_changes w). cbn. rewrite orb_false_r. by destruct w. }
  cbn [fst snd] in Hk, Hrest. subst k. cbn [existsb clear_keys foldl].
  destruct Hrest as [i bytes|n v|version r Hv].
  - assert (is_token (searchSessionChildPrefix id ++ [TStr "token"; TInt i], VBytes bytes) = true) as -> by done.
    cbn [clearChildLoop searchSessionChildPrefix app elem_text default from_option]. rewrite decide_True by done. cbn [orb].
    destruct (IH true w) as [changes ->]. exists changes. by rewrite orb_true_r.
  - assert (is_token (searchSessionChildPrefix id ++ [TStr "visited"; id_elem n], v) = false) as -> by done.
    cbn [clearChildLoop searchSessionChildPrefix app elem_text default from_option]. rewrite decide_False by done.
    unfold recordChildDelete at 1. rewrite decide_True, elem_id_id by done. cbv [mbind rd_bind s_record s_clear s_modify].
    match goal with |- context [clearChildLoop id items found ?w1] => destruct (IH found w1) as [changes E] end.
    exists changes. exact E.
  - assert (is_token (searchSessionChildPrefix id ++ [TStr "replay"; TInt version], VReplay r) = false) as -> by done.
    cbn [clearChildLoop searchSessionChildPrefix app elem_text default from_option]. rewrite decide_False by done.
    unfold recordChildDelete at 1. rewrite decide_False, bool_decide_true by done. cbn [negb].
    rewrite (proj2 (andb_true_iff _ _)) by (split; lia). cbv [mbind rd_bind s_record s_clear s_modify].
    match goal with |- context [clearChildLoop id items found ?w1] => destruct (IH found w1) as [changes E] end.
    exists changes. exact E.
Qed.

Lemma clear_keys_get s items k : fget (clear_keys s items) k =
  if decide (k ∈ (filter (fun item => is_token item = false) items).*1) then None else fget s k.
Proof.
  revert s. induction items as [|item items IH]; intros s; [by rewrite decide_False by apply not_elem_of_nil|].
  cbn [clear_keys foldl]. fold (clear_keys (if is_token item then s else fclear s item.1) items). rewrite IH, filter_cons.
  destruct (is_token item) eqn:Ht; [by rewrite (decide_False (P := true = false))|]. rewrite (decide_True (P := false = false)), fmap_cons by done.
  destruct (decide (k ∈ (filter _ items).*1)) as [Hin|Hin]; [by rewrite decide_True by (by right)|].
  rewrite fget_clear. destruct (decide (item.1 = k)) as [->|Hne]; [by rewrite decide_True by left|].
  rewrite decide_False; [done|]. rewrite elem_of_cons. naive_solver.
Qed.

Lemma token_values s id : SessInv s -> exists texts, res_mapM (fun item : key * value => child_text item.2)
  (frange s (searchSessionPartPrefix id "token")) = Ok texts.
Proof.
  intros Hinv. assert (Forall (fun item : key * value => exists t, child_text item.2 = Ok t) (frange s (searchSessionPartPrefix id "token"))) as H.
  { apply Forall_forall. intros [k v] [[rest ->] Hv]%frange_spec.
    destruct (si_child _ Hinv id (TStr "token" :: rest) v) as [Hok _]; [exact Hv|]. inversion Hok; subst; cbn; eauto. }
  induction H as [|item items [t Ht] _ [texts IH]]; [by exists []|]. exists (t :: texts). cbn [res_mapM]. by rewrite Ht, IH.
Qed.

Lemma clearChildren_run s0 id items w : SessInv s0 -> st_kv w = s0 -> Forall (item_ok id) items ->
  exists w' tokens, clearChildren id items w = Ok (w', tokens) /\ st_kv w' = clear_children_kv s0 id items.
Proof.
  intros Hinv <- Hok. unfold clearChildren, clear_children_kv. cbv [mbind rd_bind]. destruct (clearChildLoop_run id items false w Hok) as [changes ->].
  cbn [orb]. destruct (existsb is_token items); [|by do 2 eexists].
  unfold clearSessionTokens, s_range. cbv [mbind rd_bind]. cbn [st_kv].
  assert (frange (clear_keys (st_kv w) items) (searchSessionPartPrefix id "token") = frange (st_kv w) (searchSessionPartPrefix id "token")) as ->.
  { apply frange_ext. intros k Hk. rewrite clear_keys_get. case_decide as Hin; [|done]. exfalso.
    apply list_elem_of_fmap in Hin as (item & -> & [Hn Hin]%list_elem_of_filter). rewrite Forall_forall in Hok.
    destruct (Hok _ Hin) as (rest & Hr & Hc). destruct Hk as [rest' Hk]. rewrite Hr in Hk.
    change (searchSessionPartPrefix id "token" ++ rest') with (searchSessionChildPrefix id ++ TStr "token" :: rest') in Hk.
    apply child_prefix_inj in Hk as [_ ->]. unfold is_token, part_of in Hn. rewrite Hr in Hn. cbn in Hn. done. }
  destruct (token_values _ id Hinv) as [texts ->]. do 2 eexists. split; [reflexivity|done].
Qed.

Definition gone_kv (s : kv) (id : uuid) (record : searchSessionRecord) : kv :=
  fclear (drop_version (fclear (fclear s (searchSessionExpiryKey id (sh_IdleDeadline record)))
                               (searchSessionPresenceKey (sh_Index record) id)) record) (searchSessionKey id).

Definition slice_kv (s : kv) (id : uuid) (record : searchSessionRecord) (limit : Z) : kv * bool :=
  let items := take (Z.to_nat limit) (children s id) in
  let s := clear_children_kv s id items in
  if (Z.of_nat (length items) =? limit)%Z then (s, false) else (gone_kv s id record, true).

Lemma take_ok {A} (P : A -> Prop) n l : Forall P l -> Forall P (take n l).
Proof. apply Forall_take. Qed.

Lemma CleanupSlice_run fence id limit w record : SessInv (st_kv w) ->
  requireRetireFence fence (mkSessionTx (st_kv w) (st_scope w) []) = Ok (mkSessionTx (st_kv w) (st_scope w) [], tt) ->
  header (st_kv w) id = Some record -> sh_Closing record = true -> (1 <= limit <= maxSessionCleanupKeys)%Z ->
  exists w', Session_CleanupSlice fence id limit w = Ok (w', (slice_kv (st_kv w) id record limit).2) /\
    st_kv w' = (slice_kv (st_kv w) id record limit).1.
Proof.
  intros Hinv Hfence Hheader Hclosing Hlimit. unfold Session_CleanupSlice.
  rewrite (proj2 (orb_false_iff _ _)) by (split; apply Z.ltb_ge; lia). cbv [mbind rd_bind]. unfold s_startAttempt. rewrite Hfence, readSession_eq. cbn [st_kv].
  rewrite (proj2 (get_session_Some _ _ _)) by (by apply header_Some). rewrite Hclosing. cbn [negb].
  unfold bind_scope. cbn [st_kv]. unfold s_range. cbn [st_kv]. fold (children (st_kv w) id).
  set (items := take (Z.to_nat limit) (children (st_kv w) id)).
  match goal with |- context [clearChildren id items ?w1] =>
    destruct (clearChildren_run (st_kv w) id items w1 Hinv eq_refl) as (w2 & tokens & E & Hw2); [apply take_ok; by apply children_ok|rewrite E] end.
  unfold slice_kv. fold items. destruct (_ =? _)%Z.
  - destruct (blank tokens); [by exists w2|]. unfold s_record. eexists. split; [reflexivity|exact Hw2].
  - unfold s_clear, s_modify, clearSessionVersion, s_record, s_clear, s_modify. eexists. split; [reflexivity|].
    cbn [st_kv fst]. rewrite Hw2. done.
Qed.

Lemma CleanupSlice_inv fence id limit w w' b : SessInv (st_kv w) -> Session_CleanupSlice fence id limit w = Ok (w', b) ->
  (header (st_kv w) id = None /\ st_kv w' = st_kv w /\ b = true) \/
  exists record, header (st_kv w) id = Some record /\ sh_Closing record = true /\ (1 <= limit)%Z /\
    st_kv w' = (slice_kv (st_kv w) id record limit).1 /\ b = (slice_kv (st_kv w) id record limit).2.
Proof.
  intros Hinv E. assert (1 <= limit <= maxSessionCleanupKeys)%Z as Hlimit.
  { unfold Session_CleanupSlice in E. destruct (_ || _) eqn:Hl; [done|]. rewrite orb_false_iff, !Z.ltb_ge in Hl. lia. }
  pose proof E as E0. unfold Session_CleanupSlice in E0. destruct (_ || _); [done|]. rd_at E0 w1 u1 H1. injection H1 as <- _. rd_at E0 w2 u2 H2.
  assert (w2 = mkSessionTx (st_kv w) (st_scope w) [] /\ u2 = tt) as [-> ->].
  { destruct u2. split; [|done]. unfold requireRetireFence in H2. destruct fence; [|by apply rd_ret_ok in H2 as [-> _]].
    rd_at H2 w3 v H3. injection H3 as <- _. by apply rd_ensure_ok in H2 as [-> _]. }
  rd_at E0 w3 found H3. apply readSession_ok in H3 as [-> H3]. cbn [st_kv] in H3. destruct found as [record|].
  - right. exists record. apply get_session_Some, header_Some in H3. destruct (sh_Closing record) eqn:Hc; [|done].
    destruct (CleanupSlice_run fence id limit w record) as (w3 & E3 & Hw3); [done..|]. rewrite E in E3. injection E3 as -> ->.
    split_and!; [done|done|lia|done|done].
  - left. apply rd_ret_ok in E0 as [-> ->]. split_and!; [by apply get_session_None|done|done].
Qed.

Lemma clear_children_other s id items k : SessInv s -> Forall (item_ok id) items -> ~ searchSessionChildPrefix id `prefix_of` k ->
  fget (clear_children_kv s id items) k = fget s k.
Proof.
  intros _ Hok Hk. unfold clear_children_kv.
  assert (fget (clear_keys s items) k = fget s k) as E.
  { rewrite clear_keys_get, decide_False; [done|]. intros (item & -> & [_ Hin]%list_elem_of_filter)%list_elem_of_fmap.
    rewrite Forall_forall in Hok. destruct (Hok _ Hin) as (rest & Hr & _). apply Hk. by exists rest. }
  destruct (existsb _ _); [|done]. rewrite fget_clear_range, decide_False; [done|]. intros [rest ->]. apply Hk. by exists (TStr "token" :: rest).
Qed.

Lemma clear_children_sub s id items k v : fget (clear_children_kv s id items) k = Some v -> fget s k = Some v.
Proof.
  unfold clear_children_kv. assert (fget (clear_keys s items) k = Some v -> fget s k = Some v) as H by (rewrite clear_keys_get; by case_decide).
  destruct (existsb _ _); [|done]. rewrite fget_clear_range. by case_decide.
Qed.

(** What a slice lists is gone. *)
Lemma clear_children_gone s id items item : Forall (item_ok id) items -> item ∈ items -> fget (clear_children_kv s id items) item.1 = None.
Proof.
  intros Hok Hin. unfold clear_children_kv. destruct (is_token item) eqn:Ht.
  - assert (existsb is_token items = true) as -> by (apply existsb_exists; exists item; split; [by apply list_elem_of_In|done]).
    rewrite fget_clear_range, decide_True; [done|]. rewrite Forall_forall in Hok. destruct (Hok _ Hin) as (rest & Hr & Hc).
    destruct item as [k v]. cbn [fst snd] in *. subst k. unfold is_token, part_of in Ht. apply bool_decide_eq_true in Ht. cbn [fst] in Ht.
    destruct Hc; cbn in Ht; [|done..]. by eexists.
  - assert (fget (clear_keys s items) item.1 = None) as E.
    { rewrite clear_keys_get, decide_True; [done|]. apply list_elem_of_fmap_2. by apply list_elem_of_filter. }
    destruct (existsb _ _); [|done]. rewrite fget_clear_range. by case_decide.
Qed.

Lemma not_child_header id id' : ~ searchSessionChildPrefix id `prefix_of` searchSessionKey id'.
Proof. by intros [rest [=]]. Qed.

Lemma clear_children_inv s id record limit : SessInv s -> header s id = Some record ->
  SessInv (clear_children_kv s id (take limit (children s id))).
Proof.
  intros Hinv Hheader. set (items := take limit (children s id)).
  assert (Forall (item_ok id) items) as Hok by (apply take_ok; by apply children_ok).
  assert (forall k, ~ searchSessionChildPrefix id `prefix_of` k -> fget (clear_children_kv s id items) k = fget s k) as Hother
    by (intros; by apply clear_children_other).
  assert (forall id', header (clear_children_kv s id items) id' = header s id') as Hh.
  { intros id'. apply header_eq, Hother, not_child_header. }
  assert (forall fam entry, fam <> "search_session_child" -> listed s fam entry -> listed (clear_children_kv s id items) fam entry) as Hlist.
  { intros fam entry Hfam Hl k Hk. rewrite Hother by (intros [rest ->]; by cbn in Hk). rewrite (Hl k Hk).
    setoid_rewrite Hh. done. }
  constructor; [|by apply Hlist; [|apply Hinv]..|].
  - intros id' v. rewrite Hother by apply not_child_header. apply (si_header _ Hinv).
  - intros id' rest v Hv%clear_children_sub. rewrite Hh. by apply (si_child _ Hinv).
Qed.

Lemma gone_inv s id record : SessInv s -> header s id = Some record -> sh_Closing record = true -> no_children s id -> SessInv (gone_kv s id record).
Proof.
  intros Hinv Hheader Hclosing Hnone. pose proof Hheader as Hget. apply header_Some in Hget.
  destruct (si_header _ Hinv _ _ Hget) as (r & [= <-] & Hid & _).
  set (vk := searchSessionVersionKey (sh_AuthorityID record) (sh_AccessVersion record) (sh_AbsoluteDeadline record) id).
  set (ek := searchSessionExpiryKey id (sh_IdleDeadline record)). set (pk := searchSessionPresenceKey (sh_Index record) id).
  assert (forall k, is_Some (fget (gone_kv s id record) k) <-> searchSessionKey id <> k /\ vk <> k /\ pk <> k /\ ek <> k /\ is_Some (fget s k)) as Hk.
  { intros k. unfold gone_kv, drop_version. by rewrite !is_Some_clear, Hid. }
  assert (header (gone_kv s id record) id = None) as Hnew by (unfold header, gone_kv; by rewrite fget_clear_eq).
  assert (forall k, searchSessionKey id <> k -> vk <> k -> pk <> k -> ek <> k -> fget (gone_kv s id record) k = fget s k) as Hsame.
  { intros. unfold gone_kv, drop_version. rewrite Hid. by rewrite !fget_clear_ne. }
  assert (forall id', id' <> id -> header (gone_kv s id record) id' = header s id') as Hother.
  { intros id' Hne. apply header_eq, Hsame; try discriminate. intros E. by apply session_key_inj in E. }
  assert (forall (P : searchSessionRecord -> Prop), (exists r, header (gone_kv s id record) id = Some r /\ P r) <-> False) as Hnone'.
  { intros P. rewrite Hnew. naive_solver. }
  constructor.
  - intros id' v Hv. destruct (decide (id' = id)) as [->|Hne].
    + exfalso. assert (is_Some (fget (gone_kv s id record) (searchSessionKey id))) as [H _]%Hk by eauto. done.
    + rewrite Hsame in Hv; try discriminate; [by apply (si_header _ Hinv)|]. intros E. by apply session_key_inj in E.
  - eapply (listed_update s); [apply by_expiry_inj|apply Hinv|exact Hother|]. intros k Hf. rewrite Hk, Hnone', Hheader, exists_Some.
    unfold by_expiry. fold ek. assert (searchSessionKey id <> k /\ vk <> k /\ pk <> k) by (split_and!; by intros <-). naive_solver.
  - eapply (listed_update s); [apply by_index_inj|apply Hinv|exact Hother|]. intros k Hf. rewrite Hk, Hnone', Hheader, exists_Some.
    unfold by_index. fold pk. assert (searchSessionKey id <> k /\ vk <> k /\ ek <> k) by (split_and!; by intros <-). naive_solver.
  - eapply (listed_update s); [apply by_version_inj|apply Hinv|exact Hother|]. intros k Hf. rewrite Hk, Hnone', Hheader, exists_Some.
    assert (by_version id record = None) as -> by (unfold by_version; by rewrite Hclosing, orb_true_r).
    assert (searchSessionKey id <> k /\ pk <> k /\ ek <> k) as (H1 & H2 & H3) by (split_and!; by intros <-).
    split; [naive_solver|]. intros [[]|[Hs _]]. split_and!; [done| |done..]. intros <-.
    apply (si_version _ Hinv) in Hs as (id' & r & Hr & He); [|done]. apply by_version_key in He as Hid'. subst id'.
    rewrite Hheader in Hr. injection Hr as <-. unfold by_version in He. by rewrite Hclosing, orb_true_r in He.
  - intros id' rest v Hv. rewrite Hsame in Hv by discriminate. destruct (si_child _ Hinv _ _ _ Hv) as [Hok Hh]. split; [done|].
    destruct (decide (id' = id)) as [->|Hne]; [|by rewrite Hother]. rewrite Hnone in Hv; [done|]. by exists rest.
Qed.

Lemma last_slice_none s id items : SessInv s -> items = children s id -> no_children (clear_children_kv s id items) id.
Proof.
  intros Hinv -> k Hp. destruct (fget (clear_children_kv s id (children s id)) k) as [v|] eqn:Hv; [|done].
  apply clear_children_sub in Hv as Hs. assert ((k, v) ∈ children s id) as Hin by (by apply frange_spec).
  pose proof (clear_children_gone s id _ _ (children_ok _ _ Hinv) Hin) as Hn. cbn [fst] in Hn. congruence.
Qed.

Lemma slice_inv s id record limit : SessInv s -> header s id = Some record -> sh_Closing record = true -> (1 <= limit)%Z ->
  SessInv (slice_kv s id record limit).1.
Proof.
  intros Hinv Hheader Hclosing Hlimit. unfold slice_kv.
  assert (SessInv (clear_children_kv s id (take (Z.to_nat limit) (children s id)))) as Hinv' by (by eapply clear_children_inv).
  destruct (Z.eqb_spec (Z.of_nat (length (take (Z.to_nat limit) (children s id)))) limit) as [|Hne]; [done|]. cbn [fst].
  assert (take (Z.to_nat limit) (children s id) = children s id) as E.
  { apply take_ge. rewrite length_take in Hne. lia. }
  apply gone_inv; [done| |done|].
  - rewrite <- Hheader. apply header_eq, clear_children_other; [done|apply take_ok; by apply children_ok|apply not_child_header].
  - by apply last_slice_none.
Qed.

Lemma slice_progress s id record limit : SessInv s -> (1 <= limit)%Z -> (slice_kv s id record limit).2 = false ->
  length (children (slice_kv s id record limit).1 id) + Z.to_nat limit <= length (children s id).
Proof.
  intros Hinv Hlimit. unfold slice_kv. set (items := take (Z.to_nat limit) (children s id)).
  destruct (Z.eqb_spec (Z.of_nat (length items)) limit) as [Hlen|]; [|done]. intros _. cbn [fst].
  assert (Forall (item_ok id) items) as Hok by (apply take_ok; by apply children_ok).
  assert (length items = Z.to_nat limit) as Hl by lia.
  rewrite <- (take_drop (Z.to_nat limit) (children s id)). fold items. rewrite length_app, Hl.
  enough (length (children (clear_children_kv s id items) id) <= length (drop (Z.to_nat limit) (children s id))) by lia.
  apply submseteq_length, NoDup_submseteq; [apply (NoDup_fmap_1 fst), frange_nodup|].
  intros [k v] [Hp Hv]%frange_spec. apply clear_children_sub in Hv as Hs.
  assert ((k, v) ∈ children s id) as Hin by (by apply frange_spec).
  rewrite <- (take_drop (Z.to_nat limit) (children s id)) in Hin. fold items in Hin. apply elem_of_app in Hin as [Hin|]; [|done].
  pose proof (clear_children_gone s id items _ Hok Hin) as Hn. cbn [fst] in Hn. congruence.
Qed.

(** ** The promises *)

Definition names_valid (session : Session) : Prop :=
  to_valid (q_Index (ss_Query session)) = q_Index (ss_Query session) /\
  to_valid (af_Version (q_Access (ss_Query session))) = af_Version (q_Access (ss_Query session)).

(** The transactions of the store.  The service commits no page of a complete
    session ([SearchQuery.continueSession]). *)
Inductive session_step : kv -> kv -> Prop :=
  | step_create session w w' s' : names_valid session -> ss_Complete session = false -> ss_Closing session = false ->
      Session_Create session w = Ok (w', s') -> session_step (st_kv w) (st_kv w')
  | step_commit clock idleTimeout id version c w w' next :
      (forall r, header (st_kv w) id = Some r -> sh_Complete r = false) ->
      Session_CommitPage clock idleTimeout id version c w = Ok (w', next) -> session_step (st_kv w) (st_kv w')
  | step_close fence id w w' u : Session_BeginCleanup fence id w = Ok (w', u) -> session_step (st_kv w) (st_kv w')
  | step_slice fence id limit w w' b : Session_CleanupSlice fence id limit w = Ok (w', b) -> session_step (st_kv w) (st_kv w').

Lemma commit_not_closing clock stored : commit_expired clock stored = false -> sh_Closing stored = false.
Proof. unfold commit_expired. by destruct (sh_Closing stored). Qed.

Lemma header_id s id r : SessInv s -> header s id = Some r -> sh_ID r = id.
Proof. intros Hinv Hr%header_Some. by destruct (si_header _ Hinv _ _ Hr) as (r' & [= <-] & ? & _). Qed.

(** C26: The three lists of sessions hold exactly the sessions that exist, the
    version list those that may still read the engine, and no record below a
    session outlives its header, whatever sequence of transactions runs. *)
Theorem sessions_listed s s' : SessInv s -> rtc session_step s s' -> SessInv s'.
Proof.
  intros Hinv Hsteps. induction Hsteps as [|s1 s2 s3 Hstep _ IH]; [done|]. apply IH. clear IH s3. inversion Hstep; subst.
  - match goal with H : Session_Create _ _ = _ |- _ => apply Create_run in H as (_ & Hc & Hnone & _ & ->) end.
    destruct H. apply create_inv; auto. by apply get_session_None.
  - match goal with H : Session_CommitPage _ _ _ _ _ _ = _ |- _ => apply CommitPage_run in H as (stored & Hs & <- & Hexp & _ & Hkv & _) end.
    rewrite Hkv. apply header_Some in Hs. eapply commit_inv; eauto using commit_not_closing.
  - match goal with H : Session_BeginCleanup _ _ _ = _ |- _ => apply BeginCleanup_run in H as [[_ ->]|(stored & Hs & ->)] end; [done|].
    apply header_Some in Hs. destruct (sh_Closing stored) eqn:Hc; [done|]. rewrite <- (header_id _ _ _ Hinv Hs). eapply closing_inv; eauto.
  - match goal with H : Session_CleanupSlice _ _ _ _ = _ |- _ => apply CleanupSlice_inv in H as [(_ & -> & _)|(r & Hr & Hc & Hl & -> & _)] end; [done..| |done].
    by apply slice_inv.
Qed.

Lemma minute_mono t t' : (t <= t')%Z -> (searchSessionMinute t <= searchSessionMinute t')%Z.
Proof. intros Ht. unfold searchSessionMinute. apply Z.quot_le_mono; [lia|]. apply Z.sub_le_mono_r. apply Z.div_le_mono; lia. Qed.

(** C22: When the store reports that no session reads under an access version
    any more, every session of that version is complete, closing or past its
    absolute deadline: the version's keys can be retired. *)
Theorem version_retirement_safe s now authority version w w' id r :
  SessInv s -> st_kv w = s -> sessionVersionPresent now authority version w = Ok (w', false) ->
  header s id = Some r -> sh_AuthorityID r = authority -> sh_AccessVersion r = version ->
  sh_Complete r = true \/ sh_Closing r = true \/ (sh_AbsoluteDeadline r <= now)%Z.
Proof.
  intros Hinv <- E Hr <- <-. destruct (sh_Complete r) eqn:Hcomplete; [by left|]. destruct (sh_Closing r) eqn:Hclosing; [by right; left|].
  right. right. destruct (Z.le_gt_cases (sh_AbsoluteDeadline r) now) as [|Hlate]; [done|]. exfalso.
  unfold sessionVersionPresent in E. rd_at E w1 items H1. apply s_range_ok in H1 as [-> ->]. apply rd_ret_ok in E as [_ E].
  symmetry in E. apply negb_false_iff, bool_decide_eq_true in E.
  set (vk := searchSessionVersionKey (sh_AuthorityID r) (sh_AccessVersion r) (sh_AbsoluteDeadline r) id).
  assert (is_Some (fget (st_kv w) vk)) as [v Hv].
  { apply (si_version _ Hinv); [done|]. exists id, r. split; [done|]. unfold by_version. by rewrite Hcomplete, Hclosing. }
  apply (not_elem_of_nil (vk, v)). rewrite <- E. apply list_elem_of_filter. split.
  - cbn [fst]. unfold searchSessionVersionStart, vk, searchSessionVersionKey. cbn [key_le].
    rewrite !(decide_True (P := TStr _ = TStr _)), !(decide_True (P := id_elem _ = id_elem _)) by done.
    case_decide; [done|]. cbn [elem_le]. apply minute_mono. lia.
  - apply frange_spec. split; [|done]. by eexists [_; _; _].
Qed.

(** Of all commits of one session version at most one takes effect: once
    a page is committed, every other commit of that version is told that the
    session changed, whatever page it carries. *)
Theorem commit_once clock idleTimeout clock' idleTimeout' id version c c' w w' next :
  SessInv (st_kv w) -> Session_CommitPage clock idleTimeout id version c w = Ok (w', next) ->
  commit_out_of_bounds c' = false ->
  Session_CommitPage clock' idleTimeout' id version c' w' = Err ErrSessionChanged.
Proof.
  intros Hinv E Hc'. apply CommitPage_run in E as (stored & Hs & Hv & _ & _ & Hkv & _). apply header_Some in Hs as Hh.
  pose proof (header_id _ _ _ Hinv Hh) as Hid. destruct (si_header _ Hinv _ _ Hs) as (r & [= <-] & _ & _ & _ & Hrange).
  unfold Session_CommitPage, commitAttempt. rewrite Hc'. cbv [mbind rd_bind]. unfold s_startAttempt. rewrite readSession_eq. cbn [st_kv]. rewrite Hkv.
  rewrite (proj2 (get_session_Some _ _ _) (eq_trans (commit_session _ _ _ _ _ _) (decide_True _ _ (eq_sym Hid)))).
  cbn [sh_Version decoded_record with_position]. rewrite (proj2 (Z.eqb_neq _ _)); [done|]. rewrite <- Hv.
  destruct (Z.eq_dec (sh_Version stored) (2 ^ 64 - 1)%Z) as [->|]; [done|]. rewrite Z.mod_small by lia. lia.
Qed.

(** A session whose texts are UTF-8 and whose position is compact. *)
Record plain_session (session : Session) : Prop := {
  ps_names : names_valid session;
  ps_text : to_valid (q_Text (ss_Query session)) = q_Text (ss_Query session);
  ps_type : to_valid (q_NodeType (ss_Query session)) = q_NodeType (ss_Query session);
  ps_keys : to_valid <$> af_Keys (q_Access (ss_Query session)) = af_Keys (q_Access (ss_Query session));
  ps_pit : to_valid (sn_PITID (ss_Snapshot session)) = sn_PITID (ss_Snapshot session);
  ps_index : sn_Index (ss_Snapshot session) = q_Index (ss_Query session);
  ps_sort : compact_json false (ss_Sort session) = ss_Sort session;
  ps_binding : String.length (ss_Binding session) = 32;
  ps_closing : ss_Closing session = false;
}.

Lemma plain_decoded session : plain_session session -> decoded_session session = session.
Proof.
  destruct session as [? ? ? ? ? [? ? ? []] [] ? ? ? ? ? ? ?]. intros [[H1 H2] H3 H4 H5 H6 H7 H8 _ _].
  cbn in H1, H2, H3, H4, H5, H6, H7, H8. unfold decoded_session. cbn -[to_valid compact_json].
  by rewrite H1, H2, H3, H4, H5, H6, H7, H8.
Qed.

(** A session is read back as it was created: its query, its binding and
    the query tokens, which are stored in chunks. *)
Theorem create_load_roundtrip session w w' s' : SessInv (st_kv w) -> plain_session session ->
  Session_Create session w = Ok (w', s') -> Session_Load (ss_ID session) w' = Ok (w', session).
Proof.
  intros Hinv Hplain E. apply Create_run in E as (_ & _ & Hnone & _ & Hkv). rewrite Load_eq, Hkv, create_load.
  - by rewrite plain_decoded.
  - apply no_header_no_children; [done|]. by apply get_session_None.
  - apply Hplain.
  - apply Hplain.
Qed.

(** Slices until one reports that the session is gone. *)
Fixpoint run_slices (n : nat) (id : uuid) (limit : Z) (w : sessionTx) : res (sessionTx * bool) :=
  match n with
  | O => Ok (w, false)
  | S n' =>
      match Session_CleanupSlice None id limit w with
      | Ok (w', true) => Ok (w', true)
      | Ok (w', false) => run_slices n' id limit w'
      | Err e => Err e
      end
  end.

(** No key of the session is left. *)
Record forgotten (s : kv) (id : uuid) : Prop := {
  fo_header : fget s (searchSessionKey id) = None;
  fo_children : no_children s id;
  fo_expiry t : fget s (searchSessionExpiryKey id t) = None;
  fo_index i : fget s (searchSessionPresenceKey i id) = None;
  fo_version a v t : fget s (searchSessionVersionKey a v t id) = None;
}.

Lemma forgotten_of_header s id : SessInv s -> header s id = None -> forgotten s id.
Proof.
  intros Hinv Hnone.
  assert (forall k fam entry, family k = fam -> listed s fam entry -> (forall id' r, entry id' r = Some k -> id' = id) -> fget s k = None) as Hgone.
  { intros k fam entry Hf Hl Hk. destruct (fget s k) as [v|] eqn:Hv; [|done]. destruct (Hl k Hf) as [H _].
    destruct H as (id' & r & Hr & He); [eauto|]. apply Hk in He as ->. congruence. }
  constructor.
  - destruct (fget s (searchSessionKey id)) as [v|] eqn:Hv; [|done]. destruct (si_header _ Hinv _ _ Hv) as (r & -> & _).
    by apply header_Some in Hv; rewrite Hv in Hnone.
  - by apply no_header_no_children.
  - intros t. eapply Hgone; [done|apply Hinv|]. intros id' r He. by eapply by_expiry_key.
  - intros i. eapply Hgone; [done|apply Hinv|]. intros id' r He. by eapply by_index_key.
  - intros a v t. eapply Hgone; [done|apply Hinv|]. intros id' r He. by eapply by_version_key.
Qed.

(** C27: Cleanup ends: a closing session with any number of records below it
    is gone after one slice more than its records fill, and then no key of
    the store names it. *)
Theorem cleanup_finishes s w id record limit : SessInv s -> st_kv w = s -> header s id = Some record -> sh_Closing record = true ->
  (1 <= limit <= maxSessionCleanupKeys)%Z ->
  exists w', run_slices (length (children s id) / Z.to_nat limit + 1) id limit w = Ok (w', true) /\ forgotten (st_kv w') id.
Proof.
  intros Hinv <- Hheader Hclosing Hlimit. remember (length (children (st_kv w) id) / Z.to_nat limit) as n eqn:Hn.
  revert w Hinv Hheader Hn. induction n as [n IH] using lt_wf_ind. intros w Hinv Hheader Hn.
  rewrite Nat.add_1_r. cbn [run_slices].
  destruct (CleanupSlice_run None id limit w record) as (w1 & -> & Hw1); [done|done|done|done|done|].
  assert (SessInv (st_kv w1)) as Hinv1 by (rewrite Hw1; apply slice_inv; [done..|lia]).
  destruct (slice_kv (st_kv w) id record limit).2 eqn:Hdone.
  - exists w1. split; [done|]. apply forgotten_of_header; [done|]. rewrite Hw1. unfold slice_kv in *. destruct (_ =? _)%Z; [done|].
    unfold header, gone_kv. cbn [fst]. by rewrite fget_clear_eq.
  - pose proof (slice_progress _ id record limit Hinv ltac:(lia) Hdone) as Hprog. rewrite <- Hw1 in Hprog.
    assert (header (st_kv w1) id = Some record) as Hh1.
    { rewrite <- Hheader, Hw1. apply header_eq. unfold slice_kv in *. destruct (_ =? _)%Z; [|done].
      apply clear_children_other; [done|apply take_ok; by apply children_ok|apply not_child_header]. }
    assert (length (children (st_kv w1) id) / Z.to_nat limit < n) as Hlt.
    { subst n. apply Nat.lt_le_trans with ((length (children (st_kv w1) id) + Z.to_nat limit) / Z.to_nat limit); [|apply Nat.Div0.div_le_mono; lia].
      rewrite <- (Nat.mul_1_l (Z.to_nat limit)) at 2. rewrite Nat.div_add by lia. lia. }
    destruct n as [|n']; [lia|]. destruct (IH _ Hlt w1 Hinv1 Hh1 eq_refl) as (w2 & E2 & Hf). exists w2. split; [|done].
    assert (forall m k w, m <= k -> run_slices m id limit w = Ok (w2, true) -> run_slices k id limit w = Ok (w2, true)) as Hmore.
    { clear. induction m as [|m IHm]; intros [|k] w Hk; [done..|lia|]. cbn [run_slices].
      destruct (Session_CleanupSlice _ _ _ _) as [[w' []]|]; [done| |done]. apply IHm. lia. }
    eapply Hmore; [|exact E2]. lia.
Qed.

End spec.
