(* ===== verification/QuerySpec.v ===== *)
(** * What public search promises

    A page is checked against its settings whatever the ports return
    ([search_shows_permitted], [search_page_bounds]).  Over a store that
    meets the interface [SessionLaws], an engine that ranks a fixed list of
    hits and summaries that do not change, the pages of one search are the
    ranked nodes the caller may see, each once and in order
    ([search_pages_in_rank_order]), and the search ends
    ([search_completes]). *)

From S2P Require Import Prelude GoJson Sha256 Bytes Float64 Quote GoTime Domain Store Tx AuditEvent SearchAccess SearchReaders SearchSession SearchQuery SessionSpec.

(** ** Stepping a service *)

Lemma svc_bind_done {W A B} (m : svc W A) (f : A -> svc W B) w w' b :
  (m ≫= f) w = (w', Done b) -> exists w1 a, m w = (w1, Done a) /\ f a w1 = (w', Done b).
Proof. cbv [mbind svc_bind]. destruct (m w) as [w1 [a|e]]; [eauto|]. intros [=]. Qed.

Lemma attempt_done {W A} (m : svc W A) w w' o : attempt m w = (w', Done o) -> m w = (w', o).
Proof. unfold attempt. destruct (m w). by intros [= -> ->]. Qed.

Lemma svc_ret_done {W A} (a : A) (w w' : W) b : (mret a : svc W A) w = (w', Done b) <-> w' = w /\ b = a.
Proof. cbv [mret svc_ret]. naive_solver. Qed.

Lemma svc_fail_done {W A} e (w w' : W) (a : A) : svc_fail e w = (w', Done a) -> False.
Proof. by intros [=]. Qed.

Lemma refuse_done {W A} r c (w w' : W) (a : A) : refuse r c w = (w', Done a) -> False.
Proof. by intros [=]. Qed.

Ltac svc_inv :=
  repeat match goal with
  | H : (_ ≫= _) _ = (_, Done _) |- _ => apply svc_bind_done in H as (? & ? & ? & ?)
  | H : attempt _ _ = (_, Done _) |- _ => apply attempt_done in H
  | H : mret _ _ = (_, Done _) |- _ => apply svc_ret_done in H as [? ?]; subst
  | H : svc_fail _ _ = (_, Done _) |- _ => by apply svc_fail_done in H
  | H : refuse _ _ _ = (_, Done _) |- _ => by apply refuse_done in H
  | H : (let '(_, _) := ?p in _) _ = _ |- _ => destruct p
  end.

Tactic Notation "svc_step" hyp(E) := apply svc_bind_done in E as (? & ? & ? & E).
Tactic Notation "svc_step" hyp(E) ident(a) := apply svc_bind_done in E as (? & a & ? & E).

Tactic Notation "svc_at" hyp(E) ident(w) ident(a) ident(H) := apply svc_bind_done in E as (w & a & H & E).

(** ** The reference: nodes in rank order *)

(** The nodes of a list of hits in order, each once, those of [seen] left out. *)
Fixpoint distinct (seen : gset uuid) (hits : list RankHit) : list uuid :=
  match hits with
  | [] => []
  | hit :: hits' =>
      if decide (rh_NodeID hit ∈ seen) then distinct seen hits'
      else rh_NodeID hit :: distinct ({[rh_NodeID hit]} ∪ seen) hits'
  end.

Definition hit_ids (hits : list RankHit) : gset uuid := list_to_set (rh_NodeID <$> hits).

Lemma hit_ids_nil : hit_ids [] = ∅.
Proof. done. Qed.

Lemma hit_ids_cons hit hits : hit_ids (hit :: hits) = {[rh_NodeID hit]} ∪ hit_ids hits.
Proof. done. Qed.

Lemma hit_ids_app hits hits' : hit_ids (hits ++ hits') = hit_ids hits ∪ hit_ids hits'.
Proof. unfold hit_ids. by rewrite fmap_app, list_to_set_app_L. Qed.

Lemma distinct_ext seen seen' hits : seen ≡ seen' -> distinct seen hits = distinct seen' hits.
Proof. intros E. apply leibniz_equiv in E. by subst. Qed.

Lemma distinct_app seen hits hits' :
  distinct seen (hits ++ hits') = distinct seen hits ++ distinct (seen ∪ hit_ids hits) hits'.
Proof.
  revert seen. induction hits as [|h hits IH]; intros seen; cbn [app distinct]; rewrite ?hit_ids_nil, ?hit_ids_cons.
  - apply distinct_ext. set_solver.
  - destruct (decide (rh_NodeID h ∈ seen)) as [Hin|Hin]; rewrite IH; cbn [app]; [|f_equal]; f_equal; apply distinct_ext; set_solver.
Qed.

Lemma distinct_snoc seen hits hit :
  distinct seen (hits ++ [hit]) =
  distinct seen hits ++ (if decide (rh_NodeID hit ∈ seen ∪ hit_ids hits) then [] else [rh_NodeID hit]).
Proof. rewrite distinct_app. cbn [distinct]. by case_decide. Qed.

Lemma elem_of_distinct seen hits id : id ∈ distinct seen hits <-> id ∈ hit_ids hits /\ id ∉ seen.
Proof.
  revert seen. induction hits as [|h hits IH]; intros seen; cbn [distinct]; rewrite ?hit_ids_nil, ?hit_ids_cons; [set_solver|].
  destruct (decide (rh_NodeID h ∈ seen)) as [Hin|Hin]; rewrite ?elem_of_cons, IH, ?not_elem_of_union, !elem_of_union, !elem_of_singleton;
    [|destruct (decide (id = rh_NodeID h))]; naive_solver.
Qed.

Lemma NoDup_distinct seen hits : NoDup (distinct seen hits).
Proof.
  revert seen. induction hits as [|h hits IH]; intros seen; cbn [distinct]; [constructor|].
  case_decide; [done|]. constructor; [rewrite elem_of_distinct; set_solver|done].
Qed.

(** ** A page over a fixed ranking

    [seen0] is what earlier pages consumed, [pre] what this page has. *)

Section page.
Context (settings : SearchQuerySettings) (filter : AccessFilter) (nodeType : string) (summary_of : uuid -> SummaryResult).

(** What the caller sees of a node. *)
Definition shown (id : uuid) : option Summary :=
  let r := summary_of id in
  if accepted r filter nodeType && negb (oversized settings (sr_Summary r)) then Some (sr_Summary r) else None.

Definition total_bytes (results : list Summary) : Z := foldr (fun s n => (ResultBytes s + n)%Z) 0%Z results.

Lemma total_bytes_snoc results s : total_bytes (results ++ [s]) = (total_bytes results + ResultBytes s)%Z.
Proof. induction results as [|r results IH]; cbn [app total_bytes foldr]; [lia|]. fold (total_bytes (results ++ [s])) (total_bytes results). lia. Qed.

Record page_at (seen0 : gset uuid) (start : raw) (pre : list RankHit) (page : pageState) : Prop := {
  pa_visited : ps_visited page = distinct seen0 pre;
  pa_seen id : id ∈ ps_seen page <-> id ∈ distinct seen0 pre;
  pa_results : ps_results page = omap shown (distinct seen0 pre);
  pa_ids : ps_resultIDs page = sm_ID <$> ps_results page;
  pa_bytes : ps_bytes page = (responseReserveBytes + total_bytes (ps_results page))%Z;
  pa_position : ps_position page = from_option rh_Sort start (last pre);
  pa_fits : ps_results page = [] \/ (ps_bytes page <= MaxResponseBytes settings)%Z;
  pa_count : (Z.of_nat (length (ps_results page)) <= Z.max 0 (MaxResults settings))%Z;
}.

Context (seen0 : gset uuid) (start : raw).

(** The page cannot take the next node. *)
Definition no_room (page : pageState) (hits : list RankHit) : Prop :=
  (MaxResults settings <= Z.of_nat (length (ps_results page)))%Z \/
  exists hit hits' s, hits = hit :: hits' /\ shown (rh_NodeID hit) = Some s /\
    (MaxResponseBytes settings < ps_bytes page + ResultBytes s)%Z.

Lemma page_skip pre page hit : page_at seen0 start pre page -> rh_NodeID hit ∈ seen0 ∪ hit_ids pre ->
  page_at seen0 start (pre ++ [hit]) (with_ps_position page (rh_Sort hit)).
Proof.
  intros [Hv Hs Hr Hi Hb Hp Hf Hc] Hin.
  assert (distinct seen0 (pre ++ [hit]) = distinct seen0 pre) as E.
  { rewrite distinct_snoc, decide_True by done. by rewrite app_nil_r. }
  constructor; cbn; rewrite ?E; auto. by rewrite last_snoc.
Qed.

Lemma page_take pre page hit page' : page_at seen0 start pre page -> rh_NodeID hit ∉ seen0 ∪ hit_ids pre ->
  (let r := summary_of (rh_NodeID hit) in
   if accepted r filter nodeType then admit_result settings page (sr_Summary r) else (page, true)) = (page', true) ->
  page_at seen0 start (pre ++ [hit]) (consumed page' hit) /\ ps_full page' = ps_full page /\ ps_pending page' = ps_pending page.
Proof.
  intros [Hv Hs Hr Hi Hb Hp Hf Hc] Hnot. cbn zeta. set (r := summary_of (rh_NodeID hit)).
  assert (distinct seen0 (pre ++ [hit]) = distinct seen0 pre ++ [rh_NodeID hit]) as E.
  { by rewrite distinct_snoc, decide_False. }
  assert (page_at seen0 start (pre ++ [hit]) (consumed page hit) <-> shown (rh_NodeID hit) = None) as Hkeep.
  { split.
    - intros H. pose proof (pa_results _ _ _ _ H) as H'. cbn in H'. rewrite E, omap_app, Hr in H'. cbn in H'.
      destruct (shown (rh_NodeID hit)); [|done]. apply (f_equal length) in H'. rewrite length_app in H'. cbn in H'. lia.
    - intros Hnone. assert (omap shown (distinct seen0 (pre ++ [hit])) = ps_results page) as E'.
      { rewrite E, omap_app, <- Hr. cbn. rewrite Hnone. by rewrite app_nil_r. }
      constructor; cbn; rewrite ?E', ?E, ?last_snoc; auto; [by rewrite Hv|]. intros id. rewrite elem_of_app, <- Hs. set_solver. }
  unfold shown in Hkeep. fold r in Hkeep. destruct (accepted r filter nodeType) eqn:Ha; cbn [andb] in Hkeep.
  2:{ intros [= <-]. split; [by apply Hkeep|done]. }
  unfold admit_result. destruct (oversized settings (sr_Summary r)) eqn:Ho; cbn [negb] in Hkeep.
  { intros [= <-]. split; [by apply Hkeep|done]. }
  destruct (_ || _) eqn:Hroom; [done|]. intros [= <-]. rewrite orb_false_iff, Z.leb_gt, Z.ltb_ge in Hroom.
  destruct Hroom as [Hmax Hbytes]. split; [|done].
  assert (omap shown (distinct seen0 (pre ++ [hit])) = ps_results page ++ [sr_Summary r]) as E'.
  { rewrite E, omap_app, <- Hr. cbn. unfold shown. fold r. by rewrite Ha, Ho. }
  constructor; cbn; rewrite ?E', ?E, ?last_snoc, ?total_bytes_snoc; auto.
  - by rewrite Hv.
  - intros id. rewrite elem_of_app, <- Hs. set_solver.
  - by rewrite fmap_app, Hi.
  - lia.
  - rewrite length_app. cbn. lia.
Qed.

Lemma page_refuse pre page hit hits page' : page_at seen0 start pre page ->
  (let r := summary_of (rh_NodeID hit) in
   if accepted r filter nodeType then admit_result settings page (sr_Summary r) else (page, true)) = (page', false) ->
  page' = page /\ no_room page (hit :: hits) /\ (ps_results page = [] -> (MaxResults settings < 1)%Z).
Proof.
  intros Hp. cbn zeta. set (r := summary_of (rh_NodeID hit)).
  destruct (accepted r filter nodeType) eqn:Ha; [|done].
  unfold admit_result. destruct (oversized settings (sr_Summary r)) eqn:Ho; [done|].
  destruct (_ || _) eqn:Hroom; [|done]. intros [= <-]. split; [done|].
  rewrite orb_true_iff, Z.leb_le, Z.ltb_lt in Hroom. split.
  - destruct Hroom as [?|Hb]; [by left|right]. exists hit, hits, (sr_Summary r). split; [done|]. split; [|done].
    unfold shown. fold r. by rewrite Ha, Ho.
  - intros Hnil. destruct Hroom as [Hm|Hb]; [rewrite Hnil in Hm; cbn in Hm; lia|].
    rewrite (pa_bytes _ _ _ _ Hp), Hnil in Hb. unfold oversized in Ho. apply Z.ltb_ge in Ho. cbn in Hb. lia.
Qed.

(** What a batch does to a page: it consumes the hits up to the point where
    the page is full, and no hit that the page could still take stays behind. *)
Lemma consumeHits_page hits pre page (visited : gset uuid) byID :
  page_at seen0 start pre page -> ps_full page = false -> ps_pending page = false ->
  (forall id, id ∈ hit_ids hits -> id ∉ ps_seen page -> id ∈ visited <-> id ∈ seen0) ->
  (forall id, id ∈ hit_ids hits -> id ∉ ps_seen page -> id ∉ visited -> byID !! id = Some (summary_of id)) ->
  let page' := consumeHits settings filter nodeType visited byID hits page in
  exists mid rest, hits = mid ++ rest /\ page_at seen0 start (pre ++ mid) page' /\
    (ps_pending page' = true <-> rest <> []) /\ (ps_full page' = false -> rest = []) /\
    (ps_full page' = true -> no_room page' rest) /\
    ((1 <= MaxResults settings)%Z -> ps_results page = [] -> hits <> [] -> mid <> []).
Proof.
  revert pre page. induction hits as [|hit hits IH]; intros pre page Hpage Hfull Hpend Hvis Hby.
  { exists [], []. cbn [consumeHits app]. rewrite app_nil_r, Hfull, Hpend. split_and!; [done..|done|done]. }
  assert ((rh_NodeID hit ∈ ps_seen page \/ rh_NodeID hit ∈ visited) <-> rh_NodeID hit ∈ seen0 ∪ hit_ids pre) as Hknown.
  { rewrite (pa_seen _ _ _ _ Hpage), elem_of_distinct, elem_of_union.
    destruct (decide (rh_NodeID hit ∈ ps_seen page)) as [Hin|Hin].
    - rewrite (pa_seen _ _ _ _ Hpage), elem_of_distinct in Hin. naive_solver.
    - rewrite (Hvis (rh_NodeID hit)) by (rewrite ?hit_ids_cons; set_solver).
      rewrite (pa_seen _ _ _ _ Hpage), elem_of_distinct in Hin. destruct (decide (rh_NodeID hit ∈ seen0)); naive_solver. }
  assert (forall page1, (forall id, id ∈ ps_seen page -> id ∈ ps_seen page1) ->
    page_at seen0 start (pre ++ [hit]) page1 -> ps_full page1 = false -> ps_pending page1 = false ->
    let page' := consumeHits settings filter nodeType visited byID hits page1 in
    exists mid rest, hit :: hits = mid ++ rest /\ page_at seen0 start (pre ++ mid) page' /\
      (ps_pending page' = true <-> rest <> []) /\ (ps_full page' = false -> rest = []) /\
      (ps_full page' = true -> no_room page' rest) /\
      ((1 <= MaxResults settings)%Z -> ps_results page = [] -> hit :: hits <> [] -> mid <> [])) as Hnext.
  { intros page1 Hsub Hpage1 Hf1 Hp1. destruct (IH _ _ Hpage1 Hf1 Hp1) as (mid & rest & -> & Hat & H1 & H2 & H3 & _).
    - intros id Hid Hns. apply Hvis; [rewrite hit_ids_cons; set_solver|auto].
    - intros id Hid Hns. apply Hby; [rewrite hit_ids_cons; set_solver|auto].
    - exists (hit :: mid), rest. rewrite <- app_assoc in Hat. by split_and!. }
  cbn [consumeHits]. destruct (bool_decide (rh_NodeID hit ∈ ps_seen page) || bool_decide (rh_NodeID hit ∈ visited)) eqn:Hk.
  { rewrite orb_true_iff, !bool_decide_eq_true in Hk. apply Hnext; auto. apply page_skip; [done|]. by apply Hknown. }
  rewrite orb_false_iff, !bool_decide_eq_false in Hk. destruct Hk as [Hk1 Hk2].
  assert (rh_NodeID hit ∉ seen0 ∪ hit_ids pre) as Hnew by (rewrite <- Hknown; tauto).
  rewrite (Hby (rh_NodeID hit)) by (rewrite ?hit_ids_cons; set_solver). cbn [default from_option id].
  destruct (if accepted _ _ _ then _ else _) as [page1 [|]] eqn:Htake; cbn [negb].
  - destruct (page_take _ _ _ _ Hpage Hnew Htake) as (Hat & Hf1 & Hp1).
    destruct (Z.leb_spec (MaxResults settings) (Z.of_nat (length (ps_results (consumed page1 hit))))) as [Hmax|Hmax].
    + exists [hit], hits. split; [done|]. split; [by destruct Hat; constructor|]. cbn [with_stop ps_pending ps_full].
      rewrite negb_true_iff, bool_decide_eq_false. split_and!; [done|done| |done]. intros _. by left.
    + apply Hnext; [|done|by rewrite <- Hfull, <- Hf1|by rewrite <- Hpend, <- Hp1].
      intros id Hid. rewrite (pa_seen _ _ _ _ Hat), elem_of_distinct, hit_ids_app.
      rewrite (pa_seen _ _ _ _ Hpage), elem_of_distinct in Hid. set_solver.
  - destruct (page_refuse _ _ _ hits _ Hpage Htake) as (-> & Hroom & Hnil).
    exists [], (hit :: hits). rewrite app_nil_r. split; [done|]. split; [by destruct Hpage; constructor|]. cbn [with_stop ps_pending ps_full].
    split_and!; [done|done|done|]. intros H1 H2 _ _. specialize (Hnil H2). lia.
Qed.

End page.

Lemma candidatesOf_distinct seen hits candidates :
  candidatesOf seen hits candidates = candidates ++ distinct (seen ∪ list_to_set candidates) hits.
Proof.
  revert candidates. induction hits as [|hit hits IH]; intros candidates; cbn [candidatesOf distinct]; [by rewrite app_nil_r|].
  destruct (bool_decide (rh_NodeID hit ∈ seen) || bool_decide (rh_NodeID hit ∈ candidates)) eqn:Hk.
  - rewrite orb_true_iff, !bool_decide_eq_true in Hk. rewrite decide_True, IH; [done|].
    rewrite elem_of_union, elem_of_list_to_set. tauto.
  - rewrite orb_false_iff, !bool_decide_eq_false in Hk. rewrite decide_False, IH.
    + rewrite <- app_assoc. do 2 f_equal. cbn [app]. f_equal. apply leibniz_equiv.
      rewrite list_to_set_app. cbn. set_solver.
    + rewrite elem_of_union, elem_of_list_to_set. tauto.
Qed.

Lemma candidates_nil seen hits : candidatesOf seen hits [] = distinct seen hits.
Proof. rewrite candidatesOf_distinct. cbn [app]. apply distinct_ext. set_solver. Qed.

Lemma by_id_snoc l r : by_id (l ++ [r]) = <[sr_NodeID r := r]> (by_id l).
Proof. unfold by_id. by rewrite foldl_app. Qed.

Lemma by_id_elem l id r : by_id l !! id = Some r -> r ∈ l /\ sr_NodeID r = id.
Proof.
  induction l as [|x l IH] using rev_ind; [done|]. rewrite by_id_snoc, elem_of_app, list_elem_of_singleton.
  destruct (decide (sr_NodeID x = id)) as [<-|Hn].
  - rewrite lookup_insert_eq. intros [= <-]. auto.
  - rewrite lookup_insert_ne by done. intros [? ?]%IH. auto.
Qed.

Lemma by_id_fmap (f : uuid -> SummaryResult) ids id : (forall n, sr_NodeID (f n) = n) -> id ∈ ids ->
  by_id (f <$> ids) !! id = Some (f id).
Proof.
  intros Hf. induction ids as [|x ids IH] using rev_ind; [by intros ?%elem_of_nil|].
  rewrite elem_of_app, list_elem_of_singleton, fmap_app. cbn. rewrite by_id_snoc, Hf. intros Hin.
  destruct (decide (x = id)) as [->|Hn]; [by rewrite lookup_insert_eq|]. rewrite lookup_insert_ne by done.
  apply IH. destruct Hin; [done|congruence].
Qed.

(** ** What any search shows *)

Section safety.
Context {W : Type} `{SP : SearchQueryPorts W} (settings : SearchQuerySettings) `{GL : GoLib}.

(** A summary some read of the node store returned. *)
Definition summary_read (r : SummaryResult) : Prop :=
  exists ids w w' l, NodeSummaries ids summaryNameBytes w = (w', Done l) /\ r ∈ l.

Definition permitted (filter : AccessFilter) (s : Summary) : Prop :=
  exists r, summary_read r /\ sr_Summary r = s /\ sr_Status r = SummaryFound /\ Permits filter (sr_AccessKeys r) = true.

(** The page stays within its byte budget. *)
Definition fits_budget (results : list Summary) : Prop :=
  (results = [] \/ responseReserveBytes + total_bytes results <= MaxResponseBytes settings)%Z.

Record page_ok (filter : AccessFilter) (page : pageState) : Prop := {
  pk_permitted : Forall (permitted filter) (ps_results page);
  pk_count : (Z.of_nat (length (ps_results page)) <= Z.max 0 (MaxResults settings))%Z;
  pk_bytes : ps_bytes page = (responseReserveBytes + total_bytes (ps_results page))%Z;
  pk_fits : ps_results page = [] \/ (ps_bytes page <= MaxResponseBytes settings)%Z;
}.

Lemma accepted_permitted filter nodeType r : summary_read r -> accepted r filter nodeType = true -> permitted filter (sr_Summary r).
Proof.
  intros Hr. unfold accepted. destruct (sr_Status r) eqn:Hs; [|done]. rewrite andb_true_iff. intros [Hp _]. by exists r.
Qed.

Lemma admit_ok filter page page' taken r nodeType : page_ok filter page -> summary_read r -> accepted r filter nodeType = true ->
  admit_result settings page (sr_Summary r) = (page', taken) -> page_ok filter page'.
Proof.
  intros [Hp Hc Hb Hf] Hr Ha. unfold admit_result. destruct (oversized _ _); [by intros [= <- _]|].
  destruct (_ || _) eqn:Hroom; [by intros [= <- _]|]. rewrite orb_false_iff, Z.leb_gt, Z.ltb_ge in Hroom.
  intros [= <- _]. constructor; cbn.
  - rewrite Forall_app, Forall_singleton. split; [done|]. eapply accepted_permitted; eauto.
  - rewrite length_app. cbn. lia.
  - rewrite total_bytes_snoc. lia.
  - right. lia.
Qed.

Lemma page_ok_same filter page page' : page_ok filter page ->
  ps_results page' = ps_results page -> ps_bytes page' = ps_bytes page -> page_ok filter page'.
Proof. intros [Hp Hc Hb Hf] E1 E2. constructor; rewrite ?E1, ?E2; auto. Qed.

Lemma consumeHits_ok filter nodeType visited byID hits page :
  (forall id r, byID !! id = Some r -> summary_read r) -> page_ok filter page ->
  page_ok filter (consumeHits settings filter nodeType visited byID hits page).
Proof.
  intros Hby. revert page. induction hits as [|hit hits IH]; intros page Hp; cbn [consumeHits]; [done|].
  destruct (_ || _); [apply IH; by eapply page_ok_same|].
  destruct (if accepted _ _ _ then _ else _) as [page1 taken] eqn:Htake.
  assert (page_ok filter page1) as Hp1.
  { destruct (accepted _ _ _) eqn:Ha; [|by injection Htake as <- _].
    destruct (byID !! rh_NodeID hit) as [r|] eqn:Hr; cbn [default from_option id] in *; [|done].
    eapply admit_ok; eauto. }
  destruct taken; cbn [negb]; [|by apply (page_ok_same _ page1)].
  destruct (_ <=? _)%Z; [by apply (page_ok_same _ page1)|]. apply IH. by apply (page_ok_same _ page1).
Qed.

Lemma consumeBatch_ok session filter hits page w w' page' :
  page_ok filter page -> consumeBatch settings session filter hits page w = (w', Done page') -> page_ok filter page'.
Proof.
  intros Hp. unfold consumeBatch. intros E. svc_inv. apply consumeHits_ok; [|done].
  intros id r [Hr _]%by_id_elem. red. eauto 10.
Qed.

Lemma readLoop_ok reads session filter snapshot page w w' res :
  page_ok filter page -> readLoop settings reads session filter snapshot page w = (w', Done res) -> page_ok filter res.1.2.
Proof.
  revert snapshot page w. induction reads as [|reads IH]; intros snapshot page w Hp; cbn [readLoop].
  { intros E. by svc_inv. }
  destruct (ps_full page); [intros E; by svc_inv|]. intros E. svc_inv.
  case_bool_decide; svc_inv; [done|]. eauto using consumeBatch_ok.
Qed.

Lemma replayResults_ok filter nodeType used summaries : Forall summary_read summaries ->
  Forall (permitted filter) (replayResults settings filter nodeType used summaries) /\
  (replayResults settings filter nodeType used summaries = [] \/
   used + total_bytes (replayResults settings filter nodeType used summaries) <= MaxResponseBytes settings)%Z.
Proof.
  intros Hs. revert used. induction Hs as [|r summaries Hr _ IH]; intros used; cbn [replayResults]; [split; [constructor|auto]|].
  destruct (_ || _) eqn:Hskip; [apply IH|].
  rewrite orb_false_iff, negb_false_iff, Z.ltb_ge in Hskip. destruct Hskip as [Ha Hb].
  destruct (IH (used + ResultBytes (sr_Summary r))%Z) as (H1 & H2). split.
  - constructor; [by eapply accepted_permitted|done].
  - right. cbn [total_bytes foldr]. fold (total_bytes (replayResults settings filter nodeType (used + ResultBytes (sr_Summary r)) summaries)).
    destruct H2 as [-> | H2]; cbn; lia.
Qed.

Lemma replay_ok session version filter w w' p : replay settings session version filter w = (w', Done p) ->
  Forall (permitted filter) (sp_Results p) /\ fits_budget (sp_Results p).
Proof.
  unfold replay. intros E. svc_inv. destruct x0 as [commit|]; [|by svc_inv]. svc_inv. apply replayResults_ok.
  apply Forall_forall. intros r Hr. red. eauto 10.
Qed.

Lemma advance_ok session filter w w' p : advance settings session filter w = (w', Done p) ->
  Forall (permitted filter) (sp_Results p) /\ fits_budget (sp_Results p).
Proof.
  unfold advance. intros E. apply svc_bind_done in E as (w1 & [[[reads snapshot] page] complete] & Eread & E).
  apply svc_bind_done in E as (w2 & [snapshot' complete'] & _ & E).
  apply svc_bind_done in E as (w3 & committed & _ & E).
  assert (page_ok filter page) as [Hp _ Hb Hf].
  { eapply (readLoop_ok _ _ _ _ (new_page session)) in Eread; [exact Eread|].
    constructor; cbn; [constructor|lia|lia|by left]. }
  clear Eread.
  assert (Forall (permitted filter) (ps_results page) /\ fits_budget (ps_results page)) as Hok.
  { split; [done|]. unfold fits_budget. rewrite <- Hb. exact Hf. }
  destruct committed as [next|e].
  - cbv beta zeta in E. destruct complete'; cbv iota in E; [|apply svc_ret_done in E as [_ ->]; exact Hok]. apply svc_bind_done in E as (w4 & closeErr & _ & E).
    destruct closeErr as [e|]; [destruct (Is e ErrEventNotRecorded); [by apply svc_fail_done in E|]|];
      apply svc_ret_done in E as [_ ->]; exact Hok.
  - cbv beta iota in E. destruct (_ && _); [by eapply replay_ok|by apply svc_fail_done in E].
Qed.

Lemma open_ok request authority query w w' p : open settings request authority query w = (w', Done p) ->
  Forall (permitted (q_Access query)) (sp_Results p) /\ fits_budget (sp_Results p).
Proof.
  unfold open. intros E. do 4 svc_step E. svc_step E created. destruct created as [created|e].
  - cbv beta iota in E. by eapply advance_ok in E.
  - svc_step E. by apply refuse_done in E.
Qed.

Lemma search_permitted request w w' p : Search settings request w = (w', Done p) ->
  exists authority version filter w1 w2,
    AccessQuery (mkAccessRequest version (rq_PrincipalID request) authority (rq_EntryPointID request)
                   (rq_MemberOrganizations request)) w1 = (w2, Done filter) /\
    Forall (permitted filter) (sp_Results p) /\ fits_budget (sp_Results p).
Proof.
  unfold Search. destruct (invalid_text _ _); [intros []%svc_fail_done|]. intros E. svc_step E.
  unfold with_slot in E. destruct (searchAdmitted _ _ _ _) as [w3 o] eqn:Eo. injection E as _ ->. rename Eo into E.
  unfold searchAdmitted in E. svc_step E. svc_step E. destruct (nil (rq_SessionID request)).
  - svc_step E. svc_step E filter. unfold callerAccess in *. do 5 eexists. split; [eassumption|].
    unfold openAndSweep in E. svc_step E opened. apply attempt_done in H4. svc_step E sweepErr.
    destruct sweepErr as [e|]; [by apply svc_fail_done in E|]. destruct opened as [page|e]; [|by apply svc_fail_done in E].
    apply svc_ret_done in E as [_ ->]. by apply open_ok in H4.
  - svc_step E session. svc_step E filter. unfold callerAccess in *. do 5 eexists. split; [eassumption|].
    unfold continueSession in E. cbn [q_Access] in E. destruct (_ || _); [by apply svc_fail_done in E|]. svc_step E expired.
    destruct expired; cbv iota in E; [unfold refuseExpired in E; svc_step E; by apply refuse_done in E|].
    destruct (_ <? _)%Z; [by eapply replay_ok|]. destruct (ss_Complete _); [by apply svc_fail_done in E|]. by eapply advance_ok.
Qed.

(** Whatever the engine and the stored session hold, a search shows only
    nodes whose current summary the caller's own keys permit, and the page
    stays within the byte budget of the response. *)
Theorem search_shows_permitted request w w' p : Search settings request w = (w', Done p) ->
  exists authority version filter w1 w2,
    AccessQuery (mkAccessRequest version (rq_PrincipalID request) authority (rq_EntryPointID request)
                   (rq_MemberOrganizations request)) w1 = (w2, Done filter) /\
    Forall (permitted filter) (sp_Results p) /\ fits_budget (sp_Results p).
Proof. apply search_permitted. Qed.

End safety.

(** ** What the service relies on *)

(** What a store keeps of a session. *)
Class SessionView (W : Type) := {
  header_of : W -> uuid -> option Session;
  marks_of : W -> uuid -> gset uuid;
  replay_of : W -> uuid -> Z -> option PageCommit;
  (** Nothing is stored under the identifier. *)
  untouched : W -> uuid -> Prop;
}.

Definition same_view {W} `{SessionView W} (id : uuid) (w w' : W) : Prop :=
  header_of w' id = header_of w id /\ marks_of w' id = marks_of w id /\ (forall v, replay_of w' id v = replay_of w id v) /\
  (untouched w id -> untouched w' id).

Lemma same_view_trans {W} `{SessionView W} id (w1 w2 w3 : W) : same_view id w1 w2 -> same_view id w2 w3 -> same_view id w1 w3.
Proof.
  unfold same_view. intros (-> & -> & H1 & H1') (-> & -> & H2 & H2'). split_and!; [done..| |auto]. intros v. by rewrite H2, H1.
Qed.

Lemma same_view_refl {W} `{SessionView W} id (w : W) : same_view id w w.
Proof. by split_and!. Qed.

Lemma view_header {W} `{SessionView W} id (w w' : W) : same_view id w w' -> header_of w' id = header_of w id.
Proof. by intros (? & _). Qed.

Lemma view_marks {W} `{SessionView W} id (w w' : W) : same_view id w w' -> marks_of w' id = marks_of w id.
Proof. by intros (_ & ? & _). Qed.

Lemma view_replay {W} `{SessionView W} id (w w' : W) v : same_view id w w' -> replay_of w' id v = replay_of w id v.
Proof. by intros (_ & _ & ? & _). Qed.

(** The calls that leave every session as it is. *)
Inductive quiet_call {W} `{SearchQueryPorts W} (w w' : W) : Prop :=
  | quiet_authority a o : EntryAuthority a w = (w', o) -> quiet_call w w'
  | quiet_query r o : AccessQuery r w = (w', o) -> quiet_call w w'
  | quiet_version a o : ActiveAccessVersion a w = (w', o) -> quiet_call w w'
  | quiet_index o : ServingSearchIndex w = (w', o) -> quiet_call w w'
  | quiet_epoch o : SearchRestoreEpoch w = (w', o) -> quiet_call w w'
  | quiet_open q o : Ranker_Open q w = (w', o) -> quiet_call w w'
  | quiet_read q s p o : Ranker_Read q s p w = (w', o) -> quiet_call w w'
  | quiet_close s o : Ranker_Close s w = (w', o) -> quiet_call w w'
  | quiet_load id o : Sessions_Load id w = (w', o) -> quiet_call w w'
  | quiet_replay id v o : Sessions_Replay id v w = (w', o) -> quiet_call w w'
  | quiet_visited id ids o : Sessions_HasVisited id ids w = (w', o) -> quiet_call w w'
  | quiet_summaries ids n o : NodeSummaries ids n w = (w', o) -> quiet_call w w'
  | quiet_intent s a e o : Audit_SaveIntent s a e w = (w', o) -> quiet_call w w'
  | quiet_step s a d e o : Audit_FinishStep s a d e w = (w', o) -> quiet_call w w'
  | quiet_result s a d e o : Audit_SaveResult s a d e w = (w', o) -> quiet_call w w'
  | quiet_acquire o : AcquireSlot w = (w', o) -> quiet_call w w'
  | quiet_release : w' = ReleaseSlot w -> quiet_call w w'
  | quiet_now o : ClockNow w = (w', o) -> quiet_call w w'
  | quiet_id o : NewSessionID w = (w', o) -> quiet_call w w'.

(** The page took effect between the two worlds. *)
Definition commit_effect {W} `{SessionView W} (w w' : W) (id : uuid) (version : Z) (c : PageCommit) (s : Session) : Prop :=
  ss_Version s = version /\
  (exists idle, header_of w' id = Some (decoded_session (committed_session s c idle))) /\
  marks_of w' id = marks_of w id ∪ list_to_set (pc_Visited c) /\
  replay_of w' id version = Some (mkPageCommit EmptyString EmptyString [] (pc_ResultIDs c) (pc_Complete c)).

(** What a session store promises the service.  A commit whose outcome is
    unknown may report that the session changed because it took effect. *)
Class SessionLaws (W : Type) `{SearchQueryPorts W} `{SessionView W} := {
  law_quiet id (w w' : W) : quiet_call w w' -> same_view id w w';
  law_fresh (w w' : W) id : NewSessionID w = (w', Done id) -> untouched w' id;
  law_load (w w' : W) id s s' : header_of w id = Some s -> Sessions_Load id w = (w', Done s') -> s' = s;
  law_visited (w w' : W) id ids v : Sessions_HasVisited id ids w = (w', Done v) -> forall n, n ∈ ids -> n ∈ v <-> n ∈ marks_of w id;
  law_create (w w' : W) s s' : untouched w (ss_ID s) -> String.length (ss_Binding s) = 32 -> ss_Closing s = false ->
    Sessions_Create s w = (w', Done s') ->
    s' = s /\ nil (ss_ID s) = false /\ header_of w' (ss_ID s) = Some (decoded_session s) /\ marks_of w' (ss_ID s) = ∅;
  law_commit (w w' : W) id version c next s : header_of w id = Some s ->
    Sessions_CommitPage id version c w = (w', Done next) ->
    ss_Version next = ((version + 1) mod 2 ^ 64)%Z /\ commit_effect w w' id version c s;
  law_changed (w w' : W) id version c e s : header_of w id = Some s ->
    Sessions_CommitPage id version c w = (w', Failed e) ->
    Is e ErrSessionChanged = true -> Is e ErrEventNotRecorded = false ->
    ss_Version s <> version \/ commit_effect w w' id version c s;
  law_replay (w w' : W) id version r : Sessions_Replay id version w = (w', Done r) -> r = replay_of w id version;
}.

(** ** An engine that ranks a fixed list of hits *)

Record Ranking := mkRanking {
  rk_hits : list RankHit;
  rk_after : raw -> list RankHit;
  rk_mine : Snapshot -> Prop;
}.

(** A read returns the next hits, and none only at the end; a position is
    read as JSON. *)
Record ranks {W} `{SearchQueryPorts W} (k : Ranking) : Prop := {
  ranks_start : rk_after k EmptyString = rk_hits k;
  ranks_after pre hit post : rk_hits k = pre ++ hit :: post -> rk_after k (rh_Sort hit) = post;
  ranks_compact r : rk_after k (compact_json false r) = rk_after k r;
  ranks_open q (w w' : W) snapshot : Ranker_Open q w = (w', Done (snapshot, None)) -> rk_mine k snapshot;
  ranks_decoded s index tokens : rk_mine k s -> rk_mine k (mkSnapshot (to_valid (sn_PITID s)) index tokens);
  ranks_read q snapshot position (w w' : W) b : rk_mine k snapshot -> Ranker_Read q snapshot position w = (w', Done b) ->
    rb_Hits b `prefix_of` rk_after k position /\ (rb_Hits b = [] -> rk_after k position = []) /\
    rk_mine k (with_pit snapshot (rb_PITID b));
}.

(** Summaries that do not change. *)
Record summarizes {W} `{SearchQueryPorts W} (summary_of : uuid -> SummaryResult) : Prop := {
  sums_node id : sr_NodeID (summary_of id) = id;
  sums_id id : sm_ID (sr_Summary (summary_of id)) = id;
  sums_read ids n (w w' : W) l : NodeSummaries ids n w = (w', Done l) -> l = summary_of <$> ids;
}.

Section ranking.
Context {W : Type} `{SP : SearchQueryPorts W} `{SV : SessionView W} `{SL : !SessionLaws W} (settings : SearchQuerySettings) `{GL : GoLib}.
Context (k : Ranking) (summary_of : uuid -> SummaryResult) (Hk : ranks (W := W) k) (Hs : summarizes (W := W) summary_of).

(** The position [pos] stands before the hits [rest]. *)
Definition stands (pos : raw) (rest : list RankHit) : Prop :=
  (exists pre, rk_hits k = pre ++ rest) /\ rk_after k pos = rest.

Lemma page_stands filter nodeType seen0 start mid rest page : page_at settings filter nodeType summary_of seen0 start mid page ->
  stands start (mid ++ rest) -> stands (ps_position page) rest.
Proof.
  intros Hp [[pre Hpre] Hafter]. rewrite (pa_position _ _ _ _ _ _ _ _ Hp).
  destruct (last mid) as [h|] eqn:Hl; cbn [from_option].
  - apply last_Some in Hl as [mid' ->]. split; [exists (pre ++ mid' ++ [h]); by rewrite Hpre, !app_assoc|].
    apply (ranks_after k Hk (pre ++ mid')). by rewrite Hpre, <- !app_assoc.
  - apply last_None in Hl as ->. by split; [exists pre|].
Qed.

Lemma readBatch_done session snapshot position w w' b : rk_mine k snapshot ->
  readBatch session snapshot position w = (w', Done b) ->
  rb_Hits b `prefix_of` rk_after k position /\ (rb_Hits b = [] -> rk_after k position = []) /\
  rk_mine k (with_pit snapshot (rb_PITID b)) /\ forall id, same_view id w w'.
Proof.
  intros Hmine. unfold readBatch. intros E. svc_step E r. apply attempt_done in H. destruct r as [b'|e].
  - apply svc_ret_done in E as [-> ->]. destruct (ranks_read k Hk _ _ _ _ _ _ Hmine H) as (H1 & H2 & H3).
    split_and!; [done..|]. intros id. apply law_quiet. by eapply quiet_read.
  - svc_step E. by apply refuse_done in E.
Qed.

Lemma consumeBatch_done session filter hits pre page w w' page' seen0 start :
  let nodeType := q_NodeType (ss_Query session) in
  marks_of w (ss_ID session) = seen0 ->
  page_at settings filter nodeType summary_of seen0 start pre page -> ps_full page = false -> ps_pending page = false ->
  consumeBatch settings session filter hits page w = (w', Done page') ->
  (forall id, same_view id w w') /\
  exists mid rest, hits = mid ++ rest /\ page_at settings filter nodeType summary_of seen0 start (pre ++ mid) page' /\
    (ps_pending page' = true <-> rest <> []) /\ (ps_full page' = false -> rest = []) /\
    ((1 <= MaxResults settings)%Z -> ps_results page = [] -> hits <> [] -> mid <> []).
Proof.
  intros nodeType Hmarks Hp Hf Hpe. unfold consumeBatch. rewrite candidates_nil. intros E.
  svc_step E visited. svc_step E summaries. apply svc_ret_done in E as [-> ->].
  pose proof (law_visited _ _ _ _ _ H) as Hvis. rewrite Hmarks in Hvis. split.
  { intros id. eapply same_view_trans; apply law_quiet; [by eapply quiet_visited|by eapply quiet_summaries]. }
  apply (sums_read _ Hs) in H0 as ->.
  destruct (consumeHits_page settings filter nodeType summary_of seen0 start hits pre page visited
    (by_id (summary_of <$> base.filter (fun id => id ∉ visited) (distinct (ps_seen page) hits)))) as (mid & rest & H1 & H2 & H3 & H4 & _ & H5); auto.
  - intros id Hin Hns. apply Hvis. by apply elem_of_distinct.
  - intros id Hin Hns Hnv. apply by_id_fmap; [apply Hs|]. apply list_elem_of_filter. split; [done|]. by apply elem_of_distinct.
  - exists mid, rest. by split_and!.
Qed.

(** What reading leaves behind. *)
Record page_read (session : Session) (filter : AccessFilter) (mid rest : list RankHit) (w w' : W) (snapshot : Snapshot)
    (page : pageState) (complete : bool) : Prop := {
  pr_page : page_at settings filter (q_NodeType (ss_Query session)) summary_of (marks_of w (ss_ID session)) (ss_Sort session) mid page;
  pr_stands : stands (ps_position page) rest;
  pr_mine : rk_mine k snapshot;
  pr_view id : same_view id w w';
  pr_complete : complete = true -> rest = [];
}.

Lemma readLoop_done reads session filter snapshot mid rest page w0 w reads' snapshot' page' complete w' :
  page_read session filter mid rest w0 w snapshot page false ->
  stands (ss_Sort session) (mid ++ rest) -> ps_full page = false -> ps_pending page = false ->
  readLoop settings reads session filter snapshot page w = (w', Done (reads', snapshot', page', complete)) ->
  exists mid' rest', rest = mid' ++ rest' /\ page_read session filter (mid ++ mid') rest' w0 w' snapshot' page' complete /\
    (0 < reads -> (1 <= MaxResults settings)%Z -> ps_results page = [] -> mid' = [] -> complete = true).
Proof.
  revert snapshot mid rest page w. induction reads as [|reads IH]; intros snapshot mid rest page w Hread Hstart Hf Hpe E; cbn [readLoop] in E.
  { apply svc_ret_done in E as [-> [= -> -> -> ->]]. exists [], rest. rewrite app_nil_r. split_and!; [done|done|lia]. }
  rewrite Hf in E. svc_step E b. destruct Hread as [Hp Hst Hm Hv _].
  destruct (readBatch_done _ _ _ _ _ _ Hm H) as (Hpre & Hend & Hm' & Hv1).
  destruct Hst as [[before Hbefore] Hafter]. rewrite Hafter in Hpre, Hend.
  case_bool_decide as Hnil.
  { apply svc_ret_done in E as [-> [= -> -> -> ->]]. exists [], rest. rewrite app_nil_r. split; [done|]. split; [|done].
    constructor; [done|by split; [exists before|]|done| |by auto]. intros id. by eapply same_view_trans. }
  svc_step E page1. rename H0 into Ec. destruct Hpre as [suffix ->].
  eapply consumeBatch_done in Ec as (Hv2 & mid1 & rest1 & Hhits & Hp1 & Hpend & Hnfull & Hprog);
    [|rewrite (view_marks _ _ _ (Hv1 _)), (view_marks _ _ _ (Hv _)); reflexivity|exact Hp|done|done].
  assert (page_read session filter (mid ++ mid1) (rest1 ++ suffix) w0 x0 (with_pit snapshot (rb_PITID b)) page1 false) as Hread1.
  { constructor; [done| |done| |done].
    - eapply page_stands; [exact Hp1|]. rewrite <- app_assoc. by rewrite Hhits, <- app_assoc in Hstart.
    - intros id. eapply same_view_trans; [apply Hv|]. eapply same_view_trans; [apply Hv1|apply Hv2]. }
  assert (rb_Hits b ++ suffix = mid1 ++ rest1 ++ suffix) as Erest by (by rewrite Hhits, <- app_assoc).
  destruct (ps_full page1) eqn:Hf1.
  - assert (w' = x0 /\ snapshot' = with_pit snapshot (rb_PITID b) /\ page' = page1 /\ complete = false) as (-> & -> & -> & ->).
    { destruct reads; cbn [readLoop] in E; rewrite ?Hf1 in E; apply svc_ret_done in E as [-> [= -> -> -> ->]]; done. }
    exists mid1, (rest1 ++ suffix). split; [done|]. split; [done|]. intros _ H1 H2 H3. by destruct (Hprog H1 H2 Hnil).
  - specialize (Hnfull eq_refl) as ->. cbn [app] in *.
    edestruct (IH (with_pit snapshot (rb_PITID b)) (mid ++ mid1) suffix page1 x0 Hread1) as (mid2 & rest2 & -> & Hr2 & _);
      [|exact Hf1| |exact E|].
    + by rewrite <- app_assoc, <- Erest.
    + destruct (ps_pending page1); [|done]. by destruct (proj1 Hpend eq_refl).
    + exists (mid1 ++ mid2), rest2. rewrite <- app_assoc, (app_assoc mid) in *. split; [done|]. split; [done|].
      intros _ H1 H2 [H3 _]%app_nil. by destruct (Hprog H1 H2 Hnil).
Qed.

(** Services that leave every session as it is. *)
Definition keeps {A} (m : svc W A) : Prop := forall w w' o, m w = (w', o) -> forall id, same_view id w w'.

Lemma keeps_ret {A} (a : A) : keeps (mret a).
Proof. intros w w' o [= <- <-] id. apply same_view_refl. Qed.

Lemma keeps_fail {A} e : keeps (A := A) (svc_fail e).
Proof. intros w w' o [= <- <-] id. apply same_view_refl. Qed.

Lemma keeps_bind {A B} (m : svc W A) (f : A -> svc W B) : keeps m -> (forall a, keeps (f a)) -> keeps (m ≫= f).
Proof.
  intros Hm Hf w w' o. cbv [mbind svc_bind]. destruct (m w) as [w1 [a|e]] eqn:E.
  - intros E' id. eapply same_view_trans; [by eapply Hm|by eapply Hf].
  - intros [= <- <-] id. by eapply Hm.
Qed.

Lemma keeps_attempt {A} (m : svc W A) : keeps m -> keeps (attempt m).
Proof. intros Hm w w' o. unfold attempt. destruct (m w) as [w1 r] eqn:E. intros [= <- <-] id. by eapply Hm. Qed.

Lemma keeps_call {A} (m : svc W A) : (forall w w' o, m w = (w', o) -> quiet_call w w') -> keeps m.
Proof. intros Hm w w' o E id. apply law_quiet. by eapply Hm. Qed.

Create HintDb keeps.
Hint Resolve keeps_ret keeps_fail keeps_bind keeps_attempt : keeps.
Hint Extern 3 (keeps _) => apply keeps_call; intros ???; econstructor; eassumption : keeps.

Lemma keeps_runEncodedStep {A} session operation planned (effect : svc W (A * stepEvidence * option fault)) :
  keeps effect -> keeps (runEncodedStep session operation planned effect).
Proof.
  intros He. unfold runEncodedStep. apply keeps_bind; [auto with keeps|]. intros [[]|e]; [|auto with keeps].
  apply keeps_bind; [done|]. intros [[a observed] effectErr]. auto 10 with keeps.
Qed.

Lemma keeps_closeSnapshot session snapshot : keeps (closeSnapshot session snapshot).
Proof.
  unfold closeSnapshot. destruct (blank _); [auto with keeps|]. apply keeps_bind; [|intros []; auto with keeps].
  apply keeps_runEncodedStep. auto with keeps.
Qed.

Lemma lookAhead_done reads session filter mid rest w0 w snapshot page complete w' snapshot' complete' :
  page_read session filter mid rest w0 w snapshot page complete ->
  lookAhead reads session snapshot page complete w = (w', Done (snapshot', complete')) ->
  page_read session filter mid rest w0 w' snapshot' page complete' /\ (complete = true -> complete' = true).
Proof.
  intros [Hp Hst Hm Hv Hc] E. unfold lookAhead in E. destruct (_ && _).
  - svc_step E b. apply svc_ret_done in E as [-> [= -> ->]].
    destruct (readBatch_done _ _ _ _ _ _ Hm H) as (Hpre & Hend & Hm' & Hv1). destruct Hst as [Hst1 Hafter]. split.
    + constructor; [done|by split|done|intros id; by eapply same_view_trans|].
      intros Hnil%bool_decide_eq_true. rewrite <- Hafter. auto.
    + intros Htrue. rewrite Hafter, (Hc Htrue) in Hpre. apply bool_decide_eq_true. by apply prefix_nil_inv.
  - apply svc_ret_done in E as [-> [= -> ->]]. by split.
Qed.

Lemma new_page_at s filter seen :
  page_at settings filter (q_NodeType (ss_Query s)) summary_of seen (ss_Sort s) [] (new_page s).
Proof.
  constructor; cbn [new_page ps_visited ps_seen ps_results ps_resultIDs ps_bytes ps_position distinct omap list_omap
    fmap list_fmap total_bytes foldr length]; try done; [set_solver|by left|lia].
Qed.

(** The session stands before [rest], having consumed [pre]: [s] is the
    value the service holds, its header the one the store holds. *)
Record session_at (w : W) (s : Session) (pre rest : list RankHit) : Prop := {
  sa_hits : rk_hits k = pre ++ rest;
  sa_after : rk_after k (ss_Sort s) = rest;
  sa_mine : rk_mine k (ss_Snapshot s);
  sa_marks id : id ∈ marks_of w (ss_ID s) <-> id ∈ hit_ids pre;
  sa_header : exists h, header_of w (ss_ID s) = Some h /\ ss_Version h = ss_Version s /\ ss_ID h = ss_ID s /\
                q_NodeType (ss_Query h) = to_valid (q_NodeType (ss_Query s));
}.

Definition shows (filter : AccessFilter) (session : Session) (seen : gset uuid) (hits : list RankHit) : list Summary :=
  omap (shown settings filter (q_NodeType (ss_Query session)) summary_of) (distinct seen hits).

Lemma shown_summary filter nodeType id s : shown settings filter nodeType summary_of id = Some s ->
  sm_ID s = id /\ sr_Summary (summary_of id) = s /\ accepted (summary_of id) filter nodeType = true.
Proof.
  unfold shown. destruct (accepted _ _ _) eqn:Ha; [|done]. cbn. destruct (oversized _ _); [done|].
  intros [= <-]. split_and!; [apply Hs|done|done].
Qed.

Lemma replayResults_same filter nodeType results used :
  Forall (fun s => exists id, shown settings filter nodeType summary_of id = Some s) results ->
  (results = [] \/ used + total_bytes results <= MaxResponseBytes settings)%Z ->
  replayResults settings filter nodeType used (summary_of <$> (sm_ID <$> results)) = results.
Proof.
  intros Hall. revert used. induction Hall as [|s results (id & Hid) _ IH]; intros used Hfit; [done|].
  destruct (shown_summary _ _ _ _ Hid) as (E1 & E2 & Ha). rewrite !fmap_cons, E1. cbn [replayResults]. rewrite Ha, E2. cbn [negb orb].
  cbn [total_bytes foldr] in Hfit. fold (total_bytes results) in Hfit. destruct Hfit as [|Hfit]; [done|].
  assert (0 <= total_bytes results)%Z as Hpos.
  { clear. induction results as [|r results IH]; [done|]. cbn [total_bytes foldr]. fold (total_bytes results).
    unfold ResultBytes, text_bytes, resultOverheadBytes. lia. }
  rewrite (proj2 (Z.ltb_ge _ _)) by lia. f_equal. apply IH. right. lia.
Qed.

(** The page just committed reads again as it was built. *)
Lemma replay_committed session filter seen start mid page complete w w' p :
  page_at settings filter (q_NodeType (ss_Query session)) summary_of seen start mid page ->
  replay_of w (ss_ID session) (ss_Version session) = Some (mkPageCommit EmptyString EmptyString [] (ps_resultIDs page) complete) ->
  replay settings session (ss_Version session) filter w = (w', Done p) ->
  (forall id, same_view id w w') /\
  p = mkSearchPage (ss_ID session) ((ss_Version session + 1) mod 2 ^ 64)%Z (ps_results page) complete.
Proof.
  intros Hp Hrep E. unfold replay in E. svc_at E w1 found Hfound. pose proof (law_replay _ _ _ _ _ Hfound) as ->.
  rewrite Hrep in E. svc_at E w2 summaries Hsums. pose proof (sums_read _ Hs _ _ _ _ _ Hsums) as ->.
  apply svc_ret_done in E as [-> ->]. split.
  - intros id. eapply same_view_trans; apply law_quiet; [by eapply quiet_replay|by eapply quiet_summaries].
  - f_equal. cbn [pc_ResultIDs]. rewrite (pa_ids _ _ _ _ _ _ _ _ Hp). apply replayResults_same.
    + rewrite (pa_results _ _ _ _ _ _ _ _ Hp). apply Forall_forall. intros s0 (id & _ & Hid0)%list_elem_of_omap. eauto.
    + rewrite <- (pa_bytes _ _ _ _ _ _ _ _ Hp). apply Hp.
Qed.

Lemma advance_done w s filter pre rest w' p : session_at w s pre rest ->
  advance settings s filter w = (w', Done p) ->
  exists mid rest' s', rest = mid ++ rest' /\ sp_Results p = shows filter s (hit_ids pre) mid /\
    header_of w' (ss_ID s) = Some s' /\ session_at w' s' (pre ++ mid) rest' /\
    ss_ID s' = ss_ID s /\ sp_SessionID p = ss_ID s /\ sp_NextVersion p = ss_Version s' /\ ss_Complete s' = sp_Complete p /\
    q_NodeType (ss_Query s') = to_valid (q_NodeType (ss_Query s)) /\
    (sp_Complete p = true -> rest' = []) /\
    ((1 <= MaxBatches settings)%Z -> (1 <= MaxResults settings)%Z -> mid = [] -> sp_Complete p = true) /\
    (ss_Version s' = ((ss_Version s + 1) mod 2 ^ 64)%Z /\ fits_budget settings (sp_Results p) /\
     replay_of w' (ss_ID s) (ss_Version s) =
       Some (mkPageCommit EmptyString EmptyString [] (sm_ID <$> sp_Results p) (sp_Complete p))).
Proof.
  intros [Hhits Hafter Hmine Hmarks (h & Hh & Hver & Hid & Htype)]. unfold advance. intros E.
  apply svc_bind_done in E as (w1 & [[[reads snapshot] page] complete] & Eread & E).
  apply svc_bind_done in E as (w2 & [snapshot' complete'] & Elook & E).
  apply svc_bind_done in E as (w3 & committed & Ecommit & E). apply attempt_done in Ecommit.
  assert (stands (ss_Sort s) rest) as Hstart by (by split; [exists pre|]).
  eapply (readLoop_done _ _ _ _ [] rest) in Eread as (mid & rest' & -> & Hread & Hprog);
    [|constructor; [apply new_page_at|done|done|by split|done]|done|done|done].
  rewrite app_nil_l in Hread. eapply lookAhead_done in Elook as [Hfinal Hkept]; [|exact Hread]. clear Hread.
  assert ((1 <= MaxBatches settings)%Z -> (1 <= MaxResults settings)%Z -> mid = [] -> complete' = true) as Hprogress.
  { intros H1 H2 H3. apply Hkept, Hprog; [lia|done..]. }
  destruct Hfinal as [Hp Hst Hm Hv Hc]. destruct (Hv (ss_ID s)) as (Hvh & Hvm & _).
  rewrite Hh in Hvh. set (c := page_commit page snapshot' complete') in *.
  assert (fits_budget settings (ps_results page)) as Hfits.
  { unfold fits_budget. rewrite <- (pa_bytes _ _ _ _ _ _ _ _ Hp). apply Hp. }
  assert (commit_effect w2 w3 (ss_ID s) (ss_Version s) c h /\ (forall id, same_view id w3 w') /\
    p = mkSearchPage (ss_ID s) ((ss_Version s + 1) mod 2 ^ 64)%Z (ps_results page) complete') as (Heffect & Hsame & ->).
  { destruct committed as [next|e]; cbv beta zeta iota in E.
    - destruct (law_commit _ _ _ _ _ _ _ Hvh Ecommit) as [Hnv Heffect]. rewrite Hnv in E. split; [done|].
      destruct complete'; [|apply svc_ret_done in E as [-> ->]; split; [intros id; apply same_view_refl|done]].
      svc_step E closeErr. apply keeps_closeSnapshot in H.
      destruct closeErr as [e|]; [destruct (Is e ErrEventNotRecorded); [by apply svc_fail_done in E|]|];
        apply svc_ret_done in E as [-> ->]; by split.
    - destruct (_ && _) eqn:Hchanged; [|by apply svc_fail_done in E]. apply andb_true_iff in Hchanged as [H1 H2%negb_true_iff].
      destruct (law_changed _ _ _ _ _ _ _ Hvh Ecommit H1 H2) as [|Heffect]; [done|]. split; [done|].
      eapply replay_committed; [exact Hp|apply Heffect|exact E]. }
  clear E. destruct Heffect as (_ & (idle & Hw3) & Hm3 & Hrep).
  set (s' := decoded_session (committed_session h c idle)) in *.
  assert (session_at w3 s' (pre ++ mid) rest') as Hat.
  { destruct Hst as [_ Hafter']. constructor.
    - by rewrite Hhits, app_assoc.
    - cbn. by rewrite (ranks_compact k Hk).
    - cbn. by apply (ranks_decoded k Hk snapshot').
    - intros n. cbn. rewrite Hid, Hm3, Hvm. subst c. cbn [page_commit pc_Visited]. rewrite (pa_visited _ _ _ _ _ _ _ _ Hp), elem_of_union,
        elem_of_list_to_set, elem_of_distinct, hit_ids_app, elem_of_union, Hmarks.
      destruct (decide (n ∈ hit_ids pre)); naive_solver.
    - exists s'. cbn. rewrite Hid. split_and!; [done..|]. by rewrite to_valid_idem. }
  assert (ps_results page = shows filter s (hit_ids pre) mid) as Hshows.
  { rewrite (pa_results _ _ _ _ _ _ _ _ Hp). unfold shows. f_equal. apply distinct_ext. intros n. apply Hmarks. }
  exists mid, rest', s'. split; [done|]. split; [done|].
  split; [by rewrite (view_header _ _ _ (Hsame _))|]. split.
  { destruct Hat as [H1 H2 H3 H4 H5]. constructor; [done..| |].
    - intros n. by rewrite (view_marks _ _ _ (Hsame _)).
    - by rewrite (view_header _ _ _ (Hsame _)). }
  cbn. rewrite Hid, Hver, Htype, to_valid_idem. split_and!; try done.
  rewrite (view_replay _ _ _ _ (Hsame _)), Hrep. cbn. by rewrite (pa_ids _ _ _ _ _ _ _ _ Hp).
Qed.

(** ** One search from its first page *)

Definition cursor_request (request : SearchRequest) (p : SearchPage) : SearchRequest :=
  mkSearchRequest (rq_PrincipalID request) (rq_EntryPointID request) (rq_MemberOrganizations request) (rq_Text request)
    (rq_NodeType request) (sp_SessionID p) (sp_NextVersion p).

(** The pages of a search: [open] returns the first, and each cursor the
    next.  Between two calls anything may happen that leaves the session. *)
Inductive browse (request : SearchRequest) (authority : uuid) (query : Query) (w : W) : list SearchPage -> W -> Prop :=
  | browse_open w' p : open settings request authority query w = (w', Done p) -> browse request authority query w [p] w'
  | browse_next w1 w2 w3 pages p q : browse request authority query w pages w1 ->
      last pages = Some p -> sp_Complete p = false -> same_view (sp_SessionID p) w1 w2 ->
      Search settings (cursor_request request p) w2 = (w3, Done q) ->
      browse request authority query w (pages ++ [q]) w3.

(** The access policy gives the caller the same keys each time. *)
Definition steady_access (request : SearchRequest) (filter : AccessFilter) : Prop :=
  forall version authority w w' f,
    AccessQuery (mkAccessRequest version (rq_PrincipalID request) authority (rq_EntryPointID request)
                   (rq_MemberOrganizations request)) w = (w', Done f) -> f = filter.

Lemma keeps_openSnapshot session : keeps (openSnapshot session).
Proof.
  unfold openSnapshot. apply keeps_bind.
  - apply keeps_runEncodedStep. apply keeps_bind; [auto with keeps|]. intros [snapshot openErr]. auto with keeps.
  - intros [ran recordErr]. destruct (default _ ran) as [snapshot openErr]. destruct recordErr as [recorded|]; [|auto with keeps].
    destruct openErr as [opened|]; [destruct (Is _ _); [|auto with keeps]|]; (apply keeps_bind; [apply keeps_closeSnapshot|]);
      intros closeErr; [destruct closeErr as [e|]; [destruct (Is _ _)|]|]; auto with keeps.
Qed.

Lemma openSnapshot_mine session w w' snapshot : openSnapshot session w = (w', Done snapshot) -> rk_mine k snapshot.
Proof.
  unfold openSnapshot. intros E. apply svc_bind_done in E as (w1 & [ran recordErr] & Erun & E).
  destruct recordErr as [recorded|].
  { destruct (default _ ran) as [snapshot' openErr]. destruct openErr as [opened|]; [destruct (Is _ _)|];
      [| by apply svc_fail_done in E | ]; svc_step E closeErr; [destruct closeErr as [e|]; [destruct (Is _ _)|]|]; by apply svc_fail_done in E. }
  unfold runEncodedStep in Erun. svc_step Erun saved. destruct saved as [[]|e]; [|by apply svc_ret_done in Erun as [_ [= _ ?]]].
  apply svc_bind_done in Erun as (w2 & [[a observed] effectErr] & Eopen & Erun).
  svc_step Erun finished. svc_step Erun recorded. apply svc_ret_done in Erun as [_ [= -> Hjoin]].
  apply svc_bind_done in Eopen as (w3 & [snapshot' openErr] & Eopen & Eret). apply svc_ret_done in Eret as [_ [= -> _ ->]].
  cbn in E. apply svc_ret_done in E as [_ ->]. destruct openErr as [e|]; [|by eapply (ranks_open k Hk)].
  by destruct (fault_of finished), (fault_of recorded).
Qed.

Lemma open_at request authority query w w' p : open settings request authority query w = (w', Done p) ->
  exists w1 s, session_at w1 s [] (rk_hits k) /\ advance settings s (q_Access query) w1 = (w', Done p) /\
    q_NodeType (ss_Query s) = q_NodeType query /\ nil (ss_ID s) = false.
Proof.
  unfold open. intros E. svc_step E index. svc_step E id. rename H0 into Hid. svc_step E snapshot. rename H0 into Hsnap.
  svc_step E now. rename H0 into Hnow. svc_step E created. apply attempt_done in H0. destruct created as [created|e].
  2:{ svc_step E closeErr. by apply refuse_done in E. }
  assert (same_view id x0 x2) as (_ & _ & _ & Hclean).
  { eapply same_view_trans; [eapply keeps_openSnapshot; exact Hsnap|]. apply law_quiet. by eapply quiet_now. }
  apply law_create in H0 as (-> & Hnil & Hheader & Hmarks); [|by apply Hclean; eapply law_fresh|apply sha256_sum_length|done].
  match type of E with advance _ ?s _ _ = _ => set (session := s) in * end.
  do 2 eexists. split; [|split; [exact E|by split]]. constructor.
  - done.
  - apply (ranks_start k Hk).
  - by eapply openSnapshot_mine.
  - intros n. by rewrite Hmarks.
  - eexists. split; [exact Hheader|]. cbn. by split_and!.
Qed.

(** A call with a cursor of the session advances it at the session's version
    and replays an earlier one. *)
Lemma Search_continues request filter version w w' q s :
  steady_access request filter -> header_of w (ss_ID s) = Some s -> nil (ss_ID s) = false ->
  Search settings (mkSearchRequest (rq_PrincipalID request) (rq_EntryPointID request) (rq_MemberOrganizations request)
                     (rq_Text request) (rq_NodeType request) (ss_ID s) version) w = (w', Done q) ->
  exists w1 w2, (forall id, same_view id w w1) /\ (forall id, same_view id w2 w') /\
    if (version <? ss_Version s)%Z then replay settings s version filter w1 = (w2, Done q)
    else ss_Complete s = false /\ advance settings s filter w1 = (w2, Done q).
Proof.
  intros Haccess Hheader Hnil. unfold Search. destruct (invalid_text _ _); [intros []%svc_fail_done|].
  intros E. svc_at E w1 slot Hacquire. unfold with_slot in E. destruct (searchAdmitted _ _ _ _) as [w2 o] eqn:Eo.
  injection E as Hrel ->. rename Eo into E.
  assert (forall id, same_view id w2 w') as Hend by (intros id; apply law_quiet; by apply quiet_release).
  unfold searchAdmitted in E. svc_at E w3 authority Hauthority. svc_at E w4 epoch Hepoch.
  cbn [rq_SessionID] in E. rewrite Hnil in E. svc_at E w5 loaded Hload. svc_at E w6 f Hquery.
  unfold callerAccess in Hquery. cbn [rq_PrincipalID rq_EntryPointID rq_MemberOrganizations] in Hquery.
  assert (f = filter) as -> by (by eapply Haccess).
  assert (forall id, same_view id w w4) as Hv4.
  { intros id. eapply same_view_trans; [apply law_quiet; by eapply quiet_acquire|].
    eapply same_view_trans; apply law_quiet; [by eapply quiet_authority|by eapply quiet_epoch]. }
  assert (loaded = s) as -> by (eapply law_load; [|exact Hload]; by rewrite (view_header _ _ _ (Hv4 _))).
  assert (forall id, same_view id w w6) as Hv6.
  { intros id. eapply same_view_trans; [apply Hv4|]. eapply same_view_trans; apply law_quiet; [by eapply quiet_load|by eapply quiet_query]. }
  unfold continueSession in E. cbn [q_Access] in E. destruct (_ || _); [by apply svc_fail_done in E|].
  svc_at E w7 expired Hexpired. assert (forall id, same_view id w w7) as Hv7.
  { intros id. eapply same_view_trans; [apply Hv6|]. destruct (ss_Closing s); [by apply svc_ret_done in Hexpired as [-> _]|].
    svc_at Hexpired w8 now Hnow. apply svc_ret_done in Hexpired as [-> _]. apply law_quiet. by eapply quiet_now. }
  destruct expired; cbv iota in E; [unfold refuseExpired in E; svc_step E; by apply refuse_done in E|].
  cbn [rq_Version] in E. exists w7, w2. split; [done|]. split; [done|]. destruct (_ <? _)%Z; [done|].
  destruct (ss_Complete s); [by apply svc_fail_done in E|]. done.
Qed.

Lemma Search_advances request filter p w w' q s :
  steady_access request filter -> header_of w (ss_ID s) = Some s -> nil (ss_ID s) = false ->
  sp_SessionID p = ss_ID s -> sp_NextVersion p = ss_Version s -> ss_Complete s = false ->
  Search settings (cursor_request request p) w = (w', Done q) ->
  exists w1 w2, (forall id, same_view id w w1) /\ (forall id, same_view id w2 w') /\
    advance settings s filter w1 = (w2, Done q).
Proof.
  intros Haccess Hheader Hnil Hsid Hver Hcomplete. unfold cursor_request. rewrite Hsid. intros E.
  eapply Search_continues in E as (w1 & w2 & H1 & H2 & E); [|done..]. rewrite Hver, Z.ltb_irrefl in E. destruct E as [_ E]. eauto.
Qed.

(** A client that sends a cursor again, because it lost the response,
    gets the same page again: the same results, completeness and next
    cursor, and the session does not advance. *)
Theorem replay_returns_page request filter s pre rest w w' w1 w2 p q :
  session_at w s pre rest -> to_valid (q_NodeType (ss_Query s)) = q_NodeType (ss_Query s) ->
  nil (ss_ID s) = false -> (0 <= ss_Version s < 2 ^ 64 - 1)%Z -> steady_access request filter ->
  advance settings s filter w = (w', Done p) -> same_view (ss_ID s) w' w1 ->
  Search settings (mkSearchRequest (rq_PrincipalID request) (rq_EntryPointID request) (rq_MemberOrganizations request)
                     (rq_Text request) (rq_NodeType request) (ss_ID s) (ss_Version s)) w1 = (w2, Done q) ->
  q = p /\ same_view (ss_ID s) w1 w2.
Proof.
  intros Hat Hvalid Hnil Hrange Haccess Eadv Hsame E.
  eapply advance_done in Eadv as (mid & rest' & s' & _ & Hres & Hh & _ & Hid & Hsid & Hnv & Hc & Ht & _ & _ & Hv & Hfit & Hrep); [|done].
  rewrite Z.mod_small in Hv by lia. rewrite <- Hid in E.
  eapply Search_continues in E as (w3 & w4 & H3 & H4 & E); [|done|by rewrite Hid, (view_header _ _ _ Hsame)|by rewrite Hid].
  rewrite (proj2 (Z.ltb_lt _ _)) in E by lia. unfold replay in E. svc_at E w5 found Hfound. rewrite Hid in *.
  pose proof (law_replay _ _ _ _ _ Hfound) as ->.
  rewrite (view_replay _ _ _ _ (H3 _)), (view_replay _ _ _ _ Hsame), Hrep in E. svc_at E w6 summaries Hsums.
  pose proof (sums_read _ Hs _ _ _ _ _ Hsums) as ->. apply svc_ret_done in E as [-> ->]. split.
  - cbn [pc_ResultIDs pc_Complete]. rewrite Ht, Hvalid. destruct p as [id nv results complete]. cbn in *. subst id.
    rewrite Z.mod_small by lia. f_equal; [congruence|]. apply replayResults_same; [|done].
    rewrite Hres. unfold shows. apply Forall_forall. intros s0 (id & _ & Hid0)%list_elem_of_omap. eauto.
  - eapply same_view_trans; [apply H3|]. eapply same_view_trans; [|apply H4].
    eapply same_view_trans; apply law_quiet; [by eapply quiet_replay|by eapply quiet_summaries].
Qed.

(** The nodes of a ranking that a caller sees, in order and each once. *)
Definition visible (filter : AccessFilter) (nodeType : string) (hits : list RankHit) : list Summary :=
  omap (shown settings filter nodeType summary_of) (distinct ∅ hits).

Record browsing (query : Query) (pages : list SearchPage) (w : W) (pre rest : list RankHit) (s : Session) (p : SearchPage) : Prop := {
  br_last : last pages = Some p;
  br_header : header_of w (ss_ID s) = Some s;
  br_nil : nil (ss_ID s) = false;
  br_at : session_at w s pre rest;
  br_id : sp_SessionID p = ss_ID s;
  br_version : sp_NextVersion p = ss_Version s;
  br_complete : ss_Complete s = sp_Complete p;
  br_type : q_NodeType (ss_Query s) = q_NodeType query;
  br_results : concat (sp_Results <$> pages) = visible (q_Access query) (q_NodeType query) pre;
  br_end : sp_Complete p = true -> rest = [];
  br_forward : (1 <= MaxBatches settings)%Z -> (1 <= MaxResults settings)%Z ->
    length pages <= length pre + (if sp_Complete p then 1 else 0);
}.

Lemma visible_app filter nodeType pre mid : visible filter nodeType (pre ++ mid) =
  visible filter nodeType pre ++ omap (shown settings filter nodeType summary_of) (distinct (hit_ids pre) mid).
Proof. unfold visible. rewrite distinct_app, omap_app. do 2 f_equal. apply distinct_ext. set_solver. Qed.

Lemma browse_browsing request authority query w pages w' :
  steady_access request (q_Access query) -> to_valid (q_NodeType query) = q_NodeType query ->
  browse request authority query w pages w' -> exists pre rest s p, browsing query pages w' pre rest s p.
Proof.
  intros Haccess Hvalid. induction 1 as [w' p E|w1 w2 w3 pages p q _ (pre & rest & s & p0 & Hb) Hlast Hinc Hsame E].
  - apply open_at in E as (w1 & s & Hat & Eadv & Htype & Hnil).
    apply (advance_done _ _ _ [] (rk_hits k)) in Eadv as (mid & rest & s' & Hsplit & Hres & Hh & Hat' & Hid & Hsid & Hv & Hc & Ht & Hend & Hprog & _); [|done].
    exists mid, rest, s', p. rewrite Htype, Hvalid in Ht. constructor; try done; rewrite ?Hid; try done.
    + cbn. rewrite app_nil_r, Hres. unfold shows, visible. by rewrite Htype.
    + intros H1 H2. cbn. destruct mid; [|cbn; lia]. rewrite Hprog by done. cbn. lia.
  - rewrite (br_last _ _ _ _ _ _ _ Hb) in Hlast. injection Hlast as ->. destruct Hb as [Hl Hh Hnil Hat Hid Hv Hc Ht Hres _ Hf].
    rewrite Hid in Hsame. destruct Hsame as (Hsh & Hsm & _).
    eapply Search_advances in E as (w4 & w5 & Hq1 & Hq2 & Eadv); [|exact Haccess|by rewrite Hsh|done|done|done|congruence].
    apply (advance_done _ _ _ pre rest) in Eadv as (mid & rest' & s' & -> & Hres' & Hh' & Hat' & Hid' & Hsid & Hv' & Hc' & Ht' & Hend & Hprog & _).
    2:{ destruct Hat as [H1 H2 H3 H4 H5]. constructor; [done..| |].
        - intros n. by rewrite (view_marks _ _ _ (Hq1 _)), Hsm.
        - by rewrite (view_header _ _ _ (Hq1 _)), Hsh. }
    exists (pre ++ mid), rest', s', q. rewrite Ht, Hvalid in Ht'. constructor; try done; rewrite ?Hid'; try done.
    + by rewrite last_snoc.
    + by rewrite (view_header _ _ _ (Hq2 _)).
    + destruct Hat' as [H1 H2 H3 H4 H5]. constructor; [done..| |].
      * intros n. by rewrite (view_marks _ _ _ (Hq2 _)).
      * by rewrite (view_header _ _ _ (Hq2 _)).
    + rewrite fmap_app, concat_app, Hres, visible_app. cbn. rewrite app_nil_r, Hres'. unfold shows. by rewrite Ht.
    + intros H1 H2. specialize (Hf H1 H2). rewrite Hinc in Hf. rewrite !length_app. cbn.
      destruct mid; [rewrite Hprog by done; cbn; lia|cbn; lia].
Qed.

(** C6: The pages of a search, put together, are the nodes of the engine's
    ranking that the caller sees, in rank order and each once; when the last
    page is complete they are all of them.  This holds however the hits fall
    into batches and pages and whatever happens to other sessions between
    two calls. *)
Theorem search_pages_in_rank_order request authority query w pages w' :
  steady_access request (q_Access query) -> to_valid (q_NodeType query) = q_NodeType query ->
  browse request authority query w pages w' ->
  exists pre rest, rk_hits k = pre ++ rest /\
    concat (sp_Results <$> pages) = visible (q_Access query) (q_NodeType query) pre /\
    NoDup (sm_ID <$> concat (sp_Results <$> pages)) /\
    (forall p, last pages = Some p -> sp_Complete p = true -> rest = []).
Proof.
  intros Haccess Hvalid Hb. destruct (browse_browsing _ _ _ _ _ _ Haccess Hvalid Hb) as (pre & rest & s & p & H).
  exists pre, rest. destruct H as [Hl _ _ Hat _ _ _ _ Hres Hend _]. split; [by apply (sa_hits _ _ _ _ Hat)|].
  split; [done|]. split.
  - rewrite Hres. unfold visible. pose proof (NoDup_distinct ∅ pre) as Hd. induction (distinct ∅ pre) as [|id ids IH]; [constructor|].
    apply NoDup_cons in Hd as [Hid Hd]. cbn [omap list_omap].
    destruct (shown _ _ _ _ id) as [s0|] eqn:Es; [|by apply IH]. rewrite fmap_cons. constructor; [|by apply IH].
    assert (forall id s, shown settings (q_Access query) (q_NodeType query) summary_of id = Some s -> sm_ID s = id) as Hids.
    { intros id' s'. unfold shown. destruct (_ && _); [|done]. intros [= <-]. apply Hs. }
    rewrite (Hids _ _ Es). intros (s1 & Eid & Hin)%list_elem_of_fmap.
    apply list_elem_of_omap in Hin as (id' & Hin' & Es'). apply Hids in Es'. congruence.
  - intros p' Hl'. rewrite Hl in Hl'. injection Hl' as <-. done.
Qed.

(** The pages of a client that is alone with its session. *)
Inductive follows (request : SearchRequest) (authority : uuid) (query : Query) (w : W) : list SearchPage -> W -> Prop :=
  | follows_open w' p : open settings request authority query w = (w', Done p) -> follows request authority query w [p] w'
  | follows_next w1 w2 pages p q : follows request authority query w pages w1 -> last pages = Some p -> sp_Complete p = false ->
      Search settings (cursor_request request p) w1 = (w2, Done q) -> follows request authority query w (pages ++ [q]) w2.

Lemma follows_browse request authority query w pages w' :
  follows request authority query w pages w' -> browse request authority query w pages w'.
Proof.
  induction 1 as [w' p E|w1 w2 pages p q _ IH Hl Hc E]; [by apply browse_open|].
  eapply browse_next; [exact IH|exact Hl|exact Hc|apply same_view_refl|exact E].
Qed.

(** C14: A search ends: as long as its calls are answered, some page is
    complete, at the latest one page after as many pages as the engine has
    hits. *)
Theorem search_completes request authority query w p w' :
  steady_access request (q_Access query) -> to_valid (q_NodeType query) = q_NodeType query ->
  (1 <= MaxBatches settings)%Z -> (1 <= MaxResults settings)%Z ->
  open settings request authority query w = (w', Done p) ->
  (forall pages w1 p1, follows request authority query w pages w1 -> last pages = Some p1 -> sp_Complete p1 = false ->
     exists w2 q, Search settings (cursor_request request p1) w1 = (w2, Done q)) ->
  exists pages w1 p1, follows request authority query w pages w1 /\ last pages = Some p1 /\ sp_Complete p1 = true /\
    length pages <= length (rk_hits k) + 1.
Proof.
  intros Haccess Hvalid Hb Hr Eopen Hanswered.
  assert (forall n pages w1, follows request authority query w pages w1 -> length (rk_hits k) + 1 <= length pages + n ->
    exists pages w1 p1, follows request authority query w pages w1 /\ last pages = Some p1 /\ sp_Complete p1 = true /\
      length pages <= length (rk_hits k) + 1) as Hgo.
  { induction n as [|n IH]; intros pages w1 Hf Hn;
      destruct (browse_browsing _ _ _ _ _ _ Haccess Hvalid (follows_browse _ _ _ _ _ _ Hf)) as (pre & rest & s & p1 & H);
      pose proof (br_forward _ _ _ _ _ _ _ H Hb Hr) as Hlen; pose proof (sa_hits _ _ _ _ (br_at _ _ _ _ _ _ _ H)) as Hhits;
      apply (f_equal length) in Hhits; rewrite length_app in Hhits; pose proof (br_last _ _ _ _ _ _ _ H) as Hl;
      destruct (sp_Complete p1) eqn:Hc; [by exists pages, w1, p1; split_and!; [..|lia]|lia|by exists pages, w1, p1; split_and!; [..|lia]|].
    destruct (Hanswered _ _ _ Hf Hl Hc) as (w2 & q & Eq).
    apply (IH (pages ++ [q]) w2); [|rewrite length_app; cbn; lia]. eapply follows_next; eauto. }
  apply (Hgo (length (rk_hits k)) [p] w'); [by apply follows_open|cbn; lia].
Qed.

End ranking.
