(* ===== verification/TransactSpec.v ===== *)
(** * What the retries mean for the operations they run

    - [mutation_applied_once]: a node mutation with an idempotency key takes
      effect once, whatever its attempts report;
    - [page_commits_once]: a page of a search takes effect at most once, and
      a failure that is not marked uncertain had no effect. *)

From S2P Require Import Prelude GoJson Float64 Quote GoTime Domain Store Tx Transact Keys Records Schedule Fence MutationRead Mutation MutationSpec SearchAccess SearchSession SessionSpec.

Section spec.
Context `{FDB : Fdb} `{GL : GoLib} `{HS : Encoder}.

(** ** Mutations *)

(** [runNodeMutation] around an attempt: a new transaction has recorded no
    change. *)
Definition mutation_apply (plan : MutationPlan) (e : env) (s : kv) : res (kv * MutationReceipt) :=
  match applyMutationAttempt e plan (mkTx s []) with
  | Ok (st, receipt) => Ok (tx_kv st, receipt)
  | Err e => Err e
  end.

Lemma history_still {S E A} (apply : E -> S -> res (S * A)) (P : A -> Prop) l s s' :
  (forall e s1 x, apply e s = Ok (s1, x) -> s1 = s /\ P x) -> history apply eq l s s' -> s' = s /\ Forall P l.
Proof.
  intros Ha H. revert Ha. induction H as [s|l s s0 s1 <- _ IH|l e x s s0 s1 Hx _ IH]; intros Ha; [by split|by apply IH|].
  destruct (Ha _ _ _ Hx) as [-> HP]. destruct (IH Ha) as [-> Hl]. split; [done|by constructor].
Qed.


(** ** Page commits *)

Definition no_scope : uuid * uuid := (uuid_nil, uuid_nil).

(** What [transactSession] runs for [CommitPage]. *)
Definition commit_apply (idleTimeout : gotime) (id : uuid) (version : Z) (c : PageCommit) (clock : commitClock) (s : kv) :
    res (kv * searchSessionRecord) :=
  match commitAttempt clock idleTimeout id version c (mkSessionTx s no_scope []) with
  | Ok (w, record) => Ok (st_kv w, record)
  | Err e => Err e
  end.

(** The session has left the version. *)
Definition passed (id : uuid) (version : Z) (s : kv) : Prop :=
  match header s id with Some r => sh_Version r <> version | None => True end.

(** The header holds the identifier of its key. *)
Definition named (id : uuid) (s : kv) : Prop := forall r, header s id = Some r -> sh_ID r = id.

(** Other clients write headers under their identifiers and never bring a
    version back. *)
Definition session_clients (id : uuid) (version : Z) (s s' : kv) : Prop :=
  (named id s -> named id s') /\ (passed id version s -> passed id version s').

Lemma next_version version : ((version + 1) mod 2 ^ 64)%Z <> version.
Proof.
  intros E. pose proof (Z.mod_pos_bound (version + 1) (2 ^ 64)%Z ltac:(lia)) as Hb. rewrite E in Hb.
  destruct (Z.eq_dec version (2 ^ 64 - 1)%Z) as [->|]; [done|]. rewrite Z.mod_small in E; lia.
Qed.

Lemma passed_refused idleTimeout id version c clock s : passed id version s ->
  is_ok (commit_apply idleTimeout id version c clock s) = false.
Proof.
  intros Hp. unfold commit_apply. destruct (commitAttempt _ _ _ _ _ _) as [[w next]|] eqn:E; [|done].
  apply commitAttempt_run in E as (stored & Hs & Hv & _). cbn [st_kv] in Hs. apply header_Some in Hs. unfold passed in Hp. by rewrite Hs in Hp.
Qed.

Lemma commit_apply_ok idleTimeout id version c clock s s' next :
  named id s -> commit_apply idleTimeout id version c clock s = Ok (s', next) -> named id s' /\ passed id version s'.
Proof.
  intros Hinv E. unfold commit_apply in E. destruct (commitAttempt _ _ _ _ _ _) as [[w x]|] eqn:Ec; [|done].
  injection E as <- ->. apply commitAttempt_run in Ec as (stored & Hs & Hv & _ & -> & _). cbn [st_kv] in *.
  apply header_Some in Hs as Hh. pose proof (Hinv _ Hh) as Hid. split.
  - intros r. unfold header. rewrite commit_session, decide_True by done. by intros [= <-].
  - unfold passed, header. rewrite commit_session, decide_True by done. cbn [sh_Version decoded_record with_position].
    apply next_version.
Qed.

Lemma page_history idleTimeout id version c others l s s' : (forall s s', others s s' -> session_clients id version s s') ->
  named id s -> history (commit_apply idleTimeout id version c) others l s s' -> length l <= 1.
Proof.
  intros Ho Hinv Hl. eapply (history_once _ others (named id) (passed id version)); [| | |exact Hl|done].
  - intros s1 s2 Hos Hs1. destruct (Ho _ _ Hos). auto.
  - intros clock s1. apply passed_refused.
  - intros clock s1 s2 x. apply commit_apply_ok.
Qed.

(** C15: A page of a search is committed at most once, however often the
    transaction is repeated: when the transaction returns the page took
    effect exactly once, and when it fails without the mark of an uncertain
    commit the page had no effect. *)
Theorem page_commits_once idleTimeout id version c sc s s' r :
  named id s -> Forall (fair (session_clients id version)) (sc_attempts sc) ->
  transactSession (commit_apply idleTimeout id version c) sc s = (s', r) ->
  exists l, history (commit_apply idleTimeout id version c) (session_clients id version) l s s' /\ length l <= 1 /\
    (forall next, r = inr next -> l = [next]) /\ (forall f, r = inl f -> fl_uncertain f = false -> l = []).
Proof.
  intros Hinv Hfair E. apply (transactSession_history _ (session_clients id version)) in E as (l & Hl & Hok & Hfail); [|done].
  assert (length l <= 1) as Hlen by (eapply page_history; [|exact Hinv|exact Hl]; done).
  exists l. split; [done|]. split; [done|]. split.
  - intros next Hr. specialize (Hok _ Hr). destruct l as [|x [|y l]]; cbn in *; [done|naive_solver|lia].
  - intros f Hr Hf. by apply (Hfail f).
Qed.

(** ** A commit that reports a changed session *)

(** The step never fails with the error. *)
Definition never {W A} (e : sentinel) (m : rd W A) : Prop := forall w, m w <> Err e.

Lemma never_bind {W A B} e (m : rd W A) (f : A -> rd W B) : never e m -> (forall a, never e (f a)) -> never e (m ≫= f).
Proof.
  intros Hm Hf w. cbv [mbind rd_bind]. destruct (m w) as [[w' a]|e'] eqn:E; [apply Hf|]. intros [= ->]. by apply (Hm w).
Qed.

Lemma never_ret {W A} e (a : A) : never e (mret a : rd W A).
Proof. done. Qed.

Lemma never_set e k v : never e (s_set k v).
Proof. done. Qed.

Lemma never_clear e k : never e (s_clear k).
Proof. done. Qed.

Lemma never_record e c : never e (s_record c).
Proof. done. Qed.

Create HintDb never.
Hint Resolve never_bind never_ret never_set never_clear never_record : never.

Lemma never_forEach {X} e (l : list X) f : (forall x, never e (f x)) -> never e (forEach l f).
Proof. intros Hf. induction l as [|x l IH]; cbn [forEach]; auto with never. Qed.

Lemma never_writeSession id r : never ErrSessionChanged (writeSession id r).
Proof. intros w. unfold writeSession. destruct (header_text r); [|done]. by destruct (_ <? _)%Z. Qed.

Lemma never_writeReplay id version r : never ErrSessionChanged (writeReplay id version r).
Proof. intros w. unfold writeReplay. by destruct (_ <? _)%Z. Qed.

Lemma never_readReplay id version : never ErrSessionChanged (readReplay id version).
Proof.
  intros w. rewrite readReplay_eq. unfold get_replay. destruct (fget _ _) as [v|]; [|done]. destruct (no_bytes v); [done|]. by destruct v.
Qed.

Hint Resolve never_forEach never_writeSession never_writeReplay never_readReplay : never.

Lemma never_applyPageCommit now idleTimeout stored version c : never ErrSessionChanged (applyPageCommit now idleTimeout stored version c).
Proof.
  unfold applyPageCommit, clearPreviousReplay, clearSessionVersion. repeat (apply never_bind; [|intros]); auto 6 with never.
  - destruct (_ =? _)%Z; [auto with never|]. apply never_bind; [auto with never|]. intros previous.
    apply never_bind; [auto with never|]. intros _. destruct previous; auto with never.
  - destruct (pc_Complete c); auto with never.
Qed.

Lemma commitAttempt_changed clock idleTimeout id version c w r : header (st_kv w) id = Some r ->
  commitAttempt clock idleTimeout id version c w = Err ErrSessionChanged -> sh_Version r <> version.
Proof.
  intros Hh. unfold commitAttempt. cbv [mbind rd_bind]. unfold s_startAttempt. rewrite readSession_eq. cbn [st_kv].
  apply header_Some in Hh. rewrite (proj2 (get_session_Some _ _ _) Hh).
  destruct (Z.eqb_spec (sh_Version r) version) as [Hv|]; [|done]. cbn [negb].
  destruct (commit_expired _ _); [done|]. unfold bind_scope. intros E. by apply never_applyPageCommit in E.
Qed.

(** Without other clients a commit that takes effect does so once, and one
    that reports a changed session found another version or took effect. *)
Lemma page_effect idleTimeout id version c sc s s' r stored :
  named id s -> header s id = Some stored -> Forall (fair eq) (sc_attempts sc) ->
  transactSession (commit_apply idleTimeout id version c) sc s = (s', r) ->
  let took := sh_Version stored = version /\ sh_Closing stored = false /\ exists idle, s' = commit_kv s stored version c idle in
  (forall record, r = inr record -> took /\ exists idle, record = with_position stored c idle ((version + 1) mod 2 ^ 64)%Z) /\
  (forall f, r = inl f -> ErrSessionChanged ∈ fl_errors f -> sh_Version stored <> version \/ took).
Proof.
  intros Hnamed Hh Hfair E took. pose proof E as E'.
  apply (transactSession_history _ eq) in E as (l & Hl & Hok & _); [|done].
  assert (length l <= 1) as Hlen by (eapply page_history; [|exact Hnamed|exact Hl]; by intros ? ? ->).
  assert (forall l s s', history (commit_apply idleTimeout id version c) eq l s s' -> header s id = Some stored ->
    l = [] /\ s' = s \/ sh_Version stored = version /\ sh_Closing stored = false /\ exists idle s1 l',
      l = with_position stored c idle ((version + 1) mod 2 ^ 64)%Z :: l' /\ s1 = commit_kv s stored version c idle /\
      history (commit_apply idleTimeout id version c) eq l' s1 s') as Hcases.
  { clear. induction 1 as [s|l s s1 s2 <- _ IH|l clock x s s1 s2 Ha Hl _]; intros Hh; [by left|by apply IH|right].
    unfold commit_apply in Ha. destruct (commitAttempt _ _ _ _ _ _) as [[w y]|] eqn:Ec; [|done]. injection Ha as <- ->.
    apply commitAttempt_run in Ec as (stored' & Hs & Hv & Hexp & Hkv & ->). cbn [st_kv] in *. apply header_Some in Hs.
    rewrite Hh in Hs. injection Hs as <-. split; [done|]. split; [by eapply commit_not_closing|]. eauto 10. }
  destruct (Hcases _ _ _ Hl Hh) as [[-> ->]|(Hv & Hc & idle & s1 & l' & -> & -> & Hl')].
  - split; [intros record ->; by specialize (Hok _ eq_refl)|]. intros f -> Hin. left.
    eapply transactSession_refused in E' as [clock Ha]; [|exact Hfair|exact Hin|done|done].
    unfold commit_apply in Ha. destruct (commitAttempt _ _ _ _ _ _) as [[]|] eqn:Ec; [done|]. injection Ha as ->.
    by eapply (commitAttempt_changed _ _ _ _ _ (mkSessionTx s no_scope [])).
  - destruct l' as [|]; [|cbn in Hlen; lia].
    assert (s' = commit_kv s stored version c idle) as ->.
    { assert (forall l s s', history (commit_apply idleTimeout id version c) eq l s s' -> l = [] -> s' = s) as Hnil
        by (clear; induction 1 as [| |]; naive_solver). by eapply Hnil. }
    split; [|by right; split_and!; eauto]. intros record ->. specialize (Hok _ eq_refl). injection Hok as <-. split; [split_and!|]; eauto.
Qed.

End spec.
