(* ===== verification/SearchWorld.v ===== *)
(** * The public search on the session store

    [SearchQuery] runs on ports; here its session ports are the operations of
    [SearchSession], each in the transaction loop of [Transact] as
    adapters/foundationdb/search_session*.go and search_replay.go run them.
    The engine, the policies, the summaries, the audit writes around the
    engine and the clock are the class [SearchElsewhere] over a state [E].

    [world_laws] proves that this store keeps the promises [SessionLaws], so
    the theorems of [QuerySpec] hold on it. *)

From S2P Require Import Prelude GoJson Sha256 Bytes Float64 Quote GoTime Domain Store Tx Transact Keys Schedule Fence Records MutationRead Mutation AuditEvent SearchAccess SearchReaders HierarchySpec ReadersSpec AccessSpec SearchSession SearchQuery SessionSpec QuerySpec TransactSpec.

(** ** The store of sessions and the rest *)

Class SearchElsewhere `{FDB : Fdb} (E : Type) := {
  el_EntryAuthority : uuid -> svc E uuid;
  el_AccessQuery : AccessRequest -> svc E AccessFilter;
  el_ActiveAccessVersion : uuid -> svc E string;
  el_ServingSearchIndex : svc E string;
  el_SearchRestoreEpoch : svc E Z;
  el_Open : Query -> svc E (Snapshot * option fault);
  el_Read : Query -> Snapshot -> raw -> svc E RankBatch;
  el_Close : Snapshot -> svc E unit;
  el_RecordCleanupFailure : uuid -> CleanupStep -> fault -> svc E unit;
  el_NodeSummaries : list uuid -> Z -> svc E (list SummaryResult);
  el_SaveIntent : Session -> snapshotOperation -> snapshotEvidence -> svc E unit;
  el_FinishStep : Session -> snapshotOperation -> OutcomeDetails -> stepEvidence -> svc E unit;
  el_SaveResult : Session -> snapshotOperation -> OutcomeDetails -> option fault -> svc E unit;
  el_AcquireSlot : svc E unit;
  el_ReleaseSlot : E -> E;
  el_Now : svc E gotime;
  (** A random identifier; it sees the store so that it can avoid it. *)
  el_NewSessionID : kv -> svc E uuid;
  el_RandInt : nat -> svc E nat;
  el_ContextErr : svc E bool;
  (** [beginSessionAudit]. *)
  el_beginAudit : svc E unit;
  (** What the database does in the next transaction. *)
  el_script : E -> E * script kv commitClock;
}.

Section world.
Context `{FDB : Fdb} `{GL : GoLib} {E : Type} `{EL : !SearchElsewhere E} (idleTimeout : gotime).

Definition world : Type := kv * E.

Definition elsewhere {A} (m : svc E A) : svc world A := fun w => let '(e, o) := m w.2 in ((w.1, e), o).

(** A session operation as the function of a transaction. *)
Definition session_apply {A} (m : commitClock -> rd sessionTx A) (clock : commitClock) (s : kv) : res (kv * A) :=
  match m clock (mkSessionTx s no_scope []) with Ok (w, a) => Ok (st_kv w, a) | Err e => Err e end.

Definition transact {A} (apply : commitClock -> kv -> res (kv * A)) : svc world (sessionFault + A) := fun w =>
  let '(e, sc) := el_script w.2 in
  let '(s, r) := transactSession apply sc w.1 in
  ((s, e), Done r).

(** The error of a transaction, as it is returned. *)
Definition or_fail {A} (m : svc world (sessionFault + A)) : svc world A :=
  r ← m; match r with inl f => svc_fail (fl_errors f) | inr a => mret a end.

(** [recordWriteUncertain] (search_session_write_uncertain.go): the event is
    a transaction of its own, on the outbox. *)
Definition recordWriteUncertain {A} (cause : sessionFault) : svc world A :=
  if fl_uncertain cause then
    recorded ← transact (fun _ s => Ok (s, tt));
    match recorded with
    | inl f => svc_fail ([ErrEventNotRecorded] ++ fl_errors cause ++ fl_errors f)
    | inr _ => svc_fail (fl_errors cause)
    end
  else svc_fail (fl_errors cause).

(** [beginSessionAudit] before a write; [recordingFailure]: the error is
    joined with ErrEventNotRecorded. *)
Definition begin_audit (recordingFailure : bool) : svc world unit :=
  begun ← attempt (elsewhere el_beginAudit);
  match begun with
  | Done _ => mret tt
  | Failed e => svc_fail (if recordingFailure then ErrEventNotRecorded :: e else e)
  end.

Definition world_Create (session : Session) : svc world Session :=
  if create_invalid session then svc_fail [ErrOther]
  else
    _ ← begin_audit true;
    created ← transact (session_apply (fun _ => Session_Create session));
    match created with inl f => recordWriteUncertain f | inr session => mret session end.

Definition res_svc {A} (r : res A) : svc world A := match r with Ok a => mret a | Err e => svc_fail [e] end.

Definition world_CommitPage (sessionID : uuid) (version : Z) (commit : PageCommit) : svc world Session :=
  if commit_out_of_bounds commit then svc_fail [ErrOther]
  else
    _ ← begin_audit true;
    committed ← transact (commit_apply idleTimeout sessionID version commit);
    match committed with
    | inl f => recordWriteUncertain f
    | inr record => res_svc (record_session record EmptyString)
    end.

Definition world_HasVisited (sessionID : uuid) (nodeIDs : list uuid) : svc world (gset uuid) :=
  if maxSessionVisitedIDs <? length nodeIDs then svc_fail [ErrOther]
  else or_fail (transact (session_apply (fun _ => Session_HasVisited sessionID nodeIDs))).

Definition world_CleanupSlice (sessionID : uuid) (limit : Z) : svc world bool :=
  if (limit <? 1)%Z || (maxSessionCleanupKeys <? limit)%Z then svc_fail [ErrOther]
  else
    _ ← begin_audit false;
    or_fail (transact (session_apply (fun _ => Session_CleanupSlice None sessionID limit))).

#[export] Instance world_ports : SearchQueryPorts world := {|
  EntryAuthority a := elsewhere (el_EntryAuthority a);
  AccessQuery r := elsewhere (el_AccessQuery r);
  ActiveAccessVersion a := elsewhere (el_ActiveAccessVersion a);
  ServingSearchIndex := elsewhere el_ServingSearchIndex;
  SearchRestoreEpoch := elsewhere el_SearchRestoreEpoch;
  Ranker_Open q := elsewhere (el_Open q);
  Ranker_Read q s p := elsewhere (el_Read q s p);
  Ranker_Close s := elsewhere (el_Close s);
  Sessions_Create := world_Create;
  Sessions_Load id := or_fail (transact (session_apply (fun _ => Session_Load id)));
  Sessions_Replay id v := or_fail (transact (session_apply (fun _ => Session_Replay id v)));
  Sessions_HasVisited := world_HasVisited;
  Sessions_CommitPage := world_CommitPage;
  Sessions_BeginCleanup id := _ ← begin_audit false; or_fail (transact (session_apply (fun _ => Session_BeginCleanup None id)));
  Sessions_CleanupSlice := world_CleanupSlice;
  Sessions_RecordCleanupFailure id st e := elsewhere (el_RecordCleanupFailure id st e);
  ExpiredSessionIDs n := now ← elsewhere el_Now; or_fail (transact (session_apply (fun _ => ExpiredSessions now n)));
  NodeSummaries ids n := elsewhere (el_NodeSummaries ids n);
  Audit_SaveIntent s a e := elsewhere (el_SaveIntent s a e);
  Audit_FinishStep s a d e := elsewhere (el_FinishStep s a d e);
  Audit_SaveResult s a d e := elsewhere (el_SaveResult s a d e);
  AcquireSlot := elsewhere el_AcquireSlot;
  ReleaseSlot w := (w.1, el_ReleaseSlot w.2);
  ClockNow := elsewhere el_Now;
  NewSessionID := fun w => elsewhere (el_NewSessionID w.1) w;
  RandInt n := elsewhere (el_RandInt n);
  ContextErr := elsewhere el_ContextErr;
|}.

(** ** The view of a session *)

Definition stored_session (s : kv) (id : uuid) : option Session :=
  match load_result s id with
  | Ok session => if decide (ss_ID session = id) then Some session else None
  | Err _ => None
  end.

Definition visited_node (id : uuid) (item : key * value) : option uuid :=
  n ← item.1 !! 4 ≫= elem_id;
  if decide (item.1 = searchSessionVisitedKey id n) then if no_bytes item.2 then None else Some n else None.

Definition visited_nodes (s : kv) (id : uuid) : gset uuid :=
  list_to_set (omap (visited_node id) (frange s (searchSessionPartPrefix id "visited"))).

Definition stored_replay (s : kv) (id : uuid) (version : Z) : option PageCommit :=
  match get_replay s id version with
  | Ok (Some record) => Some (mkPageCommit EmptyString EmptyString [] (rp_ResultIDs record) (rp_Complete record))
  | _ => None
  end.

#[export] Instance world_view : SessionView world := {|
  header_of w := stored_session w.1;
  marks_of w := visited_nodes w.1;
  replay_of w := stored_replay w.1;
  untouched w id := no_children w.1 id;
|}.

(** ** The laws *)

(** What is assumed of the rest: scripts are fair, no other client writes
    while a call runs, and an identifier is fresh. *)
Record elsewhere_fair : Prop := {
  ef_script e e' sc : el_script e = (e', sc) -> Forall (fair eq) (sc_attempts sc);
  ef_fresh s e e' id : el_NewSessionID s e = (e', Done id) -> no_children s id;
}.

Lemma elem_visited s id n : n ∈ visited_nodes s id <-> visited_now s id n = true.
Proof.
  unfold visited_nodes. rewrite elem_of_list_to_set, list_elem_of_omap. unfold visited_now, absent_bytes. split.
  - intros ([k v] & [Hp Hk]%frange_spec & Hn). unfold visited_node in Hn. cbn [fst snd] in Hn.
    destruct (k !! 4 ≫= elem_id) as [m|]; [|done]. cbn in Hn. case_decide as Hkey; [|done].
    destruct (no_bytes v) eqn:Hv; [done|]. injection Hn as ->. rewrite <- Hkey, Hk. by rewrite Hv.
  - intros H. destruct (fget s (searchSessionVisitedKey id n)) as [v|] eqn:Hk; [|done]. apply negb_true_iff in H.
    exists (searchSessionVisitedKey id n, v). split; [apply frange_spec; split; [by eexists [_]|done]|].
    unfold visited_node. cbn [fst snd]. change (searchSessionVisitedKey id n !! 4) with (Some (id_elem n)). cbn [mbind option_bind].
    rewrite elem_id_id. cbn. rewrite decide_True by done. by rewrite H.
Qed.

Lemma Replay_eq id version w : Session_Replay id version w =
  match get_replay (st_kv w) id version with
  | Ok (Some r) => Ok (w, Some (mkPageCommit EmptyString EmptyString [] (rp_ResultIDs r) (rp_Complete r)))
  | Ok None => Ok (w, None)
  | Err e => Err e
  end.
Proof.
  unfold Session_Replay. cbv [mbind rd_bind]. rewrite readReplay_eq. by destruct (get_replay _ _ _) as [[]|].
Qed.

Lemma HasVisited_eq id ids w : length ids <= maxSessionVisitedIDs ->
  Session_HasVisited id ids w = Ok (w, list_to_set (filter (fun n => visited_now (st_kv w) id n = true) ids)).
Proof. intros Hlen. unfold Session_HasVisited. by rewrite (proj2 (Nat.ltb_ge _ _) Hlen). Qed.

(** A transaction that only reads returns what it read of the store. *)
Lemma transact_reads {A} (apply : commitClock -> kv -> res (kv * A)) (P : kv -> A -> Prop) w w' r :
  elsewhere_fair -> (forall clock s s' a, apply clock s = Ok (s', a) -> s' = s /\ P s a) ->
  transact apply w = (w', r) ->
  w'.1 = w.1 /\ exists x, r = Done x /\ forall a, x = inr a -> P w.1 a.
Proof.
  intros Hf Happly. unfold transact. destruct (el_script w.2) as [e sc] eqn:Es.
  destruct (transactSession apply sc w.1) as [s x] eqn:Et. intros [= <- <-]. cbn [fst snd].
  apply (transactSession_history _ eq) in Et as (l & Hl & Hok & _); [|by eapply ef_script].
  assert (forall l s s', history apply eq l s s' -> s' = s /\ Forall (P s) l) as Hread.
  { clear -Happly. induction 1 as [s|l s s1 s2 <- _ IH|l clock a s s1 s2 Ha _ IH]; [by split|done|].
    destruct (Happly _ _ _ _ Ha) as [-> HP]. destruct IH as [-> IH]. split; [done|by constructor]. }
  destruct (Hread _ _ _ Hl) as [-> Hall]. split; [done|]. exists x. split; [done|].
  intros a ->. specialize (Hok _ eq_refl). rewrite Forall_forall in Hall. apply Hall. by apply last_Some_elem_of.
Qed.

Lemma or_fail_reads {A} (apply : commitClock -> kv -> res (kv * A)) (P : kv -> A -> Prop) w w' o :
  elsewhere_fair -> (forall clock s s' a, apply clock s = Ok (s', a) -> s' = s /\ P s a) ->
  or_fail (transact apply) w = (w', o) -> w'.1 = w.1 /\ forall a, o = Done a -> P w.1 a.
Proof.
  intros Hf Happly. unfold or_fail. cbv [mbind svc_bind]. destruct (transact apply w) as [w1 r] eqn:Et.
  destruct (transact_reads _ P _ _ _ Hf Happly Et) as (Hw & x & -> & Hx).
  destruct x as [f|a]; intros [= <- <-]; (split; [done|]); [done|]. intros b [= <-]. by apply Hx.
Qed.

Lemma load_reads id clock s s' a : session_apply (fun _ => Session_Load id) clock s = Ok (s', a) -> s' = s /\ load_result s id = Ok a.
Proof. unfold session_apply. rewrite Load_eq. cbn [st_kv]. destruct (load_result s id); [|done]. by intros [= <- <-]. Qed.

Lemma replay_reads id version clock s s' a : session_apply (fun _ => Session_Replay id version) clock s = Ok (s', a) ->
  s' = s /\ a = stored_replay s id version.
Proof.
  unfold session_apply. rewrite Replay_eq. cbn [st_kv]. unfold stored_replay.
  destruct (get_replay s id version) as [[r|]|]; [..|done]; by intros [= <- <-].
Qed.

Lemma visited_reads id ids clock s s' a : length ids <= maxSessionVisitedIDs ->
  session_apply (fun _ => Session_HasVisited id ids) clock s = Ok (s', a) ->
  s' = s /\ forall n, n ∈ ids -> n ∈ a <-> n ∈ visited_nodes s id.
Proof.
  intros Hlen. unfold session_apply. rewrite HasVisited_eq by done. cbn [st_kv]. intros [= <- <-]. split; [done|].
  intros n Hn. rewrite elem_visited, elem_of_list_to_set, list_elem_of_filter. tauto.
Qed.

Lemma elsewhere_kv {A} (m : svc E A) w w' o : elsewhere m w = (w', o) -> w'.1 = w.1.
Proof. unfold elsewhere. destruct (m w.2) as [e r]. by intros [= <- _]. Qed.

Lemma HasVisited_kv id ids w w' o : elsewhere_fair -> world_HasVisited id ids w = (w', o) -> w'.1 = w.1 /\
  forall v, o = Done v -> forall n, n ∈ ids -> n ∈ v <-> n ∈ visited_nodes w.1 id.
Proof.
  intros Hf. unfold world_HasVisited. destruct (Nat.ltb_spec maxSessionVisitedIDs (length ids)) as [|Hlen]; [by intros [= <- <-]|].
  intros Eo. eapply (or_fail_reads _ (fun s v => forall n, n ∈ ids -> n ∈ v <-> n ∈ visited_nodes s id)) in Eo; [done..|].
  intros clock s s' a. by apply visited_reads.
Qed.

Lemma quiet_kv (w w' : world) : elsewhere_fair -> quiet_call w w' -> w'.1 = w.1.
Proof.
  intros Hf Hq. inversion Hq; cbn [EntryAuthority AccessQuery ActiveAccessVersion ServingSearchIndex SearchRestoreEpoch Ranker_Open
    Ranker_Read Ranker_Close Sessions_Load Sessions_Replay Sessions_HasVisited NodeSummaries Audit_SaveIntent Audit_FinishStep
    Audit_SaveResult AcquireSlot ReleaseSlot ClockNow NewSessionID world_ports] in *; subst; try (by eapply elsewhere_kv); try done.
  - eapply (or_fail_reads _ (fun _ _ => True)); [done| |eassumption]. intros clock s s' a Ha. split; [|done]. by eapply load_reads.
  - eapply (or_fail_reads _ (fun _ _ => True)); [done| |eassumption]. intros clock s s' a Ha. split; [|done]. by eapply replay_reads.
  - by eapply HasVisited_kv.
Qed.

Lemma begin_audit_kv b w w' o : begin_audit b w = (w', o) -> w'.1 = w.1 /\ forall e, o = Failed e -> b = true -> ErrEventNotRecorded ∈ e.
Proof.
  unfold begin_audit. cbv [mbind svc_bind attempt]. destruct (elsewhere el_beginAudit w) as [w1 [r|e]] eqn:Ee; apply elsewhere_kv in Ee.
  - intros [= <- <-]. split; [done|]. by intros e [=].
  - intros [= <- <-]. split; [done|]. intros e' [= <-] ->. left.
Qed.

(** The event of an uncertain write does not touch the sessions. *)
Lemma uncertain_kv {A} f w w' o : elsewhere_fair -> recordWriteUncertain (A := A) f w = (w', o) ->
  w'.1 = w.1 /\ exists e, o = Failed e /\ (e = fl_errors f \/ ErrEventNotRecorded ∈ e).
Proof.
  intros Hf. unfold recordWriteUncertain. destruct (fl_uncertain f); [|intros [= <- <-]; eauto 10].
  cbv [mbind svc_bind]. destruct (transact _ w) as [w1 r] eqn:Et.
  apply (transact_reads _ (fun _ _ => True)) in Et as (Hw & x & -> & _); [|done|by intros ???? [= <- <-]].
  destruct x; intros [= <- <-]; (split; [done|]); eexists; (split; [done|]); [right; left|by left].
Qed.

(** ** Creating and committing *)

Lemma world_create w w' session s' : elsewhere_fair -> world_Create session w = (w', Done s') ->
  s' = session /\ create_invalid session = false /\ w'.1 = create_kv w.1 session.
Proof.
  intros Hf. unfold world_Create. destruct (create_invalid session) eqn:Hinv; [done|]. intros E0.
  svc_at E0 w1 u Hb. apply begin_audit_kv in Hb as [Hw1 _]. svc_at E0 w2 r Ht. unfold transact in Ht.
  destruct (el_script w1.2) as [e sc] eqn:Es. destruct (transactSession _ sc w1.1) as [s x] eqn:Et. injection Ht as <- <-.
  destruct x as [f|a]; [by apply uncertain_kv in E0 as (_ & ? & ? & _)|]. apply svc_ret_done in E0 as [-> ->]. cbn [fst].
  rewrite Hw1 in Et. apply (transactSession_history _ eq) in Et as (l & Hl & Hok & _); [|by eapply ef_script].
  specialize (Hok _ eq_refl).
  assert (forall clock s1 s2 x, session_apply (fun _ => Session_Create session) clock s1 = Ok (s2, x) ->
    x = session /\ get_session s1 (ss_ID session) = Ok None /\ s2 = create_kv s1 session) as Hrun.
  { intros clock s1 s2 x. unfold session_apply. destruct (Session_Create _ _) as [[t y]|] eqn:Ec; [|done]. intros [= <- <-].
    by apply Create_run in Ec as (-> & _ & Hn & _ & ->). }
  assert (forall l s s', history (session_apply (fun _ => Session_Create session)) eq l s s' ->
    (get_session s (ss_ID session) <> Ok None -> l = [] /\ s' = s) /\
    (l = [] -> s' = s) /\ (l <> [] -> l = [session] /\ s' = create_kv s session)) as Hcases.
  { clear -Hrun. induction 1 as [s|l s s1 s2 <- _ IH|l clock x s s1 s2 Ha _ (IH1 & IH2 & _)]; [by split_and!|done|].
    apply Hrun in Ha as (-> & Hn & ->). split; [done|]. split; [done|]. intros _.
    destruct IH1 as [-> ->]; [|done]. unfold get_session. by rewrite create_session, decide_True. }
  destruct (Hcases _ _ _ Hl) as (_ & _ & Hdone). destruct Hdone as [-> ->]; [by intros ->|]. by injection Hok as <-.
Qed.

Lemma stored_header s id session : stored_session s id = Some session ->
  load_result s id = Ok session /\ ss_ID session = id /\
  exists r tokens, header s id = Some r /\ sh_ID r = id /\ record_session r tokens = Ok session.
Proof.
  unfold stored_session. destruct (load_result s id) as [x|] eqn:El; [|done]. case_decide as Hid; [|done]. intros [= ->].
  split; [done|]. split; [done|]. unfold load_result in El. destruct (get_session s id) as [[r|]|] eqn:Eg; [|done..].
  apply get_session_Some, header_Some in Eg. assert (exists tokens, record_session r tokens = Ok session) as [tokens Hr].
  { destruct (sh_Closing r); [eauto|]. destruct (negb _); [done|]. destruct (res_mapM _ _); [|done]. destruct (negb _); [done|]. eauto. }
  exists r, tokens. split; [done|]. split; [|done]. apply record_session_fields in Hr as (H1 & _). congruence.
Qed.

Lemma world_commit w w' id version c session o : elsewhere_fair -> stored_session w.1 id = Some session ->
  world_CommitPage id version c w = (w', o) ->
  (forall next, o = Done next -> ss_Version next = ((version + 1) mod 2 ^ 64)%Z /\ commit_effect w w' id version c session) /\
  (forall e, o = Failed e -> Is e ErrSessionChanged = true -> Is e ErrEventNotRecorded = false ->
     ss_Version session <> version \/ commit_effect w w' id version c session).
Proof.
  intros Hf (Hload & Hid & stored & tokens & Hh & Hsid & Hrec)%stored_header E0. pose proof (record_session_fields _ _ _ Hrec) as (_ & Hver & Hclosed & _).
  assert (forall w'' : world, (sh_Version stored = version /\ sh_Closing stored = false /\ exists idle, w''.1 = commit_kv w.1 stored version c idle) ->
    commit_effect w w'' id version c session) as Heffect.
  { intros w'' (Hv & Hc & idle & Hkv). unfold commit_effect. cbn [header_of marks_of replay_of world_view]. rewrite Hkv. split; [congruence|].
    split; [|split].
    - exists idle. unfold stored_session. apply header_Some in Hh. erewrite commit_load by done. cbn. by rewrite decide_True.
    - apply set_eq. intros n. rewrite elem_of_union, elem_of_list_to_set, !elem_visited. unfold visited_now.
      rewrite <- Hsid, commit_visited. destruct (decide _); [|tauto]. split; [by right|done].
    - unfold stored_replay. rewrite <- Hsid. unfold get_replay. by rewrite commit_replay. }
  unfold world_CommitPage in E0. destruct (commit_out_of_bounds c); [injection E0 as <- <-; split; [done|]; by intros e [= <-]|].
  cbv [mbind svc_bind] in E0. destruct (begin_audit true w) as [w1 [u|e]] eqn:Eb; apply begin_audit_kv in Eb as [Hw1 Hb].
  2:{ injection E0 as <- <-. split; [done|]. intros e' [= <-] _ Hn%bool_decide_eq_false. destruct Hn. by eapply Hb. }
  unfold transact in E0. destruct (el_script w1.2) as [e sc] eqn:Es. destruct (transactSession _ sc w1.1) as [s x] eqn:Et.
  rewrite Hw1 in Et. eapply page_effect in Et as [Hok Hfail]; [|intros r Hr; by rewrite Hh in Hr; injection Hr as <-|exact Hh|by eapply ef_script].
  destruct x as [f|record].
  - apply uncertain_kv in E0 as (Hw' & e' & -> & He'); [|done]. cbn [fst] in Hw'. split; [done|].
    intros e1 [= <-] H1%bool_decide_eq_true H2%bool_decide_eq_false. destruct He' as [-> |]; [|done].
    destruct (Hfail f eq_refl H1) as [Hne|(Hv & Hc & idle & Hs)]; [left; congruence|right].
    apply Heffect. split; [done|]. split; [done|]. exists idle. by rewrite Hw'.
  - destruct (Hok record eq_refl) as [(Hv & Hc & idle & Hs) [idle' ->]]. unfold res_svc in E0.
    destruct (record_session _ EmptyString) as [next|e'] eqn:Er; injection E0 as <- <-; [|split; [done|]].
    + split; [|done]. intros next' [= <-]. apply record_session_fields in Er as (_ & -> & _). split; [done|].
      apply Heffect. split; [done|]. split; [done|]. by exists idle.
    + intros e1 [= <-] H1%bool_decide_eq_true. apply list_elem_of_singleton in H1 as <-.
      unfold record_session in Er. destruct (DecodeString _); [destruct (_ =? _)|]; done.
Qed.

(** The store keeps the promises the service relies on. *)
Lemma world_laws : elsewhere_fair -> SessionLaws world.
Proof.
  intros Hf. constructor.
  - intros id w w' Hq. apply quiet_kv in Hq; [|done]. unfold same_view. cbn [header_of marks_of replay_of untouched world_view]. by rewrite Hq.
  - intros w w' id E0. cbn [NewSessionID world_ports untouched world_view] in *. unfold elsewhere in E0.
    destruct (el_NewSessionID w.1 w.2) as [e r] eqn:En. injection E0 as <- ->. by eapply ef_fresh.
  - intros w w' id s s' Hs Hl. cbn [header_of Sessions_Load world_view world_ports] in *.
    eapply (or_fail_reads _ (fun s x => load_result s id = Ok x)) in Hl as [_ Hl]; [|done|intros; by eapply load_reads].
    apply stored_header in Hs as [Hs _]. specialize (Hl _ eq_refl). congruence.
  - intros w w' id ids v Hv. by apply HasVisited_kv in Hv as [_ Hv]; [apply Hv|].
  - intros w w' s s' Hnone Hb Hc E0. cbn [untouched world_view] in Hnone. apply world_create in E0 as (-> & Hi & Hkv); [|done].
    split; [done|]. split; [by unfold create_invalid in Hi; destruct (nil (ss_ID s))|]. cbn [header_of marks_of world_view]. rewrite Hkv. split.
    + unfold stored_session. rewrite create_load by done. by rewrite decide_True.
    + apply set_eq. intros n. rewrite elem_visited. unfold visited_now. rewrite create_other by (intros; discriminate).
      rewrite Hnone by (by eexists [_; _]). split; [done|by intros ?%elem_of_empty].
  - intros w w' id version c next s Hs E0. cbn [header_of world_view] in Hs. by eapply world_commit in E0 as [H _]; [apply H| |].
  - intros w w' id version c e s Hs E0. cbn [header_of world_view] in Hs. by eapply world_commit in E0 as [_ H]; [apply H| |].
  - intros w w' id version r E0. cbn [Sessions_Replay replay_of world_view world_ports] in *.
    eapply (or_fail_reads _ (fun s x => x = stored_replay s id version)) in E0 as [_ E0]; [|done|intros; by eapply replay_reads].
    by apply E0.
Qed.

End world.

(** ** What a caller is shown

    The policies and the summaries read one store of nodes, at rest while the
    search runs. *)

Section reachable.
Context `{FDB : Fdb} `{GL : GoLib} `{KT : KeyText} {W : Type} `{SP : SearchQueryPorts W} (settings : SearchQuerySettings).

Record reads_store (s : kv) (fuel : nat) : Prop := {
  rs_query request (w w' : W) f : AccessQuery request w = (w', Done f) ->
    exists t t', PolicySet_Query (rest_policies s fuel) request t = Ok (t', f);
  rs_summaries ids n (w w' : W) l : NodeSummaries ids n w = (w', Done l) ->
    exists st, Summaries fuel (rest_policies s fuel) ids n (mkTx s []) = Ok (st, l);
}.

Lemma Summaries_bounds s fuel (policies : gmap string (Compiler nat)) ids n st l :
  Summaries fuel policies ids n s = Ok (st, l) -> length ids <= maxSummaryBatch /\ (1 <= n)%Z.
Proof.
  unfold Summaries. destruct (_ || _) eqn:Hb; [done|]. intros _. apply orb_false_iff in Hb as [?%Nat.ltb_ge ?%Z.ltb_ge]. done.
Qed.

(** C3: A search shows a caller only nodes of an organization the caller
    belongs to that lie under the entry point of the request: the decision
    the summary of each shown node makes is the one the hierarchy gives. *)
Theorem search_shows_reachable s fuel request (w w' : W) p :
  at_rest s fuel -> reads_store s fuel ->
  (forall version v id o e', version ∈ registered -> view_of s (rq_EntryPointID request) = Some v -> entry_of s o id e' ->
     collision_free (decision_messages version (v_OrgID v) (rq_EntryPointID request) registered o e')) ->
  Search settings request w = (w', Done p) ->
  exists version authority,
    caller_may s (mkAccessRequest version (rq_PrincipalID request) authority (rq_EntryPointID request) (rq_MemberOrganizations request)) /\
    Forall (fun summary => entry_of s authority (sm_ID summary) (rq_EntryPointID request)) (sp_Results p).
Proof.
  intros Hs Hreads Hfree E. apply search_permitted in E as (authority & version & filter & w1 & w2 & Hquery & Hall & _).
  exists version, authority. apply (rs_query _ _ Hreads) in Hquery as (t & t' & Hquery).
  set (access := mkAccessRequest _ _ _ _ _) in *. destruct (query_ok s fuel Hs access t t' filter Hquery) as [Hv Hmay]. split; [exact Hmay|].
  destruct (query_eq s fuel Hs access t Hv Hmay) as (t2 & kq & Hg & Eq).
  pose proof (eq_trans (eq_sym Hquery) Eq) as [= _ ->].
  eapply Forall_impl; [exact Hall|]. intros summary (r & (ids & w3 & w4 & l & Hsums & Hr) & <- & _ & Hp).
  apply (rs_summaries _ _ Hreads) in Hsums as [st Hsums]. destruct (Summaries_bounds _ _ _ _ _ _ _ Hsums) as [Hlen Hmax].
  destruct (summaries_permit s fuel access kq ids summaryNameBytes Hs Hv Hmay Hg Hlen Hmax) as (results & Es & Hpairs).
  { intros id o e' _ He'. destruct Hmay as (_ & _ & _ & v & _ & Hview & Ho & _). cbn in Hview, Ho.
    cbn [aq_Version aq_AuthorityID aq_EntryPointID access]. rewrite <- Ho. by apply (Hfree version v id). }
  rewrite Es in Hsums. injection Hsums as _ ->. apply list_elem_of_lookup in Hr as [i Hi].
  destruct (Forall2_lookup_r _ _ _ _ _ Hpairs Hi) as (id & _ & _ & -> & Hiff). by apply Hiff.
Qed.

End reachable.
