(* ===== verification/WorkQueue.v ===== *)
(** * The search work queue: search_work*.go, search_exclusion.go

    Background workers lease the work that [Schedule] writes.  A claim reads
    the age index of one bucket, skips items that are leased or must wait,
    and stores a lease that names its owner, generation and target index; a
    later step of the worker first verifies that lease.  The model covers the
    node classes, the claim of one bucket, the order of buckets, and the
    steps that give a claim back: yield, release, restart and exclude. *)

From S2P Require Import Prelude GoJson Sha256 Bytes Base64 Float64 Domain Concrete Store Tx Keys Records Schedule SearchAccess.

(** A leased item, as the worker holds it (domain/search/work.go). *)
Record Work := mkLeased {
  wk_OrgID : uuid;
  wk_NodeID : uuid;
  wk_Generation : Z;
  wk_Revision : string;
  wk_Projection : string;
  wk_Cursor : string;
  wk_Ordinal : Z;
  wk_Phase : string;
  wk_Deleted : bool;
  wk_EnqueuedAt : gotime;
  wk_Owner : string;
  wk_LeaseUntil : gotime;
  wk_Class : workClass;
  wk_Target : string;
  wk_Mirror : string;
}.

Definition Excludable (w : Work) : bool :=
  negb (wk_Deleted w) && match wk_Class w with CLive | CAccess | CCopy => true | CCleanup => false end.

(** One failed slice of a claimed item (domain/search/page_write.go). *)
Record Failure := mkFailure {
  fa_Message : string;
  fa_Counted : bool;
  fa_RetryAfter : Z;
  fa_Pending : option searchPendingWriteRecord;
}.

Record failureOutcome := mkOutcome { fo_LimitCrossed : bool; fo_Attempts : Z; fo_ItemID : string }.

Definition PhasePages : string := "pages".
Definition WorkClassRescan : string := "rescan".

Definition searchWorkBuckets : nat := 256.
Definition searchClaimScanLimit : nat := 32.
Definition ClaimBucketChoices : nat := 4.
Definition searchFailureLimit : Z := 5.
(** Five seconds. *)
Definition searchRetryDelay : Z := 5000000000.

Definition SearchRendererVersion : Z := 1.
Definition searchProjectionFormat : Z := 2.
Definition legacyRenderer : Z := 0.
Definition legacyFormat : Z := 1.

(** ** The scope of a claim (search_rebuild_record.go) *)

Definition Mirror (r : searchRebuildRecord) : string :=
  if bool_decide (ix_State r ∈ ["copying"; "verifying"; "switching"]) then ix_TargetIndex r else EmptyString.

Record claimScope := mkScope { cs_serving : string; cs_rebuild : option searchRebuildRecord }.

(** The index a claim writes and the replacement it also writes. *)
Definition targets (s : claimScope) (class : workClass) : option (string * string) :=
  match class with
  | CCopy =>
      match cs_rebuild s with
      | Some r => if blank (Mirror r) then None else Some (ix_TargetIndex r, EmptyString)
      | None => None
      end
  | _ => Some (cs_serving s, match cs_rebuild s with Some r => Mirror r | None => EmptyString end)
  end.

(** ** The projection of an organization *)

Definition versionBefore (renderer format : Z) : bool :=
  if negb (renderer =? SearchRendererVersion)%Z then (renderer <? SearchRendererVersion)%Z else (format <? searchProjectionFormat)%Z.

Definition writerProjection (state : searchProjectionState) : bool :=
  (proj_Renderer state =? SearchRendererVersion)%Z && (proj_Format state =? searchProjectionFormat)%Z.

Definition olderThanWriter (state : searchProjectionState) : bool := versionBefore (proj_Renderer state) (proj_Format state).

Record searchRescanRequest := mkRescan {
  rr_AllContent : bool;
  rr_Names : list string;
  rr_TypeKeys : list string;
  rr_Features : list string;
  rr_Access : bool;
  rr_Projection : bool;
}.

Definition maxRescanNames : nat := 64.

Definition scanDefinitions : string := "definitions".
Definition scanNodes : string := "nodes".

Definition allContent (state : searchScanRecord) : bool :=
  scan_Content state && bool_decide (scan_Names state = []) && bool_decide (scan_TypeKeys state = []).

Definition selectAllContent (s : searchScanRecord) : searchScanRecord :=
  mkScan (scan_Phase s) (scan_Cursor s) (scan_Stop s) (scan_Wrapped s) true [] [] [] (scan_Access s) (scan_Projection s).

Definition mergeNames (current added : list string) : list string :=
  sort_strings (foldl (fun merged name => if blank name || bool_decide (name ∈ merged) then merged else merged ++ [name]) current added).

Definition mergeScanRequest (s : searchScanRecord) (request : searchRescanRequest) : searchScanRecord :=
  let s := mkScan (scan_Phase s) (scan_Cursor s) (scan_Stop s) (scan_Wrapped s) (scan_Content s) (scan_Names s) (scan_TypeKeys s)
             (scan_Features s) (scan_Access s || rr_Access request) (scan_Projection s) in
  let selective := negb (bool_decide (rr_Names request = [])) ||
                   (negb (bool_decide (rr_TypeKeys request = [])) && negb (bool_decide (rr_Features request = []))) in
  if rr_AllContent request || allContent s then selectAllContent s
  else if negb selective then s
  else
    let featured := negb (bool_decide (rr_Features request = [])) in
    let s' := mkScan (scan_Phase s) (scan_Cursor s) (scan_Stop s) (scan_Wrapped s) true (mergeNames (scan_Names s) (rr_Names request))
                (if featured then mergeNames (scan_TypeKeys s) (rr_TypeKeys request) else scan_TypeKeys s)
                (if featured then mergeNames (scan_Features s) (rr_Features request) else scan_Features s)
                (scan_Access s) (scan_Projection s) in
    if (maxRescanNames <? length (scan_Names s')) || (maxRescanNames <? length (scan_TypeKeys s')) || (maxRescanNames <? length (scan_Features s'))
    then selectAllContent s' else s'.

(** The metadata pass starts again with the sum of no contribution, which is
    zero in 32 bytes. *)
Definition restartProjectionPass (s : searchScanRecord) (epoch : Z) : searchScanRecord :=
  mkScan scanDefinitions EmptyString (scan_Stop s) (scan_Wrapped s) (scan_Content s) (scan_Names s) (scan_TypeKeys s) (scan_Features s)
    (scan_Access s) (Some (mkTargetPass SearchRendererVersion searchProjectionFormat (digest_hex 0) epoch)).

Definition stop_at_cursor (s : searchScanRecord) : searchScanRecord :=
  if decide (scan_Phase s = scanNodes)
  then mkScan (scan_Phase s) (scan_Cursor s) (scan_Cursor s) false (scan_Content s) (scan_Names s) (scan_TypeKeys s) (scan_Features s)
         (scan_Access s) (scan_Projection s)
  else s.

(** ** The order of buckets (search_work_buckets.go) *)

(** The key of the first item of a bucket, after the prefix of the bucket. *)
Record pendingBucket := mkPendingBucket { pb_bucket : Z; pb_oldest : key }.

Definition older (a b : pendingBucket) : Prop := key_le (pb_oldest a) (pb_oldest b).

#[export] Instance older_dec : RelDecision older.
Proof. intros a b. apply key_le_dec. Defined.

#[export] Instance older_total : Total older.
Proof. intros a b. apply (total key_le). Qed.

(** The oldest buckets in rotation, then the rest from the oldest. *)
Definition claimOrder (pending : list pendingBucket) (rotation : Z) : list Z :=
  let sorted := merge_sort older pending in
  let choices := Nat.min ClaimBucketChoices (length sorted) in
  let start := Z.to_nat (rotation mod Z.of_nat choices) in
  let chosen := take choices sorted in
  pb_bucket <$> drop start chosen ++ take start chosen ++ drop choices sorted.

Section queue.
Context `{FDB : Fdb} `{GL : GoLib} `{HS : Encoder}.

Definition claim_key (class : workClass) (orgID nodeID : uuid) : key :=
  searchClaimKey class (searchBucket orgID nodeID) orgID nodeID.

Definition readRebuild : tx (option searchRebuildRecord) :=
  v ← tr_get_bytes searchRebuildKey;
  lift (match v with None => Ok None | Some (VRebuild r) => Ok (Some r) | Some _ => Err ErrDecode end).

(** The serving index is stored as text. *)
Definition readClaimScope : tx claimScope :=
  serving ← tr_get_bytes searchIndexKey;
  match serving with
  | None => fail ErrNoServingIndex
  | Some (VText index) => rebuild ← readRebuild; mret (mkScope index rebuild)
  | Some _ => fail ErrDecode
  end.

(** The serving index is recorded once. *)
Definition InitializeSearchIndex (index : string) : tx unit :=
  _ ← ensure (negb (blank index)) ErrOther;
  current ← tr_get_bytes searchIndexKey;
  match current with
  | None => tr_set searchIndexKey (VText index)
  | Some (VText recorded) => if decide (recorded = index) then tr_set searchIndexKey (VText index) else fail ErrOther
  | Some _ => fail ErrOther
  end.

Definition readProjectionState (orgID : uuid) : tx searchProjectionState :=
  v ← tr_get_bytes (searchProjectionStateKey orgID);
  lift (match v with
        | None => Ok (mkProjectionState legacyRenderer legacyFormat EmptyString 0)
        | Some (VProjection state) => Ok state
        | Some _ => Err ErrDecode
        end).

Definition readScanState (orgID : uuid) : tx (option searchScanRecord) :=
  v ← tr_get_bytes (searchCursorKey WorkClassRescan orgID uuid_nil);
  lift (match v with None => Ok None | Some (VScan s) => Ok (Some s) | Some _ => Err ErrDecode end).

Definition requestSearchRescan (now : gotime) (orgID : uuid) (request : searchRescanRequest) : tx unit :=
  generation ← incrementSearchCounter (searchScanKey orgID);
  existing ← readSearchWork WorkClassRescan orgID uuid_nil;
  let fresh := mkScan scanDefinitions EmptyString EmptyString false false [] [] [] false None in
  state ← match existing with
          | None => mret fresh
          | Some _ => stored ← readScanState orgID; mret (match stored with Some s => stop_at_cursor s | None => fresh end)
          end;
  let state := mergeScanRequest state request in
  state ← (if rr_Projection request
           then epoch ← readSearchCounter (searchEpochKey orgID); mret (restartProjectionPass state epoch)
           else mret state);
  _ ← tr_set (searchCursorKey WorkClassRescan orgID uuid_nil) (VScan state);
  writeSearchWork WorkClassRescan (mkWork orgID uuid_nil generation 0 false now) existing.

Definition requestProjectionActivation (now : gotime) (orgID : uuid) : tx unit :=
  scan ← readScanState orgID;
  match scan with
  | Some (mkScan _ _ _ _ _ _ _ _ _ (Some target)) =>
      if negb (versionBefore (pt_Renderer target) (pt_Format target)) then mret tt
      else requestSearchRescan now orgID (mkRescan false [] [] [] false true)
  | _ => requestSearchRescan now orgID (mkRescan false [] [] [] false true)
  end.

(** [true]: the claim must leave the item pending. *)
Definition projectionGate (now : gotime) (class : workClass) (record : searchWorkRecord) : tx bool :=
  match class with
  | CLive | CCopy =>
      state ← readProjectionState (w_OrgID record);
      if writerProjection state then mret false
      else if olderThanWriter state then _ ← requestProjectionActivation now (w_OrgID record); mret true
      else mret true
  | CAccess | CCleanup => mret false
  end.

(** ** Claims *)

Definition dropSearchWork (class : workClass) (record : searchWorkRecord) : tx unit :=
  _ ← removeSearchWork class record;
  _ ← tr_clear (claim_key class (w_OrgID record) (w_NodeID record));
  clearPendingWrites class (w_OrgID record) (w_NodeID record).

Definition readAgedWork (class : workClass) (bucket : Z) (ageKey : key) : tx (option searchWorkRecord) :=
  match ageKey with
  | [_; _; _; TInt enqueued; orgElem; nodeElem] =>
      match elem_id orgElem, elem_id nodeElem with
      | Some orgID, Some nodeID =>
          record ← readSearchWork class orgID nodeID;
          mret (match record with
                | Some w => if (searchBucket orgID nodeID =? bucket)%Z && (w_EnqueuedAt w =? enqueued)%Z then Some w else None
                | None => None
                end)
      | _, _ => fail ErrOther
      end
  | _ => fail ErrOther
  end.

Definition readClaim (class : workClass) (orgID nodeID : uuid) : tx (option searchClaimRecord) :=
  v ← tr_get_bytes (claim_key class orgID nodeID);
  lift (match v with None => Ok None | Some (VClaim c) => Ok (Some c) | Some _ => Err ErrDecode end).

Definition readProgress (class : workClass) (record : searchWorkRecord) : tx searchProgressRecord :=
  let initial := mkProgress (w_Revision record) (w_Generation record) EmptyString EmptyString 0 PhasePages in
  v ← tr_get_bytes (searchCursorKey class (w_OrgID record) (w_NodeID record));
  lift (match v with
        | None => Ok initial
        | Some (VProgress p) =>
            Ok (match class with
                | CLive => if (pg_Revision p =? w_Revision record)%Z then p else initial
                | _ => if (pg_Generation p =? w_Generation record)%Z then p else initial
                end)
        | Some _ => Err ErrDecode
        end).

(** A stored lease that still keeps the item from other workers. *)
Definition leased (claim : option searchClaimRecord) (generation : Z) (target mirror : string) (now : gotime) : bool :=
  match claim with
  | Some c => (qc_Generation c =? generation)%Z && bool_decide (qc_Target c = target) && bool_decide (qc_Mirror c = mirror) &&
              (now <? qc_LeaseUntil c)%Z
  | None => false
  end.

Definition leased_work (class : workClass) (record : searchWorkRecord) (owner target mirror : string) (until : gotime)
    (progress : searchProgressRecord) : Work :=
  mkLeased (w_OrgID record) (w_NodeID record) (w_Generation record) (decimalZ (w_Revision record)) (pg_Projection progress)
    (pg_Cursor progress) (pg_Ordinal progress) (pg_Phase progress) (w_Deleted record) (w_EnqueuedAt record) owner until class target mirror.

(** The clock is read for the gate and again for the lease. *)
Definition claimWorkItem (gate now : gotime) (class : workClass) (owner : string) (lease : Z) (scope : claimScope)
    (record : searchWorkRecord) : tx (option Work) :=
  let orgID := w_OrgID record in
  let nodeID := w_NodeID record in
  match targets scope class with
  | None => _ ← dropSearchWork class record; mret None
  | Some (target, mirror) =>
      desired ← readSearchCounter (searchGenerationKey orgID nodeID);
      if negb (desired =? w_Generation record)%Z then _ ← dropSearchWork class record; mret None
      else
        waiting ← projectionGate gate class record;
        if (waiting : bool) then mret None
        else
          claim ← readClaim class orgID nodeID;
          if leased claim (w_Generation record) target mirror now then mret None
          else
            _ ← tr_set (claim_key class orgID nodeID) (VClaim (mkClaim owner (w_Generation record) (now + lease) target mirror));
            progress ← readProgress class record;
            mret (Some (leased_work class record owner target mirror (now + lease) progress))
  end.

(** The clock readings of the items follow each other. *)
Fixpoint claimFirstItem (clock : nat -> gotime) (class : workClass) (bucket : Z) (owner : string) (lease : Z) (scope : claimScope)
    (items : list (key * value)) : tx (option Work) :=
  match items with
  | [] => mret None
  | item :: items' =>
      record ← readAgedWork class bucket item.1;
      match record with
      | None => _ ← tr_clear item.1; claimFirstItem (fun i => clock (2 + i)) class bucket owner lease scope items'
      | Some record =>
          claimed ← claimWorkItem (clock 0) (clock 1) class owner lease scope record;
          match claimed with
          | Some work => mret (Some work)
          | None => claimFirstItem (fun i => clock (2 + i)) class bucket owner lease scope items'
          end
      end
  end.

Definition paused (scope : claimScope) : bool := match cs_rebuild scope with Some r => ix_Paused r | None => false end.

Definition claimBucket (clock : nat -> gotime) (class : workClass) (bucket : Z) (owner : string) (lease : Z) : tx (option Work) :=
  scope ← readClaimScope;
  if paused scope then mret None
  else
    items ← tr_range (searchAgePrefix class bucket);
    claimFirstItem clock class bucket owner lease scope (take searchClaimScanLimit items).

Definition first_in_bucket (s : kv) (class : workClass) (bucket : Z) : option pendingBucket :=
  match frange s (searchAgePrefix class bucket) with
  | [] => None
  | item :: _ => Some (mkPendingBucket bucket (drop (length (searchAgePrefix class bucket)) item.1))
  end.

Definition pendingBuckets (class : workClass) : tx (list pendingBucket) :=
  any ← tr_range (searchAgeClassPrefix class);
  if bool_decide (any = []) then mret []
  else fun st => Ok (st, flat_map (fun b => option_list (first_in_bucket (tx_kv st) class (Z.of_nat b))) (seq 0 searchWorkBuckets)).

(** A claim is a sequence of transactions, one for each bucket it tries;
    [others i] is what other clients did before the [i]-th of them, and
    [clock i] the clock readings during it. *)
Fixpoint claimBuckets (others : nat -> kv -> kv) (clock : nat -> nat -> gotime) (class : workClass) (owner : string) (lease : Z)
    (buckets : list Z) (s : kv) : kv * res (option Work) :=
  match buckets with
  | [] => (s, Ok None)
  | bucket :: buckets' =>
      let s := others 0 s in
      match claimBucket (clock 0) class bucket owner lease (mkTx s []) with
      | Err e => (s, Err e)
      | Ok (st, Some work) => (tx_kv st, Ok (Some work))
      | Ok (st, None) => claimBuckets (fun i => others (S i)) (fun i => clock (S i)) class owner lease buckets' (tx_kv st)
      end
  end.

Definition Claim (others : nat -> kv -> kv) (clock : nat -> nat -> gotime) (class : workClass) (owner : string) (lease rotation : Z) (s : kv) :
    kv * res (option Work) :=
  if blank owner || (lease <=? 0)%Z then (s, Err ErrOther)
  else
    match pendingBuckets class (mkTx s []) with
    | Err e => (s, Err e)
    | Ok (_, []) => (s, Ok None)
    | Ok (_, pending) => claimBuckets others clock class owner lease (claimOrder pending rotation) s
    end.

(** ** Steps of a claimed item *)

Definition verifyClaim (now : gotime) (work : Work) : tx searchWorkRecord :=
  let class := wk_Class work in
  let orgID := wk_OrgID work in
  let nodeID := wk_NodeID work in
  found ← readSearchWork class orgID nodeID;
  match found with
  | None => fail ErrWorkChanged
  | Some record =>
      if negb (w_Generation record =? wk_Generation work)%Z then fail ErrWorkChanged
      else
        desired ← readSearchCounter (searchGenerationKey orgID nodeID);
        if negb (desired =? wk_Generation work)%Z then fail ErrWorkChanged
        else
          claim ← readClaim class orgID nodeID;
          match claim with
          | None => fail ErrWorkChanged
          | Some c =>
              if negb (bool_decide (qc_Owner c = wk_Owner work)) || negb (qc_Generation c =? wk_Generation work)%Z ||
                 negb (bool_decide (qc_Target c = wk_Target work)) || negb (bool_decide (qc_Mirror c = wk_Mirror work)) ||
                 negb (now <? qc_LeaseUntil c)%Z
              then fail ErrWorkChanged
              else
                scope ← readClaimScope;
                if bool_decide (targets scope class = Some (wk_Target work, wk_Mirror work)) then mret record
                else fail ErrWorkChanged
          end
  end.

Definition clear_claim (work : Work) : tx unit := tr_clear (claim_key (wk_Class work) (wk_OrgID work) (wk_NodeID work)).

Definition Yield (now : gotime) (work : Work) : tx unit := _ ← verifyClaim now work; clear_claim work.

(** The clock is read for the lease and again for the schedule. *)
Definition Restart (now scheduled : gotime) (work : Work) : tx unit :=
  _ ← verifyClaim now work;
  _ ← clear_claim work;
  _ ← scheduleSearchChange scheduled (wk_OrgID work) (wk_NodeID work) searchChangeContent;
  mret tt.

Definition readPendingWrite (k : key) : tx (option searchPendingWriteRecord) :=
  v ← tr_get_bytes k;
  lift (match v with None => Ok None | Some (VPendingWrite p) => Ok (Some p) | Some _ => Err ErrDecode end).

(** The later deadline of one document and index is kept. *)
Definition storePendingWrite (work : Work) (pending : searchPendingWriteRecord) : tx unit :=
  let k := searchPendingWriteKey (wk_Class work) (wk_OrgID work) (wk_NodeID work) (pw_DocumentID pending) (pw_Index pending) in
  existing ← readPendingWrite k;
  match existing with
  | Some old => if negb (pw_Deadline old <? pw_Deadline pending)%Z then mret tt else tr_set k (VPendingWrite pending)
  | None => tr_set k (VPendingWrite pending)
  end.

Definition adoptPendingWrite (work : Work) : tx unit :=
  let legacyKey := searchPendingWritePrefix (wk_Class work) (wk_OrgID work) (wk_NodeID work) in
  legacy ← readPendingWrite legacyKey;
  match legacy with
  | None => mret tt
  | Some pending => _ ← storePendingWrite work pending; tr_clear legacyKey
  end.

Definition recordPendingWrite (work : Work) (pending : searchPendingWriteRecord) : tx unit :=
  _ ← adoptPendingWrite work; storePendingWrite work pending.

(** Work of a node class belongs to a node; the organization of other work
    identifies it. *)
Definition searchItemID (orgID nodeID : uuid) : string := if nil nodeID then uuid_string orgID else uuid_string nodeID.

Definition countFailure (work : Work) : tx failureOutcome :=
  attempts ← incrementSearchCounter (searchAttemptKey (wk_Class work) (wk_OrgID work) (wk_NodeID work));
  if negb (attempts =? searchFailureLimit)%Z then mret (mkOutcome false attempts EmptyString)
  else mret (mkOutcome true attempts (searchItemID (wk_OrgID work) (wk_NodeID work))).

Definition recordFailure (now : gotime) (work : Work) (failure : Failure) : tx failureOutcome :=
  outcome ← (if fa_Counted failure then countFailure work else mret (mkOutcome false 0 EmptyString));
  _ ← match fa_Pending failure with Some pending => recordPendingWrite work pending | None => mret tt end;
  _ ← tr_set (searchErrorKey (wk_Class work) (wk_OrgID work) (wk_NodeID work)) (VText (fa_Message failure));
  _ ← tr_set (claim_key (wk_Class work) (wk_OrgID work) (wk_NodeID work))
        (VClaim (mkClaim EmptyString (wk_Generation work) (now + Z.max searchRetryDelay (fa_RetryAfter failure)) (wk_Target work) (wk_Mirror work)));
  mret outcome.

(** The outcome is what [Release] logs. *)
Definition Release (now delayed : gotime) (work : Work) (failure : Failure) : tx failureOutcome :=
  _ ← verifyClaim now work; recordFailure delayed work failure.

Definition clearSearchWork (work : Work) (record : searchWorkRecord) : tx unit :=
  let class := wk_Class work in
  _ ← removeSearchWork class record;
  _ ← clear_claim work;
  _ ← tr_clear (searchCursorKey class (wk_OrgID work) (wk_NodeID work));
  _ ← tr_clear (searchErrorKey class (wk_OrgID work) (wk_NodeID work));
  _ ← tr_clear (searchAttemptKey class (wk_OrgID work) (wk_NodeID work));
  clearPendingWrites class (wk_OrgID work) (wk_NodeID work).

Definition without_access (s : searchAccessRecord) : searchAccessRecord :=
  mkAccessRecord (mkSearchAccess (ac_Versions (ar_Access s)) [] (ac_Generation (ar_Access s))) false false (ar_PageAccess s) (ar_PageAccessTracked s).

Definition readAccessRecord (orgID nodeID : uuid) : tx searchAccessRecord :=
  v ← tr_get_bytes (searchAccessKey orgID nodeID);
  lift (match v with
        | None => Ok (mkAccessRecord (mkSearchAccess [] [] 0) false false None false)
        | Some (VAccess a) => Ok a
        | Some _ => Err ErrDecode
        end).

Definition excludeNode (now : gotime) (work : Work) (record : searchWorkRecord) (reason : string) : tx unit :=
  let orgID := wk_OrgID work in
  let nodeID := wk_NodeID work in
  _ ← ensure (Excludable work) ErrOther;
  _ ← clearSearchWork work record;
  _ ← forM searchNodeClasses (fun class =>
        _ ← tr_clear (searchErrorKey (class : workClass) orgID nodeID);
        tr_clear (searchAttemptKey (class : workClass) orgID nodeID));
  _ ← scheduleSearchChange now orgID nodeID searchChangeExclusion;
  state ← readAccessRecord orgID nodeID;
  _ ← tr_set (searchAccessKey orgID nodeID) (VAccess (without_access state));
  tr_set (searchExclusionKey orgID nodeID) (VExclusion (mkExclusion (wk_Class work : workClass) (wk_Target work) reason now)).

Definition Exclude (now excluded : gotime) (work : Work) (reason : string) : tx unit :=
  record ← verifyClaim now work; excludeNode excluded work record reason.

End queue.
