(* ===== verification/WorkQueueSpec.v ===== *)
(** * Leases of the search work queue

    A worker that claimed an item keeps it: while the lease lasts no other
    step of the queue takes the item away, and a schedule of the node fences
    every earlier claim.  The steps of the queue run as a sequence of
    transactions of any number of workers. *)

From S2P Require Import Prelude GoJson Sha256 Bytes Base64 Float64 Domain Concrete Store Tx Keys Records Schedule SearchAccess WorkQueue.

(** ** Keys a transaction leaves alone *)

Section spares.
Context `{FDB : Fdb}.

(** [m] changes the value of no key in [K]. *)
Definition spares {A} (K : key -> Prop) (m : tx A) : Prop :=
  forall st st' a, m st = Ok (st', a) -> forall k, K k -> fget (tx_kv st') k = fget (tx_kv st) k.

Lemma spares_bind {A B} K (m : tx A) (f : A -> tx B) : spares K m -> (forall a, spares K (f a)) -> spares K (m ≫= f).
Proof. intros Hm Hf st st' b (s1 & a & E1 & E2)%tx_bind_ok k Hk. by rewrite (Hf _ _ _ _ E2 k Hk), (Hm _ _ _ E1 k Hk). Qed.

Lemma spares_reads {A} K (m : tx A) : reads m -> spares K m.
Proof. by intros Hm st st' a ->%Hm. Qed.

Lemma spares_touches {A} K fs (m : tx A) : touches fs m -> (forall k, K k -> family k ∉ fs) -> spares K m.
Proof. intros Hm HK st st' a E k Hk. apply (Hm _ _ _ E). by apply HK. Qed.

Lemma spares_set K k v : (K k -> False) -> spares K (tr_set k v).
Proof. intros Hk st st' u ->%modify_ok k' Hk'. simpl. rewrite fget_set. case_decide; [by subst|done]. Qed.

Lemma spares_clear K k : (K k -> False) -> spares K (tr_clear k).
Proof. intros Hk st st' u ->%modify_ok k' Hk'. simpl. rewrite fget_clear. case_decide; [by subst|done]. Qed.

Lemma spares_clear_range K p : (forall k, p `prefix_of` k -> K k -> False) -> spares K (tr_clear_range p).
Proof. intros Hp st st' u ->%modify_ok k Hk. simpl. rewrite fget_clear_range. case_decide; [naive_solver|done]. Qed.

Lemma spares_add K k d : (K k -> False) -> spares K (tr_add k d).
Proof. intros Hk st st' u ->%modify_ok k' Hk'. simpl. apply fget_add_ne. by intros ->. Qed.

Lemma spares_forM {A} K (l : list A) f : (forall a, spares K (f a)) -> spares K (forM l f).
Proof.
  intros Hf. induction l as [|a l IH]; simpl; [apply spares_reads, reads_ret|]. apply spares_bind; auto.
Qed.

End spares.

#[local] Ltac keep_step :=
  match goal with
  | |- forall _, _ => intros
  | |- spares _ (mbind _ _) => apply spares_bind; [|intros]
  | |- spares _ (forM _ _) => apply spares_forM; intros
  | |- spares _ (tr_set _ _) => apply spares_set
  | |- spares _ (tr_clear _) => apply spares_clear
  | |- spares _ (tr_clear_range _) => apply spares_clear_range
  | |- spares _ (tr_add _ _) => apply spares_add
  | |- spares _ _ => progress cbv beta zeta
  | |- spares _ (match ?x with _ => _ end) => destruct x
  end.

(** Split a transaction into its writes; [side] refutes that a written key
    is kept. *)
#[local] Ltac keep_by side := repeat first [apply spares_reads; solve [eauto with reads] | keep_step]; side.

Section spec.
Context `{FDB : Fdb} `{GL : GoLib} `{HS : Encoder}.

(** ** What the queue reads of an item *)

(** The generation counter of the node, the claim of the item and the two
    records of the scope. *)
Definition vital (c : workClass) (o n : uuid) (k : key) : Prop :=
  k = searchGenerationKey o n \/ k = claim_key c o n \/ k = searchIndexKey \/ k = searchRebuildKey.

(** The pending records and age keys of the node classes. *)
Definition node_key (k : key) : Prop :=
  (exists (c : workClass) o n, k = work_key c o n) \/ (exists (c : workClass) t o n, k = age_key c t o n).

Lemma vital_family c o n k : vital c o n k -> family k ∈ ["search_generation"; "search_claim"; "search_index"; "search_rebuild"].
Proof. intros [->|[->|[->| ->]]]; simpl; set_solver. Qed.

Lemma node_key_family k : node_key k -> family k ∈ ["search_work"; "search_age"].
Proof. intros [(c & o & n & ->)|(c & t & o & n & ->)]; simpl; set_solver. Qed.

Lemma searchClaimKey_inj c b o n c' b' o' n' :
  searchClaimKey c b o n = searchClaimKey c' b' o' n' -> c = c' /\ b = b' /\ o = o' /\ n = n'.
Proof. unfold searchClaimKey. intros E. by key_inv. Qed.

Lemma claim_key_inj c o n c' o' n' : claim_key c o n = claim_key c' o' n' -> c = c' /\ o = o' /\ n = n'.
Proof. intros (? & _ & ? & ?)%searchClaimKey_inj. eauto using class_name_inj. Qed.

Lemma generation_key_inj o n o' n' : searchGenerationKey o n = searchGenerationKey o' n' -> o = o' /\ n = n'.
Proof. unfold searchGenerationKey. intros E. by key_inv. Qed.

Lemma same_node_keys s s' :
  (forall k, node_key k -> fget s' k = fget s k) -> WorkInv s ->
  WorkInv s' /\ forall c o n, pending s' c o n = pending s c o n.
Proof.
  intros Heq [Hw Ha].
  assert (forall (c : workClass) o n, fget s' (work_key c o n) = fget s (work_key c o n)) as Ew by (intros; apply Heq; left; eauto).
  assert (forall (c : workClass) t o n, fget s' (age_key c t o n) = fget s (age_key c t o n)) as Ea by (intros; apply Heq; right; eauto 6).
  split; [split|].
  - intros c o n v. rewrite Ew. intros Hv. destruct (Hw _ _ _ _ Hv) as (w & -> & Ho & Hn & Hage). exists w. by rewrite Ea.
  - intros c t o n v. rewrite Ea, Ew. apply Ha.
  - intros c o n. unfold pending. by rewrite Ew.
Qed.

(** The stored lease, the scope and the decoded counter, as the code reads
    them. *)
Definition bytes_of (s : kv) (k : key) : option value :=
  match fget s k with Some v => if no_bytes v then None else Some v | None => None end.

Definition claim_of (s : kv) (c : workClass) (o n : uuid) : res (option searchClaimRecord) :=
  match bytes_of s (claim_key c o n) with None => Ok None | Some (VClaim r) => Ok (Some r) | Some _ => Err ErrDecode end.

Definition scope_of (s : kv) : res claimScope :=
  match bytes_of s searchIndexKey with
  | None => Err ErrNoServingIndex
  | Some (VText index) =>
      match bytes_of s searchRebuildKey with
      | None => Ok (mkScope index None)
      | Some (VRebuild r) => Ok (mkScope index (Some r))
      | Some _ => Err ErrDecode
      end
  | Some _ => Err ErrDecode
  end.

Lemma readClaim_run c o n st : readClaim c o n st = lift (claim_of (tx_kv st) c o n) st.
Proof. unfold readClaim, claim_of, bytes_of, tr_get_bytes, tr_get, mbind, tx_bind, mret, tx_ret, lift. repeat case_match; congruence. Qed.

Lemma readClaimScope_run st : readClaimScope st = lift (scope_of (tx_kv st)) st.
Proof.
  unfold readClaimScope, readRebuild, scope_of, bytes_of, tr_get_bytes, tr_get, mbind, tx_bind, mret, tx_ret, lift, fail.
  repeat case_match; congruence.
Qed.

Lemma readSearchCounter_run k st : readSearchCounter k st = lift (counter (tx_kv st) k) st.
Proof. done. Qed.

Lemma readSearchWork_run (c : workClass) o n st :
  WorkInv (tx_kv st) -> readSearchWork c o n st = Ok (st, pending (tx_kv st) c o n).
Proof.
  intros HI. unfold readSearchWork, tr_get_bytes, tr_get, mbind, tx_bind, mret, tx_ret, lift, pending.
  destruct (fget (tx_kv st) (work_key c o n)) as [v|] eqn:Ev; [|done].
  destruct (wi_work _ HI _ _ _ _ Ev) as (w' & -> & _). done.
Qed.

Lemma reads_readSearchCounter k : reads (readSearchCounter k).
Proof. unfold readSearchCounter. reads. Qed.
Lemma reads_readSearchWork class o n : reads (readSearchWork class o n).
Proof. unfold readSearchWork. reads. Qed.
Lemma reads_readScanState o : reads (readScanState o).
Proof. unfold readScanState. reads. Qed.
Lemma reads_readProjectionState o : reads (readProjectionState o).
Proof. unfold readProjectionState. reads. Qed.
Lemma reads_readProgress class r : reads (readProgress class r).
Proof. unfold readProgress. reads. Qed.
Lemma reads_readPendingWrite k : reads (readPendingWrite k).
Proof. unfold readPendingWrite. reads. Qed.
Lemma reads_readAccessRecord o n : reads (readAccessRecord o n).
Proof. unfold readAccessRecord. reads. Qed.
#[local] Hint Resolve reads_readSearchCounter reads_readSearchWork reads_readScanState reads_readProjectionState
  reads_readProgress reads_readPendingWrite reads_readAccessRecord : reads.

(** ** Steps beside the item *)

(** Work of the rescan class is no work of a node class. *)
Lemma rescan_work_key b o n : node_key (searchWorkKey WorkClassRescan b o n) -> False.
Proof. intros [(c & o' & n' & (E & _)%searchWorkKey_inj)|(c & t & o' & n' & E)]; [by destruct c|done]. Qed.

Lemma rescan_age_key b t o n : node_key (searchAgeKey WorkClassRescan b t o n) -> False.
Proof. intros [(c & o' & n' & E)|(c & t' & o' & n' & (E & _)%searchAgeKey_inj)]; [done|by destruct c]. Qed.

Lemma other_family_key k :
  family k ∉ ["search_generation"; "search_claim"; "search_index"; "search_rebuild"; "search_work"; "search_age"] ->
  forall c o n, vital c o n k \/ node_key k -> False.
Proof. intros Hf c o n [Hk%vital_family|Hk%node_key_family]; set_solver. Qed.

Definition kept (c : workClass) (o n : uuid) (k : key) : Prop := vital c o n k \/ node_key k.

#[local] Ltac beside :=
  idtac;
  match goal with
  | H : kept _ _ _ _ |- False =>
      first [refine (other_family_key _ _ _ _ _ H); simpl; solve [set_solver]
            |destruct H as [H%vital_family|H]; [simpl in H; set_solver|solve [eauto using rescan_work_key, rescan_age_key]]]
  end.

Lemma spares_requestSearchRescan now org request c o n : spares (kept c o n) (requestSearchRescan now org request).
Proof.
  unfold requestSearchRescan, incrementSearchCounter, writeSearchCounter, writeSearchWork, age_key, work_key. keep_by beside.
Qed.

Lemma spares_projectionGate now class record c o n : spares (kept c o n) (projectionGate now class record).
Proof.
  unfold projectionGate, requestProjectionActivation.
  keep_by ltac:(eauto using spares_requestSearchRescan).
Qed.

(** A schedule of another node. *)
Lemma spares_schedule_other now o' n' change c o n :
  (o', n') <> (o, n) -> spares (vital c o n) (scheduleSearchChange now o' n' change).
Proof.
  intros Hne.
  assert (forall k, family k ∉ ["search_generation"; "search_claim"; "search_index"; "search_rebuild"] -> vital c o n k -> False) as Hfam
    by (intros k Hk Hv%vital_family; set_solver).
  assert (vital c o n (searchGenerationKey o' n') -> False) as Hgen.
  { intros [[]%generation_key_inj|[E|[E|E]]]; [congruence|discriminate E..]. }
  assert (forall class b, vital c o n (searchClaimKey class b o' n') -> False) as Hclaim.
  { intros class b [E|[(_ & _ & ? & ?)%searchClaimKey_inj|[E|E]]]; [discriminate E|congruence|discriminate E..]. }
  unfold scheduleSearchChange, exclusionAdjustedChange, incrementSearchCounter, writeSearchCounter, initializeSearchAccess,
    recordRolloutAffected, readRollout, applySearchRecordPlan, removeSearchWork, clearPendingWrites, writeSearchWork.
  keep_by idtac.
  all: try match goal with H : vital _ _ _ _ |- False =>
      first [exact (Hgen H) | exact (Hclaim _ _ H) | refine (Hfam _ _ H); simpl; solve [set_solver]] end.
  all: match goal with H : _ `prefix_of` _ |- _ => destruct H as [l ->] end.
  all: match goal with H : vital _ _ _ _ |- False => refine (Hfam _ _ H); simpl; solve [set_solver] end.
Qed.

(** ** Holding an item *)

Definition item (w : Work) : workClass * uuid * uuid := (wk_Class w, wk_OrgID w, wk_NodeID w).

Record holds (s : kv) (w : Work) : Prop := {
  h_pending : exists r, pending s (wk_Class w) (wk_OrgID w) (wk_NodeID w) = Some r /\ w_Generation r = wk_Generation w;
  h_counter : counter s (searchGenerationKey (wk_OrgID w) (wk_NodeID w)) = Ok (wk_Generation w);
  h_claim : claim_of s (wk_Class w) (wk_OrgID w) (wk_NodeID w) =
    Ok (Some (mkClaim (wk_Owner w) (wk_Generation w) (wk_LeaseUntil w) (wk_Target w) (wk_Mirror w)));
  h_scope : exists scope, scope_of s = Ok scope /\ targets scope (wk_Class w) = Some (wk_Target w, wk_Mirror w);
}.

Lemma vital_same s s' c o n :
  (forall k, vital c o n k -> fget s' k = fget s k) ->
  counter s' (searchGenerationKey o n) = counter s (searchGenerationKey o n) /\
  claim_of s' c o n = claim_of s c o n /\ scope_of s' = scope_of s.
Proof.
  intros Heq. unfold counter, claim_of, scope_of, bytes_of. rewrite !Heq by (unfold vital; auto). done.
Qed.

Lemma holds_same s s' w :
  (forall k, vital (wk_Class w) (wk_OrgID w) (wk_NodeID w) k -> fget s' k = fget s k) ->
  pending s' (wk_Class w) (wk_OrgID w) (wk_NodeID w) = pending s (wk_Class w) (wk_OrgID w) (wk_NodeID w) ->
  holds s w -> holds s' w.
Proof. intros (Hc & Hl & Hs)%vital_same Hp [H1 H2 H3 H4]. split; rewrite ?Hp, ?Hc, ?Hl, ?Hs; done. Qed.

Lemma verifyClaim_ok now w st st' r :
  WorkInv (tx_kv st) -> verifyClaim now w st = Ok (st', r) ->
  st' = st /\ pending (tx_kv st) (wk_Class w) (wk_OrgID w) (wk_NodeID w) = Some r /\ w_Generation r = wk_Generation w /\
  counter (tx_kv st) (searchGenerationKey (wk_OrgID w) (wk_NodeID w)) = Ok (wk_Generation w) /\
  exists until, claim_of (tx_kv st) (wk_Class w) (wk_OrgID w) (wk_NodeID w) =
    Ok (Some (mkClaim (wk_Owner w) (wk_Generation w) until (wk_Target w) (wk_Mirror w))) /\ (now < until)%Z /\
    exists scope, scope_of (tx_kv st) = Ok scope /\ targets scope (wk_Class w) = Some (wk_Target w, wk_Mirror w).
Proof.
  intros HI E. unfold verifyClaim in E. cbv zeta in E.
  apply tx_bind_ok in E as (s1 & found & Ef & E). rewrite readSearchWork_run in Ef by done. injection Ef as <- <-.
  destruct (pending _ _ _ _) as [rec|]; [|discriminate E].
  destruct (w_Generation rec =? wk_Generation w)%Z eqn:Eg; [|discriminate E]. cbn [negb] in E.
  apply tx_bind_ok in E as (s1 & desired & [-> Hd]%readSearchCounter_ok & E).
  destruct (desired =? wk_Generation w)%Z eqn:Ed; [|discriminate E]. cbn [negb] in E.
  apply tx_bind_ok in E as (s1 & claim & Ec & E). rewrite readClaim_run in Ec. apply lift_ok in Ec as [-> Ec].
  destruct claim as [[owner gen until target mirror]|]; [|discriminate E]. cbn [qc_Owner qc_Generation qc_Target qc_Mirror qc_LeaseUntil] in E.
  destruct (_ || _) eqn:Eb in E; [discriminate E|].
  rewrite !orb_false_iff, !negb_false_iff in Eb. destruct Eb as ((((Ho & Hg) & Ht) & Hm) & Hl).
  apply tx_bind_ok in E as (s1 & scope & Es & E). rewrite readClaimScope_run in Es. apply lift_ok in Es as [-> Es].
  destruct (bool_decide _) eqn:Ht' in E; [|discriminate E]. apply bool_decide_eq_true in Ht'. apply tx_ret_ok in E as [-> ->].
  apply bool_decide_eq_true in Ho, Ht, Hm. subst. split_and!; [done..|lia| |].
  - rewrite Hd. f_equal. lia.
  - exists until. split_and!; [|lia|by exists scope]. rewrite Ec. do 3 f_equal. lia.
Qed.

Lemma holds_verifies now w st :
  WorkInv (tx_kv st) -> holds (tx_kv st) w -> (now < wk_LeaseUntil w)%Z -> exists r, verifyClaim now w st = Ok (st, r).
Proof.
  intros HI [(r & Hp & Hg) Hc Hl (scope & Hs & Ht)] Hnow. exists r. unfold verifyClaim, mbind, tx_bind.
  rewrite readSearchWork_run, Hp by done. rewrite (proj2 (Z.eqb_eq _ _) Hg). cbn [negb].
  rewrite readSearchCounter_run, Hc. cbn [lift]. rewrite Z.eqb_refl. cbn [negb].
  rewrite readClaim_run, Hl. cbn [lift qc_Owner qc_Generation qc_Target qc_Mirror qc_LeaseUntil].
  rewrite !bool_decide_true, Z.eqb_refl, (proj2 (Z.ltb_lt _ _) Hnow) by done. cbn [negb orb].
  rewrite readClaimScope_run, Hs. cbn [lift]. by rewrite Ht, bool_decide_true.
Qed.

(** ** One claim *)

Lemma vital_claim_key c o n c' o' n' : (c', o', n') <> (c, o, n) -> vital c o n (claim_key c' o' n') -> False.
Proof. intros Hne [E|[(-> & -> & ->)%claim_key_inj|[E|E]]]; [discriminate E|done|discriminate E..]. Qed.

Lemma dropSearchWork_ok c r st st' u :
  WorkInv (tx_kv st) -> pending (tx_kv st) c (w_OrgID r) (w_NodeID r) = Some r -> dropSearchWork c r st = Ok (st', u) ->
  replaced (tx_kv st) (tx_kv st') c (w_OrgID r) (w_NodeID r) None.
Proof.
  intros HI Hp E. unfold dropSearchWork in E. apply tx_bind_ok in E as (s1 & [] & Er & E).
  eapply (replaced_after ["search_claim"; "search_pending_write"]); [| | |exact E|];
    [unfold clearPendingWrites, searchPendingWritePrefix; touch|set_solver..|].
  eapply replaced_drop; [done|exact Hp|]. unfold removeSearchWork in Er. tx_inv1 Er. done.
Qed.

Lemma spares_dropSearchWork class r c o n :
  (class, w_OrgID r, w_NodeID r) <> (c, o, n) -> spares (vital c o n) (dropSearchWork class r).
Proof.
  intros Hne. unfold dropSearchWork, removeSearchWork, clearPendingWrites. keep_by idtac.
  1,2: by match goal with H : vital _ _ _ _ |- _ => apply vital_family in H; simpl in H; set_solver end.
  - by eapply vital_claim_key.
  - match goal with H : _ `prefix_of` _ |- _ => destruct H as [l ->] end.
    match goal with H : vital _ _ _ _ |- _ => apply vital_family in H; simpl in H; set_solver end.
Qed.

Lemma spares_scope {A} (m : tx A) st st' a c o n : spares (vital c o n) m -> m st = Ok (st', a) -> scope_of (tx_kv st') = scope_of (tx_kv st).
Proof. intros Hm E. eapply (vital_same _ _ c o n). intros k Hk. by eapply Hm. Qed.

(** A step beside every item: the pending work and what the queue reads of
    the items are unchanged. *)
Definition quiet (s s' : kv) : Prop :=
  WorkInv s' /\ (forall c o n, pending s' c o n = pending s c o n) /\ (forall c o n k, vital c o n k -> fget s' k = fget s k).

Lemma quiet_kept {A} (m : tx A) st st' a :
  (forall c o n, spares (kept c o n) m) -> WorkInv (tx_kv st) -> m st = Ok (st', a) -> quiet (tx_kv st) (tx_kv st').
Proof.
  intros Hm HI E. destruct (same_node_keys (tx_kv st) (tx_kv st')) as [HI' Hp]; [|done|].
  { intros k Hk. eapply (Hm CLive uuid_nil uuid_nil); [exact E|by right]. }
  split_and!; [done|done|]. intros c o n k Hk. eapply Hm; [exact E|by left].
Qed.

Lemma quiet_holds s s' w : quiet s s' -> holds s w -> holds s' w.
Proof. intros (_ & Hp & Hv). apply holds_same; [apply Hv|apply Hp]. Qed.

Lemma quiet_scope s s' : quiet s s' -> scope_of s' = scope_of s.
Proof. intros (_ & _ & Hv). eapply (vital_same _ _ CLive uuid_nil uuid_nil). apply Hv. Qed.

Lemma quiet_counter s s' o n : quiet s s' -> counter s' (searchGenerationKey o n) = counter s (searchGenerationKey o n).
Proof. intros (_ & _ & Hv). eapply (vital_same _ _ CLive o n). apply Hv. Qed.

(** The effect of a claim step on the leases for which [alive] holds of
    their end, and what it promises of a claimed item. *)
Record lease_step (alive : gotime -> Prop) (made : Work -> Prop) (s s' : kv) (res : option Work) : Prop := {
  ls_inv : WorkInv s';
  ls_scope : scope_of s' = scope_of s;
  ls_pending c o n r : pending s' c o n = Some r -> pending s c o n = Some r;
  ls_counter o n : fget s' (searchGenerationKey o n) = fget s (searchGenerationKey o n);
  ls_others w : holds s w -> alive (wk_LeaseUntil w) -> holds s' w /\ forall w', res = Some w' -> item w' <> item w;
  ls_claimed w : res = Some w -> holds s' w /\ made w;
}.

Lemma lease_step_quiet alive made s s' : quiet s s' -> lease_step alive made s s' None.
Proof.
  intros Hq. split; try done.
  - apply Hq.
  - by apply quiet_scope.
  - intros c o n r. destruct Hq as (_ & Hp & _). by rewrite Hp.
  - intros o n. destruct Hq as (_ & _ & Hv). apply (Hv CLive o n). by left.
  - intros w Hw _. split; [by eapply quiet_holds|done].
Qed.

Lemma lease_step_trans alive alive' made made' s1 s2 s3 res :
  (forall t, alive t -> alive' t) -> (forall w, made' w -> made w) ->
  lease_step alive made s1 s2 None -> lease_step alive' made' s2 s3 res -> lease_step alive made s1 s3 res.
Proof.
  intros Ha Hm [I1 S1 P1 C1 O1 R1] [I2 S2 P2 C2 O2 R2]. split; [done|congruence|auto|intros; by rewrite C2| |].
  - intros w Hw Hl. destruct (O1 w Hw Hl) as [Hw2 _]. apply O2; auto.
  - intros w Hw. destruct (R2 w Hw). auto.
Qed.

Lemma lease_step_none alive alive' made made' s s' :
  lease_step alive made s s' None -> (forall t, alive' t -> alive t) -> lease_step alive' made' s s' None.
Proof. intros [I S P C O R] Ha. split; try done. intros w Hw Hl. apply O; auto. Qed.

(** Dropping an item that nobody can hold. *)
Lemma lease_step_drop alive made class r st st' u :
  WorkInv (tx_kv st) -> pending (tx_kv st) class (w_OrgID r) (w_NodeID r) = Some r ->
  (forall w, holds (tx_kv st) w -> item w <> (class, w_OrgID r, w_NodeID r)) ->
  dropSearchWork class r st = Ok (st', u) -> lease_step alive made (tx_kv st) (tx_kv st') None.
Proof.
  intros HI Hp Hno E. destruct (dropSearchWork_ok _ _ _ _ _ HI Hp E) as [HI' Hp'].
  assert (exists c, c <> class) as [c Hc] by (destruct class; [exists CAccess|exists CLive..]; done).
  split; try done.
  - eapply (spares_scope _ _ _ _ c uuid_nil uuid_nil); [apply spares_dropSearchWork|exact E]. congruence.
  - intros c' o n r'. rewrite Hp'. by case_decide.
  - intros o n. eapply (spares_dropSearchWork class r c o n); [congruence|exact E|by left].
  - intros w Hw _. split; [|done]. specialize (Hno w Hw). eapply holds_same; [| |exact Hw].
    + intros k Hk. eapply spares_dropSearchWork; [|exact E|exact Hk]. intros Heq. by apply Hno.
    + rewrite Hp', decide_False; [done|]. intros (? & ? & ?). apply Hno. unfold item. congruence.
Qed.

Lemma set_claim_pending st c o n r st' u :
  WorkInv (tx_kv st) -> tr_set (claim_key c o n) (VClaim r) st = Ok (st', u) ->
  WorkInv (tx_kv st') /\ (forall c o n, pending (tx_kv st') c o n = pending (tx_kv st) c o n) /\
  claim_of (tx_kv st') c o n = Ok (Some r) /\
  (forall c' o' n', (c', o', n') <> (c, o, n) -> forall k, vital c' o' n' k -> fget (tx_kv st') k = fget (tx_kv st) k) /\
  (forall k, family k <> "search_claim" -> fget (tx_kv st') k = fget (tx_kv st) k).
Proof.
  intros HI E.
  assert (touches ["search_claim"] (tr_set (claim_key c o n) (VClaim r))) as Ht by touch.
  destruct (WorkInv_untouched _ _ _ _ _ Ht ltac:(set_solver) ltac:(set_solver) E HI) as [HI' Hp].
  split_and!; [done|done| | |].
  - apply modify_ok in E. subst st'. unfold claim_of, bytes_of. simpl. by rewrite fget_set, decide_True.
  - intros c' o' n' Hne k Hk. eapply (spares_set (vital c' o' n')); [|exact E|exact Hk]. exact (vital_claim_key _ _ _ _ _ _ (not_eq_sym Hne)).
  - intros k Hk. apply modify_ok in E. subst st'. simpl. rewrite fget_set, decide_False; [done|by intros <-].
Qed.

Lemma held_item s w class r scope :
  holds s w -> item w = (class, w_OrgID r, w_NodeID r) ->
  pending s class (w_OrgID r) (w_NodeID r) = Some r -> scope_of s = Ok scope ->
  counter s (searchGenerationKey (w_OrgID r) (w_NodeID r)) = Ok (w_Generation r) /\
  targets scope class = Some (wk_Target w, wk_Mirror w) /\
  claim_of s class (w_OrgID r) (w_NodeID r) =
    Ok (Some (mkClaim (wk_Owner w) (w_Generation r) (wk_LeaseUntil w) (wk_Target w) (wk_Mirror w))).
Proof.
  intros [(r' & Hp' & Hg) Hc Hl (sc & Hsc & Ht)] [= Hk Ho Hn] Hp Hs. rewrite Hk, Ho, Hn in *. rewrite Hp in Hp'. injection Hp' as <-.
  rewrite Hs in Hsc. injection Hsc as <-. by rewrite Hg.
Qed.

Lemma claimWorkItem_step gate now class owner lease scope r st st' res :
  WorkInv (tx_kv st) -> pending (tx_kv st) class (w_OrgID r) (w_NodeID r) = Some r -> scope_of (tx_kv st) = Ok scope ->
  claimWorkItem gate now class owner lease scope r st = Ok (st', res) ->
  lease_step (fun until => now < until)%Z (fun w => wk_Owner w = owner /\ wk_LeaseUntil w = (now + lease)%Z) (tx_kv st) (tx_kv st') res.
Proof.
  intros HI Hp Hs E. unfold claimWorkItem in E. cbv zeta in E.
  destruct (targets scope class) as [[target mirror]|] eqn:Et.
  2: { apply tx_bind_ok in E as (s1 & [] & Ed & [-> ->]%tx_ret_ok). eapply lease_step_drop; [done|done| |exact Ed].
       intros w Hw Hi. destruct (held_item _ _ _ _ _ Hw Hi Hp Hs) as (_ & Ht & _). congruence. }
  apply tx_bind_ok in E as (s1 & desired & [-> Hd]%readSearchCounter_ok & E).
  destruct (desired =? w_Generation r)%Z eqn:Eg; cbn [negb] in E.
  2: { apply tx_bind_ok in E as (s1 & [] & Ed & [-> ->]%tx_ret_ok). eapply lease_step_drop; [done|done| |exact Ed].
       intros w Hw Hi. destruct (held_item _ _ _ _ _ Hw Hi Hp Hs) as (Hc & _). assert (desired = w_Generation r) by congruence. lia. }
  apply Z.eqb_eq in Eg. subst desired.
  apply tx_bind_ok in E as (s1 & waiting & Egate & E).
  assert (quiet (tx_kv st) (tx_kv s1)) as Hq by (eapply quiet_kept; [intros; apply spares_projectionGate|done|exact Egate]).
  destruct waiting; [apply tx_ret_ok in E as [-> ->]; by apply lease_step_quiet|].
  apply tx_bind_ok in E as (s2 & claim & Ec & E). rewrite readClaim_run in Ec. apply lift_ok in Ec as [-> Ec].
  destruct (leased claim (w_Generation r) target mirror now) eqn:El; [apply tx_ret_ok in E as [-> ->]; by apply lease_step_quiet|].
  apply tx_bind_ok in E as (s2 & [] & Eset & E). apply tx_bind_ok in E as (s3 & progress & ->%reads_readProgress & [-> ->]%tx_ret_ok).
  eapply (lease_step_trans _ _ _ _ _ _ _ _ (fun t H => H) (fun w H => H)); [by apply lease_step_quiet|].
  destruct (set_claim_pending _ _ _ _ _ _ _ (proj1 Hq) Eset) as (HI2 & Hp2 & Hc2 & Hv2 & Hk2). split; [done| | | | |].
  - unfold scope_of, bytes_of. by rewrite !Hk2.
  - intros c o n r'. by rewrite Hp2.
  - intros o n. by apply Hk2.
  - intros w Hw Hl. assert (item w <> (class, w_OrgID r, w_NodeID r)) as Hne; [|split; [|intros w' [= <-]; done]].
    { intros Hi. rewrite <-(quiet_scope _ _ Hq) in Hs. destruct Hq as (_ & Hp1 & _). rewrite <-(Hp1 class) in Hp.
      destruct (held_item _ _ _ _ _ Hw Hi Hp Hs) as (_ & Ht & Hcl). rewrite Hcl in Ec. injection Ec as <-.
      assert (target = wk_Target w /\ mirror = wk_Mirror w) as [-> ->] by (split; congruence).
      unfold leased in El. cbn [qc_Generation qc_Target qc_Mirror qc_LeaseUntil] in El.
      rewrite Z.eqb_refl, !bool_decide_true, (proj2 (Z.ltb_lt _ _) Hl) in El by done. discriminate El. }
    eapply holds_same; [|apply Hp2|exact Hw]. apply Hv2. exact Hne.
  - intros w [= <-]. split; [|done]. cbn. split; cbn.
    + exists r. rewrite Hp2. destruct Hq as (_ & Hp1 & _). by rewrite Hp1.
    + unfold counter. rewrite Hk2 by done. by rewrite <-Hd, <-(quiet_counter _ _ _ _ Hq).
    + exact Hc2.
    + exists scope. split; [|exact Et]. rewrite <-Hs, <-(quiet_scope _ _ Hq). unfold scope_of, bytes_of. by rewrite !Hk2.
Qed.

(** ** The scan of a bucket *)

(** The record an age key leads to. *)
Definition aged_record (s : kv) (class : workClass) (bucket : Z) (k : key) : res (option searchWorkRecord) :=
  match k with
  | [_; _; _; TInt enqueued; orgElem; nodeElem] =>
      match elem_id orgElem, elem_id nodeElem with
      | Some o, Some n =>
          Ok (match pending s class o n with
              | Some w => if (searchBucket o n =? bucket)%Z && (w_EnqueuedAt w =? enqueued)%Z then Some w else None
              | None => None
              end)
      | _, _ => Err ErrOther
      end
  | _ => Err ErrOther
  end.

Lemma readAgedWork_run class bucket k st :
  WorkInv (tx_kv st) -> readAgedWork class bucket k st = lift (aged_record (tx_kv st) class bucket k) st.
Proof.
  intros HI. unfold readAgedWork, aged_record.
  repeat match goal with |- context [match ?x with _ => _ end] => is_var x; destruct x end; try reflexivity.
  destruct (elem_id _) as [o|]; [|reflexivity]. destruct (elem_id _) as [n|]; [|reflexivity].
  unfold mbind, tx_bind. rewrite readSearchWork_run by done. reflexivity.
Qed.

Lemma aged_record_pending s class bucket k r :
  WorkInv s -> aged_record s class bucket k = Ok (Some r) -> pending s class (w_OrgID r) (w_NodeID r) = Some r.
Proof.
  intros HI E. unfold aged_record in E.
  repeat match type of E with context [match ?x with _ => _ end] => is_var x; destruct x; try discriminate E end.
  destruct (elem_id _) as [o|] in E; [|discriminate E]. destruct (elem_id _) as [n|] in E; [|discriminate E].
  destruct (pending s class o n) as [w|] eqn:Hp; [|discriminate E]. destruct (_ && _) in E; [|discriminate E].
  injection E as ->. by destruct (pending_owner _ _ _ _ _ HI Hp) as [-> ->].
Qed.

Lemma age_key_record s (class : workClass) t o n v :
  WorkInv s -> fget s (age_key class t o n) = Some v ->
  exists r, pending s class o n = Some r /\ aged_record s class (searchBucket o n) (age_key class t o n) = Ok (Some r).
Proof.
  intros HI Hv. destruct (wi_age _ HI _ _ _ _ _ Hv) as (r & Hr & Ht). apply pending_Some in Hr; [|done].
  exists r. split; [done|]. unfold aged_record, age_key, searchAgeKey. rewrite !elem_id_id, Hr. by rewrite Ht, !Z.eqb_refl.
Qed.

Lemma searchAgePrefix_inj class bucket l c b t o n :
  searchAgePrefix class bucket ++ l = searchAgeKey c b t o n -> class = c /\ bucket = b.
Proof. unfold searchAgePrefix, searchAgeKey. by intros [= -> -> _]. Qed.

(** A stale age key is no key of pending work: clearing it is quiet. *)
Lemma clear_stale (class : workClass) bucket k st :
  WorkInv (tx_kv st) -> searchAgePrefix class bucket `prefix_of` k -> aged_record (tx_kv st) class bucket k = Ok None ->
  quiet (tx_kv st) (fclear (tx_kv st) k).
Proof.
  intros HI [l ->] E.
  assert (forall k', node_key k' -> fget (fclear (tx_kv st) (searchAgePrefix class bucket ++ l)) k' = fget (tx_kv st) k') as Hn.
  { intros k' Hk'. rewrite fget_clear. case_decide as Hk; [|done]. subst k'. symmetry.
    destruct (fget _ _) as [v|] eqn:Hv; [|done]. exfalso.
    destruct Hk' as [(c & o & n & Hk)|(c & t & o & n & Hk)]; [discriminate Hk|].
    rewrite Hk in *. destruct (age_key_record _ _ _ _ _ _ HI Hv) as (r & _ & Hr).
    apply searchAgePrefix_inj in Hk as [Hc%class_name_inj ->]. subst c. rewrite Hr in E. discriminate E. }
  destruct (same_node_keys _ _ Hn HI) as [HI' Hp]. split_and!; [done|done|].
  intros c o n k' Hk'%vital_family. rewrite fget_clear, decide_False; [done|]. intros <-. simpl in Hk'. set_solver.
Qed.

Lemma claimFirstItem_step clock (class : workClass) bucket owner lease scope items st st' res :
  WorkInv (tx_kv st) -> scope_of (tx_kv st) = Ok scope ->
  Forall (fun i => searchAgePrefix class bucket `prefix_of` i.1) items ->
  claimFirstItem clock class bucket owner lease scope items st = Ok (st', res) ->
  lease_step (fun until => forall i, clock i < until)%Z
    (fun w => wk_Owner w = owner /\ exists i, wk_LeaseUntil w = (clock i + lease)%Z) (tx_kv st) (tx_kv st') res.
Proof.
  revert clock st. induction items as [|[k v] items IH]; intros clock st HI Hs Hf E; cbn [claimFirstItem] in E.
  { apply tx_ret_ok in E as [-> ->]. by apply lease_step_quiet. }
  apply Forall_cons in Hf as [Hk Hf]. cbn [fst] in *.
  apply tx_bind_ok in E as (s1 & record & Er & E). rewrite readAgedWork_run in Er by done. apply lift_ok in Er as [-> Er].
  destruct record as [r|].
  - apply (aged_record_pending _ _ _ _ _ HI) in Er.
    apply tx_bind_ok in E as (s1 & claimed & Ec & E). apply (claimWorkItem_step _ _ _ _ _ _ _ _ _ _ HI Er Hs) in Ec.
    destruct claimed as [w|].
    + apply tx_ret_ok in E as [-> ->]. destruct Ec as [I1 S1 P1 C1 O1 R1]. split; [done..| |].
      * intros w' Hw' Hl. apply O1; auto.
      * intros w' Hw'. destruct (R1 w' Hw') as (? & ? & ?). eauto.
    + assert (scope_of (tx_kv s1) = Ok scope) as Hs1 by (by rewrite (ls_scope _ _ _ _ _ Ec)).
      specialize (IH _ _ (ls_inv _ _ _ _ _ Ec) Hs1 Hf E).
      eapply lease_step_trans; [| |eapply lease_step_none; [exact Ec|]|exact IH]; [intros t Ht i; apply Ht| |intros t Ht; apply Ht].
      intros w (? & i & ?). split; [done|by exists (2 + i)].
  - apply tx_bind_ok in E as (s1 & [] & Ec & E). apply modify_ok in Ec. subst s1.
    pose proof (clear_stale _ _ _ _ HI Hk Er) as Hq.
    specialize (IH _ (mkTx (fclear (tx_kv st) k) (tx_changes st)) (proj1 Hq) (eq_trans (quiet_scope _ _ Hq) Hs) Hf E).
    eapply lease_step_trans; [| |by apply lease_step_quiet|exact IH]; [intros t Ht i; apply Ht|].
    intros w (? & i & ?). split; [done|by exists (2 + i)].
Qed.

Lemma claimBucket_step clock class bucket owner lease st st' res :
  WorkInv (tx_kv st) -> claimBucket clock class bucket owner lease st = Ok (st', res) ->
  lease_step (fun until => forall i, clock i < until)%Z
    (fun w => wk_Owner w = owner /\ exists i, wk_LeaseUntil w = (clock i + lease)%Z) (tx_kv st) (tx_kv st') res.
Proof.
  intros HI E. unfold claimBucket in E. apply tx_bind_ok in E as (s1 & scope & Es & E).
  rewrite readClaimScope_run in Es. apply lift_ok in Es as [-> Es].
  destruct (paused scope); [apply tx_ret_ok in E as [-> ->]; by apply lease_step_quiet|].
  apply tx_bind_ok in E as (s1 & items & [-> ->]%tr_range_ok & E).
  eapply claimFirstItem_step; [done|done| |exact E].
  apply Forall_take, Forall_forall. intros [k v] Hin. by apply frange_spec in Hin as [? _].
Qed.

(** ** The steps of the queue *)

Inductive queueOp :=
  | OpInitialize (index : string)
  | OpSchedule (now : gotime) (orgID nodeID : uuid) (change : searchChange)
  | OpClaim (clock : nat -> gotime) (class : workClass) (bucket : Z) (owner : string) (lease : Z)
  | OpYield (now : gotime) (work : Work)
  | OpRelease (now delayed : gotime) (work : Work) (failure : Failure)
  | OpRestart (now scheduled : gotime) (work : Work)
  | OpExclude (now excluded : gotime) (work : Work) (reason : string).

Definition perform (op : queueOp) : tx (option Work) :=
  match op with
  | OpInitialize index => _ ← InitializeSearchIndex index; mret None
  | OpSchedule now o n change => _ ← scheduleSearchChange now o n change; mret None
  | OpClaim clock class bucket owner lease => claimBucket clock class bucket owner lease
  | OpYield now work => _ ← Yield now work; mret None
  | OpRelease now delayed work failure => _ ← Release now delayed work failure; mret None
  | OpRestart now scheduled work => _ ← Restart now scheduled work; mret None
  | OpExclude now excluded work reason => _ ← Exclude now excluded work reason; mret None
  end.

(** A run of transactions; one that fails changes nothing. *)
Inductive queue_run : kv -> list (queueOp * option Work) -> kv -> Prop :=
  | run_done s : queue_run s [] s
  | run_step op s st res ops s' :
      perform op (mkTx s []) = Ok (st, res) -> queue_run (tx_kv st) ops s' -> queue_run s ((op, res) :: ops) s'
  | run_failed op s e ops s' :
      perform op (mkTx s []) = Err e -> queue_run s ops s' -> queue_run s ((op, None) :: ops) s'.

Definition node_of (w : Work) : uuid * uuid := (wk_OrgID w, wk_NodeID w).

(** [op] is no step of the holder of [w] on its item, does not schedule the
    node of [w], and reads the clock before the lease of [w] ends. *)
Definition leaves_alone (w : Work) (op : queueOp) : Prop :=
  match op with
  | OpInitialize _ => True
  | OpSchedule _ o n _ => (o, n) <> node_of w
  | OpClaim clock _ _ _ _ => forall i, (clock i < wk_LeaseUntil w)%Z
  | OpYield _ w' | OpRelease _ _ w' _ => item w' <> item w \/ wk_Owner w' <> wk_Owner w
  | OpRestart _ _ w' | OpExclude _ _ w' _ => node_of w' <> node_of w \/ (wk_Class w' = wk_Class w /\ wk_Owner w' <> wk_Owner w)
  end.

(** Another worker's step on the item of a held claim fails its check. *)
Lemma verified_elsewhere now w w' st st' r :
  WorkInv (tx_kv st) -> holds (tx_kv st) w -> verifyClaim now w' st = Ok (st', r) -> item w' = item w -> wk_Owner w' = wk_Owner w.
Proof.
  intros HI [_ _ Hc _] E [= H1 H2 H3]. destruct (verifyClaim_ok _ _ _ _ _ HI E) as (_ & _ & _ & _ & until & Hc' & _ & _).
  rewrite H1, H2, H3, Hc in Hc'. congruence.
Qed.

(** Every pending record carries the current generation of its node. *)
Definition CurrentInv (s : kv) : Prop :=
  forall c o n r, pending s c o n = Some r -> counter s (searchGenerationKey o n) = Ok (w_Generation r).

Lemma current_less s s' :
  (forall c o n r, pending s' c o n = Some r -> pending s c o n = Some r) ->
  (forall o n, counter s' (searchGenerationKey o n) = counter s (searchGenerationKey o n)) -> CurrentInv s -> CurrentInv s'.
Proof. intros Hp Hc Hcur c o n r Hr. rewrite Hc. by apply (Hcur c), Hp. Qed.

(** The generation of a node never falls. *)
Definition gen_rises (s s' : kv) : Prop :=
  forall o n, counter s' (searchGenerationKey o n) = counter s (searchGenerationKey o n) \/
    exists z, counter s (searchGenerationKey o n) = Ok z /\ counter s' (searchGenerationKey o n) = Ok (z + 1)%Z.

Record op_step (op : queueOp) (s s' : kv) (res : option Work) : Prop := {
  os_inv : WorkInv s';
  os_rises : gen_rises s s';
  os_current : CurrentInv s -> CurrentInv s';
  os_held w : holds s w -> leaves_alone w op -> holds s' w /\ forall w', res = Some w' -> item w' <> item w;
}.

Lemma schedule_counter now o n change st st' r :
  WorkInv (tx_kv st) -> scheduleSearchChange now o n change st = Ok (st', r) ->
  exists z, counter (tx_kv st) (searchGenerationKey o n) = Ok z /\ counter (tx_kv st') (searchGenerationKey o n) = Ok (z + 1)%Z.
Proof.
  intros HI E. destruct (scheduleSearchChange_ok _ _ _ _ _ _ _ HI E) as (z & rev & s1 & s2 & Hz & Hlt & _ & _ & _ & Hg & Es & F2).
  exists z. split; [done|]. unfold counter. rewrite F2 by (simpl; set_solver).
  rewrite (framed_touches _ _ _ _ _ (touches_plan_steps _ _) Es) by (simpl; set_solver). rewrite Hg. simpl.
  apply counter_range in Hz. rewrite (proj2 (Z.leb_le _ _)), (proj2 (Z.leb_le _ _)) by lia. done.
Qed.

Lemma schedule_generation now o n change st st' r :
  WorkInv (tx_kv st) -> scheduleSearchChange now o n change st = Ok (st', r) ->
  counter (tx_kv st') (searchGenerationKey o n) = Ok (w_Generation r).
Proof.
  intros HI E. destruct (schedule_counter _ _ _ _ _ _ _ HI E) as (z & Hz & ->).
  destruct (scheduleSearchChange_ok _ _ _ _ _ _ _ HI E) as (z' & rev & s1 & s2 & Hz' & _ & _ & -> & _).
  rewrite Hz in Hz'. by injection Hz' as <-.
Qed.

Lemma plan_result_generation plan current old r : plan_result plan current old = Some r -> w_Generation r = w_Generation current.
Proof. destruct plan, old; simpl; intros E; by simplify_eq. Qed.

Lemma schedule_step now o n change st st' r :
  WorkInv (tx_kv st) -> scheduleSearchChange now o n change st = Ok (st', r) ->
  op_step (OpSchedule now o n change) (tx_kv st) (tx_kv st') None.
Proof.
  intros HI E. destruct (scheduleSearchChange_pending _ _ _ _ _ _ _ HI E) as [HI' Hp].
  assert (forall o' n', (o, n) <> (o', n') ->
    counter (tx_kv st') (searchGenerationKey o' n') = counter (tx_kv st) (searchGenerationKey o' n')) as Hother.
  { intros o' n' Hne. eapply (vital_same _ _ CLive o' n'). intros k Hk. by eapply spares_schedule_other. }
  split; [done| | |].
  - intros o' n'. destruct (decide ((o, n) = (o', n'))) as [[= <- <-]|Hne].
    + right. by eapply schedule_counter.
    + left. by apply Hother.
  - intros Hcur c o' n' r'. rewrite Hp. case_decide as Hd.
    + destruct Hd as [-> ->]. intros ->%plan_result_generation. exact (schedule_generation _ _ _ _ _ _ _ HI E).
    + intros Hr. rewrite Hother by naive_solver. by apply (Hcur c).
  - intros w Hw Hne. split; [|done]. eapply holds_same; [| |exact Hw].
    + intros k Hk. eapply spares_schedule_other; [exact Hne|exact E|exact Hk].
    + rewrite Hp, decide_False; [done|]. intros [??]. apply Hne. unfold node_of. congruence.
Qed.

(** Recording the serving index again changes nothing. *)
Lemma initialize_step index st st' u :
  WorkInv (tx_kv st) -> InitializeSearchIndex index st = Ok (st', u) -> op_step (OpInitialize index) (tx_kv st) (tx_kv st') None.
Proof.
  intros HI E.
  assert (touches ["search_index"] (InitializeSearchIndex index)) as Ht by (unfold InitializeSearchIndex; touch).
  destruct (WorkInv_untouched _ _ _ _ _ Ht ltac:(set_solver) ltac:(set_solver) E HI) as [HI' Hp].
  assert (forall k, k <> searchIndexKey -> fget (tx_kv st') k = fget (tx_kv st) k) as Hk.
  { intros k Hk. unfold InitializeSearchIndex in E. apply tx_bind_ok in E as (s1 & [] & [-> _]%ensure_ok & E).
    apply tx_bind_ok in E as (s1 & current & ->%reads_get_bytes & E).
    assert (forall v s2 u2, tr_set searchIndexKey v st = Ok (s2, u2) -> fget (tx_kv s2) k = fget (tx_kv st) k) as Hset.
    { intros v s2 u2 ->%modify_ok. cbn [tx_kv]. by rewrite fget_set, decide_False. }
    destruct current as [[]|]; try case_decide; try discriminate E; by eapply Hset. }
  assert (forall o n, counter (tx_kv st') (searchGenerationKey o n) = counter (tx_kv st) (searchGenerationKey o n)) as Hc
    by (intros o n; unfold counter; by rewrite Hk).
  split; [done|intros o n; left; apply Hc| |].
  - apply current_less; [intros c o n r; by rewrite Hp|exact Hc].
  - intros w Hw _. split; [|done]. eapply holds_same; [|apply Hp|exact Hw]. intros k [->|[->|[->| ->]]]; try (by apply Hk).
    destruct (h_scope _ _ Hw) as (scope & Hs & _). unfold scope_of, bytes_of in Hs.
    unfold InitializeSearchIndex, tr_get_bytes in E. tx_inv1 E.
    destruct (fget (tx_kv st) searchIndexKey) as [v|]; [|discriminate Hs]. destruct (no_bytes v); [discriminate Hs|].
    destruct v; try discriminate Hs. case_decide; [|discriminate]. subst.
    match goal with H : tr_set _ _ _ = Ok _ |- _ => apply modify_ok in H; subst end.
    cbn [tx_kv]. rewrite fget_set, decide_True by done. done.
Qed.

(** A part of a step that stays on the item of [w]: its pending work may go,
    nothing that the queue reads of other items changes. *)
Record on_item (w : Work) (s s' : kv) : Prop := {
  oi_inv : WorkInv s';
  oi_pending c o n r : pending s' c o n = Some r -> pending s c o n = Some r;
  oi_counter o n : counter s' (searchGenerationKey o n) = counter s (searchGenerationKey o n);
  oi_held w' : holds s w' -> item w' <> item w -> holds s' w';
}.

Lemma on_item_step {A} w (m : tx A) st st' a r :
  (r = None \/ r = pending (tx_kv st) (wk_Class w) (wk_OrgID w) (wk_NodeID w)) ->
  (forall c o n, (c, o, n) <> item w -> spares (vital c o n) m) ->
  replaced (tx_kv st) (tx_kv st') (wk_Class w) (wk_OrgID w) (wk_NodeID w) r -> m st = Ok (st', a) -> on_item w (tx_kv st) (tx_kv st').
Proof.
  intros Hr Hm [HI' Hp] E. split; [done| | |].
  - intros c o n r'. rewrite Hp. case_decide as Hd; [|done]. destruct Hd as (-> & -> & ->). by destruct Hr as [->| ->].
  - intros o n. assert (exists c, c <> wk_Class w) as [c Hc] by (destruct (wk_Class w); [exists CAccess|exists CLive..]; done).
    eapply (vital_same _ _ c o n). intros k Hk. eapply Hm; [|exact E|exact Hk]. intros [=]. done.
  - intros w' Hw' Hne. eapply holds_same; [| |exact Hw'].
    + intros k Hk. eapply Hm; [|exact E|exact Hk]. exact Hne.
    + rewrite Hp, decide_False; [done|]. intros (? & ? & ?). apply Hne. unfold item. congruence.
Qed.

#[local] Ltac off_item :=
  idtac;
  match goal with
  | Hne : (_, _, _) <> item _, H : vital _ _ _ (claim_key _ _ _) |- False => by eapply (vital_claim_key _ _ _ _ _ _ (not_eq_sym Hne))
  | H : vital _ _ _ ?k, Hp : _ `prefix_of` ?k |- False => destruct Hp as [? ->]; apply vital_family in H; simpl in H; set_solver
  | H : vital _ _ _ _ |- False => apply vital_family in H; simpl in H; set_solver
  end.

Lemma spares_recordFailure now w failure c o n : (c, o, n) <> item w -> spares (vital c o n) (recordFailure now w failure).
Proof.
  intros Hne. unfold recordFailure, countFailure, recordPendingWrite, adoptPendingWrite, storePendingWrite,
    incrementSearchCounter, writeSearchCounter. keep_by off_item.
Qed.

Lemma spares_clear_claim w c o n : (c, o, n) <> item w -> spares (vital c o n) (clear_claim w).
Proof. intros Hne. unfold clear_claim. keep_by off_item. Qed.

Lemma spares_clearSearchWork w r c o n : (c, o, n) <> item w -> spares (vital c o n) (clearSearchWork w r).
Proof. intros Hne. unfold clearSearchWork, removeSearchWork, clear_claim, clearPendingWrites. keep_by off_item. Qed.

(** Claim, cursor, error, attempt, pending-write, access and exclusion
    records are no pending work. *)
Lemma replaced_self {A} fs w (m : tx A) st st' a :
  touches fs m -> "search_work" ∉ fs -> "search_age" ∉ fs -> WorkInv (tx_kv st) -> m st = Ok (st', a) ->
  replaced (tx_kv st) (tx_kv st') (wk_Class w) (wk_OrgID w) (wk_NodeID w) (pending (tx_kv st) (wk_Class w) (wk_OrgID w) (wk_NodeID w)).
Proof. intros Hm H1 H2 HI E. eapply replaced_after; [exact Hm|done|done|exact E|]. by apply replaced_same. Qed.

Lemma clear_claim_on_item w st st' u : WorkInv (tx_kv st) -> clear_claim w st = Ok (st', u) -> on_item w (tx_kv st) (tx_kv st').
Proof.
  intros HI E. eapply on_item_step; [by right|intros; by apply spares_clear_claim| |exact E].
  eapply (replaced_self ["search_claim"]); [| | |done|exact E]; [unfold clear_claim; touch|set_solver..].
Qed.

Lemma recordFailure_on_item now w failure st st' u :
  WorkInv (tx_kv st) -> recordFailure now w failure st = Ok (st', u) -> on_item w (tx_kv st) (tx_kv st').
Proof.
  intros HI E. eapply on_item_step; [by right|intros; by apply spares_recordFailure| |exact E].
  eapply (replaced_self ["search_attempt"; "search_pending_write"; "search_error"; "search_claim"]); [| | |done|exact E]; [|set_solver..].
  unfold recordFailure, countFailure, recordPendingWrite, adoptPendingWrite, storePendingWrite, incrementSearchCounter,
    writeSearchCounter, readSearchCounter, readPendingWrite. touch.
Qed.

Lemma clearSearchWork_on_item w r st st' u :
  WorkInv (tx_kv st) -> pending (tx_kv st) (wk_Class w) (wk_OrgID w) (wk_NodeID w) = Some r ->
  clearSearchWork w r st = Ok (st', u) -> on_item w (tx_kv st) (tx_kv st').
Proof.
  intros HI Hp E. eapply on_item_step; [by left|intros; by apply spares_clearSearchWork| |exact E].
  unfold clearSearchWork in E. cbv zeta in E. apply tx_bind_ok in E as (s1 & [] & Er & E).
  eapply (replaced_after ["search_claim"; "search_cursor"; "search_error"; "search_attempt"; "search_pending_write"]); [| | |exact E|];
    [unfold clear_claim, clearPendingWrites, searchPendingWritePrefix; touch|set_solver..|].
  eapply replaced_drop; [done|exact Hp|]. unfold removeSearchWork in Er. tx_inv1 Er. done.
Qed.

Definition queue_families : list string :=
  ["search_generation"; "search_claim"; "search_index"; "search_rebuild"; "search_work"; "search_age"].

Lemma quiet_touches {A} fs (m : tx A) st st' a :
  touches fs m -> (forall f, f ∈ queue_families -> f ∉ fs) -> WorkInv (tx_kv st) -> m st = Ok (st', a) -> quiet (tx_kv st) (tx_kv st').
Proof.
  intros Hm Hfs HI E. eapply quiet_kept; [|done|exact E]. intros c o n. eapply spares_touches; [exact Hm|].
  intros k [Hk%vital_family|Hk%node_key_family]; apply Hfs; unfold queue_families; set_solver.
Qed.

Lemma on_item_quiet w s1 s2 s3 : on_item w s1 s2 -> quiet s2 s3 -> on_item w s1 s3.
Proof.
  intros [I P C H] Hq. split; [apply Hq| |intros; by rewrite (quiet_counter _ _ _ _ Hq)|].
  { destruct Hq as (_ & Hp & _). intros c o n r. rewrite Hp. apply P. }
  intros w' Hw' Hne. eapply quiet_holds; eauto.
Qed.

Lemma item_step op w s s' :
  on_item w s s' -> (forall w', holds s w' -> leaves_alone w' op -> item w' <> item w) -> op_step op s s' None.
Proof.
  intros [I P C H] Hop. split; [done|intros o n; by left|intros Hcur; by eapply current_less|]. intros w' Hw' Hl. split; [eauto|done].
Qed.

(** A step that gives an item up and schedules its node again. *)
Lemma reschedule_step op w now change s s1 s2 s3 :
  on_item w s s1 -> op_step (OpSchedule now (wk_OrgID w) (wk_NodeID w) change) s1 s2 None -> quiet s2 s3 ->
  (forall w', holds s w' -> leaves_alone w' op -> node_of w <> node_of w') -> op_step op s s3 None.
Proof.
  intros [I1 P1 C1 H1] [I2 R2 N2 H2] Hq Hop. split; [apply Hq| | |].
  - intros o n. rewrite (quiet_counter _ _ _ _ Hq). destruct (R2 o n) as [->|(z & Hz & ->)]; [by left|]. right. exists z. by rewrite <-C1.
  - intros Hcur. assert (CurrentInv s2) as Hcur2 by (apply N2; by eapply current_less).
    eapply current_less; [|intros; apply (quiet_counter _ _ _ _ Hq)|exact Hcur2].
    destruct Hq as (_ & Hp & _). intros c o n r. by rewrite Hp.
  - intros w' Hw' Hl. specialize (Hop w' Hw' Hl). split; [|done]. eapply quiet_holds; [done|].
    apply H2; [|exact Hop]. apply H1; [done|]. unfold item, node_of in *. congruence.
Qed.

Lemma not_same_item w w' : wk_Class w' = wk_Class w -> node_of w' = node_of w -> item w' = item w.
Proof. unfold node_of, item. congruence. Qed.

Lemma perform_step op st st' res :
  WorkInv (tx_kv st) -> perform op st = Ok (st', res) -> op_step op (tx_kv st) (tx_kv st') res.
Proof.
  intros HI E. destruct op as [index|now o n change|clock class bucket owner lease|now w|now delayed w failure|now scheduled w|now excluded w reason];
    simpl in E.
  - apply tx_bind_ok in E as (s1 & [] & E & [-> ->]%tx_ret_ok). by eapply initialize_step.
  - apply tx_bind_ok in E as (s1 & r & E & [-> ->]%tx_ret_ok). by eapply schedule_step.
  - destruct (claimBucket_step _ _ _ _ _ _ _ _ HI E) as [I S P C O R].
    assert (forall o n, counter (tx_kv st') (searchGenerationKey o n) = counter (tx_kv st) (searchGenerationKey o n)) as Hc
      by (intros o n; unfold counter; by rewrite C).
    split; [done|intros o n; by left| |exact O]. intros Hcur. by eapply current_less.
  - apply tx_bind_ok in E as (s1 & [] & E & [-> ->]%tx_ret_ok). unfold Yield in E. apply tx_bind_ok in E as (s2 & r & Ev & E).
    destruct (verifyClaim_ok _ _ _ _ _ HI Ev) as [-> _]. eapply item_step; [by eapply clear_claim_on_item|].
    intros w' Hw' [Hl|Hl] Hi; apply Hl; [done|]. by apply (verified_elsewhere _ _ _ _ _ _ HI Hw' Ev).
  - apply tx_bind_ok in E as (s1 & out & E & [-> ->]%tx_ret_ok). unfold Release in E. apply tx_bind_ok in E as (s2 & r & Ev & E).
    destruct (verifyClaim_ok _ _ _ _ _ HI Ev) as [-> _]. eapply item_step; [by eapply recordFailure_on_item|].
    intros w' Hw' [Hl|Hl] Hi; apply Hl; [done|]. by apply (verified_elsewhere _ _ _ _ _ _ HI Hw' Ev).
  - apply tx_bind_ok in E as (s1 & [] & E & [-> ->]%tx_ret_ok). unfold Restart in E. apply tx_bind_ok in E as (s2 & r & Ev & E).
    destruct (verifyClaim_ok _ _ _ _ _ HI Ev) as [-> _].
    apply tx_bind_ok in E as (s3 & [] & Ec & E). apply tx_bind_ok in E as (s4 & rec & Es & [-> _]%tx_ret_ok).
    pose proof (clear_claim_on_item _ _ _ _ HI Ec) as Hc. pose proof (schedule_step _ _ _ _ _ _ _ (oi_inv _ _ _ Hc) Es) as Hs.
    eapply reschedule_step; [exact Hc|exact Hs|by split_and!; [apply Hs|..]|].
    intros w' Hw' [Hl|[Hcl Hl]] Hn; apply Hl; [done|]. apply (verified_elsewhere _ _ _ _ _ _ HI Hw' Ev), not_same_item; done.
  - apply tx_bind_ok in E as (s1 & [] & E & [-> ->]%tx_ret_ok). unfold Exclude in E. apply tx_bind_ok in E as (s2 & r & Ev & E).
    destruct (verifyClaim_ok _ _ _ _ _ HI Ev) as (-> & Hp & _). unfold excludeNode in E. cbv zeta in E.
    apply tx_bind_ok in E as (s2 & [] & [-> _]%ensure_ok & E).
    apply tx_bind_ok in E as (s3 & [] & Ec & E). pose proof (clearSearchWork_on_item _ _ _ _ _ HI Hp Ec) as Hc.
    apply tx_bind_ok in E as (s4 & [] & Ee & E).
    assert (quiet (tx_kv s3) (tx_kv s4)) as Hq.
    { eapply (quiet_touches ["search_error"; "search_attempt"]); [| |apply Hc|exact Ee]; [touch|unfold queue_families; set_solver]. }
    pose proof (on_item_quiet _ _ _ _ Hc Hq) as Hc4.
    apply tx_bind_ok in E as (s5 & rec & Es & E). pose proof (schedule_step _ _ _ _ _ _ _ (oi_inv _ _ _ Hc4) Es) as Hs.
    eapply reschedule_step; [exact Hc4|exact Hs| |].
    + eapply (quiet_touches ["search_access"; "search_exclusion"]); [| |apply Hs|exact E];
        [unfold readAccessRecord; touch|unfold queue_families; set_solver].
    + intros w' Hw' [Hl|[Hcl Hl]] Hn; apply Hl; [done|]. apply (verified_elsewhere _ _ _ _ _ _ HI Hw' Ev), not_same_item; done.
Qed.

(** ** Runs *)

Lemma run_holds s ops s' w :
  queue_run s ops s' -> WorkInv s -> holds s w -> Forall (leaves_alone w) ops.*1 ->
  WorkInv s' /\ holds s' w /\ forall op w', (op, Some w') ∈ ops -> item w' <> item w.
Proof.
  induction 1 as [s|op s st res ops s' E _ IH|op s e ops s' E _ IH]; intros HI Hw Hall.
  - split_and!; [done|done|]. intros op w' Hin. set_solver.
  - apply Forall_cons in Hall as [Hop Hall]. apply perform_step in E as [I R _ H]; [|done]. destruct (H w Hw Hop) as [Hw1 Hne].
    destruct (IH I Hw1 Hall) as (HI' & Hw' & Hres). split_and!; [done|done|].
    intros op' w' [[= -> <-]|Hin]%elem_of_cons; eauto.
  - apply Forall_cons in Hall as [_ Hall]. destruct (IH HI Hw Hall) as (HI' & Hw' & Hres). split_and!; [done|done|].
    intros op' w' [[=]|Hin]%elem_of_cons; eauto.
Qed.

Lemma run_rises s ops s' o n z :
  queue_run s ops s' -> WorkInv s -> counter s (searchGenerationKey o n) = Ok z ->
  WorkInv s' /\ exists z', counter s' (searchGenerationKey o n) = Ok z' /\ (z <= z')%Z.
Proof.
  intros Hr. revert z. induction Hr as [s|op s st res ops s' E _ IH|op s e ops s' E _ IH]; intros z HI Hz; [|apply perform_step in E as [I R _ _]; [|done]|eauto].
  - split; [done|]. exists z. split; [done|lia].
  - destruct (R o n) as [Hc|(z1 & Hz1 & Hc)].
    + destruct (IH z I ltac:(by rewrite Hc)) as (HI' & z' & Hz' & Hle). eauto.
    + cbn [tx_kv] in Hz1. rewrite Hz in Hz1. injection Hz1 as <-. destruct (IH (z + 1)%Z I ltac:(by rewrite Hc)) as (HI' & z' & Hz' & Hle).
      split; [done|]. exists z'. split; [done|lia].
Qed.


Definition owned (w : Work) (op : queueOp) : Prop :=
  match op with
  | OpYield _ w' | OpRelease _ _ w' _ | OpRestart _ _ w' | OpExclude _ _ w' _ => w' = w
  | _ => False
  end.

Lemma owned_verifies w op st st' res : owned w op -> perform op st = Ok (st', res) -> exists now s1 r, verifyClaim now w st = Ok (s1, r).
Proof.
  destruct op; simpl; try done; intros <- (s1 & a & E & _)%tx_bind_ok;
    apply tx_bind_ok in E as (s2 & r & E & _); eauto.
Qed.


(** The claim record a failure leaves: no worker owns it. *)
Definition backed_off (w : Work) (until : gotime) : Work :=
  mkLeased (wk_OrgID w) (wk_NodeID w) (wk_Generation w) (wk_Revision w) (wk_Projection w) (wk_Cursor w) (wk_Ordinal w) (wk_Phase w)
    (wk_Deleted w) (wk_EnqueuedAt w) EmptyString until (wk_Class w) (wk_Target w) (wk_Mirror w).

Definition retry_time (delayed : gotime) (failure : Failure) : gotime := (delayed + Z.max searchRetryDelay (fa_RetryAfter failure))%Z.

Lemma recordFailure_holds now delayed w failure st st1 r st' out :
  WorkInv (tx_kv st) -> verifyClaim now w st = Ok (st1, r) -> recordFailure delayed w failure st = Ok (st', out) ->
  holds (tx_kv st') (backed_off w (retry_time delayed failure)).
Proof.
  intros HI Ev E. destruct (verifyClaim_ok _ _ _ _ _ HI Ev) as (_ & Hp & Hg & Hc & _ & _ & _ & Hs).
  assert (touches ["search_attempt"; "search_pending_write"; "search_error"; "search_claim"] (recordFailure delayed w failure)) as Ht.
  { unfold recordFailure, countFailure, recordPendingWrite, adoptPendingWrite, storePendingWrite, incrementSearchCounter,
      writeSearchCounter, readSearchCounter, readPendingWrite. touch. }
  destruct (WorkInv_untouched _ _ _ _ _ Ht ltac:(set_solver) ltac:(set_solver) E HI) as [_ Hp'].
  destruct (Ht _ _ _ E) as [Hk _]. split; cbn.
  - exists r. by rewrite Hp'.
  - rewrite <-Hc. unfold counter. by rewrite Hk by (simpl; set_solver).
  - unfold recordFailure in E. apply tx_bind_ok in E as (s1 & o1 & _ & E). apply tx_bind_ok in E as (s2 & [] & _ & E).
    apply tx_bind_ok in E as (s3 & [] & _ & E). apply tx_bind_ok in E as (s4 & [] & Eset & [-> _]%tx_ret_ok).
    apply modify_ok in Eset. subst s4. unfold claim_of, bytes_of. cbn [tx_kv]. rewrite fget_set, decide_True by done. done.
  - unfold scope_of, bytes_of in *. by rewrite !Hk by (simpl; set_solver).
Qed.

Lemma recordFailure_counts now w failure st st' out :
  recordFailure now w failure st = Ok (st', out) ->
  if fa_Counted failure
  then exists z, counter (tx_kv st) (searchAttemptKey (wk_Class w) (wk_OrgID w) (wk_NodeID w)) = Ok z /\
         fo_Attempts out = (z + 1)%Z /\ fo_LimitCrossed out = bool_decide ((z + 1)%Z = searchFailureLimit)
  else out = mkOutcome false 0 EmptyString.
Proof.
  intros E. unfold recordFailure in E. apply tx_bind_ok in E as (s1 & o1 & E1 & E).
  assert (out = o1) as ->. { tx_inv1 E. done. } clear E.
  destruct (fa_Counted failure); [|by apply tx_ret_ok in E1 as [_ ->]].
  unfold countFailure in E1. apply tx_bind_ok in E1 as (s2 & z & (z0 & Hz & -> & _)%incrementSearchCounter_ok & E1).
  exists z0. destruct (z0 + 1 =? searchFailureLimit)%Z eqn:El; apply tx_ret_ok in E1 as [_ ->]; split_and!; try done;
    cbn [fo_LimitCrossed]; symmetry; [apply bool_decide_eq_true|apply bool_decide_eq_false]; lia.
Qed.



End spec.
