(* ===== verification/ClaimSpec.v ===== *)
(** * Which item a claim takes

    On a readable queue a claim of a bucket never fails and takes the oldest
    item that nobody holds; the buckets are tried so that each pending bucket
    gets one try. *)

From S2P Require Import Prelude GoJson Sha256 Bytes Base64 Float64 Domain Concrete Store Tx Keys Records Schedule SearchAccess WorkQueue WorkQueueSpec.

(** ** The order of buckets *)

Lemma rotate_perm {A} (n : nat) (l : list A) : drop n l ++ take n l ≡ₚ l.
Proof. rewrite Permutation_app_comm. by rewrite take_drop. Qed.

#[export] Instance older_trans : Transitive older.
Proof. intros a b c. apply (transitivity (R := key_le)). Qed.

(** The entries older than [p]. *)
Definition before (p : pendingBucket) (q : pendingBucket) : Prop := older q p /\ pb_oldest q <> pb_oldest p.

#[export] Instance before_dec p q : Decision (before p q).
Proof. unfold before. apply _. Defined.

Lemma before_irrefl p : ~ before p p.
Proof. by intros [_ []]. Qed.

(** In a sorted list nothing after a position is before it. *)
Lemma sorted_rank l i p : StronglySorted older l -> l !! i = Some p -> length (filter (before p) l) <= i.
Proof.
  intros Hs Hi. pose proof (take_drop_middle l i p Hi) as Hl. rewrite <-Hl in Hs.
  apply StronglySorted_app_1_r, StronglySorted_inv in Hs as [_ Hf]. rewrite Forall_forall in Hf.
  rewrite <-Hl, filter_app, filter_cons_False by apply before_irrefl.
  assert (filter (before p) (drop (S i) l) = []) as ->.
  { apply elem_of_nil_inv. intros q [[H1 H2] Hq]%list_elem_of_filter. apply H2, (anti_symm key_le); [done|]. by apply Hf. }
  rewrite app_nil_r. etrans; [apply length_filter|]. rewrite length_take. lia.
Qed.

(** A claim tries every pending bucket exactly once, and starts with one
    of the four buckets whose first items are the oldest. *)
Theorem claimOrder_fair pending rotation :
  claimOrder pending rotation ≡ₚ pb_bucket <$> pending /\
  (pending <> [] -> exists p, p ∈ pending /\ head (claimOrder pending rotation) = Some (pb_bucket p) /\
     length (filter (before p) pending) < ClaimBucketChoices).
Proof.
  unfold claimOrder. cbv zeta. pose proof (merge_sort_Permutation older pending) as Hperm.
  pose proof (StronglySorted_merge_sort older pending) as Hsorted. set (sorted := merge_sort older pending) in *.
  set (choices := ClaimBucketChoices `min` length sorted). set (start := Z.to_nat _). split.
  - rewrite <-Hperm, app_assoc, rotate_perm, take_drop. done.
  - intros Hne. assert (0 < length sorted) as Hlen by (rewrite Hperm; destruct pending; [done|simpl; lia]).
    assert (0 < choices) as Hc by (unfold choices, ClaimBucketChoices; lia).
    assert (start < choices) as Hstart by (pose proof (Z.mod_pos_bound rotation (Z.of_nat choices) ltac:(lia)); unfold start; lia).
    destruct (lookup_lt_is_Some_2 sorted start) as [p Hp]; [unfold choices in *; lia|]. exists p. split_and!.
    + rewrite <-Hperm. by eapply list_elem_of_lookup_2.
    + rewrite (drop_S _ p) by (by rewrite lookup_take_lt). done.
    + rewrite <-Hperm. pose proof (sorted_rank _ _ _ Hsorted Hp). unfold choices in *. lia.
Qed.

Section claim.
Context `{FDB : Fdb} `{GL : GoLib} `{HS : Encoder}.

(** ** A readable queue *)

Definition progress_of (s : kv) (class : workClass) (r : searchWorkRecord) : res searchProgressRecord :=
  let initial := mkProgress (w_Revision r) (w_Generation r) EmptyString EmptyString 0 PhasePages in
  match bytes_of s (searchCursorKey class (w_OrgID r) (w_NodeID r)) with
  | None => Ok initial
  | Some (VProgress p) =>
      Ok (match class with
          | CLive => if (pg_Revision p =? w_Revision r)%Z then p else initial
          | _ => if (pg_Generation p =? w_Generation r)%Z then p else initial
          end)
  | Some _ => Err ErrDecode
  end.

Lemma readProgress_run class r st : readProgress class r st = lift (progress_of (tx_kv st) class r) st.
Proof.
  unfold readProgress, progress_of, bytes_of, tr_get_bytes, tr_get, mbind, tx_bind, mret, tx_ret, lift.
  destruct (fget _ _) as [v|]; [|done]. destruct (no_bytes v); [done|]. by destruct v.
Qed.

(** The organization's pages are written by this projection, or the class
    writes no pages. *)
Definition admits (s : kv) (class : workClass) (o : uuid) : Prop :=
  match class with
  | CAccess | CCleanup => True
  | CLive | CCopy => exists state, fget s (searchProjectionStateKey o) = Some (VProjection state) /\ writerProjection state = true
  end.

Lemma gate_open now class r st : admits (tx_kv st) class (w_OrgID r) -> projectionGate now class r st = Ok (st, false).
Proof.
  unfold projectionGate, readProjectionState, tr_get_bytes, tr_get, mbind, tx_bind, mret, tx_ret, lift.
  destruct class; simpl; try done; intros (state & -> & Hw); simpl; by rewrite Hw.
Qed.

(** Every record a claim of the bucket reads decodes, the age keys are those
    of the bucket's items, and the claims are not paused. *)
Record readable (s : kv) (class : workClass) (bucket : Z) (target mirror : string) : Prop := {
  rd_inv : WorkInv s;
  rd_current : CurrentInv s;
  rd_scope : exists scope, scope_of s = Ok scope /\ paused scope = false /\ targets scope class = Some (target, mirror);
  rd_keys k v : searchAgePrefix class bucket `prefix_of` k -> fget s k = Some v -> exists t o n, k = age_key class t o n;
  rd_items o n r : pending s class o n = Some r -> searchBucket o n = bucket ->
    admits s class o /\ (exists c, claim_of s class o n = Ok c) /\ (exists p, progress_of s class r = Ok p);
}.

(** The item is leased to a worker, or waits after a failure. *)
Definition busy (s : kv) (class : workClass) (target mirror : string) (now : gotime) (r : searchWorkRecord) : Prop :=
  exists c, claim_of s class (w_OrgID r) (w_NodeID r) = Ok c /\ leased c (w_Generation r) target mirror now = true.

(** What a claim leaves: the lease, and nothing else is changed. *)
Definition claimed_as (s : kv) (class : workClass) (owner target mirror : string) (until : gotime) (r : searchWorkRecord)
    (w : Work) (s' : kv) : Prop :=
  (exists p, progress_of s class r = Ok p /\ w = leased_work class r owner target mirror until p) /\
  s' = fset s (claim_key class (w_OrgID r) (w_NodeID r)) (VClaim (mkClaim owner (w_Generation r) until target mirror)).

Section bucket.
Context (class : workClass) (bucket : Z) (owner : string) (lease : Z) (now : gotime) (target mirror : string).

Lemma claimWorkItem_run scope st r :
  readable (tx_kv st) class bucket target mirror -> pending (tx_kv st) class (w_OrgID r) (w_NodeID r) = Some r ->
  searchBucket (w_OrgID r) (w_NodeID r) = bucket -> targets scope class = Some (target, mirror) ->
  (claimWorkItem now now class owner lease scope r st = Ok (st, None) /\ busy (tx_kv st) class target mirror now r) \/
  exists w s', claimWorkItem now now class owner lease scope r st = Ok (mkTx s' (tx_changes st), Some w) /\
    ~ busy (tx_kv st) class target mirror now r /\ claimed_as (tx_kv st) class owner target mirror (now + lease) r w s'.
Proof.
  intros Hr Hp Hb Ht. destruct (rd_items _ _ _ _ _ Hr _ _ _ Hp Hb) as (Hadm & (c & Hc) & (p & Hprog)).
  assert (counter (tx_kv st) (searchGenerationKey (w_OrgID r) (w_NodeID r)) = Ok (w_Generation r)) as Hgen
    by exact (rd_current _ _ _ _ _ Hr _ _ _ _ Hp).
  unfold claimWorkItem, mbind, tx_bind. rewrite Ht.
  rewrite readSearchCounter_run. rewrite Hgen. cbn [lift]. rewrite Z.eqb_refl. cbn [negb].
  rewrite (gate_open _ _ _ _ Hadm). rewrite readClaim_run, Hc. cbn [lift].
  destruct (leased c (w_Generation r) target mirror now) eqn:El; [left; split; [reflexivity|exists c; exact (conj Hc El)]|right].
  unfold tr_set, modify. rewrite readProgress_run. cbn [tx_kv tx_changes].
  assert (progress_of (fset (tx_kv st) (claim_key class (w_OrgID r) (w_NodeID r)) (VClaim (mkClaim owner (w_Generation r) (now + lease) target mirror)))
    class r = Ok p) as ->.
  { rewrite <-Hprog. unfold progress_of, bytes_of. rewrite fget_set, decide_False by discriminate. done. }
  cbn [lift]. eexists _, _. split; [reflexivity|]. split; [|split; [exists p; exact (conj Hprog eq_refl)|exact eq_refl]].
  intros (c' & Hc' & Hl). rewrite Hc in Hc'. injection Hc' as <-. rewrite El in Hl. discriminate Hl.
Qed.

(** Each item of the scan leads to a pending record of the bucket. *)
Lemma item_record st k v :
  readable (tx_kv st) class bucket target mirror -> (k, v) ∈ frange (tx_kv st) (searchAgePrefix class bucket) ->
  exists r, k = age_key class (w_EnqueuedAt r) (w_OrgID r) (w_NodeID r) /\ searchBucket (w_OrgID r) (w_NodeID r) = bucket /\
    pending (tx_kv st) class (w_OrgID r) (w_NodeID r) = Some r /\ aged_record (tx_kv st) class bucket k = Ok (Some r).
Proof.
  intros Hr [Hpre Hv]%frange_spec. destruct (rd_keys _ _ _ _ _ Hr _ _ Hpre Hv) as (t & o & n & ->).
  destruct Hpre as [l Hl]. symmetry in Hl. apply searchAgePrefix_inj in Hl as [_ Hb].
  destruct (wi_age _ (rd_inv _ _ _ _ _ Hr) _ _ _ _ _ Hv) as (r & Hw & <-). apply pending_Some in Hw; [|apply Hr].
  destruct (age_key_record _ _ _ _ _ _ (rd_inv _ _ _ _ _ Hr) Hv) as (r' & Hp & Ha). rewrite Hw in Hp. injection Hp as <-.
  destruct (pending_owner _ _ _ _ _ (rd_inv _ _ _ _ _ Hr) Hw) as [<- <-].
  rewrite <-Hb in Ha. exists r. exact (conj eq_refl (conj (eq_sym Hb) (conj Hw Ha))).
Qed.

Definition item_busy (s : kv) (i : key * value) : Prop :=
  forall r, aged_record s class bucket i.1 = Ok (Some r) -> busy s class target mirror now r.

Lemma claimFirstItem_cons clock scope st k v items r :
  WorkInv (tx_kv st) -> aged_record (tx_kv st) class bucket k = Ok (Some r) ->
  claimFirstItem clock class bucket owner lease scope ((k, v) :: items) st =
  match claimWorkItem (clock 0) (clock 1) class owner lease scope r st with
  | Ok (st', Some w) => Ok (st', Some w)
  | Ok (st', None) => claimFirstItem (fun i => clock (2 + i)) class bucket owner lease scope items st'
  | Err e => Err e
  end.
Proof.
  intros HI Ha. cbn [claimFirstItem fst]. unfold mbind, tx_bind. rewrite readAgedWork_run by exact HI. rewrite Ha. cbn [lift].
  destruct (claimWorkItem _ _ _ _ _ _ _ _) as [[st' [w|]]|e]; reflexivity.
Qed.

Lemma claimFirstItem_run scope st items :
  readable (tx_kv st) class bucket target mirror -> targets scope class = Some (target, mirror) ->
  Forall (fun i => i ∈ frange (tx_kv st) (searchAgePrefix class bucket)) items ->
  (claimFirstItem (fun _ => now) class bucket owner lease scope items st = Ok (st, None) /\ Forall (item_busy (tx_kv st)) items) \/
  exists l1 i l2 r w s', items = l1 ++ i :: l2 /\ Forall (item_busy (tx_kv st)) l1 /\
    aged_record (tx_kv st) class bucket i.1 = Ok (Some r) /\ ~ busy (tx_kv st) class target mirror now r /\
    claimFirstItem (fun _ => now) class bucket owner lease scope items st = Ok (mkTx s' (tx_changes st), Some w) /\
    claimed_as (tx_kv st) class owner target mirror (now + lease) r w s'.
Proof.
  intros Hr Ht. induction items as [|[k v] items IH]; intros Hall; [left; split; [reflexivity|constructor]|].
  apply Forall_cons in Hall as [Hin Hall]. destruct (item_record _ _ _ Hr Hin) as (r & _ & Hb & Hp & Ha).
  pose proof (claimFirstItem_cons (fun _ => now) scope st k v items r (rd_inv _ _ _ _ _ Hr) Ha) as Hstep. cbv beta in Hstep.
  destruct (claimWorkItem_run scope st r Hr Hp Hb Ht) as [[Ec Hbusy]|(w & s' & Ec & Hfree & Hw)]; rewrite Ec in Hstep.
  - assert (item_busy (tx_kv st) (k, v)) as Hi.
    { intros r' Hr'. cbn [fst] in Hr'. rewrite Ha in Hr'. injection Hr' as <-. exact Hbusy. }
    destruct (IH Hall) as [[E Hl]|(l1 & i & l2 & r1 & w & s' & -> & Hl & H1 & H2 & E & H3)]; rewrite E in Hstep.
    + left. split; [exact Hstep|]. by constructor.
    + right. exists ((k, v) :: l1), i, l2, r1, w, s'. split; [reflexivity|]. split; [by constructor|].
      exact (conj H1 (conj H2 (conj Hstep H3))).
  - right. exists [], (k, v), items, r, w, s'. split; [reflexivity|]. split; [constructor|]. exact (conj Ha (conj Hfree (conj Hstep Hw))).
Qed.

Lemma age_key_le c b t o n t' o' n' : key_le (searchAgeKey c b t o n) (searchAgeKey c b t' o' n') -> (t <= t')%Z.
Proof.
  unfold searchAgeKey. cbn [key_le]. rewrite !decide_True by done. destruct (decide (TInt t = TInt t')) as [[= ->]|]; [lia|done].
Qed.

(** A pending item of the bucket is in the scan. *)
Lemma pending_scanned s o n r :
  readable s class bucket target mirror -> pending s class o n = Some r -> searchBucket o n = bucket ->
  (age_key class (w_EnqueuedAt r) o n, VEmpty) ∈ frange s (searchAgePrefix class bucket) /\
  aged_record s class bucket (age_key class (w_EnqueuedAt r) o n) = Ok (Some r).
Proof.
  intros Hr Hp Hb. pose proof (rd_inv _ _ _ _ _ Hr) as HI. pose proof Hp as Hw. apply pending_Some in Hw; [|done].
  destruct (wi_work _ HI _ _ _ _ Hw) as (r' & [= <-] & _ & _ & Hage). split.
  - apply frange_spec. split; [|exact Hage]. rewrite <-Hb. eexists. reflexivity.
  - destruct (age_key_record _ _ _ _ _ _ HI Hage) as (r' & Hp' & Ha). rewrite Hp in Hp'. injection Hp' as <-. rewrite <-Hb. exact Ha.
Qed.

End bucket.

(** C18: A claim takes the oldest free item.  On a readable queue a claim of
    a bucket with at most 32 items succeeds: either it leases a pending item
    that is not busy, every older item of the bucket is busy, and the lease
    is the only change; or every pending item of the bucket is busy and
    nothing changes. *)
Theorem claim_oldest_free class bucket owner lease now target mirror s :
  readable s class bucket target mirror -> length (frange s (searchAgePrefix class bucket)) <= searchClaimScanLimit ->
  exists st res, claimBucket (fun _ => now) class bucket owner lease (mkTx s []) = Ok (st, res) /\
  match res with
  | Some w => exists r, pending s class (w_OrgID r) (w_NodeID r) = Some r /\ searchBucket (w_OrgID r) (w_NodeID r) = bucket /\
      ~ busy s class target mirror now r /\ claimed_as s class owner target mirror (now + lease) r w (tx_kv st) /\
      (forall o n r', pending s class o n = Some r' -> searchBucket o n = bucket -> (w_EnqueuedAt r' < w_EnqueuedAt r)%Z ->
         busy s class target mirror now r')
  | None => tx_kv st = s /\
      (forall o n r', pending s class o n = Some r' -> searchBucket o n = bucket -> busy s class target mirror now r')
  end.
Proof.
  intros Hr Hlen. destruct (rd_scope _ _ _ _ _ Hr) as (scope & Hs & Hpa & Ht).
  unfold claimBucket, mbind, tx_bind. rewrite readClaimScope_run. cbn [tx_kv]. rewrite Hs. cbn [lift]. rewrite Hpa.
  unfold tr_range. cbn [tx_kv]. rewrite take_ge by exact Hlen. set (items := frange s (searchAgePrefix class bucket)) in *.
  assert (Forall (fun i => i ∈ frange (tx_kv (mkTx s [])) (searchAgePrefix class bucket)) items) as Hall by (by apply Forall_forall).
  destruct (claimFirstItem_run class bucket owner lease now target mirror scope (mkTx s []) items Hr Ht Hall)
    as [[-> Hbusy]|(l1 & i & l2 & r & w & s' & Hi & Hbusy & Ha & Hfree & -> & Hw)]; cbn [tx_kv tx_changes] in *.
  - eexists _, _. split; [reflexivity|]. split; [reflexivity|]. intros o n r' Hp Hb.
    destruct (pending_scanned _ _ _ _ _ _ _ _ Hr Hp Hb) as [Hin Ha]. rewrite Forall_forall in Hbusy. exact (Hbusy _ Hin _ Ha).
  - eexists _, _. split; [reflexivity|]. exists r. pose proof (aged_record_pending _ _ _ _ _ (rd_inv _ _ _ _ _ Hr) Ha) as Hp.
    assert (i ∈ items) as Hini by (rewrite Hi; set_solver). destruct i as [k v].
    destruct (item_record class bucket target mirror (mkTx s []) k v Hr Hini) as (r0 & Hk & Hb & _ & Ha0).
    cbn [fst tx_kv] in *. rewrite Ha in Ha0. injection Ha0 as <-.
    split; [exact Hp|]. split; [exact Hb|]. split; [exact Hfree|]. split; [exact Hw|].
    intros o n r' Hp' Hb' Hlt. destruct (pending_scanned _ _ _ _ _ _ _ _ Hr Hp' Hb') as [Hin Ha'].
    pose proof (frange_sorted s (searchAgePrefix class bucket)) as Hsort. fold items in Hsort, Hin. rewrite Hi in Hsort, Hin.
    rewrite fmap_app, fmap_cons in Hsort. apply StronglySorted_app_1_r, StronglySorted_inv in Hsort as [_ Hsort]. rewrite Forall_forall in Hsort.
    rewrite Forall_forall in Hbusy.
    apply elem_of_app in Hin as [Hin|[Heq|Hin]%elem_of_cons]; [exact (Hbusy _ Hin _ Ha')|exfalso..].
    + apply (f_equal fst) in Heq. cbn [fst] in Heq. rewrite Heq, Ha in Ha'. injection Ha' as <-. lia.
    + apply (list_elem_of_fmap_2 fst) in Hin. apply Hsort in Hin. cbn [fst] in Hin. rewrite Hk in Hin. unfold age_key in Hin.
      rewrite Hb, Hb' in Hin. apply age_key_le in Hin. lia.
Qed.

End claim.
