(* ===== verification/ConsumerSpec.v ===== *)
(** * The consumer accounts for every record

    Nothing a record carries is lost: after a batch it is a row of the ledger,
    a stored message, or a dead letter, and what was accounted for before
    still is.  The offset moves in the same transaction. *)

From S2P Require Import Prelude GoJson Sha256 Bytes Float64 Canonical GoTime Domain Store Tx AuditEvent RowHash Ledger LedgerSpec ReadManifest Verify Tamper Consumer.

(** ** The ledger under one append *)

(** Two ledgers that differ in personal data only. *)
Definition same_chains (l l' : ledger) : Prop :=
  l_events l' = l_events l /\ l_heads l' = l_heads l /\ l_projected l' = l_projected l.

Lemma same_chains_ok l l' : same_chains l l' -> ledger_ok l -> ledger_ok l'.
Proof. intros (He & Hh & Hp) [H1 H2 H3 H4]. split; intros; rewrite ?He, ?Hh, ?Hp; auto. Qed.

Lemma insert_pii_frame ref row l l' : insert_pii ref row l = Ok (l', tt) -> same_chains l l'.
Proof. unfold insert_pii. destruct (l_pii l !! ref); intros [= <-]; done. Qed.

Lemma same_chains_trans l1 l2 l3 : same_chains l1 l2 -> same_chains l2 l3 -> same_chains l1 l3.
Proof. unfold same_chains. naive_solver congruence. Qed.

Section frames.
Context `{GL : GoLib} `{FF : FloatFormat}.

Lemma l_forM_frame {A} (xs : list A) (f : A -> ltx unit) l l' :
  (forall a l l', f a l = Ok (l', tt) -> same_chains l l') -> l_forM xs f l = Ok (l', tt) -> same_chains l l'.
Proof.
  intros Hf. revert l. induction xs as [|a xs IH]; intros l; cbn [l_forM]; [by intros [= <-]|].
  unfold mbind, ltx_bind. destruct (f a l) as [[l1 []]|] eqn:E; [|done]. intros H. eapply same_chains_trans; eauto.
Qed.

Lemma writeEventPII_frame fresh ev l :
  match writeEventPII fresh ev l with
  | Ok (l', _) => same_chains l l'
  | Err e => e = ErrMalformedPayload
  end.
Proof.
  assert (forall l, exists l' ref, writePIIRow fresh (ev_Actor ev) l = Ok (l', ref) /\ same_chains l l') as Hp.
  { intros l0. unfold writePIIRow. destruct (hasPII _); cbn; [|by eexists _, _]. unfold mbind, ltx_bind.
    destruct (insert_pii fresh _ l0) as [[l1 []]|] eqn:E; [|unfold insert_pii in E; by case_match].
    eexists _, _. split; [done|]. by eapply insert_pii_frame. }
  unfold writeEventPII, mbind, ltx_bind. destruct (Hp l) as (l1 & ref & -> & H1).
  unfold writeProtectedValues, mbind, ltx_bind, l_lift. destruct (validateProtected ev); [|done]. cbn.
  destruct (l_forM _ _ l1) as [[l2 []]|e] eqn:E.
  - cbn. eapply same_chains_trans; [done|]. eapply l_forM_frame; [|exact E]. intros v l3 l4. apply insert_pii_frame.
  - exfalso. clear -E. revert l1 E. induction (ev_Protected ev) as [|v vs IH]; intros l1; cbn [l_forM]; [done|].
    unfold mbind, ltx_bind. destruct (insert_pii _ _ l1) as [[l2 []]|] eqn:Ei; [apply IH|unfold insert_pii in Ei; by case_match].
Qed.

Lemma hashRowForEvent_error input e : hashRowForEvent input = Err e -> e = ErrOther.
Proof.
  unfold hashRowForEvent, mbind, res_bind. destruct (row_payload input) as [p|e'] eqn:E.
  - unfold hashRow. destruct (canonicalJSON p); congruence.
  - intros [= <-]. unfold row_payload in E. repeat (case_match; try congruence).
Qed.

Lemma w_hash_error w head e : w_hash w head = Err e -> e = ErrOther.
Proof.
  unfold w_hash, w_input, append_hash_input. destruct (context_json _); [|by intros [= <-]]. destruct (delta_json _); [|by intros [= <-]].
  apply hashRowForEvent_error.
Qed.

(** The append of an event, alone on the ledger. *)
Lemma advanceChain_spec ev ref l : ledger_ok l ->
  match advanceChain ev ref l with
  | Ok (l', _) => ledger_ok l' /\ exists row, l_events l' = l_events l ++ [row] /\ row_EventID row = ev_EventID ev
  | Err ErrAlreadyProjected => ev_EventID ev ∈ row_EventID <$> l_events l
  | Err ErrChainConflict => False
  | Err _ => True
  end.
Proof.
  intros Hok. unfold advanceChain. set (input := mkAppendInput _ _ _ _).
  destruct (ValidateEvent ev) as [[]|] eqn:Hv.
  2:{ assert (appendChainRow input l = Err ErrMalformedPayload) as ->; [|done].
      unfold appendChainRow, mbind, ltx_bind, l_lift. cbn [ai_Event input]. by rewrite Hv. }
  pose proof (appendChainRow_alone l input Hok Hv) as E.
  set (head := head_of (chain_rows (w_key (AppendWriter input)) (l_events l))) in *.
  assert (past_head l (w_key (AppendWriter input)) head) as Hpast by (eexists; split; done).
  unfold mbind at 1, ltx_bind at 1 in E.
  destruct (appendChainRow input l) as [[l' r]|e] eqn:Ea; cbn in E; symmetry in E.
  - split; [by eapply w_commit_ok|]. apply w_commit_inv in E as (_ & _ & hash & _ & ->); [|done].
    eexists. split; [done|]. by destruct (w_row_facts (AppendWriter input) head hash).
  - destruct (decide (ev_EventID ev ∈ l_projected l)) as [Hin|Hnew].
    + assert (e = ErrAlreadyProjected) as ->.
      { pose proof (w_commit_claimed l (AppendWriter input) head Hin) as E'. rewrite E in E'. by injection E'. }
      by rewrite <- (ok_claimed _ Hok), elem_of_list_to_set in Hin.
    + pose proof (w_commit_fresh l (AppendWriter input) head Hok Hnew) as Hf. rewrite E in Hf.
      destruct (w_hash (AppendWriter input) head) as [hash|e'] eqn:Eh.
      * destruct Hf as [[_ ?]|[Hc _]]; [done|]. exfalso. apply Hc. by apply past_head_cas.
      * injection Hf as <-. by apply w_hash_error in Eh as ->.
Qed.

End frames.

(** ** Accounted records *)

Section accounting.
Context `{GL : GoLib} `{FF : FloatFormat}.
Context (probe_message : raw -> option string) (decode_message : raw -> option transportMessage) (decode_event : raw -> option Event).
Context (row_refused : Event -> bool) (fresh : kafkaRecord -> uuid) (group : string).
(** What the topic holds at each position. *)
Context (log : DeadLetterKey -> option raw).

#[local] Abbreviation decodeTransport := (decodeTransportMessage probe_message decode_message).
#[local] Abbreviation project := (projectRecord probe_message decode_message decode_event row_refused fresh).
#[local] Abbreviation project_one := (projectOne probe_message decode_message decode_event row_refused fresh).

(** The value is a plain event with a row. *)
Definition landed (s : consumerDB) (value : raw) : Prop :=
  decodeTransport value = Ok None /\
  exists ev, (match decode_event value with Some e => prepareEvent e | None => Err ErrMalformedPayload end) = Ok ev /\
    ev_EventID ev ∈ row_EventID <$> l_events (db_ledger s).

(** The value is a message that is stored, or whose event is complete. *)
Definition message_stored (s : consumerDB) (value : raw) : Prop :=
  exists m, decodeTransport value = Ok (Some m) /\
    (db_completed s !! tm_EventID m = Some (tm_TransportDigest m) \/
     exists row, db_assemblies s !! tm_EventID m = Some row /\ as_TransportDigest row = tm_TransportDigest m /\
       if eqs (tm_Message m) messageKindPart
       then db_parts s !! (tm_EventID m, tm_PartIndex m) = Some (tm_PartDigest m, tm_Payload m)
       else as_Header row <> None).

Definition dead_lettered (s : consumerDB) (value : raw) : Prop :=
  exists k row, db_dlq s !! k = Some row /\ dl_Payload row = value.

Definition accounted (s : consumerDB) (value : raw) : Prop := landed s value \/ message_stored s value \/ dead_lettered s value.

Record db_ok (s : consumerDB) : Prop := {
  dbo_ledger : ledger_ok (db_ledger s);
  dbo_dlq k row : db_dlq s !! k = Some row -> log k = Some (dl_Payload row);
}.

(** The record is the one the topic holds at its position. *)
Definition from_log (rec : kafkaRecord) : Prop := log (record_key rec) = Some (rec_Value rec).

(** What a projection may do to the tables before the dead letters are
    settled: rows and messages are added, nothing is taken away. *)
Record grows (s s' : consumerDB) : Prop := {
  gr_events : exists rows, l_events (db_ledger s') = l_events (db_ledger s) ++ rows;
  gr_assemblies id row : db_assemblies s !! id = Some row ->
    exists row', db_assemblies s' !! id = Some row' /\ as_TransportDigest row' = as_TransportDigest row /\ (as_Header row <> None -> as_Header row' <> None);
  gr_parts k v : db_parts s !! k = Some v -> db_parts s' !! k = Some v;
  gr_completed : db_completed s' = db_completed s;
}.

Lemma grows_refl s : grows s s.
Proof. split; [exists []; by rewrite app_nil_r| |done|done]. eauto. Qed.

Lemma grows_trans s1 s2 s3 : grows s1 s2 -> grows s2 s3 -> grows s1 s3.
Proof.
  intros [[r1 E1] A1 P1 C1] [[r2 E2] A2 P2 C2]. split.
  - exists (r1 ++ r2). by rewrite E2, E1, app_assoc.
  - intros id row Hr. destruct (A1 _ _ Hr) as (row1 & H1 & ? & ?). destruct (A2 _ _ H1) as (row2 & H2 & ? & ?).
    exists row2. split_and!; [done|congruence|auto].
  - auto.
  - congruence.
Qed.

Lemma landed_grows s s' v : grows s s' -> landed s v -> landed s' v.
Proof.
  intros [[rows E] _ _ _] (Hd & ev & He & Hin). split; [done|]. exists ev. split; [done|]. rewrite E, fmap_app. apply elem_of_app. by left.
Qed.

Lemma message_grows s s' v : grows s s' -> message_stored s v -> message_stored s' v.
Proof.
  intros [_ Ha Hp Hc] (m & Hd & H). exists m. split; [done|]. destruct H as [H|(row & Hr & Hg & H)]; [left; by rewrite Hc|right].
  destruct (Ha _ _ Hr) as (row' & Hr' & Hg' & Hh). exists row'. split_and!; [done|congruence|]. destruct (eqs _ _); auto.
Qed.

(** ** Storing a message *)

Lemma storeAssembly_spec m s s' : storeAssembly m s = Ok (s', tt) ->
  db_ledger s' = db_ledger s /\ db_dlq s' = db_dlq s /\ grows s s' /\
  exists row, db_assemblies s' !! tm_EventID m = Some row /\ as_TransportDigest row = tm_TransportDigest m.
Proof.
  unfold storeAssembly. destruct (db_assemblies s !! tm_EventID m) as [row|] eqn:E.
  - case_match eqn:Hc; [|done]. intros [= <-]. split_and!; [done..|apply grows_refl|]. exists row. split; [done|].
    rewrite !andb_true_iff in Hc. destruct Hc as [_ Hc]. by apply eqs_true.
  - intros [= <-]. cbn. split_and!; [done..| |].
    + split; cbn; [exists []; by rewrite app_nil_r| |done|done]. intros id row Hr.
      rewrite lookup_insert_ne by (intros <-; congruence). eauto.
    + eexists. rewrite lookup_insert_eq. done.
Qed.

Lemma storePart_spec m s s' : storeAssemblyPart m s = Ok (s', tt) ->
  db_ledger s' = db_ledger s /\ db_dlq s' = db_dlq s /\ grows s s' /\
  db_parts s' !! (tm_EventID m, tm_PartIndex m) = Some (tm_PartDigest m, tm_Payload m).
Proof.
  unfold storeAssemblyPart. case_match; [done|]. destruct (db_parts s !! _) as [[d p]|] eqn:E.
  - case_match eqn:Hc; [|done]. intros [= <-]. apply andb_true_iff in Hc as [->%eqs_true ->%eqs_true].
    split_and!; [done..|apply grows_refl|done].
  - intros [= <-]. cbn. split_and!; [done..| |by rewrite lookup_insert_eq].
    split; cbn; [exists []; by rewrite app_nil_r|eauto| |done]. intros k v Hk. rewrite lookup_insert_ne by (intros <-; congruence). done.
Qed.

(** A change of assemblies that keeps digests and headers. *)
Lemma alter_grows s id f :
  (forall row, as_TransportDigest (f row) = as_TransportDigest row /\ (as_Header row <> None -> as_Header (f row) <> None)) ->
  grows s (set_assemblies s (alter f id (db_assemblies s))).
Proof.
  intros Hf. split; cbn; [exists []; by rewrite app_nil_r| |done|done]. intros id' row Hr.
  destruct (decide (id' = id)) as [->|]; [rewrite lookup_alter_eq, Hr|rewrite lookup_alter_ne by done]; [|eauto].
  eexists. split; [done|]. apply Hf.
Qed.

Lemma storeHeader_spec m value s s' : storeAssemblyHeader m value s = Ok (s', tt) ->
  db_ledger s' = db_ledger s /\ db_dlq s' = db_dlq s /\ grows s s' /\
  forall row, db_assemblies s' !! tm_EventID m = Some row -> as_Header row <> None.
Proof.
  unfold storeAssemblyHeader. intros [= <-]. split_and!; [done..| |].
  - apply alter_grows. intros row. destruct (as_Header row) eqn:E; [by rewrite E|done].
  - cbn. intros row. rewrite lookup_alter_eq. intros (row0 & _ & ->)%fmap_Some. destruct (as_Header row0) eqn:E; [by rewrite E|done].
Qed.

Lemma mark_ready_spec id s s' : mark_ready id s = Ok (s', tt) -> db_ledger s' = db_ledger s /\ db_dlq s' = db_dlq s /\ grows s s'.
Proof. unfold mark_ready. intros [= <-]. split_and!; [done..|]. apply alter_grows. intros row. by case_match. Qed.

Lemma ctx_bind_Ok {A B} (m : ctx A) (f : A -> ctx B) s s' b :
  (a ← m; f a) s = Ok (s', b) -> exists s1 a, m s = Ok (s1, a) /\ f a s1 = Ok (s', b).
Proof. unfold mbind, ctx_bind. destruct (m s) as [[s1 a]|]; [eauto|done]. Qed.

Lemma storeTransport_spec value m s s' : decodeTransport value = Ok (Some m) -> storeTransportMessage m value s = Ok (s', tt) ->
  db_ledger s' = db_ledger s /\ db_dlq s' = db_dlq s /\ grows s s' /\ message_stored s' value.
Proof.
  intros Hd (s1 & completed & Hc & H)%ctx_bind_Ok. unfold completedTransport in Hc.
  destruct (db_completed s !! tm_EventID m) as [digest|] eqn:E.
  { case_decide as Hg; [|done]. injection Hc as <- <-. injection H as <-. split_and!; [done..|apply grows_refl|].
    exists m. split; [done|]. left. congruence. }
  case_decide; [done|]. injection Hc as <- <-. cbn in H.
  apply ctx_bind_Ok in H as (s2 & [] & (L2 & D2 & G2 & row & Hr & Hg)%storeAssembly_spec & H).
  apply ctx_bind_Ok in H as (s3 & [] & H3 & (L4 & D4 & G4)%mark_ready_spec).
  assert (db_ledger s3 = db_ledger s2 /\ db_dlq s3 = db_dlq s2 /\ grows s2 s3 /\ message_stored s3 value) as (L3 & D3 & G3 & M3).
  { destruct (eqs (tm_Message m) messageKindPart) eqn:Ek.
    - apply storePart_spec in H3 as (? & ? & G3 & Hp). split_and!; [done..|]. exists m. split; [done|]. right. rewrite Ek.
      destruct (gr_assemblies _ _ G3 _ _ Hr) as (row' & ? & ? & _). exists row'. split_and!; [done|congruence|done].
    - apply storeHeader_spec in H3 as (? & ? & G3 & Hp). split_and!; [done..|]. exists m. split; [done|]. right. rewrite Ek.
      destruct (gr_assemblies _ _ G3 _ _ Hr) as (row' & ? & ? & _). exists row'. split_and!; [done|congruence|eauto]. }
  split_and!; [congruence..|by eapply grows_trans, grows_trans|]. by eapply message_grows.
Qed.

(** ** One record *)

Lemma c_lift_Ok {A} (r : res A) s s' a : c_lift r s = Ok (s', a) -> s' = s /\ r = Ok a.
Proof. unfold c_lift. destruct r; [|done]. by intros [= <- <-]. Qed.

Lemma ledger_grows s l : (exists rows, l_events l = l_events (db_ledger s) ++ rows) -> grows s (set_ledger s l).
Proof. intros H. split; cbn; [done|eauto|done|done]. Qed.

(** The ledger part of a plain record. *)
Lemma land_spec rec ev l : ledger_ok l ->
  match land row_refused fresh rec ev l with
  | Ok (l', _) => ledger_ok l' /\ exists row, l_events l' = l_events l ++ [row] /\ row_EventID row = ev_EventID ev
  | Err ErrAlreadyProjected => ev_EventID ev ∈ row_EventID <$> l_events l
  | Err ErrChainConflict => False
  | Err _ => True
  end.
Proof.
  intros Hok. unfold land, mbind at 1, ltx_bind at 1. pose proof (writeEventPII_frame (fresh rec) ev l) as Hf.
  destruct (writeEventPII (fresh rec) ev l) as [[l1 ref]|e]; [|by subst]. pose proof (same_chains_ok _ _ Hf Hok) as Hok1.
  destruct Hf as (He & _ & _). unfold advance_row, mbind, ltx_bind. pose proof (advanceChain_spec ev ref l1 Hok1) as Ha. rewrite He in Ha.
  destruct (advanceChain ev ref l1) as [[l2 r]|e]; [|done]. destruct (row_refused ev); [done|]. exact Ha.
Qed.

Lemma projectOne_Ok rec s s' r : db_ok s -> project_one rec s = Ok (s', r) ->
  ledger_ok (db_ledger s') /\ db_dlq s' = db_dlq s /\ grows s s' /\ (landed s' (rec_Value rec) \/ message_stored s' (rec_Value rec)).
Proof.
  intros [Hok _] H. unfold projectOne in H. destruct (decodeTransport (rec_Value rec)) as [[m|]|] eqn:Ed; [..|done].
  - apply ctx_bind_Ok in H as (s1 & [] & (L & D & G & M)%(storeTransport_spec (rec_Value rec)) & [= <- <-]); [|done].
    rewrite L. auto.
  - apply ctx_bind_Ok in H as (s1 & ev & [-> Hu]%c_lift_Ok & H). apply ctx_bind_Ok in H as (s1 & [] & [-> _]%c_lift_Ok & H).
    apply ctx_bind_Ok in H as (s1 & r1 & H & [= <- <-]). unfold on_ledger in H. pose proof (land_spec rec ev _ Hok) as Hl.
    destruct (land row_refused fresh rec ev (db_ledger s)) as [[l' ar]|]; [|done]. injection H as <- <-.
    destruct Hl as (Hok' & row & He & Hid). split_and!; [done|done|apply ledger_grows; eauto|]. left. split; [done|].
    exists ev. split; [exact Hu|]. cbn. rewrite He, fmap_app. apply elem_of_app. right. cbn. rewrite Hid. apply list_elem_of_here.
Qed.

Lemma projectOne_already rec s : db_ok s -> project_one rec s = Err ErrAlreadyProjected -> landed s (rec_Value rec).
Proof.
  intros [Hok _] H. unfold projectOne in H. destruct (decodeTransport (rec_Value rec)) as [[m|]|] eqn:Ed; [| |done].
  - exfalso. unfold storeTransportMessage, mbind, ctx_bind, completedTransport, storeAssembly, storeAssemblyPart, storeAssemblyHeader, mark_ready in H.
    repeat (case_match; simplify_eq; try done).
  - unfold mbind, ctx_bind, c_lift in H. destruct (unmarshalRecord decode_event rec) as [ev|e] eqn:Hu.
    2:{ injection H as ->. exfalso. unfold unmarshalRecord, prepareEvent in Hu. repeat (case_match; simplify_eq; try done). }
    destruct (checkReadManifest ev []); [|done]. unfold on_ledger in H. pose proof (land_spec rec ev _ Hok) as Hl.
    destruct (land row_refused fresh rec ev (db_ledger s)) as [[l' ar]|e]; [done|]. injection H as ->.
    split; [done|]. by exists ev.
Qed.

(** What one statement sequence on a record must do. *)
Definition settles (s s' : consumerDB) (value : raw) : Prop :=
  db_ok s' /\ (forall v, accounted s v -> accounted s' v) /\ accounted s' value.

(** Only the dead letters differ. *)
Definition same_but_dlq (s s' : consumerDB) : Prop :=
  db_ledger s' = db_ledger s /\ db_assemblies s' = db_assemblies s /\ db_parts s' = db_parts s /\ db_completed s' = db_completed s.

Lemma same_but_dlq_kept s s' v : same_but_dlq s s' -> landed s v \/ message_stored s v -> landed s' v \/ message_stored s' v.
Proof. intros (E1 & E2 & E3 & E4). unfold landed, message_stored. rewrite E1, E2, E3, E4. tauto. Qed.

Lemma resolveDeadLetter_spec rec s s' x : resolveDeadLetter rec s = Ok (s', x) -> db_ok s ->
  landed s (rec_Value rec) \/ message_stored s (rec_Value rec) -> settles s s' (rec_Value rec).
Proof.
  intros H Hok Hown. assert (settles s s (rec_Value rec)) as Hsame by (unfold settles, accounted; tauto).
  unfold resolveDeadLetter in H. destruct (replayOrigin rec) as [origin|]; [|by injection H as <- _].
  destruct (db_dlq s !! origin) as [row|] eqn:E; [|by injection H as <- _]. case_decide as Hp; [|by injection H as <- _].
  injection H as <- _. set (s' := set_dlq s (delete origin (db_dlq s))).
  assert (forall v, landed s v \/ message_stored s v -> accounted s' v) as Hmove.
  { intros v Hv. apply (same_but_dlq_kept s s') in Hv; [unfold accounted; tauto|done]. }
  split_and!.
  - destruct Hok as [H1 H2]. split; [done|]. cbn. intros k row' [_ Hk]%lookup_delete_Some. auto.
  - intros v [Hv|[Hv|(k & row' & Hk & <-)]]; [by apply Hmove; left|by apply Hmove; right|].
    destruct (decide (k = origin)) as [->|Hne].
    + assert (row' = row) as -> by congruence. rewrite Hp. by apply Hmove.
    + right. right. exists k, row'. cbn. by rewrite lookup_delete_ne.
  - by apply Hmove.
Qed.

(** Dead letters after one of them was written: payloads are those of the
    log, and none is lost. *)
Lemma dlq_written s d value :
  db_ok s -> (forall k row, d !! k = Some row -> log k = Some (dl_Payload row)) ->
  (forall k row, db_dlq s !! k = Some row -> exists row', d !! k = Some row' /\ dl_Payload row' = dl_Payload row) ->
  (exists k row, d !! k = Some row /\ dl_Payload row = value) -> settles s (set_dlq s d) value.
Proof.
  intros [H1 _] Hlog Hkeep Hown. split_and!; [by split| |].
  - intros v [Hv|[Hv|(k & row & Hk & <-)]]; [by left|by right; left|]. right. right. destruct (Hkeep k row Hk) as (row' & ? & ?). by exists k, row'.
  - right. right. exact Hown.
Qed.

Lemma deadLetterRecord_spec rec cause s s' x : deadLetterRecord rec cause s = Ok (s', x) -> db_ok s -> from_log rec ->
  settles s s' (rec_Value rec).
Proof.
  intros H Hok Hlog. pose proof Hok as [_ Hdlq]. apply ctx_bind_Ok in H as (s3 & o & Ho & H). unfold verifiedReplayOrigin in Ho.
  injection Ho as <- Ho.
  assert (forall k, o = Some k -> exists row, db_dlq s !! k = Some row /\ dl_Payload row = rec_Value rec) as Horig.
  { subst o. intros k. repeat case_match; intros; simplify_eq; eauto. }
  clear Ho. unfold write_dead_letter in H. destruct o as [k|].
  - injection H as <- _. destruct (Horig k eq_refl) as (row & Hk & Hp). apply dlq_written; [done|..].
    + intros k' row'. destruct (decide (k' = k)) as [->|]; [|rewrite lookup_alter_ne by done; apply Hdlq].
      rewrite lookup_alter_eq, Hk. cbn. intros [= <-]. cbn. by apply Hdlq in Hk.
    + intros k' row' Hk'. destruct (decide (k' = k)) as [->|]; [|rewrite lookup_alter_ne by done; eauto].
      rewrite lookup_alter_eq, Hk'. cbn. eauto.
    + exists k. eexists. rewrite lookup_alter_eq, Hk. done.
  - destruct (db_dlq s !! record_key rec) as [row|] eqn:Ek; injection H as <- _.
    + split_and!; [done|auto|]. right. right. exists (record_key rec), row. split; [done|].
      apply Hdlq in Ek. unfold from_log in Hlog. congruence.
    + apply dlq_written; [done|..].
      * intros k row [[<- <-]|[_ Hk]]%lookup_insert_Some; [done|auto].
      * intros k' row' Hk'. exists row'. rewrite lookup_insert_ne by congruence. done.
      * exists (record_key rec). eexists. rewrite lookup_insert_eq. done.
Qed.

(** A record that is projected is accounted for, and so is all that was. *)
Lemma projectRecord_spec rec s s' r : db_ok s -> from_log rec -> project rec s = Ok (s', r) -> settles s s' (rec_Value rec).
Proof.
  intros Hok Hlog H. unfold projectRecord in H. destruct (project_one rec s) as [[s1 x]|e] eqn:E.
  - apply projectOne_Ok in E as (L & D & G & Hown); [|done].
    apply ctx_bind_Ok in H as (s2 & [] & H & [= <- <-]).
    destruct (resolveDeadLetter_spec _ _ _ _ H) as (O2 & M2 & A2); [split; [done|]; rewrite D; apply Hok|done|].
    split_and!; [done| |done]. intros v [Hv|[Hv|Hv]]; apply M2.
    + left. by eapply landed_grows.
    + right. left. by eapply message_grows.
    + right. right. unfold dead_lettered. by rewrite D.
  - case_decide as He.
    { subst e. apply ctx_bind_Ok in H as (s2 & [] & H & [= <- <-]). eapply resolveDeadLetter_spec; [done|done|]. left. by apply projectOne_already. }
    case_match; [done|]. case_match; [|done]. apply ctx_bind_Ok in H as (s2 & [] & H & [= <- <-]). by eapply deadLetterRecord_spec.
Qed.

Lemma project_records_spec records s s' projected : db_ok s -> Forall from_log records ->
  project_records probe_message decode_message decode_event row_refused fresh records s = Ok (s', projected) ->
  db_ok s' /\ (forall v, accounted s v -> accounted s' v) /\ Forall (fun rec => accounted s' (rec_Value rec)) records.
Proof.
  intros Hok Hlog. revert s s' projected Hok. induction Hlog as [|rec records Hrec Hlog IH]; intros s s' projected Hok H.
  - injection H as <- _. auto.
  - cbn [project_records] in H. apply ctx_bind_Ok in H as (s1 & x & (O1 & M1 & A1)%projectRecord_spec & H); [|done..].
    apply ctx_bind_Ok in H as (s2 & ps & H & [= <- <-]). destruct (IH _ _ _ O1 H) as (O2 & M2 & A2). split_and!; [done|auto|].
    constructor; auto.
Qed.

(** C9: A batch that commits loses no record: the ledger invariant holds, every
    record of the batch is a row, a stored message or a dead letter, all that
    was accounted for before still is, and the saved offset is the one after
    the last record. *)
Theorem projectBatchOnce_accounts (topic : string) (partition : Z) (records : list kafkaRecord) (rec : kafkaRecord) (s s' : consumerDB) :
  db_ok s -> Forall from_log records -> last records = Some rec ->
  projectBatchOnce probe_message decode_message decode_event row_refused fresh group topic partition records s = Ok (s', tt) ->
  db_ok s' /\ (forall v, accounted s v -> accounted s' v) /\ Forall (fun rec => accounted s' (rec_Value rec)) records /\
  db_offsets s' !! (group, topic, partition) = Some (rec_Offset rec + 1)%Z.
Proof.
  intros Hok Hlog Hlast H. apply ctx_bind_Ok in H as (s1 & ps & (O1 & M1 & A1)%project_records_spec & H); [|done..].
  apply ctx_bind_Ok in H as (s2 & [] & [= <-] & H). rewrite Hlast in H. injection H as <-. split_and!.
  - destruct O1 as [H1 H2]. by split.
  - exact M1.
  - exact A1.
  - cbn. by rewrite lookup_insert_eq.
Qed.

Lemma deadLetterRecord_total rec cause s : exists s', deadLetterRecord rec cause s = Ok (s', tt).
Proof.
  unfold deadLetterRecord. unfold mbind, ctx_bind. unfold verifiedReplayOrigin at 1. unfold write_dead_letter.
  destruct (match replayOrigin rec with Some origin => _ | None => None end) as [k|]; [eauto|]. destruct (db_dlq s !! record_key rec); eauto.
Qed.

(** What makes a batch fail is a record whose failure is neither a duplicate
    nor for the dead letters. *)
Lemma project_records_error records s e :
  project_records probe_message decode_message decode_event row_refused fresh records s = Err e ->
  exists rec s1, rec ∈ records /\ project_one rec s1 = Err e /\ e <> ErrAlreadyProjected /\ isDeadLetterable e = false.
Proof.
  revert s. induction records as [|rec records IH]; intros s H; [done|]. cbn [project_records] in H.
  unfold mbind at 1, ctx_bind at 1 in H. destruct (project rec s) as [[s1 x]|e'] eqn:E.
  - unfold mbind, ctx_bind in H. destruct (project_records _ _ _ _ _ records s1) as [[s2 ps]|e'] eqn:E'; [done|]. injection H as ->.
    destruct (IH _ E') as (r & s3 & Hr & Hp). exists r, s3. split; [by right|done].
  - injection H as ->. exists rec, s. split; [left|]. unfold projectRecord in E. destruct (project_one rec s) as [[s1 x]|e'].
    + unfold mbind, ctx_bind, resolveDeadLetter in E. repeat case_match; done.
    + case_decide as He; [unfold mbind, ctx_bind, resolveDeadLetter in E; repeat case_match; done|].
      destruct (isRetryableChainErr e') eqn:Er.
      * injection E as ->. split_and!; [done..|]. unfold isRetryableChainErr in Er. apply bool_decide_eq_true in Er as ->. done.
      * destruct (isDeadLetterable e') eqn:Edl; [|by injection E as ->].
        destruct (deadLetterRecord_total rec e' s) as [s' Hd]. unfold mbind, ctx_bind in E. by rewrite Hd in E.
Qed.

(** ** A record that cannot be hashed *)

(** The hash decodes numbers as float64; one out of range fails it. *)
Lemma unhashable input hash : canon (rh_DeltaJSON input) = None -> hashRowForEvent input <> Ok hash.
Proof.
  intros Hd (m & Hm & _)%hash_message. unfold input_message in Hm. destruct (row_payload input) as [p|] eqn:Hp; [|done].
  apply payload_shape in Hp as (fs & -> & P). apply fmap_Some in Hm as (t & Ht & _). unfold canonicalJSON in Ht. case_match; [|done].
  apply fmap_Some in Ht as (a & Ha & _). apply (canon_member_some fs (canonical a) "delta" (rh_DeltaJSON input)); [unfold canon; by rewrite Ha| |done].
  by apply (po_v1 _ _ P).
Qed.

Lemma advance_unhashable ev ref l c d :
  ledger_ok l -> ValidateEvent ev = Ok tt -> ev_EventID ev ∉ l_projected l ->
  context_json (ev_Context ev) = Some c -> delta_json (ev_Delta ev) = Some d -> canon d = None -> advanceChain ev ref l = Err ErrOther.
Proof.
  intros Hok Hv Hnew Hc Hd Hbad. unfold advanceChain. set (input := mkAppendInput _ _ _ _).
  pose proof (appendChainRow_alone l input Hok Hv) as E. set (head := head_of _) in E.
  pose proof (w_commit_fresh l (AppendWriter input) head Hok Hnew) as Hf.
  assert (w_hash (AppendWriter input) head = Err ErrOther) as Hh.
  { destruct (w_hash (AppendWriter input) head) as [hash|e] eqn:Eh; [|by apply w_hash_error in Eh as ->]. exfalso.
    unfold w_hash, w_input, append_hash_input in Eh. cbn [w_event] in Eh. rewrite default_outcome_context in Eh. cbn [ai_Event input] in Eh.
    assert (ev_Delta (default_outcome ev) = ev_Delta ev) as Ed by (unfold default_outcome; by repeat case_match). rewrite Hc, Ed, Hd in Eh.
    by eapply unhashable in Eh. }
  rewrite Hh in Hf. rewrite Hf in E. unfold mbind, ltx_bind in E. destruct (appendChainRow input l) as [[l' r]|e]; [done|]. by injection E as ->.
Qed.

(** C38: A record about which nothing else is wrong, but whose delta holds a
    number outside the range of float64, fails the whole batch: it is neither
    projected nor dead-lettered, so the offset stays before it on every
    attempt. *)
Theorem unhashable_record_blocks_batch (topic : string) (partition : Z) (rec : kafkaRecord) (rest : list kafkaRecord)
    (s : consumerDB) (ev : Event) (c d : json) :
  decodeTransport (rec_Value rec) = Ok None -> unmarshalRecord decode_event rec = Ok ev -> checkReadManifest ev [] = Ok tt ->
  ValidateEvent ev = Ok tt -> validateProtected ev = Ok tt -> ledger_ok (db_ledger s) -> ev_EventID ev ∉ l_projected (db_ledger s) ->
  context_json (ev_Context ev) = Some c -> delta_json (ev_Delta ev) = Some d -> canon d = None ->
  projectBatchOnce probe_message decode_message decode_event row_refused fresh group topic partition (rec :: rest) s = Err ErrOther.
Proof.
  intros Ht Hu Hm Hv Hp Hok Hnew Hc Hd Hbad.
  assert (land row_refused fresh rec ev (db_ledger s) = Err ErrOther) as Hland.
  { pose proof (writeEventPII_frame (fresh rec) ev (db_ledger s)) as Hf. unfold land, mbind at 1, ltx_bind at 1.
    destruct (writeEventPII (fresh rec) ev (db_ledger s)) as [[l1 ref]|e] eqn:E.
    - destruct Hf as (He & Hh & Hpr). unfold advance_row, mbind, ltx_bind.
      rewrite (advance_unhashable ev ref l1 c d); [done|by apply (same_chains_ok (db_ledger s))|done|by rewrite Hpr|done..].
    - exfalso. unfold writeEventPII, mbind, ltx_bind in E. destruct (writePIIRow _ _ _) as [[l1 ref]|] eqn:Ep in E.
      + unfold writeProtectedValues, mbind, ltx_bind, l_lift in E. rewrite Hp in E. destruct (l_forM _ _ l1) as [[l2 []]|] eqn:Ef in E; [done|].
        clear -Ef. revert l1 Ef. induction (ev_Protected ev) as [|v vs IH]; intros l1; cbn [l_forM]; [done|].
        unfold mbind, ltx_bind. destruct (insert_pii _ _ l1) as [[l2 []]|] eqn:Ei; [apply IH|unfold insert_pii in Ei; by case_match].
      + unfold writePIIRow in Ep. destruct (hasPII _); cbn in Ep; [|done]. unfold mbind, ltx_bind, insert_pii in Ep. by repeat case_match. }
  assert (project_one rec s = Err ErrOther) as Hone.
  { unfold projectOne. rewrite Ht. unfold mbind, ctx_bind, c_lift. rewrite Hu, Hm. unfold on_ledger. by rewrite Hland. }
  unfold projectBatchOnce, mbind, ctx_bind. cbn [project_records]. unfold mbind, ctx_bind, projectRecord. by rewrite Hone.
Qed.

End accounting.

(** ** Token uses *)

(** The times at which a token was accepted, in delivery order. *)
Definition token_uses (projected : list committedAuthEvent) (id : uuid) : list instant :=
  omap (fun e => if eqs (ca_Action e) VerbAuthTokenUsed && negb (nil (ca_APITokenID e)) && bool_decide (ca_APITokenID e = id)
                 then Some (ca_EventTime e) else None) projected.

Lemma newest_step_lookup m e id :
  newest_step m e !! id = foldl greatest (m !! id) (token_uses [e] id) \/ (token_uses [e] id = [] /\ newest_step m e !! id = m !! id).
Proof.
  unfold newest_step, token_uses. cbn. destruct (eqs (ca_Action e) VerbAuthTokenUsed); cbn; [|by right].
  destruct (nil (ca_APITokenID e)); cbn; [by right|]. case_bool_decide as Hid; [subst id|right].
  - left. cbn. destruct (m !! ca_APITokenID e) as [t|] eqn:E; [|by rewrite lookup_insert_eq].
    destruct (Z.ltb_spec t (ca_EventTime e)); [rewrite lookup_insert_eq|rewrite E]; cbn; unfold greatest; f_equal; lia.
  - split; [done|]. destruct (m !! ca_APITokenID e); [case_match|]; rewrite ?lookup_insert_ne by done; done.
Qed.

Lemma newest_lookup projected m id : foldl newest_step m projected !! id = foldl greatest (m !! id) (token_uses projected id).
Proof.
  revert m. induction projected as [|e projected IH]; intros m; [done|]. cbn [foldl]. rewrite IH.
  assert (token_uses (e :: projected) id = token_uses [e] id ++ token_uses projected id) as -> by (unfold token_uses; cbn; by case_match).
  rewrite foldl_app. destruct (newest_step_lookup m e id) as [->|[E ->]]; [done|]. by rewrite E.
Qed.

Lemma greatest_fold u ts t0 : greatest u (foldl Z.max t0 ts) = foldl greatest (greatest u t0) ts.
Proof.
  revert u t0. induction ts as [|t ts IH]; intros u t0; [done|]. cbn [foldl]. rewrite IH. f_equal. unfold greatest. f_equal. destruct u; lia.
Qed.

Lemma foldl_greatest_some t0 ts : foldl greatest (Some t0) ts = Some (foldl Z.max t0 ts).
Proof. revert t0. induction ts as [|t ts IH]; intros t0; [done|]. cbn [foldl]. by rewrite <- IH. Qed.

