(* ===== verification/Scenario.v ===== *)
(** * A concrete store

    A schema with one container type, a chain of operations on it, and the
    states they lead to.  The witnesses of the development and the findings
    run on these states: [gmap_fdb] is the store, [hex_golib] the library
    and [short_encoder] a record encoding. *)

From S2P Require Import Prelude GoJson Sha256 Bytes Domain Concrete Schema Store Tx Keys Records Schedule Fence MutationRead Mutation MutationSpec NodeDelete DeleteSpec SubtreeSpec Sequence.

#[export] Instance short_encoder : Encoder := {| encoding _ := "{}" |}.

(** The digest every record of the scenario has. *)
Definition the_digest : N := Eval vm_compute in sha256 "{}".

Definition org : uuid := 1%N.
Definition actor : uuid := 9%N.
Definition the_env : env := mkEnv true true 100 200 77%N.

(** ** The schema *)

Definition dir_type : NodeType :=
  mkNodeType 50%N org "Dir" "dir" "" "" AllOps [] "dirs" false "dir" [] ["dir"] [] (mkReferenceConfig ReferenceUUIDOnly "") [] [].

Definition text_def : PropertyDef :=
  mkPropertyDef 60%N org "title" PropertyTypeText [] true [] false EmptyString None EmptyString None.
Definition parent_def : PropertyDef :=
  mkPropertyDef 61%N org "parent_id" PropertyTypeUUID [] true [] false EmptyString None EmptyString None.

Definition schema_store : gmap (list elem) value :=
  <[nodeTypeDefKey org 50%N := VType dir_type]>
  (<[nodeTypeByKeyKey org "dir" 50%N := VEmpty]>
  (<[propertyDefKey org 60%N := VDef text_def]>
  (<[propertyDefKey org 61%N := VDef parent_def]> ∅))).

Definition st0 : txst := mkTx schema_store [].

(** ** Plans *)

Definition expect_graph (records : list uuid) (edges : list (string * uuid)) : GraphExpectation :=
  mkGraphExpectation ((fun id => mkGraphRecord id the_digest) <$> records) ((fun e => mkRelExpectation e.1 e.2 the_digest) <$> edges) [].

Definition create_plan (id : uuid) (name : string) (parent : option uuid) (ancestors : list uuid) (adds : list Relationship) : MutationPlan :=
  mkPlan org id "dir" actor (mkSourceExpectation true 0%N) 0 (expect_graph ancestors []) (Some name)
    {["title" := quote_plain name]} parent (Some [mkReferenceKey "main" name]) (mkRelChanges adds [])
    (Some (mkIdempotency ("create-" +:+ name) id "fp" 100 "test")) None.

Definition move_plan (id : uuid) (from : list uuid) (to : uuid) (ancestors : list uuid) : MutationPlan :=
  mkPlan org id "dir" actor (mkSourceExpectation false the_digest) 0 (expect_graph ancestors ((fun p => (RelChildOf, p)) <$> from)) None
    ∅ (Some to) None (mkRelChanges [] []) None None.

(** The state after a successful attempt, with an empty change record. *)
Definition after {A} (m : tx A) (st : txst) : txst :=
  match m st with Ok (st', _) => mkTx (tx_kv st') [] | Err _ => st end.

(** A state is kept as the list of its records, so that a check on it does
    not run the operations again that led to it. *)
Definition records (st : txst) : list (key * value) := map_to_list (tx_kv st : gmap key value).
Definition stored (items : list (key * value)) : txst := mkTx (list_to_map items : gmap key value) [].

Lemma after_stored {A} (m : tx A) st items : tx_changes st = [] -> records (after m st) = items -> after m st = stored items.
Proof.
  intros Hc <-. unfold after, stored, records. destruct (m st) as [[st' a]|]; cbn [tx_kv].
  - by rewrite list_to_map_to_list.
  - destruct st as [s c]. cbn in *. subst c. by rewrite list_to_map_to_list.
Qed.

Lemma after_changes {A} (m : tx A) st : tx_changes st = [] -> tx_changes (after m st) = [].
Proof. intros H. unfold after. by destruct (m st) as [[]|]. Qed.

(** A run that changes the number of records succeeds. *)
Lemma run_of {A} (m : tx A) st st' : after m st = st' -> (length (records st) =? length (records st')) = false -> is_ok (m st) = true.
Proof. intros <-. unfold after. destruct (m st) as [[]|]; [done|]. by rewrite Nat.eqb_refl. Qed.

(** The outcome of a successful run. *)
Definition outcome {A} (m : tx A) (st : txst) (d : A) : A := match m st with Ok (_, a) => a | Err _ => d end.

(** ** States *)

Definition relates : Relationship := mkRelationship uuid_nil uuid_nil "relates_to" 101%N actor 100 ∅.
Definition plan_a : MutationPlan := create_plan 101%N "a" None [] [].
Definition plan_b : MutationPlan := create_plan 102%N "b" (Some 101%N) [101%N] [relates].
Definition plan_c : MutationPlan := create_plan 103%N "c" (Some 102%N) [102%N; 101%N] [].

Definition a_records : list (key * value) := Eval vm_compute in records (after (applyMutationAttempt the_env plan_a) st0).
Definition st_a : txst := stored a_records.
Definition b_records : list (key * value) := Eval vm_compute in records (after (applyMutationAttempt the_env plan_b) st_a).
Definition st_b : txst := stored b_records.
Definition c_records : list (key * value) := Eval vm_compute in records (after (applyMutationAttempt the_env plan_c) st_b).
Definition st_c : txst := stored c_records.

Ltac runs_to := apply after_stored; [repeat apply after_changes; reflexivity|vm_compute; reflexivity].

Lemma st_a_eq : after (applyMutationAttempt the_env plan_a) st0 = st_a.
Proof. runs_to. Qed.
Lemma st_b_eq : after (applyMutationAttempt the_env plan_b) st_a = st_b.
Proof. runs_to. Qed.
Lemma st_c_eq : after (applyMutationAttempt the_env plan_c) st_b = st_c.
Proof. runs_to. Qed.

Lemma plan_b_runs : is_ok (applyMutationAttempt the_env plan_b st_a) = true.
Proof. eapply run_of; [exact st_b_eq|vm_compute; reflexivity]. Qed.
Lemma plan_c_runs : is_ok (applyMutationAttempt the_env plan_c st_b) = true.
Proof. eapply run_of; [exact st_c_eq|vm_compute; reflexivity]. Qed.

(** ** Their invariants *)

Lemma run_ok {A} (m : tx A) st : is_ok (m st) = true -> exists st' a, m st = Ok (st', a).
Proof. destruct (m st) as [[st' a]|]; [eauto|done]. Qed.

Lemma after_StoreInv e plan st :
  StoreInv (tx_kv st) -> plan_ok (tx_kv st) plan -> StoreInv (tx_kv (after (applyMutationAttempt e plan) st)).
Proof.
  intros HI HP. unfold after. destruct (applyMutationAttempt e plan st) as [[st' r]|] eqn:E; [|done].
  simpl. eapply applyMutationAttempt_StoreInv; [exact HI|exact HP|exact E].
Qed.

Lemma after_Forest e plan st :
  StoreInv (tx_kv st) -> plan_ok (tx_kv st) plan -> Forest (tx_kv st) -> Forest (tx_kv (after (applyMutationAttempt e plan) st)).
Proof.
  intros HI HP HF. unfold after. destruct (applyMutationAttempt e plan st) as [[st' r]|] eqn:E; [|done].
  simpl. eapply applyMutationAttempt_Forest; [exact HI|exact HP|exact HF|exact E].
Qed.

Lemma empty_StoreInv : StoreInv (∅ : gmap (list elem) value).
Proof.
  split; split; intros; repeat match goal with H : fget ∅ _ = Some _ |- _ => simpl in H; rewrite lookup_empty in H; discriminate H end.
Qed.

Lemma schema_fget k : family k ∈ store_families -> fget schema_store k = None.
Proof.
  intros Hk. unfold schema_store. simpl.
  rewrite !lookup_insert_ne; [done|..]; intros <-; unfold store_families in Hk; simpl in Hk; set_solver.
Qed.

Lemma schema_StoreInv : StoreInv schema_store.
Proof.
  eapply StoreInv_depends; [|exact empty_StoreInv]. intros k Hk. rewrite schema_fget by done. simpl. by rewrite lookup_empty.
Qed.

Lemma schema_Forest : Forest schema_store.
Proof.
  intros o a Ha. assert (exists b, parent_rel schema_store o a b) as (b & n & Hl & _) by (inversion Ha; eauto).
  unfold lookup_node in Hl. rewrite schema_fget in Hl; [done|]. unfold store_families. simpl. set_solver.
Qed.

(** The hypotheses of a plan hold when its node is absent. *)
Lemma plan_ok_absent (s : gmap (list elem) value) plan :
  s !! nodeResolveKey (mp_NodeID plan) = None -> NoDup (rk_TemplateName <$> default [] (mp_ReferenceKeys plan)) -> plan_ok s plan.
Proof. intros Hn Hk. split; [|done]. intros r. simpl. by rewrite Hn. Qed.

Ltac plan_absent := apply plan_ok_absent; [vm_compute; reflexivity|apply (bool_decide_unpack _); vm_compute; exact I].

Lemma plan_a_ok : plan_ok (tx_kv st0) plan_a.
Proof. plan_absent. Qed.
Lemma plan_b_ok : plan_ok (tx_kv st_a) plan_b.
Proof. plan_absent. Qed.
Lemma plan_c_ok : plan_ok (tx_kv st_b) plan_c.
Proof. plan_absent. Qed.

Lemma st_a_inv : StoreInv (tx_kv st_a).
Proof. rewrite <- st_a_eq. apply after_StoreInv; [exact schema_StoreInv|exact plan_a_ok]. Qed.
Lemma st_b_inv : StoreInv (tx_kv st_b).
Proof. rewrite <- st_b_eq. apply after_StoreInv; [exact st_a_inv|exact plan_b_ok]. Qed.
Lemma st_c_inv : StoreInv (tx_kv st_c).
Proof. rewrite <- st_c_eq. apply after_StoreInv; [exact st_b_inv|exact plan_c_ok]. Qed.

Lemma st_a_forest : Forest (tx_kv st_a).
Proof. rewrite <- st_a_eq. apply after_Forest; [exact schema_StoreInv|exact plan_a_ok|exact schema_Forest]. Qed.
Lemma st_b_forest : Forest (tx_kv st_b).
Proof. rewrite <- st_b_eq. apply after_Forest; [exact st_a_inv|exact plan_b_ok|exact st_a_forest]. Qed.

Lemma fresh_run plan r st :
  mp_Idempotency plan = Some r -> fget (tx_kv st) (idempotencyKey (mp_OrgID plan) (ir_Key r)) = None ->
  readCreateIdempotency plan st = Ok (st, None).
Proof.
  intros Hr Hn. unfold readCreateIdempotency. rewrite Hr. unfold tr_get_bytes, mbind, tx_bind, tr_get. by rewrite Hn.
Qed.

Lemma plan_b_fresh : readCreateIdempotency plan_b st_a = Ok (st_a, None).
Proof. eapply fresh_run; [reflexivity|]. vm_compute. reflexivity. Qed.

(** The same store under strict validation. *)
Definition strict_on : StrictActivation := mkActivation true 1 5%N 0.
Definition st_strict : txst := mkTx (<[strictActivationKey := VActivation strict_on]> (tx_kv st_a)) [].

Lemma plan_b_fresh_strict : readCreateIdempotency plan_b st_strict = Ok (st_strict, None).
Proof. eapply fresh_run; [reflexivity|]. vm_compute. reflexivity. Qed.

Lemma st_strict_active : fget (tx_kv st_strict) strictActivationKey = Some (VActivation strict_on).
Proof. vm_compute. reflexivity. Qed.

(** ** Deletion *)

Definition delete_b : DeletionPlan :=
  mkDeletionPlan org 102%N actor (mkSourceExpectation false the_digest)
    (expect_graph [] [("relates_to", 101%N); (RelChildOf, 101%N)]) None.

Lemma delete_b_runs : is_ok (deleteNodeAttempt the_env delete_b st_b) = true.
Proof. vm_compute. reflexivity. Qed.

(** A job that deletes the subtree of [a] with [b] below it. *)
Definition new_job : SubtreeDeleteJob := mkJob 500%N org 101%N uuid_nil actor [] 0 0 0 0.
Definition job_records : list (key * value) := Eval vm_compute in records (after (StartSubtreeDelete the_env new_job) st_b).
Definition st_job : txst := stored job_records.

Lemma st_job_eq : after (StartSubtreeDelete the_env new_job) st_b = st_job.
Proof. runs_to. Qed.

Definition started_job : SubtreeDeleteJob := mkJob 500%N org 101%N uuid_nil actor [101%N] 0 0 200 0.

Lemma touches_StartSubtreeDelete e job : touches ["node_delete_job"] (StartSubtreeDelete e job).
Proof.
  unfold StartSubtreeDelete. cbv zeta. apply touches_bind; [apply reads_touches|intros; unfold writeDeleteJob; touch].
  unfold readRootParent. reads; eauto using reads_readHierarchyNode, reads_readDeleteEdges.
Qed.

Lemma st_job_inv : StoreInv (tx_kv st_job).
Proof.
  rewrite <- st_job_eq. unfold after. destruct (StartSubtreeDelete the_env new_job st_b) as [[st' r]|] eqn:E; [|exact st_b_inv]. simpl.
  eapply StoreInv_depends; [|exact st_b_inv]. intros k Hk. apply (touches_StartSubtreeDelete _ _ _ _ _ E).
  eapply families_disjoint; [|exact Hk]; done.
Qed.

Lemma st_job_stored : stored_job (tx_kv st_job) 500%N = Some started_job.
Proof. vm_compute. reflexivity. Qed.

Lemma st_b_root : fget (tx_kv st_b) (nodeResolveKey 101%N) = Some (VResolve (mkResolve org "dir")).
Proof. vm_compute. reflexivity. Qed.

Lemma absent_family (m : gmap (list elem) value) f k :
  forallb (fun i => negb (bool_decide (family i = f))) (map_to_list m).*1 = true -> family k = f -> m !! k = None.
Proof.
  intros Hall Hk. destruct (m !! k) as [v|] eqn:Hv; [|done]. exfalso.
  assert (k ∈ (map_to_list m).*1) as Hin by (apply list_elem_of_fmap; exists (k, v); split; [done|by apply elem_of_map_to_list]).
  rewrite forallb_forall in Hall. apply list_elem_of_In, Hall in Hin. by rewrite bool_decide_eq_true_2 in Hin.
Qed.

(** The root has no edges. *)
Lemma st_a_edges k : family k = "relationship" -> fget (tx_kv st_a) k = None.
Proof. apply (absent_family (tx_kv st_a)). vm_compute. reflexivity. Qed.

(** ** The fence and the counters *)

(** The store before any fenced write. *)
Lemma st0_fence : FenceInv (tx_kv st0).
Proof. intros b v Hv. pose proof (absent_family schema_store "write_fence" (writeFenceBucketKey b) ltac:(vm_compute; reflexivity) eq_refl) as Hn. simpl in Hv. congruence. Qed.

Definition first_checkpoint : RepairCheckpoint :=
  mkCheckpoint "r1" "m" 101%N "s" RepairPhaseCommentCreated 0%N "" "" "" "" actor 5.

Definition top_counter : txst := mkTx (<[sequenceByKeyKey org "TASK" := VInt64 MaxInt64]> schema_store) [].
