(* ===== verification/Witness.v ===== *)
(** * Witnesses

    Each theorem with hypotheses is applied to the states of [Scenario], so
    its hypotheses hold of a run of the model. *)

From S2P Require Import Prelude GoJson Sha256 Bytes Domain Concrete Schema Reference Store Tx Keys Records Schedule Fence MutationRead Mutation MutationSpec NodeDelete DeleteSpec SubtreeSpec Sequence Scenario.

(** [run m st] names the outcome of a run that succeeds. *)
Ltac run_by H m st E :=
  let st' := fresh "st'" in let r := fresh "r" in
  destruct (run_ok m st H) as (st' & r & E); exists st', r.
Ltac run m st E :=
  let H := fresh "H" in assert (is_ok (m st) = true) as H by (vm_compute; reflexivity); run_by H m st E; clear H.

(** ** Mutations *)

Lemma applyMutation_invariants_witness : exists st' r, applyMutationAttempt the_env plan_b st_a = Ok (st', r) /\ StoreInv (tx_kv st').
Proof.
  run_by plan_b_runs (applyMutationAttempt the_env plan_b) st_a E. split; [exact E|].
  exact (applyMutation_invariants _ _ _ _ _ st_a_inv plan_b_ok E).
Defined.

Lemma applyMutation_forest_witness : exists st' r, applyMutationAttempt the_env plan_c st_b = Ok (st', r) /\ Forest (tx_kv st').
Proof.
  run_by plan_c_runs (applyMutationAttempt the_env plan_c) st_b E. split; [exact E|].
  exact (applyMutation_forest _ _ _ _ _ st_b_inv plan_c_ok st_b_forest E).
Defined.


Lemma applyMutation_audited_witness : exists st' r, applyMutationAttempt the_env plan_b st_a = Ok (st', r) /\ covered (tx_kv st_a) st'.
Proof.
  run_by plan_b_runs (applyMutationAttempt the_env plan_b) st_a E. split; [exact E|].
  exact (applyMutation_audited _ _ _ _ _ st_a_inv plan_b_ok E).
Defined.

Lemma applyMutation_replay_witness : exists st' r, applyMutationAttempt the_env plan_b st_a = Ok (st', r) /\
  applyMutationAttempt the_env plan_b st' = Ok (st', mkReceipt org 102%N no_digest (mr_ResultDigest r)).
Proof.
  run_by plan_b_runs (applyMutationAttempt the_env plan_b) st_a E. split; [exact E|].
  exact (applyMutation_replay the_env the_env plan_b (mkIdempotency "create-b" 102%N "fp" 100 "test") st_a _ _ _
           st_a_inv plan_b_ok eq_refl eq_refl plan_b_fresh E eq_refl).
Defined.


(** ** Parents and deletion *)

Lemma applyMutation_one_parent_witness : exists st' r, applyMutationAttempt the_env plan_b st_a = Ok (st', r) /\
  forall b, is_Some (fget (tx_kv st') (child_key org 102%N b)) <-> b = 101%N.
Proof.
  run_by plan_b_runs (applyMutationAttempt the_env plan_b) st_a E. split; [exact E|].
  refine (applyMutation_one_parent the_env plan_b 101%N st_a _ _ st_a_inv eq_refl _ plan_b_fresh E).
  intros _ b. apply st_a_edges. reflexivity.
Defined.

Lemma deleteNode_removes_witness : exists st' r, deleteNodeAttempt the_env delete_b st_b = Ok (st', r) /\
  StoreInv (tx_kv st') /\ removed_node org 102%N (tx_kv st_b) (tx_kv st').
Proof.
  run_by delete_b_runs (deleteNodeAttempt the_env delete_b) st_b E. split; [exact E|].
  destruct (deleteNode_removes the_env delete_b st_b _ _ st_b_inv E) as (HI & HR & _). split; [exact HI|exact HR].
Defined.

Lemma deleteNode_no_orphans_witness :
  exists st' r, deleteNodeAttempt the_env delete_b st_b = Ok (st', r) /\
  ~ (forall b, is_Some (fget (tx_kv st_b) (child_key org 101%N b)) <-> b = 102%N).
Proof.
  run_by delete_b_runs (deleteNodeAttempt the_env delete_b) st_b E. split; [exact E|].
  exact (deleteNode_no_orphans the_env delete_b st_b _ _ 101%N "dir" st_b_inv E st_b_root).
Defined.

Lemma DeleteSubtreeStep_safe_witness : exists st' r, DeleteSubtreeStep (fun _ => Ok 8%N) the_env 500%N st_job = Ok (st', r) /\
  StoreInv (tx_kv st') /\ exists job', job_step started_job job' /\ NoDup (j_Stack job').
Proof.
  run (DeleteSubtreeStep (fun _ => Ok 8%N) the_env 500%N) st_job E. split; [exact E|].
  destruct (DeleteSubtreeStep_safe (fun _ => Ok 8%N) the_env 500%N started_job st_job _ _ st_job_inv
    st_job_stored eq_refl eq_refl (NoDup_singleton _) ltac:(discriminate) E) as (HI & _ & job' & fin & Hs & Hn & _).
  split; [exact HI|]. exists job'. split; [exact Hs|exact Hn].
Defined.

Lemma removeRelationship_keeps_parent_witness :
  exists st' r, removeRelationshipAttempt the_env org 102%N "relates_to" 101%N st_b = Ok (st', r) /\ StoreInv (tx_kv st').
Proof.
  run (removeRelationshipAttempt the_env org 102%N "relates_to" 101%N) st_b E. split; [exact E|].
  destruct (removeRelationship_keeps_parent the_env org 102%N "relates_to" 101%N st_b _ _ st_b_inv E) as (HI & _). exact HI.
Defined.

(** ** References, scheduling, fence, counters *)

Lemma writeReferenceKeys_correct_witness : exists st' r, writeReferenceKeys org 101%N [mkReferenceKey "main" "a2"] st_a = Ok (st', r) /\
  forall t e, owner (tx_kv st') org t e = Some 101%N <-> mkReferenceKey t e ∈ [mkReferenceKey "main" "a2"].
Proof.
  pose proof (writeReferenceKeys_correct org 101%N [mkReferenceKey "main" "a2"] st_a (si_references _ st_a_inv) (NoDup_singleton _)) as H.
  run (writeReferenceKeys org 101%N [mkReferenceKey "main" "a2"]) st_a E. split; [exact E|].
  rewrite E in H. exact (proj1 (proj2 H)).
Defined.

Lemma scheduleSearchChange_refines_witness : exists st' w, scheduleSearchChange 300 org 101%N searchChangeAccess st_a = Ok (st', w) /\
  WorkInv (tx_kv st') /\ fget (tx_kv st') (searchGenerationKey org 101%N) = Some (VCounter (w_Generation w)).
Proof.
  run (scheduleSearchChange 300 org 101%N searchChangeAccess) st_a E. split; [exact E|].
  destruct (scheduleSearchChange_refines 300 org 101%N searchChangeAccess st_a _ _ (si_work _ st_a_inv) E) as (HI & _ & Hg & _).
  split; [exact HI|exact Hg].
Defined.

Lemma ActivateStrict_detects_writes_witness : exists st' ev, readStrictEvidence st0 = Ok (st', ev) /\
  exists st2 u, fence_writes [(org, 101%N)] st0 = Ok (st2, u) /\ is_ok (ActivateStrict ev strict_on st2) = false.
Proof.
  run readStrictEvidence st0 E. split; [exact E|].
  run (fence_writes [(org, 101%N)]) st0 E2. split; [exact E2|]. destruct r0.
  exact (ActivateStrict_detects_writes st0 _ _ [(org, 101%N)] _ _ strict_on st0_fence E E2 ltac:(discriminate) eq_refl (fun b => eq_refl)).
Defined.

Lemma advanceRepairCheckpoint_forward_witness : exists st' u, advanceRepairCheckpoint NoPhase first_checkpoint st0 = Ok (st', u) /\
  stored_checkpoint (tx_kv st') "r1" = Some first_checkpoint.
Proof.
  run (advanceRepairCheckpoint NoPhase first_checkpoint) st0 E. split; [exact E|].
  exact (proj1 (advanceRepairCheckpoint_forward NoPhase first_checkpoint st0 _ _ E)).
Defined.

(** The verified ancestors of [plan_c]. *)
Definition ancestors_c : gmap uuid mutationSource :=
  outcome (checkGraphRecords org (ge_Records (mp_Graph plan_c))) st_b ∅.

Lemma parent_walks_terminate_witness :
  exists st' u, checkParentChain org 103%N 102%N ancestors_c st_b = Ok (st', u) /\
  walkChain (chain_fuel ancestors_c) 103%N ancestors_c ∅ 102%N <> None.
Proof.
  run (checkParentChain org 103%N 102%N ancestors_c) st_b E. split; [exact E|].
  exact (proj1 (parent_walks_terminate plan_c absentSource absentNode ancestors_c 102%N st_b _ _ eq_refl E)).
Defined.

Definition counter_history : list counter_op := [OpAllocate org "TASK"; OpSeed org "TASK" 40; OpAllocate org "BUG"; OpAllocate org "TASK"].

Lemma sequence_unique_witness : exists st' outs, run_ops the_env counter_history st0 = Ok (st', outs) /\
  numbers org "TASK" outs = [1; 41]%Z /\ NoDup (numbers org "TASK" outs).
Proof.
  run (run_ops the_env counter_history) st0 E. split; [exact E|].
  destruct (sequence_unique the_env counter_history org "TASK" st0 _ _ 0 E ltac:(repeat constructor; discriminate) eq_refl) as (z & _ & _ & _ & Hn & _).
  split; [|exact Hn].
  assert (match run_ops the_env counter_history st0 with Ok (_, outs) => numbers org "TASK" outs | Err _ => [] end = [1; 41]%Z) as Hv by (vm_compute; reflexivity).
  rewrite E in Hv. exact Hv.
Defined.

Lemma sequence_overflow_witness : AllocateSequenceByKey the_env org "TASK" top_counter = Err ErrOther.
Proof. apply (sequence_overflow the_env org "TASK" top_counter). vm_compute. reflexivity. Defined.

Lemma outbox_versions_witness : exists w, outbox_writes NewOutboxWriter [["x"]; ["y"; "z"]] = Ok w /\
  (ow_entries w).*2 = ["x"; "y"; "z"] /\ NoDup (ow_entries w).*1.
Proof.
  eexists. split; [reflexivity|].
  destruct (outbox_versions [["x"]; ["y"; "z"]] _ eq_refl) as (H & _ & Hn & _). split; [exact H|exact Hn].
Defined.
