(* ===== verification/AuditWitness.v ===== *)
(** * Witnesses of the audit theorems

    A change of one node's name is appended to an empty ledger, delivered by
    the consumer, verified and notarized; a search reindex is run as an
    external operation.  Each theorem with hypotheses is applied to these
    states. *)

From S2P Require Import Prelude GoJson Sha256 Bytes Float64 Canonical GoTime Domain Concrete Store Tx AuditEvent External RowHash Ledger LedgerSpec ReadManifest Verify VerifySpec Tamper ManifestSpec Merkle Consumer ConsumerSpec.
From Stdlib Require Import Ascii.

(** ** A change event *)

Definition w_org : uuid := 11.
Definition w_time : instant := 63900000000000000000.

Definition w_actor : Actor :=
  mkActor ActorUser 7 EmptyString EmptyString EmptyString EmptyString EmptyString EmptyString EmptyString.

Definition w_target : Target :=
  mkAuditTarget TargetKindNode "task" EmptyString EmptyString EmptyString EmptyString 101 0 0 0.

Definition w_context (class phase : string) (completed : instant) : EventContext :=
  mkEventContext w_org 0 0 0 EmptyString EmptyString "mcp" EmptyString EmptyString EmptyString 0 EmptyString AuditFormatComplete class phase
    31 0 w_time completed (Some w_target) None [] None EmptyString EmptyString.

Definition change_of (after : raw) : Event :=
  mkEvent "node.updated" 201 w_actor (mkEntity "node" "task" 101 EmptyString EmptyString)
    (w_context OperationDatabaseChange PhaseChange w_time) (Some (mkDelta EmptyString after []))
    OutcomeCompleted None EmptyString w_time EmptyString [].

Definition w_change : Event := change_of "[7]".

Definition w_input1 : chainAppendInput := mkAppendInput w_change 201 (shardOf 7 201) 0.
Definition w_append : writer := AppendWriter w_input1.
Definition w_head0 : chainHeadState := mkHead 0 EmptyString false.

Lemma w_append_starts : w_starts w_append.
Proof. split_and!; [by vm_compute|done..]. Qed.

Lemma w_append_recognised : recognised w_append.
Proof. split; [by left|by vm_compute]. Qed.

Definition is_ok_hash (r : res string) : bool := match r with Ok _ => true | Err _ => false end.

Lemma w_append_hash : exists hash, w_hash w_append w_head0 = Ok hash.
Proof.
  assert (is_ok_hash (w_hash w_append w_head0) = true) as H by (vm_compute; reflexivity).
  destruct (w_hash w_append w_head0) as [hash|]; [by exists hash|done].
Qed.

(** The state with one transaction under way, and the one after its commit. *)
Section first.
Context `{GL : GoLib} `{FF : FloatFormat} (w : writer) (hash : string).
Hypotheses (Hs : w_starts w) (Hr : recognised w) (Hh : w_hash w w_head0 = Ok hash).

Lemma first_pending : reachable recognised (empty_ledger, [(w, w_head0)]).
Proof. eapply rtc_l; [|apply rtc_refl]. by apply step_read. Qed.

Definition first_ledger : ledger := appended empty_ledger (w_row w w_head0 hash).

Lemma first_committed : reachable recognised (first_ledger, []).
Proof.
  eapply rtc_r; [apply first_pending|]. apply (step_commit _ _ _ [] w w_head0 []).
  pose proof (w_commit_fresh empty_ledger w w_head0 empty_ledger_ok (not_elem_of_empty _)) as H. rewrite Hh in H.
  destruct H as [[_ H]|[H _]]; [exact H|]. exfalso. by apply H.
Qed.

End first.

Lemma reachable_ledger_ok_witness : exists s, reachable recognised (s, []) /\ length (l_events s) = 1 /\ ledger_ok s.
Proof.
  destruct w_append_hash as [hash Hh]. exists (first_ledger w_append hash).
  pose proof (first_committed w_append hash w_append_starts w_append_recognised Hh) as H.
  split; [exact H|]. split; [reflexivity|]. exact (reachable_ledger_ok recognised _ _ H).
Defined.

Lemma pending_commit_outcome_witness : exists hash, w_hash w_append w_head0 = Ok hash /\
  w_commit w_append w_head0 empty_ledger =
    if decide (w_eventID w_append ∈ row_EventID <$> l_events empty_ledger) then Err (w_refusal w_append)
    else if decide (w_head0 = head_of (chain_rows (w_key w_append) (l_events empty_ledger)))
    then Ok (appended empty_ledger (w_row w_append w_head0 hash), tt)
    else Err ErrChainConflict.
Proof.
  destruct w_append_hash as [hash Hh]. exists hash. split; [exact Hh|].
  exact (pending_commit_outcome recognised empty_ledger [(w_append, w_head0)] w_append w_head0 hash
           (first_pending w_append w_append_starts w_append_recognised) (list_elem_of_here _ _) Hh).
Defined.

(** ** Verification and notarization *)

Definition w_facts : manifestFacts := mkManifestFacts w_org 1 "key" true true "key" false false.


(** Every pair of messages of the list is told apart; each is hashed once. *)
Definition distinct_digests (ms : list string) : bool :=
  let ds := (fun m => (m, sha256_sum m)) <$> ms in
  forallb (fun d1 => forallb (fun d2 => negb (String.eqb d1.2 d2.2) || String.eqb d1.1 d2.1) ds) ds.

Lemma distinct_digests_free ms : distinct_digests ms = true -> collision_free ms.
Proof.
  intros H m1 m2 H1 H2 E. unfold distinct_digests in H. cbv zeta in H. rewrite forallb_forall in H.
  specialize (H (m1, sha256_sum m1) (proj1 (list_elem_of_In _ _) (list_elem_of_fmap_2 _ _ _ H1))). rewrite forallb_forall in H.
  specialize (H (m2, sha256_sum m2) (proj1 (list_elem_of_In _ _) (list_elem_of_fmap_2 _ _ _ H2))).
  cbn [fst snd] in H. rewrite E, String.eqb_refl in H. by apply String.eqb_eq in H.
Qed.

Definition w_hash1 : string := match w_hash w_append w_head0 with Ok hash => hash | Err _ => EmptyString end.
Definition w_ledger1 : ledger := first_ledger w_append w_hash1.

Lemma w_hash1_ok : w_hash w_append w_head0 = Ok w_hash1.
Proof. unfold w_hash1. destruct w_append_hash as [hash ->]. done. Qed.

Lemma w_ledger1_verified : Forall verified (org_rows w_ledger1 w_org).
Proof.
  constructor; [|constructor]. split.
  - exact (append_row_checks w_input1 w_head0 w_hash1 w_append_starts w_append_recognised w_hash1_ok).
  - split_and!; vm_compute; done.
Qed.

Definition in_rangeb (h : chainHead) : bool :=
  (- 2 ^ 15 <=? hd_shard h)%Z && (hd_shard h <? 2 ^ 15)%Z && (0 <=? hd_seq h)%Z && (hd_seq h <? 2 ^ 63)%Z.

Lemma in_rangeb_range hs : forallb in_rangeb hs = true -> Forall head_in_range hs.
Proof.
  rewrite forallb_forall, Forall_forall. intros H h Hh%list_elem_of_In%H. unfold in_rangeb in Hh.
  rewrite !andb_true_iff, !Z.leb_le, !Z.ltb_lt in Hh. unfold head_in_range. lia.
Qed.

Lemma w_ledger1_free : collision_free (notarized_messages w_ledger1 w_org ++ notarized_messages w_ledger1 w_org).
Proof.
  apply (collision_free_mono _ (notarized_messages w_ledger1 w_org)); [intros m; rewrite elem_of_app; tauto|].
  apply distinct_digests_free. vm_compute. reflexivity.
Qed.

Lemma w_ledger1_heads : Forall head_in_range (org_heads w_ledger1 w_org).
Proof. apply in_rangeb_range. vm_compute. reflexivity. Qed.

Lemma w_ledger1_ok : ledger_ok w_ledger1.
Proof. exact (sys_ledger _ _ (reachable_ok _ _ (first_committed w_append w_hash1 w_append_starts w_append_recognised w_hash1_ok))). Qed.


(** ** Read manifests *)


(** A target with a name of [n] letters. *)
Definition named_target (n : N) : Target :=
  mkAuditTarget TargetKindNode "task" EmptyString (N.iter n (String "a") EmptyString) EmptyString EmptyString 101 0 0 0.

Definition w_largest : Target := named_target (EventPartMaxBytes - 1 - target_size (named_target 1)).

Lemma largest_target_breaks_manifest_witness :
  (target_size w_largest + 2 = EventPartMaxBytes)%N /\ readManifestParts [w_largest] = Ok ["[]"; targets_text [w_largest]].
Proof.
  assert (target_size w_largest + 2 = EventPartMaxBytes)%N as H by (vm_compute; reflexivity).
  split; [exact H|]. exact (proj1 (largest_target_breaks_manifest w_largest (mkReadEvidence 1 "payload" "json" EmptyString 0) false H)).
Defined.

(** ** The consumer *)

Definition w_probe (value : raw) : option string := None.
Definition w_message (value : raw) : option transportMessage := None.
Definition w_decode (value : raw) : option Event :=
  if eqs value "change" then Some w_change else if eqs value "large" then Some (change_of "[1e400]") else None.
Definition w_record (offset : Z) (value : raw) : kafkaRecord := mkRecord "audit" 0 offset value [].
Definition w_db : consumerDB := mkDB empty_ledger ∅ ∅ ∅ ∅ ∅ ∅.
Definition w_log (k : DeadLetterKey) : option raw := if decide (k = ("audit", 0%Z, 5%Z)) then Some "change" else Some "junk".

Definition w_batch : ctx unit :=
  projectBatchOnce w_probe w_message w_decode (fun _ => false) (fun _ => 400%N) "ledger" "audit" 0 [w_record 5 "change"; w_record 6 "junk"].

Definition is_committed (r : res (consumerDB * unit)) : bool := match r with Ok _ => true | Err _ => false end.

Lemma w_batch_commits : exists s', w_batch w_db = Ok (s', tt).
Proof.
  assert (is_committed (w_batch w_db) = true) as H by (vm_compute; reflexivity).
  destruct (w_batch w_db) as [[s' []]|]; [by exists s'|done].
Qed.

Lemma w_db_ok : db_ok w_log w_db.
Proof. split; [apply empty_ledger_ok|]. intros k row H. cbn in H. by rewrite lookup_empty in H. Qed.

Lemma projectBatchOnce_accounts_witness : exists s', w_batch w_db = Ok (s', tt) /\
  accounted w_probe w_message w_decode s' "change" /\ accounted w_probe w_message w_decode s' "junk" /\
  db_offsets s' !! ("ledger", "audit", 0%Z) = Some 7%Z.
Proof.
  destruct w_batch_commits as [s' E]. exists s'. split; [exact E|].
  destruct (projectBatchOnce_accounts w_probe w_message w_decode (fun _ => false) (fun _ => 400%N) "ledger" w_log "audit" 0
              [w_record 5 "change"; w_record 6 "junk"] (w_record 6 "junk") w_db s' w_db_ok
              ltac:(repeat constructor) eq_refl E) as (_ & _ & Ha & Ho).
  split; [exact (Forall_inv Ha)|]. split; [exact (Forall_inv (Forall_inv_tail Ha))|exact Ho].
Defined.

Definition w_json (j : option json) : json := default JNull j.

Lemma unhashable_record_blocks_batch_witness :
  projectBatchOnce w_probe w_message w_decode (fun _ => false) (fun _ => 400%N) "ledger" "audit" 0 [w_record 5 "large"; w_record 6 "change"] w_db
  = Err ErrOther.
Proof.
  apply (unhashable_record_blocks_batch w_probe w_message w_decode (fun _ => false) (fun _ => 400%N) "ledger" "audit" 0
           (w_record 5 "large") [w_record 6 "change"] w_db (change_of "[1e400]")
           (w_json (context_json (ev_Context (change_of "[1e400]")))) (w_json (delta_json (ev_Delta (change_of "[1e400]"))))).
  - reflexivity.
  - vm_compute. reflexivity.
  - vm_compute. reflexivity.
  - vm_compute. reflexivity.
  - vm_compute. reflexivity.
  - exact empty_ledger_ok.
  - exact (not_elem_of_empty _).
  - vm_compute. reflexivity.
  - vm_compute. reflexivity.
  - vm_compute. reflexivity.
Defined.

(** ** An external operation *)

Definition w_env : externalEnv := mkExternalEnv false true (fun _ => w_time) (fun n => N.of_nat n + 300)%N (fun _ => false).

Definition w_intent : Event :=
  mkEvent "search.reindex" 250 w_actor (mkEntity "node" "task" 101 EmptyString EmptyString)
    (w_context OperationExternal PhaseIntent 0) None OutcomePending None EmptyString w_time EmptyString [].

Definition w_run : runFunc := service_step_run (fun _ _ => "lost") w_target "{}" None ("{}", None).

Lemma RunExternal_recorded_witness :
  let '(w', o) := RunExternal w_env w_intent w_run (mkWorld [] 0) in
  o = Ok tt /\ length (w_outbox w') = 4 /\ exists first steps result, w_outbox w' = first ++ steps ++ [result] /\ saved_result w_intent result.
Proof.
  destruct (RunExternal w_env w_intent w_run (mkWorld [] 0)) as [w' o] eqn:E.
  assert (o = Ok tt /\ length (w_outbox w') = 4) as [Ho Hl].
  { replace o with (RunExternal w_env w_intent w_run (mkWorld [] 0)).2 by (by rewrite E).
    replace w' with (RunExternal w_env w_intent w_run (mkWorld [] 0)).1 by (by rewrite E). split; vm_compute; reflexivity. }
  split; [exact Ho|]. split; [exact Hl|].
  destruct (RunExternal_recorded w_env w_intent w_run (mkWorld [] 0) w' o ltac:(split; [discriminate|intros n; vm_compute; by destruct n]) E)
    as [[Hbad _]|(first & steps & _ & _ & _ & [[Hbad _]|(_ & result & Hr & Hs)])]; [congruence..|].
  exists first, steps, result. split; [exact Hr|exact Hs].
Defined.
