(* ===== verification/AccessWitness.v ===== *)
(** * A concrete hierarchy and the access decisions on it

    A space holds a directory that holds another; a directory of a second
    chain has no space above it.  The store is built by the mutations of
    [Mutation], so it keeps their invariants, and the theorems of
    [HierarchySpec] and [AccessSpec] are applied to it. *)

From S2P Require Import Prelude GoJson Sha256 Bytes Base64 Domain Concrete Schema Store Tx Keys Records Schedule Fence MutationRead Mutation MutationSpec NodeDelete DeleteSpec SubtreeSpec Sequence Scenario SearchAccess SearchReaders HierarchySpec ReadersSpec AccessSpec AuditWitness.

Definition space_type : NodeType :=
  mkNodeType 51%N org "Space" "space" "" "" AllOps [] "spaces" false "space" [FeatureIsEntryPoint] ["dir"] [] (mkReferenceConfig ReferenceUUIDOnly "") [] [].

Definition tree_schema : gmap key value :=
  <[nodeTypeDefKey org 51%N := VType space_type]> (<[nodeTypeByKeyKey org "space" 51%N := VEmpty]> schema_store).

Definition space_plan (id : uuid) (name : string) : MutationPlan :=
  mkPlan org id "space" actor (mkSourceExpectation true 0%N) 0 (expect_graph [] []) (Some name)
    {["title" := quote_plain name]} None (Some [mkReferenceKey "main" name]) (mkRelChanges [] []) None None.

Definition plan_space : MutationPlan := space_plan 201%N "s".
Definition plan_top : MutationPlan := create_plan 202%N "top" (Some 201%N) [201%N] [].
Definition plan_leaf : MutationPlan := create_plan 203%N "leaf" (Some 202%N) [202%N; 201%N] [].
Definition plan_loose : MutationPlan := create_plan 204%N "loose" None [] [].

Definition tree_0 : txst := mkTx tree_schema [].
(** Each state as the list of its records. *)
Definition tree_records_1 : list (key * value) := Eval vm_compute in records (after (applyMutationAttempt the_env plan_space) tree_0).
Definition tree_1 : txst := stored tree_records_1.
Definition tree_records_2 : list (key * value) := Eval vm_compute in records (after (applyMutationAttempt the_env plan_top) tree_1).
Definition tree_2 : txst := stored tree_records_2.
Definition tree_records_3 : list (key * value) := Eval vm_compute in records (after (applyMutationAttempt the_env plan_leaf) tree_2).
Definition tree_3 : txst := stored tree_records_3.
Definition tree_records_4 : list (key * value) := Eval vm_compute in records (after (applyMutationAttempt the_env plan_loose) tree_3).
Definition tree_4 : txst := stored tree_records_4.

Definition tree : @kv gmap_fdb := tx_kv tree_4.

Lemma tree_1_eq : after (applyMutationAttempt the_env plan_space) tree_0 = tree_1.
Proof. runs_to. Qed.
Lemma tree_2_eq : after (applyMutationAttempt the_env plan_top) tree_1 = tree_2.
Proof. runs_to. Qed.
Lemma tree_3_eq : after (applyMutationAttempt the_env plan_leaf) tree_2 = tree_3.
Proof. runs_to. Qed.
Lemma tree_4_eq : after (applyMutationAttempt the_env plan_loose) tree_3 = tree_4.
Proof. runs_to. Qed.

Definition fuel : nat := 100.

(** ** The store is at rest *)

Lemma tree_schema_fget k : family k ∈ store_families -> fget tree_schema k = None.
Proof.
  intros Hk. pose proof (schema_fget k Hk) as Hs. unfold tree_schema. simpl in *.
  rewrite !lookup_insert_ne; [exact Hs|..]; intros <-; unfold store_families in Hk; simpl in Hk; set_solver.
Qed.

Lemma tree_StoreInv : StoreInv tree.
Proof.
  unfold tree. rewrite <- tree_4_eq. apply after_StoreInv; [|plan_absent]. rewrite <- tree_3_eq. apply after_StoreInv; [|plan_absent].
  rewrite <- tree_2_eq. apply after_StoreInv; [|plan_absent]. rewrite <- tree_1_eq. apply after_StoreInv; [|plan_absent].
  change (StoreInv tree_schema).
  eapply StoreInv_depends; [|exact empty_StoreInv]. intros k Hk. rewrite tree_schema_fget by done. simpl. by rewrite lookup_empty.
Qed.

Lemma gmap_range_length (m : gmap key value) p : length (gmap_range m p) <= length (map_to_list m).
Proof.
  unfold gmap_range. rewrite (merge_sort_Permutation entry_le). rewrite !length_map_to_list.
  apply map_subseteq_size, map_filter_subseteq.
Qed.

Definition family_keys (m : gmap key value) (f : string) : list key := filter (fun k => family k = f) (map_to_list m).*1.

Lemma family_key (m : gmap key value) f k v : m !! k = Some v -> family k = f -> k ∈ family_keys m f.
Proof.
  intros Hk Hf. apply list_elem_of_filter. split; [done|]. apply list_elem_of_fmap. exists (k, v). split; [done|]. by apply elem_of_map_to_list.
Qed.

Lemma type_prefix_inj `{GL : GoLib} o t rest o' t' id : nodeTypeByKeyPrefix o t ++ rest = nodeTypeByKeyKey o' t' id -> o = o' /\ t = t'.
Proof. intros [= Ho Ht _]. by apply uuid_string_inj in Ho. Qed.

(** A store with two types in one organization. *)
Lemma types_readable (m : gmap key value) :
  family_keys m "node_type_by_key" ⊆ [nodeTypeByKeyKey org "space" 51%N; nodeTypeByKeyKey org "dir" 50%N] ->
  is_ok (nodeTypeByKey org "space" (mkTx m [])) = true -> is_ok (nodeTypeByKey org "dir" (mkTx m [])) = true ->
  forall o typeKey, is_ok (nodeTypeByKey o typeKey (mkTx m [])) = true.
Proof.
  intros Hkeys Hs Hd o typeKey.
  destruct (decide (o = org /\ typeKey = "space")) as [[-> ->]|H1]; [done|].
  destruct (decide (o = org /\ typeKey = "dir")) as [[-> ->]|H2]; [done|].
  assert (frange (Fdb := gmap_fdb) m (nodeTypeByKeyPrefix o typeKey) = []) as Hnone.
  { destruct (frange (Fdb := gmap_fdb) m (nodeTypeByKeyPrefix o typeKey)) as [|[k v] l] eqn:El; [done|]. exfalso.
    assert ((k, v) ∈ frange (Fdb := gmap_fdb) m (nodeTypeByKeyPrefix o typeKey)) as Hin by (rewrite El; left).
    apply frange_spec in Hin as [[rest ->] Hk]. apply (family_key m "node_type_by_key") in Hk; [|done].
    apply Hkeys in Hk. apply elem_of_cons in Hk as [Hk|Hk%list_elem_of_singleton]; apply type_prefix_inj in Hk; tauto. }
  unfold nodeTypeByKey, indexedIDs, tr_range, lift, mbind, tx_bind. cbn [tx_kv]. by rewrite Hnone.
Qed.

Definition resolve_ids (m : gmap key value) : list uuid :=
  omap (fun k => match k with [_; e] => elem_id e | _ => None end) (family_keys m "node_resolve").

Lemma view_known (m : gmap key value) id v : view_of m id = Some v -> id ∈ resolve_ids m.
Proof.
  unfold view_of, resolve_of. destruct (fget (Fdb := gmap_fdb) m (nodeResolveKey id)) as [x|] eqn:Hk; [|done]. intros _.
  apply list_elem_of_omap. exists (nodeResolveKey id). split; [by eapply family_key|]. apply elem_id_id.
Qed.

Lemma rest_of (m : gmap key value) (ids : list uuid) :
  StoreInv m -> (forall o typeKey, is_ok (nodeTypeByKey o typeKey (mkTx m [])) = true) ->
  length (map_to_list m) < fuel -> resolve_ids m ⊆ ids -> size (list_to_set ids : gset uuid) < fuel ->
  forallb (fun id => match view_of m id with Some v => bool_decide (wide id /\ wide (v_OrgID v)) | None => true end) ids = true ->
  at_rest m fuel.
Proof.
  intros HI Ht Hlen Hids Hsize Hwide. constructor.
  - constructor; [apply HI|apply HI|]. intros o typeKey _. apply Ht.
  - intros o n. eapply Nat.le_lt_trans; [apply gmap_range_length|done].
  - exists (list_to_set ids). split; [|done]. intros id v Hv%view_known%Hids. by apply elem_of_list_to_set.
  - intros id v Hv. pose proof Hv as Hid%view_known%Hids. rewrite forallb_forall in Hwide.
    apply list_elem_of_In, Hwide in Hid. rewrite Hv in Hid. by apply bool_decide_eq_true in Hid.
Qed.

Lemma tree_ids : resolve_ids tree ⊆ [201%N; 202%N; 203%N; 204%N].
Proof. apply (bool_decide_unpack _). vm_compute. exact I. Qed.

Lemma tree_at_rest : at_rest tree fuel.
Proof.
  apply (rest_of tree [201%N; 202%N; 203%N; 204%N]).
  - exact tree_StoreInv.
  - apply types_readable; [apply (bool_decide_unpack _); vm_compute; exact I|vm_compute; reflexivity|vm_compute; reflexivity].
  - apply Nat.ltb_lt. vm_compute. reflexivity.
  - exact tree_ids.
  - apply Nat.ltb_lt. vm_compute. reflexivity.
  - vm_compute. reflexivity.
Qed.

(** ** Decisions on it *)

Definition caller : AccessRequest := mkAccessRequest StableVersion actor org 201%N [org].

Definition space_check (m : @kv gmap_fdb) : bool :=
  match view_of m 201%N with
  | Some v => bool_decide (v_OrgID v = org) && match type_of m org (v_NodeType v) with Some kind => entry_type kind | None => false end
  | None => false
  end.

Lemma space_allowed m : space_check m = true -> caller_may m caller.
Proof.
  unfold space_check. destruct (view_of m 201%N) as [v|] eqn:Ev; [|done]. intros [Ho%bool_decide_eq_true Hk]%andb_true_iff.
  destruct (type_of m org (v_NodeType v)) as [kind|] eqn:Et; [|done].
  split; [done|]. split; [done|]. split; [left|]. exists v, kind. by split_and!.
Qed.

Lemma caller_allowed : caller_may tree caller.
Proof. apply space_allowed. vm_compute. reflexivity. Qed.

(** The nodes of the store belong to one organization. *)
Definition org_check (m : @kv gmap_fdb) (ids : list uuid) : bool :=
  forallb (fun id => match view_of m id with Some v => bool_decide (v_OrgID v = org) | None => true end) ids.

Lemma org_known m ids id v : resolve_ids m ⊆ ids -> org_check m ids = true -> view_of m id = Some v -> id ∈ ids /\ v_OrgID v = org.
Proof.
  intros Hids Hall Hv. assert (id ∈ ids) as Hid by (apply Hids; by eapply view_known). split; [done|].
  unfold org_check in Hall. rewrite forallb_forall in Hall. apply list_elem_of_In, Hall in Hid. rewrite Hv in Hid. by apply bool_decide_eq_true in Hid.
Qed.

Lemma tree_known id v : view_of tree id = Some v -> id ∈ [201%N; 202%N; 203%N; 204%N] /\ v_OrgID v = org.
Proof. apply org_known; [exact tree_ids|vm_compute; reflexivity]. Qed.

(** The grants that decisions on the store compare, all told apart. *)
Definition tree_messages : list string :=
  (fun '(v, e) => grant_message v org e) <$> (v ← registered; (v,.) <$> [201%N; 202%N; 203%N; 204%N]).

Lemma tree_messages_free : collision_free tree_messages.
Proof. apply distinct_digests_free. vm_compute. reflexivity. Qed.

Lemma tree_message v e : v ∈ registered -> e ∈ [201%N; 202%N; 203%N; 204%N] -> grant_message v org e ∈ tree_messages.
Proof.
  intros Hv He. apply list_elem_of_fmap. exists (v, e). split; [done|]. apply list_elem_of_bind. exists v. split; [|done].
  by apply list_elem_of_fmap_2.
Qed.

Lemma tree_free version versions id o e' : version ∈ registered -> (forall v, v ∈ versions -> v ∈ registered) ->
  entry_of tree o id e' -> collision_free (decision_messages version org 201%N versions o e').
Proof.
  intros Hv Hvs (_ & v & Hview & <-)%entry_of_view. apply tree_known in Hview as [He ->].
  eapply (collision_free_mono _ tree_messages); [|exact tree_messages_free]. unfold decision_messages. intros m.
  rewrite elem_of_cons, list_elem_of_fmap. intros [->|(v' & -> & Hv')]; apply tree_message; auto. left.
Qed.

Lemma summary_decision_witness : exists t' filter results,
  PolicySet_Query (rest_policies tree fuel) caller 0 = Ok (t', filter) /\
  Summaries fuel (rest_policies tree fuel) [203%N; 204%N] 256 (mkTx tree []) = Ok (mkTx tree [], results) /\
  Forall2 (fun id r => sr_NodeID r = id /\ (Permits filter (sr_AccessKeys r) = true <-> entry_of tree org id 201%N)) [203%N; 204%N] results.
Proof.
  refine (summary_decision tree fuel caller [203%N; 204%N] 256 0 tree_at_rest _ caller_allowed _ _ _).
  - left.
  - apply Nat.leb_le. reflexivity.
  - lia.
  - intros id o e' _. apply tree_free; [left|auto].
Defined.

Lemma index_decision_witness : exists tq' filter,
  PolicySet_Query (rest_policies tree fuel) caller 0 = Ok (tq', filter) /\
  (is_ok (compileSearchAccess (rest_policies tree fuel) registered org 203%N 1 0) = true <-> exists e, entry_of tree org 203%N e) /\
  forall t' access, compileSearchAccess (rest_policies tree fuel) registered org 203%N 1 0 = Ok (t', access) ->
    ac_Versions access = compact (sort_strings registered) /\ ac_Generation access = 1%Z /\
    (Permits filter (ac_Keys access) = true <-> org = org /\ entry_of tree org 203%N 201%N).
Proof.
  refine (index_decision tree fuel caller registered org 203%N 1 0 0 tree_at_rest _ _ caller_allowed _ _ _ _).
  - auto.
  - left.
  - discriminate.
  - discriminate.
  - lia.
  - intros e'. apply tree_free; [left|auto].
Defined.

Lemma dependent_cursor_roundtrip_witness : parseDependentCursor (formatDependentCursor 3 "ab:c") = Ok (3%Z, "ab:c").
Proof. apply (dependent_cursor_roundtrip 3 "ab:c"). lia. Defined.

Lemma EntryPoints_refines_witness : exists w' entries defects,
  EntryPoints (HR := summaryHierarchy) fuel [mkOrgNode org 203%N] (mkTx tree [], ∅) = Ok (w', (entries, defects)) /\
  forall r, r ∈ [mkOrgNode org 203%N] ->
    (forall e, entries !! r = Some e <-> entry_point (full (store_state tree)) (on_OrgID r) (on_NodeID r) e) /\
    (is_Some (defects !! r) <-> forall e, ~ entry_point (full (store_state tree)) (on_OrgID r) (on_NodeID r) e).
Proof.
  destruct (ar_nodes _ _ tree_at_rest) as (U & HU & Hsize).
  refine (EntryPoints_refines (HR := summaryHierarchy) (fun _ => True) _ (store_state tree) U fuel [mkOrgNode org 203%N] (mkTx tree [], ∅)
    (summary_steady tree _ (ar_readable _ _ tree_at_rest)) _ _ _ Hsize).
  - done.
  - by split.
  - intros k _ [v Hv]%store_state_exists. by eapply HU.
Defined.

(** A reader whose two nodes are each other's parent. *)
Definition loop_state (k : OrgNode) : AncestorState :=
  if decide (on_NodeID k ∈ [1%N; 2%N]) then mkAncestor true (on_OrgID k) "dir" (Some dir_type) [(3 - on_NodeID k)%N] else zero_ancestor.

Definition loop_reader : HierarchyReader unit := fun ks w => Ok (w, list_to_map ((fun k => (k, loop_state k)) <$> ks)).

Lemma loop_lookup ks k : k ∈ ks -> (list_to_map ((fun k => (k, loop_state k)) <$> ks) : gmap OrgNode AncestorState) !! k = Some (loop_state k).
Proof.
  induction ks as [|k' ks IH]; [by intros ?%elem_of_nil|]. intros Hk. csimpl. destruct (decide (k' = k)) as [->|Hne].
  - by rewrite lookup_insert_eq.
  - rewrite lookup_insert_ne by done. apply IH. by apply elem_of_cons in Hk as [->|].
Qed.

Lemma EntryPoints_terminates_witness : exists w' entries defects,
  EntryPoints (HR := loop_reader) 3 [mkOrgNode org 1%N] tt = Ok (w', (entries, defects)).
Proof.
  refine (EntryPoints_terminates (HR := loop_reader) (fun k st => st = loop_state k) {[1%N; 2%N]} 3 [mkOrgNode org 1%N] tt _ _ _ _).
  - intros ks w w' m _ _ [= <- <-]. split; [done|]. intros k st Hk Hst. rewrite loop_lookup in Hst by done. congruence.
  - intros ks w _ _. eexists _, _. split; [reflexivity|]. intros k Hk. rewrite loop_lookup by done. by eexists.
  - intros k st ->. unfold loop_state. case_decide as Hk; [|done]. intros _. set_solver.
  - apply Nat.ltb_lt. vm_compute. reflexivity.
Defined.
