(* ===== verification/SearchWitness.v ===== *)
(** * Concrete sessions and searches

    An engine with three hits, a session store on [gmap_fdb] and the tree of
    [AccessWitness].  The theorems of [SessionSpec], [QuerySpec],
    [TransactSpec] and [SearchWorld] are applied to runs on them. *)

From S2P Require Import Prelude GoJson Sha256 Bytes Float64 Quote GoTime Domain Concrete Store Tx Transact Keys Records Schedule Fence MutationRead Mutation MutationSpec NodeDelete DeleteSpec SubtreeSpec Sequence AuditEvent SearchAccess SearchReaders HierarchySpec ReadersSpec AccessSpec SearchSession SearchQuery SessionSpec QuerySpec TransactSpec SearchWorld Scenario AccessWitness.
From Stdlib Require Import Ascii.

(** ** An engine *)

(** A position tells by its sevens how many hits are behind it. *)
Fixpoint sevens (s : string) : nat :=
  match s with EmptyString => 0 | String c s' => (if Ascii.eqb c "7" then 1 else 0) + sevens s' end.

Definition hits : list RankHit := [mkHit 203%N "[7]"; mkHit 204%N "[77]"; mkHit 202%N "[777]"].

Definition hits_after (position : raw) : list RankHit := drop (sevens position) hits.

Definition engine : Ranking := mkRanking hits hits_after (fun _ => True).

(** ** The rest of the world *)

(** 2026-01-01, in nanoseconds from year 1. *)
Definition noon : gotime := 63902908800000000000.

Definition settings : SearchQuerySettings := mkQuerySettings 1024 65536 65536 2 4 1 60000000000 600000000000 1000000000 4 1000000000 None.

Definition clean : Transact.attempt (@kv gmap_fdb) commitClock :=
  mkAttempt None None id (mkCommitClock noon noon noon) None None true None.

(** The commit applies and reports 1021, commit_unknown_result. *)
Definition unknown {S E} (env : E) : Transact.attempt S E := mkAttempt None None id env None (Some (FromDatabase 1021)) true None.

Definition or_denied {A} (o : option A) : svc unit A := match o with Some a => mret a | None => svc_fail [ErrAccessDenied] end.

Definition elsewhere_of (access : AccessRequest -> option AccessFilter) (summaries : list uuid -> Z -> option (list SummaryResult)) :
    SearchElsewhere (FDB := gmap_fdb) unit := {|
  el_EntryAuthority _ := mret org;
  el_AccessQuery r := or_denied (access r);
  el_ActiveAccessVersion _ := mret StableVersion;
  el_ServingSearchIndex := mret "nodes-1";
  el_SearchRestoreEpoch := mret 1%Z;
  el_Open q := mret (mkSnapshot "pit" (q_Index q) "{}", None);
  el_Read q s p := mret (mkBatch (take 2 (hits_after p)) "pit");
  el_Close _ := mret tt;
  el_RecordCleanupFailure _ _ _ := mret tt;
  el_NodeSummaries ids n := or_denied (summaries ids n);
  el_SaveIntent _ _ _ := mret tt;
  el_FinishStep _ _ _ _ := mret tt;
  el_SaveResult _ _ _ _ := mret tt;
  el_AcquireSlot := mret tt;
  el_ReleaseSlot e := e;
  el_Now := mret noon;
  el_NewSessionID s := match frange s (searchSessionChildPrefix 301%N) with [] => mret 301%N | _ => svc_fail [ErrOther] end;
  el_RandInt _ := mret 0;
  el_ContextErr := mret false;
  el_beginAudit := mret tt;
  el_script e := (e, mkScript [clean] Canceled);
|}.

(** A caller with one key, which opens two of the three nodes. *)
Definition one_key : AccessFilter := mkFilter StableVersion ["k"].
Definition summary_of (id : uuid) : SummaryResult :=
  mkSummaryResult id SummaryFound (mkSummary id "dir" "name") (if decide (id = 204%N) then [] else ["k"]).

#[local] Instance plain_world : SearchElsewhere (FDB := gmap_fdb) unit :=
  elsewhere_of (fun _ => Some one_key) (fun ids _ => Some (summary_of <$> ids)).

Definition w0 : world (FDB := gmap_fdb) (E := unit) := (∅, tt).

Definition request : SearchRequest := mkSearchRequest actor 201%N [org] "plan" "" uuid_nil 0.
Definition query : Query := mkQuery "plan" "" "" one_key 1.

#[local] Instance ports : SearchQueryPorts (world (FDB := gmap_fdb) (E := unit)) := world_ports 60000000000.

(** ** Promises of the engine, the summaries and the store *)

Lemma sevens_app a b : sevens (a +:+ b) = sevens a + sevens b.
Proof. induction a as [|c a IH]; str_simpl; [done|]. rewrite IH. lia. Qed.

Lemma html_sevens c e : html_escape c = Some e -> sevens e = 0 /\ Ascii.eqb c "7" = false.
Proof.
  unfold html_escape. destruct (Ascii.eqb_spec c "<") as [->|]; [by intros [= <-]|].
  destruct (Ascii.eqb_spec c ">") as [->|]; [by intros [= <-]|]. destruct (Ascii.eqb_spec c "&") as [->|]; [by intros [= <-]|done].
Qed.

Lemma large_sevens c : (55 < code c)%N -> Ascii.eqb c "7" = false.
Proof. intros Hc. apply Ascii.eqb_neq. intros ->. by vm_compute in Hc. Qed.

Lemma separator_sevens c c2 c3 e : line_separator c c2 c3 = Some e ->
  sevens e = 0 /\ Ascii.eqb c "7" = false /\ Ascii.eqb c2 "7" = false /\ Ascii.eqb c3 "7" = false.
Proof.
  unfold line_separator. intros H. assert (sevens e = O /\ code c = 226 /\ code c2 = 128 /\ (code c3 = 168 \/ code c3 = 169))%N as (He & H1 & H2 & H3).
  { destruct (_ && _) eqn:Hc; [|destruct (_ && _) eqn:Hc' in H; [rename Hc' into Hc0|done]]; injection H as <-.
    - rewrite !andb_true_iff, !N.eqb_eq in Hc. destruct Hc as [[? ?] ?]. split_and!; auto.
    - rewrite !andb_true_iff, !N.eqb_eq in Hc0. destruct Hc0 as [[? ?] ?]. split_and!; auto. }
  split; [done|]. split_and!; apply large_sevens; lia.
Qed.

Lemma space_sevens c : is_space c = true -> Ascii.eqb c "7" = false.
Proof. intros H. apply Ascii.eqb_neq. intros ->. by vm_compute in H. Qed.

Lemma compact_sevens n b s : String.length s <= n -> sevens (compact_json b s) = sevens s.
Proof.
  revert b s. induction n as [|n IH]; intros b [|c s1] Hn; [done|cbn in Hn; lia|done|]. cbn [compact_json]. cbn [String.length] in Hn.
  destruct (negb b && is_space c) eqn:Hspace.
  { apply andb_true_iff in Hspace as [_ Hs%space_sevens]. cbn [sevens]. rewrite Hs. apply IH. lia. }
  destruct (html_escape c) as [e|] eqn:He.
  { apply html_sevens in He as [He Hc]. rewrite sevens_app, He, IH by lia. cbn [sevens]. by rewrite Hc. }
  assert (forall b', sevens (String c (compact_json b' s1)) = sevens (String c s1)) as Hplain.
  { intros b'. cbn [sevens]. rewrite IH by lia. done. }
  destruct s1 as [|c2 s2]; [apply Hplain|]. cbn [String.length] in Hn. destruct (b && _).
  { cbn [sevens]. rewrite IH by lia. done. }
  destruct s2 as [|c3 s3]; [apply Hplain|]. cbn [String.length] in Hn.
  destruct (line_separator c c2 c3) as [e|] eqn:Hl; [|apply Hplain].
  apply separator_sevens in Hl as (He' & H1 & H2 & H3). rewrite sevens_app, He', IH by lia. cbn [sevens]. by rewrite H1, H2, H3.
Qed.

Lemma engine_ranks (access : AccessRequest -> option AccessFilter) summaries :
  ranks (W := world (FDB := gmap_fdb) (E := unit)) (H := world_ports (EL := elsewhere_of access summaries) 60000000000) engine.
Proof.
  constructor; try done.
  - intros pre hit post. destruct pre as [|h1 [|h2 [|h3 pre]]]; cbn; intros [= ]; simplify_eq; [done..|]. by destruct pre.
  - intros r. cbn. unfold hits_after. by rewrite (compact_sevens (String.length r)).
  - intros q snapshot position w w' b _ [= <- <-]. cbn [rb_Hits rk_after engine]. split; [|split; [|done]].
    + apply prefix_take.
    + destruct (hits_after position) as [|? ?]; done.
Qed.

Lemma plain_summaries : summarizes (W := world (FDB := gmap_fdb) (E := unit)) (H := ports) summary_of.
Proof. constructor; [done..|]. by intros ids n w w' l [= <- <-]. Qed.

Lemma clean_fair : fair eq clean.
Proof.
  constructor; [split; [done|by intros [? ?]]|by intros e [?|[?|?]]|done].
Qed.

Lemma plain_fair access summaries : elsewhere_fair (EL := elsewhere_of access summaries).
Proof.
  constructor.
  - intros e e' sc [= <- <-]. constructor; [exact clean_fair|constructor].
  - intros s e e' id E k Hk. cbn [el_NewSessionID elsewhere_of] in E.
    destruct (frange (Fdb := gmap_fdb) s (searchSessionChildPrefix 301%N)) as [|x l] eqn:El; [|discriminate E]. injection E as _ <-.
    destruct (fget (Fdb := gmap_fdb) s k) as [v|] eqn:Hv; [|done]. exfalso.
    assert ((k, v) ∈ frange (Fdb := gmap_fdb) s (searchSessionChildPrefix 301%N)) as Hin by (by apply frange_spec).
    rewrite El in Hin. by apply elem_of_nil in Hin.
Qed.

#[local] Instance plain_laws : SessionLaws (world (FDB := gmap_fdb) (E := unit)) (H := ports) (H0 := world_view) := world_laws _ (plain_fair _ _).

(** ** Two pages *)

Definition answered {W A} (r : W * SearchQuery.outcome A) : bool := match r.2 with Done _ => true | Failed _ => false end.
Definition answer {W A} (d : A) (r : W * SearchQuery.outcome A) : A := match r.2 with Done a => a | Failed _ => d end.

Lemma run_answer {W A} (d : A) (r : W * SearchQuery.outcome A) : answered r = true -> r = (r.1, Done (answer d r)).
Proof. by destruct r as [w [a|e]]. Qed.

Lemma answer_inj {W A} (w w' : W) (a b : A) : (w, Done a) = (w', Done b) -> w = w' /\ a = b.
Proof. by intros [= -> ->]. Qed.

Lemma last_one (p q : SearchPage) : last [p] = Some q -> q = p.
Proof. by intros [= ->]. Qed.

Lemma last_two (p1 p2 q : SearchPage) : last [p1; p2] = Some q -> q = p2.
Proof. by intros [= ->]. Qed.

Definition no_page : SearchPage := mkSearchPage uuid_nil 0 [] false.

Definition run1 := open settings request org query w0.
Definition page1 : SearchPage := answer no_page run1.
Definition run2 := Search settings (cursor_request request page1) run1.1.
Definition page2 : SearchPage := answer no_page run2.

Lemma run1_done : open settings request org query w0 = (run1.1, Done page1).
Proof. apply run_answer. vm_compute. reflexivity. Qed.

Lemma run2_done : Search settings (cursor_request request page1) run1.1 = (run2.1, Done page2).
Proof. apply run_answer. vm_compute. reflexivity. Qed.

Lemma page1_open : sp_Complete page1 = false.
Proof. vm_compute. reflexivity. Qed.

Lemma page2_complete : sp_Complete page2 = true.
Proof. vm_compute. reflexivity. Qed.

#[local] Opaque run1 run2 page1 page2.

Lemma plain_access : steady_access request (q_Access query).
Proof. intros version authority w w' f [= _ <-]. reflexivity. Qed.

Lemma two_pages : browse settings request org query w0 [page1; page2] run2.1.
Proof.
  apply (browse_next settings request org query w0 run1.1 run1.1 run2.1 [page1] page1 page2).
  - apply browse_open, run1_done.
  - reflexivity.
  - exact page1_open.
  - apply same_view_refl.
  - exact run2_done.
Qed.

Lemma search_pages_in_rank_order_witness : exists pre rest, hits = pre ++ rest /\
  concat (sp_Results <$> [page1; page2]) = visible settings summary_of one_key "" pre /\
  NoDup (sm_ID <$> concat (sp_Results <$> [page1; page2])) /\
  (forall p, last [page1; page2] = Some p -> sp_Complete p = true -> rest = []).
Proof.
  exact (search_pages_in_rank_order settings engine summary_of (engine_ranks _ _) plain_summaries request org query w0 [page1; page2] run2.1
    plain_access eq_refl two_pages).
Defined.

(** The client's pages are these two. *)
Lemma follows_two pages w : follows settings request org query w0 pages w ->
  pages = [page1] /\ w = run1.1 \/ pages = [page1; page2] /\ w = run2.1.
Proof.
  induction 1 as [w' p E|w1 w2 pages p q _ IH Hl Hc E].
  - left. rewrite run1_done in E. apply answer_inj in E as [<- <-]. split; reflexivity.
  - destruct IH as [[-> ->]|[-> ->]]; [apply last_one in Hl as ->|apply last_two in Hl as ->; by rewrite page2_complete in Hc].
    right. rewrite run2_done in E. apply answer_inj in E as [<- <-]. split; reflexivity.
Qed.

Lemma search_completes_witness : exists pages w1 p1, follows settings request org query w0 pages w1 /\ last pages = Some p1 /\
  sp_Complete p1 = true /\ length pages <= 4.
Proof.
  refine (search_completes settings engine summary_of (engine_ranks _ _) plain_summaries request org query w0 page1 run1.1
    plain_access eq_refl _ _ run1_done _).
  - cbn. lia.
  - cbn. lia.
  - intros pages w1 p1 [[-> ->]|[-> ->]]%follows_two Hl Hc.
    + apply last_one in Hl as ->. eexists _, _. exact run2_done.
    + apply last_two in Hl as ->. by rewrite page2_complete in Hc.
Defined.

(** ** A page again *)

Definition session_query : Query := mkQuery "plan" "nodes-1" "" one_key 1.
Definition s0 : Session :=
  mkSession 301%N actor org 201%N (SessionBinding actor org 201%N session_query) session_query (mkSnapshot "pit" "nodes-1" "{}")
    "" 0 noon (noon + 60000000000) (noon + 600000000000) false false.

Definition create0 := Sessions_Create s0 w0.
Definition advance0 := advance settings s0 one_key create0.1.
Definition page0 : SearchPage := answer no_page advance0.
Definition again : SearchRequest := mkSearchRequest actor 201%N [org] "plan" "" 301%N 0.
Definition replay0 := Search settings again advance0.1.
Definition page0' : SearchPage := answer no_page replay0.

Lemma create0_done : Sessions_Create s0 w0 = (create0.1, Done (answer s0 create0)).
Proof. apply run_answer. vm_compute. reflexivity. Qed.

Lemma advance0_done : advance settings s0 one_key create0.1 = (advance0.1, Done page0).
Proof. apply run_answer. vm_compute. reflexivity. Qed.

Lemma replay0_done : Search settings again advance0.1 = (replay0.1, Done page0').
Proof. apply run_answer. vm_compute. reflexivity. Qed.

#[local] Opaque create0 advance0 page0 replay0 page0'.

Lemma empty_untouched id : untouched w0 id.
Proof. intros k _. exact (lookup_empty (M := gmap key) k). Qed.

Lemma s0_starts : session_at engine create0.1 s0 [] hits.
Proof.
  destruct (law_create w0 create0.1 s0 (answer s0 create0) (empty_untouched 301%N) eq_refl eq_refl create0_done) as (_ & _ & Hh & Hm).
  constructor.
  - reflexivity.
  - reflexivity.
  - exact I.
  - intros id. rewrite Hm. reflexivity.
  - exists (decoded_session s0). split; [exact Hh|]. split; [reflexivity|]. split; reflexivity.
Qed.

Lemma replay_returns_page_witness : page0' = page0 /\ same_view 301%N advance0.1 replay0.1.
Proof.
  refine (replay_returns_page settings engine summary_of (engine_ranks _ _) plain_summaries request one_key s0 [] hits create0.1 advance0.1
    advance0.1 replay0.1 page0 page0' s0_starts eq_refl eq_refl _ plain_access advance0_done (same_view_refl _ _) replay0_done).
  cbn. lia.
Defined.

(** ** A caller on the tree of nodes *)

Definition tree_access (r : AccessRequest) : option AccessFilter :=
  match PolicySet_Query (rest_policies tree fuel) r 0 with Ok (_, f) => Some f | Err _ => None end.
Definition tree_summaries (ids : list uuid) (n : Z) : option (list SummaryResult) :=
  match Summaries fuel (rest_policies tree fuel) ids n (mkTx tree []) with Ok (_, l) => Some l | Err _ => None end.

Definition tree_ports : SearchQueryPorts (world (FDB := gmap_fdb) (E := unit)) :=
  world_ports (EL := elsewhere_of tree_access tree_summaries) 60000000000.

Definition tree_run := Search (SP := tree_ports) settings request w0.
Definition tree_page : SearchPage := answer no_page tree_run.

Lemma tree_run_done : Search (SP := tree_ports) settings request w0 = (tree_run.1, Done tree_page).
Proof. apply run_answer. vm_compute. reflexivity. Qed.

Lemma tree_shows : sm_ID <$> sp_Results tree_page = [203%N].
Proof. vm_compute. reflexivity. Qed.

#[local] Opaque tree_run tree_page.

Lemma tree_reads : reads_store (SP := tree_ports) tree fuel.
Proof.
  constructor.
  - intros r w w' f. cbn [AccessQuery tree_ports world_ports el_AccessQuery elsewhere_of]. unfold elsewhere, or_denied, tree_access.
    destruct (PolicySet_Query (rest_policies tree fuel) r 0) as [[t f']|e] eqn:E; intros [= _ <-]. by eexists _, _.
  - intros ids n w w' l. cbn [NodeSummaries tree_ports world_ports el_NodeSummaries elsewhere_of]. unfold elsewhere, or_denied, tree_summaries.
    destruct (Summaries fuel (rest_policies tree fuel) ids n (mkTx tree [])) as [[st l']|e] eqn:E; intros [= _ <-]. by eexists.
Qed.

Lemma search_shows_reachable_witness : exists version authority,
  caller_may tree (mkAccessRequest version actor authority 201%N [org]) /\
  Forall (fun summary => entry_of tree authority (sm_ID summary) 201%N) (sp_Results tree_page).
Proof.
  refine (search_shows_reachable (SP := tree_ports) settings tree fuel request w0 tree_run.1 tree_page tree_at_rest tree_reads _ tree_run_done).
  intros version v id o e' Hv [_ ->]%tree_known. apply tree_free; auto.
Defined.

(** ** The session store *)

Definition tx0 : sessionTx (FDB := gmap_fdb) := mkSessionTx ∅ no_scope [].

Definition state_of {W A} (d : W) (r : res (W * A)) : W := match r with Ok (w, _) => w | Err _ => d end.
Definition value_of {W A} (d : A) (r : res (W * A)) : A := match r with Ok (_, a) => a | Err _ => d end.

Lemma run_res {W A} (d : W) (a : A) (r : res (W * A)) : is_ok r = true -> r = Ok (state_of d r, value_of a r).
Proof. by destruct r as [[w x]|]. Qed.

Definition made : sessionTx (FDB := gmap_fdb) := state_of tx0 (Session_Create s0 tx0).

Lemma made_run : Session_Create s0 tx0 = Ok (made, value_of s0 (Session_Create s0 tx0)).
Proof. apply run_res. vm_compute. reflexivity. Qed.

Lemma empty_get k : fget (Fdb := gmap_fdb) (st_kv tx0) k = None.
Proof. exact (lookup_empty (M := gmap key) k). Qed.

Lemma empty_SessInv : SessInv (st_kv tx0).
Proof.
  assert (forall fam entry, listed (st_kv tx0) fam entry) as Hl.
  { intros fam entry k _. rewrite empty_get. split; [by intros [? ?]|]. intros (id & r & Hr & _). unfold header in Hr. by rewrite empty_get in Hr. }
  constructor; [|apply Hl..|]; intros; match goal with H : fget _ _ = Some _ |- _ => by rewrite empty_get in H end.
Qed.

Lemma s0_names : names_valid s0.
Proof. split; reflexivity. Qed.

Lemma s0_plain : plain_session s0.
Proof. constructor; [exact s0_names|reflexivity..]. Qed.

Lemma sessions_listed_witness : SessInv (st_kv made).
Proof.
  exact (sessions_listed _ _ empty_SessInv (rtc_once _ _ (step_create s0 tx0 made _ s0_names eq_refl eq_refl made_run))).
Defined.

Lemma made_kv : st_kv made = create_kv (st_kv tx0) s0.
Proof. by destruct (Create_run _ _ _ _ made_run) as (_ & _ & _ & _ & ->). Qed.

Lemma made_inv : SessInv (st_kv made).
Proof.
  rewrite made_kv. apply create_inv; [exact empty_SessInv| |reflexivity..].
  unfold header. by rewrite empty_get.
Qed.

Definition record0 : searchSessionRecord := decoded_record (sessionRecordFor s0).

Lemma made_header : header (st_kv made) 301%N = Some record0.
Proof. unfold header. rewrite made_kv, create_session, decide_True by reflexivity. reflexivity. Qed.

Lemma create_load_roundtrip_witness : Session_Load 301%N made = Ok (made, s0).
Proof. exact (create_load_roundtrip s0 tx0 made _ empty_SessInv s0_plain made_run). Defined.

(** Past its absolute deadline the session holds no version back. *)
Definition late : gotime := noon + 700000000000.

Lemma late_absent : sessionVersionPresent late org StableVersion made = Ok (made, false).
Proof.
  unfold sessionVersionPresent, mbind, rd_bind, s_range, mret, rd_ret. do 2 f_equal.
Qed.

Lemma version_retirement_safe_witness : sh_Complete record0 = true \/ sh_Closing record0 = true \/ (sh_AbsoluteDeadline record0 <= late)%Z.
Proof. exact (version_retirement_safe _ late org StableVersion made made 301%N record0 made_inv eq_refl late_absent made_header eq_refl eq_refl). Defined.

Definition closed : sessionTx (FDB := gmap_fdb) := mkSessionTx (closing_kv (st_kv made) record0) no_scope [].

Lemma closed_inv : SessInv (st_kv closed).
Proof. exact (closing_inv _ _ 301%N made_inv made_header eq_refl). Qed.

Lemma closed_header : header (st_kv closed) 301%N = Some (decoded_record (with_closing record0)).
Proof. unfold header, closed, closing_kv. cbn [st_kv]. by rewrite fget_set_eq. Qed.

Lemma cleanup_finishes_witness : exists w', run_slices (length (children (st_kv closed) 301%N) / 1 + 1) 301%N 1 closed = Ok (w', true) /\
  forgotten (st_kv w') 301%N.
Proof.
  refine (cleanup_finishes (st_kv closed) closed 301%N _ 1 closed_inv eq_refl closed_header eq_refl _). unfold maxSessionCleanupKeys. lia.
Defined.

(** ** Commits that report an unknown result *)

Definition page_c : PageCommit := mkPageCommit "[7]" "pit" [203%N] [203%N] false.
Definition at_noon : commitClock := mkCommitClock noon noon noon.
Definition unsure : script (@kv gmap_fdb) commitClock := mkScript [unknown at_noon; clean] Canceled.

Lemma unknown_fair {S E} (others : S -> S -> Prop) (env : E) : (forall s, others s s) -> fair others (unknown env).
Proof. intros Ho. constructor; [by split|by intros e [?|[[= <-]|?]]|exact Ho]. Qed.

Lemma made_named : named 301%N (st_kv made).
Proof. intros r. rewrite made_header. by intros [= <-]. Qed.

Lemma unsure_fair : Forall (fair (session_clients 301%N 0)) (sc_attempts unsure).
Proof.
  assert (forall s : @kv gmap_fdb, session_clients 301%N 0 s s) as Hrefl by (by intros s).
  constructor; [by apply unknown_fair|]. constructor; [|constructor].
  constructor; [split; [done|by intros [? ?]]|by intros e [?|[?|?]]|exact Hrefl].
Qed.

Definition unsure_run := transactSession (commit_apply 60000000000 301%N 0 page_c) unsure (st_kv made).

(** The second attempt finds the commit of the first. *)
Lemma page_commits_once_witness : exists s' f, transactSession (commit_apply 60000000000 301%N 0 page_c) unsure (st_kv made) = (s', inl f) /\
  fl_errors f = [ErrSessionChanged] /\ fl_uncertain f = true /\
  exists l, history (commit_apply 60000000000 301%N 0 page_c) (session_clients 301%N 0) l (st_kv made) s' /\ length l <= 1 /\
    (forall next, (inl f : sessionFault + searchSessionRecord) = inr next -> l = [next]) /\
    (forall f', (inl f : sessionFault + searchSessionRecord) = inl f' -> fl_uncertain f' = false -> l = []).
Proof.
  assert (match unsure_run.2 with inl f => bool_decide (fl_errors f = [ErrSessionChanged]) && fl_uncertain f | inr _ => false end = true) as Hf
    by (vm_compute; reflexivity).
  unfold unsure_run in Hf. destruct (transactSession (commit_apply 60000000000 301%N 0 page_c) unsure (st_kv made)) as [s' [f|x]] eqn:E; [|discriminate Hf].
  cbn [snd] in Hf. apply andb_true_iff in Hf as [H1%bool_decide_eq_true H2]. exists s', f. split; [reflexivity|]. split; [exact H1|]. split; [exact H2|].
  exact (page_commits_once 60000000000 301%N 0 page_c unsure (st_kv made) s' (inl f) made_named unsure_fair E).
Defined.

Definition again_env : script (@kv gmap_fdb) env := mkScript [unknown the_env; mkAttempt None None id the_env None None true None] Canceled.

Lemma again_fair : Forall (fair eq) (sc_attempts again_env).
Proof.
  constructor; [by apply unknown_fair|]. constructor; [|constructor].
  constructor; [split; [done|by intros [? ?]]|by intros e [?|[?|?]]|done].
Qed.

Definition again_run := runNodeMutation (mutation_apply plan_b) again_env (tx_kv st_a).

Lemma again_fresh : readCreateIdempotency plan_b (mkTx (tx_kv st_a) []) = Ok (mkTx (tx_kv st_a) [], None).
Proof. eapply fresh_run; [reflexivity|]. vm_compute. reflexivity. Qed.

