(* ===== verification/QueueWitness.v ===== *)
(** * A concrete queue

    Two workers on the queue of one organization whose pages this projection
    writes.  The theorems of [WorkQueueSpec] and [ClaimSpec] are applied to
    their runs. *)

From S2P Require Import Prelude GoJson Sha256 Bytes Base64 Float64 Domain Concrete Schema Store Tx Keys Records Schedule Fence MutationRead Mutation MutationSpec NodeDelete DeleteSpec SubtreeSpec Sequence SearchAccess WorkQueue WorkQueueSpec ClaimSpec Scenario.

(** ** The store *)

Definition index_name : string := "nodes-1".

Definition idle_store : gmap (list elem) value :=
  <[searchIndexKey := VText index_name]>
  (<[searchProjectionStateKey org := VProjection (mkProjectionState SearchRendererVersion searchProjectionFormat EmptyString 0)]> ∅).

Definition q_idle : txst := mkTx idle_store [].

Definition the_bucket : Z := Eval vm_compute in searchBucket org 101%N.

Lemma the_bucket_eq : searchBucket org 101%N = the_bucket.
Proof. vm_compute. reflexivity. Qed.

(** A node is scheduled, one worker claims it. *)
Definition schedule_101 : queueOp := OpSchedule 300 org 101%N searchChangeContent.
Definition claim_by (owner : string) (now : gotime) : queueOp := OpClaim (fun _ => now) CLive the_bucket owner 60.

Definition pending_records : list (key * value) := Eval vm_compute in records (after (perform schedule_101) q_idle).
Definition q_pending : txst := stored pending_records.
Definition leased_records : list (key * value) := Eval vm_compute in records (after (perform (claim_by "a" 1000)) q_pending).
Definition q_leased : txst := stored leased_records.

Definition work_a : Work :=
  mkLeased org 101%N 1 "1" EmptyString EmptyString 0 PhasePages false 300 "a" 1060 CLive index_name EmptyString.

Definition failure : Failure := mkFailure "engine refused the page" true 0 None.
Definition released_records : list (key * value) := Eval vm_compute in records (after (perform (OpRelease 1010 1011 work_a failure)) q_leased).
Definition q_released : txst := stored released_records.

Lemma step_eq op st items res :
  tx_changes st = [] ->
  match perform op st with Ok (st', r) => (records st', tx_changes st', r) = (items, [], res) | Err _ => False end ->
  perform op st = Ok (stored items, res).
Proof.
  intros Hc. destruct (perform op st) as [[[s c] r]|e]; [|done]. cbn. intros [= <- -> ->]. unfold stored, records. cbn.
  by rewrite list_to_map_to_list.
Qed.

Lemma scheduled_eq : perform schedule_101 q_idle = Ok (q_pending, None).
Proof. apply step_eq; [reflexivity|vm_compute; reflexivity]. Qed.
Lemma claimed_eq : perform (claim_by "a" 1000) q_pending = Ok (q_leased, Some work_a).
Proof. apply step_eq; [reflexivity|vm_compute; reflexivity]. Qed.
(** Another worker finds nothing while the lease lasts. *)
Lemma refused_eq : perform (claim_by "b" 1050) q_leased = Ok (q_leased, None).
Proof. apply step_eq; [reflexivity|vm_compute; reflexivity]. Qed.
Lemma released_eq : perform (OpRelease 1010 1011 work_a failure) q_leased = Ok (q_released, None).
Proof. apply step_eq; [reflexivity|vm_compute; reflexivity]. Qed.
Lemma waiting_eq : perform (claim_by "b" 1050) q_released = Ok (q_released, None).
Proof. apply step_eq; [reflexivity|vm_compute; reflexivity]. Qed.

(** ** Its invariants *)

Lemma stored_test (test : key * value -> bool) (m : gmap key value) k v :
  forallb test (map_to_list m) = true -> fget m k = Some v -> test (k, v) = true.
Proof.
  intros Hall Hv. cbn in Hv. rewrite forallb_forall in Hall. apply Hall, list_elem_of_In, elem_of_map_to_list, Hv.
Qed.

Lemma idle_absent f k : f ∈ ["search_work"; "search_age"] -> family k = f -> fget idle_store k = None.
Proof.
  intros Hf Hk. apply (absent_family idle_store f); [|done]. rewrite !elem_of_cons, elem_of_nil in Hf.
  destruct Hf as [->|[->|[]]]; vm_compute; reflexivity.
Qed.

Lemma idle_inv : WorkInv idle_store.
Proof.
  split.
  - intros c o n v. rewrite (idle_absent "search_work") by (done || set_solver). discriminate.
  - intros c t o n v. rewrite (idle_absent "search_age") by (done || set_solver). discriminate.
Qed.

Lemma idle_current : CurrentInv idle_store.
Proof. intros c o n r. unfold pending. rewrite (idle_absent "search_work") by (done || set_solver). discriminate. Qed.

Lemma scheduled_step : op_step schedule_101 idle_store (tx_kv q_pending) None.
Proof. exact (perform_step _ q_idle _ _ idle_inv scheduled_eq). Qed.

Lemma pending_inv : WorkInv (tx_kv q_pending).
Proof. exact (os_inv _ _ _ _ scheduled_step). Qed.

Lemma leased_inv : WorkInv (tx_kv q_leased).
Proof. exact (os_inv _ _ _ _ (perform_step _ q_pending _ _ pending_inv claimed_eq)). Qed.

Definition age_test (i : key * value) : bool :=
  negb (bool_decide (searchAgePrefix WorkClassLive the_bucket `prefix_of` i.1)) ||
  bool_decide (i.1 = searchAgeKey WorkClassLive the_bucket 300 org 101%N).

Definition work_test (i : key * value) : bool :=
  negb (bool_decide (family i.1 = "search_work")) || bool_decide (i.1 = searchWorkKey WorkClassLive the_bucket org 101%N).

Lemma pending_only (c : workClass) o n r :
  pending (tx_kv q_pending) c o n = Some r -> c = CLive /\ o = org /\ n = 101%N /\ r = mkWork org 101%N 1 1 false 300.
Proof.
  intros Hp. apply pending_Some in Hp; [|exact pending_inv].
  assert (forallb work_test (map_to_list (tx_kv q_pending : gmap key value)) = true) as Ht by (vm_compute; reflexivity).
  pose proof (stored_test work_test (tx_kv q_pending) _ _ Ht Hp) as H. unfold work_test in H. cbn [fst] in H.
  rewrite (bool_decide_true (family _ = _)) in H by reflexivity. cbn [negb orb] in H. apply bool_decide_eq_true in H.
  rewrite H in Hp. vm_compute in Hp. injection Hp as <-.
  apply searchWorkKey_inj in H as (Hc & _ & -> & ->).
  exact (conj (class_name_inj c CLive Hc) (conj eq_refl (conj eq_refl eq_refl))).
Qed.

Lemma q_pending_readable : readable (tx_kv q_pending) CLive the_bucket index_name EmptyString.
Proof.
  split.
  - exact pending_inv.
  - exact (os_current _ _ _ _ scheduled_step idle_current).
  - exists (mkScope index_name None). split; [vm_compute; reflexivity|]. split; reflexivity.
  - intros k v Hpre Hv. exists 300%Z, org, 101%N.
    assert (forallb age_test (map_to_list (tx_kv q_pending : gmap key value)) = true) as Ht by (vm_compute; reflexivity).
    pose proof (stored_test age_test (tx_kv q_pending) _ _ Ht Hv) as H. unfold age_test in H. cbn [fst] in H.
    rewrite (bool_decide_true (_ `prefix_of` _)) in H by exact Hpre. cbn [negb orb] in H. apply bool_decide_eq_true in H.
    rewrite H. unfold age_key. rewrite the_bucket_eq. reflexivity.
  - intros o n r (_ & -> & -> & ->)%pending_only _. split; [|split].
    + exists (mkProjectionState SearchRendererVersion searchProjectionFormat EmptyString 0). split; vm_compute; reflexivity.
    + exists None. vm_compute. reflexivity.
    + eexists. vm_compute. reflexivity.
Qed.

(** ** The theorems on it *)

Lemma leased_run : queue_run (tx_kv q_leased) [(claim_by "b" 1050, None)] (tx_kv q_leased).
Proof. eapply run_step; [exact refused_eq|constructor]. Qed.





Lemma claim_oldest_free_witness : readable (tx_kv q_pending) CLive the_bucket index_name EmptyString /\
  exists st res, claimBucket (fun _ => 1000%Z) CLive the_bucket "a" 60 (mkTx (tx_kv q_pending) []) = Ok (st, res).
Proof.
  split; [exact q_pending_readable|].
  destruct (claim_oldest_free CLive the_bucket "a" 60 1000 index_name EmptyString (tx_kv q_pending) q_pending_readable
    ltac:(apply (bool_decide_unpack _); vm_compute; exact I)) as (st & res & E & _). exists st, res. exact E.
Defined.

Lemma claimOrder_fair_witness : exists p, p ∈ [mkPendingBucket 7 [TInt 2]; mkPendingBucket 9 [TInt 1]] /\
  head (claimOrder [mkPendingBucket 7 [TInt 2]; mkPendingBucket 9 [TInt 1]] 0) = Some (pb_bucket p).
Proof.
  destruct (proj2 (claimOrder_fair [mkPendingBucket 7 [TInt 2]; mkPendingBucket 9 [TInt 1]] 0) ltac:(discriminate)) as (p & Hin & Hh & _).
  exists p. split; [exact Hin|exact Hh].
Defined.
