(* ===== verification/AuditFindings.v ===== *)
(** * Edits of a row that verification accepts

    The row hash covers the delta as decoded into float64, so two numbers
    that round to one float64 give one hash. *)

From S2P Require Import Prelude GoJson Sha256 Bytes Float64 Canonical GoTime Domain Concrete Store Tx AuditEvent RowHash Ledger LedgerSpec Verify AuditWitness.

(** The writer of a change whose node holds the number 2^53 + 1. *)
Definition large_writer : writer := AppendWriter (mkAppendInput (change_of "[9007199254740993]") 201 (shardOf 7 201) 0).

Definition large_hash : string := match w_hash large_writer w_head0 with Ok hash => hash | Err _ => EmptyString end.

Definition large_digest : string := Eval vm_compute in large_hash.

Lemma large_hash_eq : large_hash = large_digest.
Proof. vm_compute. reflexivity. Qed.

Definition large_row : Row := w_row large_writer w_head0 large_hash.

(** The row with another delta and the hash it had. *)
Definition with_delta (r : Row) (d : Delta) : Row :=
  mkRow (row_OrgID r) (row_EventTime r) (row_EventID r) (row_Seq r) (row_Shard r) (row_ActorID r) (row_ActorKind r) (row_Action r)
    (row_Outcome r) (row_EntityKind r) (row_EntityID r) (row_Context r) (Some d) (row_Error r) (row_Extra r) (row_PIIRef r)
    (row_PrevHash r) (row_RowHash r) (row_HashVersion r) (row_IdempotencyKey r).

(** An edit of a large number is not noticed: the row stored for a change
    to 9007199254740993 still verifies when its delta says 9007199254740992,
    while an edit to 9007199254740995 is refused. *)
Theorem large_number_edit_verifies :
  row_Delta large_row = Some (mkDelta EmptyString "[9007199254740993]" []) /\
  checkRowHash large_row = Ok true /\
  checkRowHash (with_delta large_row (mkDelta EmptyString "[9007199254740992]" [])) = Ok true /\
  checkRowHash (with_delta large_row (mkDelta EmptyString "[9007199254740995]" [])) = Ok false.
Proof. unfold large_row. rewrite large_hash_eq. split_and!; vm_compute; reflexivity. Qed.
