(* ===== verification/Findings.v ===== *)
(** * Runs that break an expectation

    Concrete runs, from the schema of [Scenario], in which the code does not
    keep a property a reader would expect of it. *)

From S2P Require Import Prelude GoJson Sha256 Bytes Domain Concrete Schema Store Tx Keys Records Schedule Fence MutationRead Mutation MutationSpec NodeDelete DeleteSpec SubtreeSpec Scenario.

(** ** A subtree delete can close a parent cycle

    The job records the parent of its root when it starts.  Between two steps
    the root moves elsewhere and the recorded parent moves below a child of
    the root; the next step moves that child under the recorded parent
    without walking its chain. *)

Definition quiet : env := mkEnv false true 100 200 77%N.

(** [q] and [p] are roots, [r] is below [p], [c] below [r]. *)
Definition cycle_store : txst :=
  after (applyMutationAttempt quiet (create_plan 114%N "c" (Some 113%N) [113%N; 112%N] []))
  (after (applyMutationAttempt quiet (create_plan 113%N "r" (Some 112%N) [112%N] []))
  (after (applyMutationAttempt quiet (create_plan 112%N "p" None [] []))
  (after (applyMutationAttempt quiet (create_plan 111%N "q" None [] [])) st0))).

Definition cycle_job : SubtreeDeleteJob := mkJob 501%N org 113%N uuid_nil actor [] 0 0 0 0.

Definition cycle_end : txst :=
  after (DeleteSubtreeStep (fun _ => Ok 8%N) quiet 501%N)
  (after (applyMutationAttempt quiet (move_plan 112%N [] 114%N [114%N; 113%N; 111%N]))
  (after (applyMutationAttempt quiet (move_plan 113%N [112%N] 111%N [111%N]))
  (after (StartSubtreeDelete quiet cycle_job) cycle_store))).

(** The two states as lists of their records. *)
Definition cycle_store_records : list (key * value) := Eval vm_compute in records cycle_store.
Definition cycle_end_records : list (key * value) := Eval vm_compute in records cycle_end.

Lemma cycle_store_eq : cycle_store = stored cycle_store_records.
Proof. runs_to. Qed.

Lemma cycle_end_eq : cycle_end = stored cycle_end_records.
Proof. unfold cycle_end. rewrite cycle_store_eq. runs_to. Qed.

Definition parents_of (st : txst) (ids : list uuid) : list (option uuid) :=
  (fun id => stored_parent <$> lookup_node (tx_kv st) org id) <$> ids.

Lemma parents_of_rel st a b : parents_of st [a] = [Some b] -> b <> uuid_nil -> parent_rel (tx_kv st) org a b.
Proof.
  unfold parents_of, parent_rel. csimpl. destruct (lookup_node (tx_kv st) org a) as [n|]; csimpl; [|done].
  intros [= <-] Hb. eauto.
Qed.


(** ** A deleted node can keep a property index entry

    The index entry of a planned value is written under the planned bytes; the
    stored record holds the bytes [json.Marshal] writes for it, which escape
    [<], [>] and [&] and drop white space; the deletion clears the entry of
    the stored bytes. *)

Definition tag_value : raw := quote_plain "<b>".

Definition tag_plan : MutationPlan :=
  mkPlan org 121%N "dir" actor (mkSourceExpectation true 0%N) 0 (expect_graph [] []) (Some "t")
    {["title" := tag_value]} None None (mkRelChanges [] []) None None.

Definition tag_delete : DeletionPlan := mkDeletionPlan org 121%N actor (mkSourceExpectation false the_digest) (expect_graph [] []) None.

Definition tag_end : txst := after (deleteNodeAttempt quiet tag_delete) (after (applyMutationAttempt quiet tag_plan) st0).

(** After the node is created and deleted, no record of it is left, but the
    property index still lists it. *)
Theorem deleted_node_stays_indexed :
  is_ok (applyMutationAttempt quiet tag_plan st0) = true /\
  is_ok (deleteNodeAttempt quiet tag_delete (after (applyMutationAttempt quiet tag_plan) st0)) = true /\
  fget (tx_kv tag_end) (nodeResolveKey 121%N) = None /\
  fget (tx_kv tag_end) (nodeByPropertyKey org "dir" "title" (encodePropertyValue tag_value) 121%N) = Some VEmpty.
Proof. split_and!; vm_compute; reflexivity. Qed.

(** ** Two keys of one template leave a claim without an owner record *)

Definition twice_end : txst := after (claimReferenceKeys org 101%N [mkReferenceKey "main" "x"; mkReferenceKey "main" "y"]) st0.

(** The first key stays claimed, but the owner's record names only the
    second, so clearing the node's keys leaves the first claimed forever. *)
Theorem duplicate_template_leaks_claim :
  owner (tx_kv twice_end) org "main" "x" = Some 101%N /\
  owner (tx_kv (after (clearReferenceKeys org 101%N) twice_end)) org "main" "x" = Some 101%N /\
  owner (tx_kv (after (clearReferenceKeys org 101%N) twice_end)) org "main" "y" = None.
Proof. split_and!; vm_compute; reflexivity. Qed.

(** ** An identifier of another organization is taken over *)

Definition foreign_plan : MutationPlan :=
  mkPlan 2%N 101%N "dir" actor (mkSourceExpectation true 0%N) 0 (expect_graph [] []) (Some "f") ∅ None None (mkRelChanges [] []) None None.

Definition foreign_type : NodeType :=
  mkNodeType 50%N 2%N "Dir" "dir" "" "" AllOps [] "dirs" false "dir" [] ["dir"] [] (mkReferenceConfig ReferenceUUIDOnly "") [] [].

Definition foreign_store : txst :=
  mkTx (<[nodeTypeDefKey 2%N 50%N := VType foreign_type]> (<[nodeTypeByKeyKey 2%N "dir" 50%N := VEmpty]> (tx_kv st_a))) [].

Definition foreign_end : txst := after (applyMutationAttempt quiet foreign_plan) foreign_store.

Definition foreign_records : list (key * value) := Eval vm_compute in records foreign_end.

Lemma foreign_end_eq : foreign_end = stored foreign_records.
Proof. runs_to. Qed.

(** A plan that expects its identifier to be absent succeeds for an
    identifier that another organization uses; the other organization's node
    can then no longer be resolved although its record is still stored. *)
Theorem foreign_identifier_taken :
  is_ok (applyMutationAttempt quiet foreign_plan foreign_store) = true /\
  is_Some (lookup_node (tx_kv foreign_store) org 101%N) /\
  lookup_node (tx_kv foreign_end) org 101%N = None /\
  is_Some (fget (tx_kv foreign_end) (nodeInstanceKey org "dir" 101%N)).
Proof.
  split; [apply (run_of _ _ _ foreign_end_eq); vm_compute; reflexivity|]. rewrite foreign_end_eq.
  split_and!; [vm_compute; eauto|vm_compute; reflexivity|vm_compute; eauto].
Qed.
